(** * Subdomain collection engine: shallow embedding and verified properties

    The development follows the two modules of the repository that carry the
    collection logic:

    - [modules/subdomain.py]: the hostname validator, the source collectors
      and the orchestrator of the one-key collection (menu choice 4);
    - [modules/icp_query.py]: the paced HTTP client with its rotating pool
      of endpoint mirrors and its bounded retry loop.

    Around them it covers the menu of [modules/subdomain.py], the batch and
    the selection of [modules/icp_query.py], the scan of
    [modules/dns_enum.py] and the main menu of [main.py], each read from
    the standard input given as a list of lines.

    Python strings are modelled as [string], a sequence of bytes: the
    UTF-8 encoding of the text, in which a code point outside ASCII is a run
    of two to four bytes above 127, none of them in a character class of the
    validator's pattern.  Python sets of strings are modelled as
    [gset string], the dictionary [results], which the code iterates in
    insertion order, as an association list, a JSON object read by key as a
    [gmap string _] or a record of optional fields, and wall-clock time as a
    rational number of seconds.  Whatever lies outside
    the program (the file system, the enumeration process, the providers,
    the thread pool's order of completion, the clock and the network) is an
    argument of the functions that depend on it. *)

From Stdlib Require Import QArith Lqa ZArith Ascii String List Lia.
From stdpp Require Import gmap strings list fin_maps sorting.

Local Open Scope nat_scope.

Set Warnings "-clear-no-such-hyp".

(** ** Regular expressions: the fragment of Python's [re] the validator uses *)

Module Regex.

(** An item of a bracketed character set: a range [lo-hi] or one character. *)
Inductive cset_item : Type :=
| Range (lo hi : ascii)
| Single (c : ascii).

Definition item_mem (c : ascii) (it : cset_item) : bool :=
  match it with
  | Range lo hi =>
      (nat_of_ascii lo <=? nat_of_ascii c) && (nat_of_ascii c <=? nat_of_ascii hi)
  | Single d => Ascii.eqb c d
  end.

Definition cset_mem (items : list cset_item) (c : ascii) : bool :=
  existsb (item_mem c) items.

Inductive regex : Type :=
| Void
| Eps
| Cls (items : list cset_item)
| Cat (r1 r2 : regex)
| Alt (r1 r2 : regex)
| Star (r : regex).

(** The quantifiers of the pattern, as derived forms. *)
Definition Chr (c : ascii) : regex := Cls [Single c].
Definition Opt (r : regex) : regex := Alt Eps r.
Definition Plus (r : regex) : regex := Cat r (Star r).

(** [r{0,n}] *)
Fixpoint UpTo (n : nat) (r : regex) : regex :=
  match n with
  | O => Eps
  | S k => Opt (Cat r (UpTo k r))
  end.

(** [r{n,}] *)
Fixpoint AtLeast (n : nat) (r : regex) : regex :=
  match n with
  | O => Star r
  | S k => Cat r (AtLeast k r)
  end.

Fixpoint nullable (r : regex) : bool :=
  match r with
  | Void => false
  | Eps => true
  | Cls _ => false
  | Cat r1 r2 => nullable r1 && nullable r2
  | Alt r1 r2 => nullable r1 || nullable r2
  | Star _ => true
  end.

(** Brzozowski derivative of [r] by the character [c]. *)
Fixpoint deriv (c : ascii) (r : regex) : regex :=
  match r with
  | Void => Void
  | Eps => Void
  | Cls items => if cset_mem items c then Eps else Void
  | Cat r1 r2 =>
      if nullable r1 then Alt (Cat (deriv c r1) r2) (deriv c r2)
      else Cat (deriv c r1) r2
  | Alt r1 r2 => Alt (deriv c r1) (deriv c r2)
  | Star r1 => Cat (deriv c r1) (Star r1)
  end.

(** Whole-word matching. *)
Fixpoint matchb (r : regex) (s : list ascii) : bool :=
  match s with
  | [] => nullable r
  | c :: s' => matchb (deriv c r) s'
  end.

(** The language of a regular expression. *)
Inductive matches : regex -> list ascii -> Prop :=
| MEps : matches Eps []
| MCls items c : cset_mem items c = true -> matches (Cls items) [c]
| MCat r1 r2 s1 s2 :
    matches r1 s1 -> matches r2 s2 -> matches (Cat r1 r2) (s1 ++ s2)
| MAltL r1 r2 s : matches r1 s -> matches (Alt r1 r2) s
| MAltR r1 r2 s : matches r2 s -> matches (Alt r1 r2) s
| MStar0 r : matches (Star r) []
| MStarS r s1 s2 :
    matches r s1 -> matches (Star r) s2 -> matches (Star r) (s1 ++ s2).

End Regex.

(** ** [modules/subdomain.py] *)

Module Subdomain.
Import Regex.

Definition newline : ascii := ascii_of_nat 10.

(** [[a-zA-Z0-9]] *)
Definition alnum : regex := Cls [Range "a" "z"; Range "A" "Z"; Range "0" "9"].
(** [[a-zA-Z0-9-]] *)
Definition alnum_hyphen : regex :=
  Cls [Range "a" "z"; Range "A" "Z"; Range "0" "9"; Single "-"].
(** [[a-zA-Z]] *)
Definition alpha : regex := Cls [Range "a" "z"; Range "A" "Z"].

(** [[a-zA-Z0-9](?:[a-zA-Z0-9-]{0,61}[a-zA-Z0-9])?] *)
Definition label : regex := Cat alnum (Opt (Cat (UpTo 61 alnum_hyphen) alnum)).

(** Python's [$] without [re.MULTILINE] holds at the end of the string and
    just before a newline that ends the string.  The pattern is applied with
    [match], which anchors at the start only, so as the last item of the
    pattern [$] accepts exactly an optional final newline. *)
Definition Dollar : regex := Opt (Chr newline).

(** [^(?:label\.)+[a-zA-Z]{2,}$] *)
Definition domain_pattern : regex :=
  Cat (Plus (Cat label (Chr "."))) (Cat (AtLeast 2 alpha) Dollar).

(** [validate_domain]: [bool(domain_pattern.match(domain))]. *)
Definition validate_domain (domain : string) : bool :=
  matchb domain_pattern (list_ascii_of_string domain).

(** *** The Python string operations the collectors use *)

(** [str.split(sep)] for a one-character separator. *)
Fixpoint split_on (sep : ascii) (s : list ascii) : list (list ascii) :=
  match s with
  | [] => [[]]
  | c :: s' =>
      if Ascii.eqb c sep then [] :: split_on sep s'
      else match split_on sep s' with
           | [] => [[c]]
           | p :: ps => (c :: p) :: ps
           end
  end.

Definition split (sep : ascii) (s : string) : list string :=
  map string_of_list_ascii (split_on sep (list_ascii_of_string s)).

(** The code points [str.isspace] holds for: the ASCII white space and
    separators, NEL, the no-break space, the Ogham space mark, the spaces
    U+2000 to U+200A, the line and paragraph separators, the narrow no-break
    space, the medium mathematical space and the ideographic space. *)
Definition white_space : list N :=
  [9; 10; 11; 12; 13; 28; 29; 30; 31; 32; 133; 160; 5760;
   8192; 8193; 8194; 8195; 8196; 8197; 8198; 8199; 8200; 8201; 8202;
   8232; 8233; 8239; 8287; 12288]%N.

(** The bytes of a code point below 65536 in UTF-8: one, two or three. *)
Definition utf8 (n : N) : list ascii :=
  if (n <? 128)%N then [ascii_of_N n]
  else if (n <? 2048)%N then
    [ascii_of_N (192 + n / 64); ascii_of_N (128 + n mod 64)]
  else
    [ascii_of_N (224 + n / 4096); ascii_of_N (128 + (n / 64) mod 64);
     ascii_of_N (128 + n mod 64)].

(** [str.isspace] of one character, given by its bytes. *)
Definition is_space (bytes : list ascii) : bool :=
  existsb (fun n => bool_decide (utf8 n = bytes)) white_space.

(** [s.lstrip()] on the bytes of [s]: the characters for which [space]
    holds are dropped from the front, each one byte, two or three. *)
Fixpoint lstrip_chars (space : list ascii -> bool) (s : list ascii) : list ascii :=
  match s with
  | [] => []
  | c1 :: s1 =>
      if space [c1] then lstrip_chars space s1
      else
        match s1 with
        | [] => s
        | c2 :: s2 =>
            if space [c1; c2] then lstrip_chars space s2
            else
              match s2 with
              | [] => s
              | c3 :: s3 => if space [c1; c2; c3] then lstrip_chars space s3 else s
              end
        end
  end.

(** [s.strip()]: white space is dropped from the front, and from the back,
    where the bytes of a character come last one first. *)
Definition strip (s : string) : string :=
  string_of_list_ascii
    (rev (lstrip_chars (fun bytes => is_space (rev bytes))
            (rev (lstrip_chars is_space (list_ascii_of_string s))))).

Fixpoint lstrip_by (p : ascii -> bool) (s : list ascii) : list ascii :=
  match s with
  | [] => []
  | c :: s' => if p c then lstrip_by p s' else s
  end.

(** [s.strip(chars)], by the test of being one of [chars]. *)
Definition strip_by (p : ascii -> bool) (s : string) : string :=
  string_of_list_ascii
    (rev (lstrip_by p (rev (lstrip_by p (list_ascii_of_string s))))).

Definition dquote : ascii := ascii_of_nat 34.
Definition backslash : ascii := ascii_of_nat 92.

(** [s.strip] with the double quote as the only stripped character. *)
Definition strip_quotes (s : string) : string :=
  strip_by (fun c => Ascii.eqb c dquote) s.

Fixpoint is_prefix (p s : list ascii) : bool :=
  match p, s with
  | [], _ => true
  | _ :: _, [] => false
  | a :: p', b :: s' => Ascii.eqb a b && is_prefix p' s'
  end.

(** [s.startswith(p)] *)
Definition startswith (s p : string) : bool :=
  is_prefix (list_ascii_of_string p) (list_ascii_of_string s).

(** [s.endswith(p)] *)
Definition endswith (s p : string) : bool :=
  is_prefix (rev (list_ascii_of_string p)) (rev (list_ascii_of_string s)).

Fixpoint is_infix (p s : list ascii) : bool :=
  is_prefix p s ||
  match s with
  | [] => false
  | _ :: s' => is_infix p s'
  end.

(** [p in s] *)
Definition contains (s p : string) : bool :=
  is_infix (list_ascii_of_string p) (list_ascii_of_string s).

(** Truth value of a string, of an optional value and of a set. *)
Definition str_truthy (s : string) : bool := negb (String.eqb s "").

Definition key_truthy (k : option string) : bool :=
  match k with
  | Some s => str_truthy s
  | None => false
  end.

Definition set_truthy (s : gset string) : bool := negb (bool_decide (s = ∅)).

(** [re.sub] replacing by an underscore each of the nine characters that a
    file name may not hold: backslash, slash, colon, star, question mark,
    double quote, angle brackets and bar. *)
Definition unsafe_char (c : ascii) : bool :=
  existsb (Ascii.eqb c) [backslash; "/"; ":"; "*"; "?"; dquote; "<"; ">"; "|"]%char.

Definition sanitize (s : string) : string :=
  string_of_list_ascii
    (map (fun c => if unsafe_char c then "_"%char else c) (list_ascii_of_string s)).

(** *** The hostname grammar, read off the words of the contract *)

Definition in_range (lo hi c : ascii) : bool :=
  (nat_of_ascii lo <=? nat_of_ascii c) && (nat_of_ascii c <=? nat_of_ascii hi).

Definition is_alpha (c : ascii) : bool := in_range "a" "z" c || in_range "A" "Z" c.
Definition is_alnum (c : ascii) : bool := is_alpha c || in_range "0" "9" c.
Definition is_label_char (c : ascii) : bool := is_alnum c || Ascii.eqb c "-".

(** A label: 1 to 63 letters, digits and hyphens, no hyphen first or last. *)
Definition is_label (l : list ascii) : bool :=
  match l with
  | [] => false
  | c :: _ =>
      (length l <=? 63) && is_alnum c && is_alnum (List.last l c)
      && forallb is_label_char l
  end.

(** An alphabetic run of length at least 2. *)
Definition is_alpha_run (l : list ascii) : bool :=
  (2 <=? length l) && forallb is_alpha l.

(** The contract's grammar: at least two dot-separated labels, the final one
    a label that is alphabetic and of length at least 2. *)
Definition spec_validate (candidate : string) : bool :=
  let parts := split_on "." (list_ascii_of_string candidate) in
  (2 <=? length parts) && forallb is_label parts
  && is_alpha_run (List.last parts []).

(** The grammar of [domain_pattern]: every label but the final one is a
    label of 1 to 63 characters, the final one is an alphabetic run of
    length at least 2, with no upper bound. *)
Definition hostname_grammar (candidate : string) : bool :=
  let parts := split_on "." (list_ascii_of_string candidate) in
  (2 <=? length parts) && forallb is_label (removelast parts)
  && is_alpha_run (List.last parts []).

(** The candidate ends with a newline character. *)
Definition ends_with_newline (candidate : string) : bool :=
  match rev (list_ascii_of_string candidate) with
  | c :: _ => Ascii.eqb c newline
  | [] => false
  end.

(** *** Configuration, log records and the outside world *)

Record subdomain_config : Type := {
  enabled : bool;
  securitytrails_api_key : option string;
  zoomeye_api_key : option string;
  shodan_api_key : option string
}.

Record global_config : Type := { tools_path : option string }.

(** The value under the key [global], which the program takes from the
    configuration file as it is: a mapping, or a value without the method
    [get] (the null of an empty section, a scalar, a list), given by the
    name of its type. *)
Inductive global_section : Type :=
| Settings (g : global_config)
| NoMapping (type_name : string).

(** The configuration dictionary: the two sections the module reads, each
    of which may be missing.  The section [global] is read at the first
    line of [run_subfinder], outside any [try], so that a value which is no
    mapping raises there.  The section [subdomain] is read inside [try]
    blocks only, which log what a value of another kind raises; it is taken
    to be a mapping when it is there. *)
Record config : Type := {
  subdomain : option subdomain_config;
  global : option global_section
}.

(** What [value.get] raises on a value that is no mapping. *)
Definition no_get (type_name : string) : string :=
  "AttributeError: '" +:+ type_name +:+ "' object has no attribute 'get'".

Inductive level : Type := DEBUG | INFO | WARNING | ERROR.

(** The log messages of the modelled paths, one constructor per format
    string, with the values the format string interpolates. *)
Inductive message : Type :=
| OneKeyStart
| UsingSecurityTrails
| TaskDone (completed total : nat) (task : string) (count : nat)
| TaskEmpty (completed total : nat) (task : string)
| TaskFailed (completed total : nat) (task : string) (e : string)
| ResultsSaved
| UniqueTotal (count : nat)
| MethodTotal (method : string) (count : nat)
| SaveFailed
| NothingFound
| KeyMissing (provider : string)
| Collecting (provider : string)
| Found (provider : string) (count : nat)
| NoneFound (provider : string)
| KeyInvalid (provider : string)
| QuotaExceeded (provider : string)
| NoRecord (provider : string)
| RequestError (provider : string) (e : string)
| StatusError (provider : string) (status : Z)
| ProcessingError (provider : string) (e : string)
| PageCount (total pages : Z)
| PageProgress (current pages : Z)
| PageError (current : Z) (e : string)
| ToolMissing
| InvalidDomain (d : string)
| Running (cmd : list string)
| ToolStdout (out : string)
| ToolStderr (err : string)
| OutputMissing (path : string)
| ToolFailed (err : string)
| ReadError (path e : string)
| SaveError (e : string).

Definition log : Type := list (level * message).

(** What one HTTP exchange ([requests.get] or [requests.post], then
    [raise_for_status], then [json] or [text]) comes to. *)
Inductive http_result (A : Type) : Type :=
| HttpOk (body : A)
| HttpError (status : Z)
| RequestFailed (e : string)
| OtherError (e : string).
Arguments HttpOk {A} body.
Arguments HttpError {A} status.
Arguments RequestFailed {A} e.
Arguments OtherError {A} e.

Record payload : Type := { qbase64 : string; page : Z; pagesize : Z }.

(** An outbound HTTP request, tagged with the collector that issues it. *)
Record request : Type := {
  req_source : string;
  req_url : string;
  req_payload : option payload
}.

Record securitytrails_body : Type := { subdomains : option (list string) }.

Record shodan_record : Type := { subdomain_field : option string }.

(** The Shodan answer: record type to records. *)
Definition shodan_body : Type := gmap string (list shodan_record).

Record zoomeye_item : Type := {
  item_domain : option string;
  item_url : option string
}.

Record zoomeye_body : Type := {
  total : option Z;
  data : option (list zoomeye_item)
}.

(** The rows of the HTML table of crt.sh, each the texts of its cells. *)
Definition crtsh_body : Type := list (list string).

Inductive process_result : Type :=
| Exited0 (stdout stderr : string)
| CalledProcessError (stderr : string)
| SpawnError (e : string).

Inductive read_result : Type :=
| Lines (ls : list string)
| UnicodeDecodeError
| ReadFailed (e : string).

(** Everything outside the program: the file system before and after the
    enumeration process, the process, the codecs, the providers and the
    spreadsheet writer. *)
Record world : Type := {
  os_path_join : string -> string -> string;
  os_path_basename : string -> string;
  os_path_splitext_root : string -> string;
  os_path_exists : string -> bool;
  subprocess_run : list string -> process_result;
  os_path_exists_after : string -> bool;
  open_read : string -> string -> read_result;
  b64encode : string -> string;
  crtsh_get : string -> http_result crtsh_body;
  securitytrails_get : string -> http_result securitytrails_body;
  shodan_get : string -> http_result shodan_body;
  zoomeye_post : nat -> request -> http_result zoomeye_body;
  excel_writer : option string
}.

(** What running a collector comes to: the set it returns or the exception
    it raises, the requests it sent and the records it logged. *)
Inductive outcome : Type :=
| Returned (result : gset string)
| Raised (e : string).

Record task_run : Type := {
  value : outcome;
  net : list request;
  logged : log
}.

Definition returned (s : gset string) (n : list request) (l : log) : task_run :=
  {| value := Returned s; net := n; logged := l |}.

(** The closing lines of a collector: found so many, or found none. *)
Definition summary (provider : string) (s : gset string) : level * message :=
  if set_truthy s then (INFO, Found provider (size s))
  else (WARNING, NoneFound provider).

(** *** [read_file_with_encoding] and [run_subfinder] *)

Definition encodings : list string := ["utf-8"; "gbk"; "utf-8-sig"]%string.

(** [set(line.strip() for line in f if line.strip())] *)
Definition stripped_lines (ls : list string) : gset string :=
  list_to_set (filter (fun l => str_truthy l = true) (map strip ls)).

Fixpoint read_with (w : world) (file_path : string) (encs : list string)
  : gset string * log :=
  match encs with
  | [] => (∅, [])
  | encoding :: rest =>
      match open_read w file_path encoding with
      | Lines ls => (stripped_lines ls, [])
      | UnicodeDecodeError => read_with w file_path rest
      | ReadFailed e =>
          let '(r, l) := read_with w file_path rest in
          (r, (ERROR, ReadError file_path e) :: l)
      end
  end.

Definition read_file_with_encoding (w : world) (file_path : string)
  : gset string * log :=
  read_with w file_path encodings.

Definition run_subfinder (w : world) (cfg : config) (domain : string) : task_run :=
  match global cfg with
  | None => {| value := Raised "KeyError: 'global'"; net := []; logged := [] |}
  | Some (NoMapping type_name) =>
      {| value := Raised (no_get type_name); net := []; logged := [] |}
  | Some (Settings g) =>
      let tools := default "tools"%string (tools_path g) in
      let subfinder_path := os_path_join w tools "subfinder.exe" in
      if negb (os_path_exists w subfinder_path) then
        returned ∅ [] [(ERROR, ToolMissing)]
      else
        let clean_domain := strip_quotes domain in
        let is_file_input :=
          os_path_exists w clean_domain && endswith clean_domain ".txt" in
        let prepared : option (string * list string) :=
          if is_file_input then
            let filename := os_path_basename w clean_domain in
            let safe_filename := sanitize filename in
            let safe_output :=
              os_path_join w (os_path_join w "results" "subdomains")
                ("subdomains_" +:+ os_path_splitext_root w safe_filename +:+ ".txt") in
            Some (safe_output,
                  [subfinder_path; "-dL"; clean_domain; "-o"; safe_output; "-all"]%string)
          else if negb (validate_domain clean_domain) then None
          else
            let safe_domain := sanitize clean_domain in
            let safe_output :=
              os_path_join w (os_path_join w "results" "subdomains")
                ("subdomains_" +:+ safe_domain +:+ ".txt") in
            Some (safe_output,
                  [subfinder_path; "-d"; clean_domain; "-o"; safe_output; "-all"]%string)
        in
        match prepared with
        | None => returned ∅ [] [(ERROR, InvalidDomain clean_domain)]
        | Some (safe_output, cmd) =>
            let start := [(INFO, Collecting "subfinder"); (DEBUG, Running cmd)] in
            match subprocess_run w cmd with
            | Exited0 out err =>
                let l1 := if str_truthy out then [(DEBUG, ToolStdout out)] else [] in
                let l2 := if str_truthy err then [(WARNING, ToolStderr err)] else [] in
                if os_path_exists_after w safe_output then
                  let '(result_domains, l3) := read_file_with_encoding w safe_output in
                  returned result_domains []
                    (start ++ l1 ++ l2 ++ l3 ++ [summary "subfinder" result_domains])
                else
                  returned ∅ [] (start ++ l1 ++ l2 ++ [(ERROR, OutputMissing safe_output)])
            | CalledProcessError err =>
                returned ∅ []
                  (start ++ (ERROR, ToolFailed "CalledProcessError")
                     :: (if str_truthy err then [(ERROR, ToolStderr err)] else []))
            | SpawnError e => returned ∅ [] (start ++ [(ERROR, ToolFailed e)])
            end
        end
  end.

(** *** [run_crtsh] *)

(** One table row: the fifth cell, stripped, is kept when it contains the
    domain and validates. *)
Definition crtsh_row (domain : string) (subdomains : gset string)
    (cells : list string) : gset string :=
  if 5 <=? length cells then
    let subdomain := strip (nth 4 cells ""%string) in
    if contains subdomain domain && validate_domain subdomain
    then subdomains ∪ {[subdomain]} else subdomains
  else subdomains.

Definition run_crtsh (w : world) (cfg : config) (domain : string) : task_run :=
  let url := ("https://crt.sh/?q=%25." +:+ domain)%string in
  let req := {| req_source := "crtsh"; req_url := url; req_payload := None |} in
  let start := (INFO, Collecting "crtsh") in
  match crtsh_get w url with
  | HttpOk rows =>
      let subdomains := foldl (crtsh_row domain) ∅ rows in
      returned subdomains [req] [start; summary "crtsh" subdomains]
  | HttpError status => returned ∅ [req] [start; (ERROR, RequestError "crtsh" "HTTPError")]
  | RequestFailed e => returned ∅ [req] [start; (ERROR, RequestError "crtsh" e)]
  | OtherError e => returned ∅ [req] [start; (ERROR, ProcessingError "crtsh" e)]
  end.

(** *** [run_securitytrails] *)

(** One entry of the answer: the prefix is joined to the domain by a dot and
    kept when the result validates. *)
Definition securitytrails_entry (domain : string) (subdomains : gset string)
    (sub : string) : gset string :=
  let full_domain := (sub +:+ "." +:+ domain)%string in
  if validate_domain full_domain then subdomains ∪ {[full_domain]} else subdomains.

Definition run_securitytrails (w : world) (cfg : config) (domain : string)
  : task_run :=
  match subdomain cfg with
  | None => returned ∅ [] [(ERROR, ProcessingError "securitytrails" "KeyError: 'subdomain'")]
  | Some sc =>
      if negb (key_truthy (securitytrails_api_key sc)) then
        returned ∅ [] [(ERROR, KeyMissing "securitytrails")]
      else
        let url :=
          ("https://api.securitytrails.com/v1/domain/" +:+ domain +:+ "/subdomains")%string in
        let req :=
          {| req_source := "securitytrails"; req_url := url; req_payload := None |} in
        let start := (INFO, Collecting "securitytrails") in
        match securitytrails_get w url with
        | HttpOk body =>
            let subdomains :=
              foldl (securitytrails_entry domain) ∅ (default [] (subdomains body)) in
            returned subdomains [req] [start; summary "securitytrails" subdomains]
        | HttpError status =>
            returned ∅ [req]
              [start;
               (ERROR, if (status =? 401)%Z then KeyInvalid "securitytrails"
                       else if (status =? 429)%Z then QuotaExceeded "securitytrails"
                       else StatusError "securitytrails" status)]
        | RequestFailed e | OtherError e =>
            returned ∅ [req] [start; (ERROR, ProcessingError "securitytrails" e)]
        end
  end.

(** *** [run_shodan] *)

Definition record_types : list string :=
  ["a"; "aaaa"; "cname"; "mx"; "ns"; "txt"]%string.

Definition shodan_entry (domain : string) (subdomains : gset string)
    (record : shodan_record) : gset string :=
  match subdomain_field record with
  | Some sub =>
      if str_truthy sub then
        let full_domain := (sub +:+ "." +:+ domain)%string in
        if validate_domain full_domain then subdomains ∪ {[full_domain]}
        else subdomains
      else subdomains
  | None => subdomains
  end.

Definition shodan_records (domain : string) (body : shodan_body)
    (subdomains : gset string) (record_type : string) : gset string :=
  foldl (shodan_entry domain) subdomains (default [] (body !! record_type)).

Definition run_shodan (w : world) (cfg : config) (domain : string) : task_run :=
  match subdomain cfg with
  | None => returned ∅ [] [(ERROR, ProcessingError "shodan" "KeyError: 'subdomain'")]
  | Some sc =>
      match shodan_api_key sc with
      | Some api_key =>
          if negb (str_truthy api_key) then returned ∅ [] [(ERROR, KeyMissing "shodan")]
          else
            let url :=
              ("https://api.shodan.io/dns/domain/" +:+ domain +:+ "?key=" +:+ api_key)%string in
            let req := {| req_source := "shodan"; req_url := url; req_payload := None |} in
            let start := (INFO, Collecting "shodan") in
            match shodan_get w url with
            | HttpOk body =>
                let subdomains := foldl (shodan_records domain body) ∅ record_types in
                returned subdomains [req] [start; summary "shodan" subdomains]
            | HttpError status =>
                returned ∅ [req]
                  [start;
                   (ERROR, if (status =? 401)%Z then KeyInvalid "shodan"
                           else if (status =? 404)%Z then NoRecord "shodan"
                           else StatusError "shodan" status)]
            | RequestFailed e => returned ∅ [req] [start; (ERROR, RequestError "shodan" e)]
            | OtherError e => returned ∅ [req] [start; (ERROR, ProcessingError "shodan" e)]
            end
      | None => returned ∅ [] [(ERROR, KeyMissing "shodan")]
      end
  end.

(** *** [run_zoomeye] *)

(** The local variables of the pagination loop. *)
Record zoomeye_state : Type := {
  zs_url : string;
  zs_payload : payload;
  total_pages : Z;
  current_page : Z;
  zs_subdomains : gset string;
  zs_net : list request;
  zs_log : log
}.

(** One item of a page.  An item with a [domain] is kept when it validates;
    otherwise an item with a [url] has it assigned to the variable [url] of
    the function, the one the next request is sent to, and the host part is
    kept when it ends with the queried domain and validates. *)
Definition zoomeye_item_step (domain : string) (acc : gset string * string)
    (item : zoomeye_item) : gset string * string :=
  let '(subdomains, url) := acc in
  match item_domain item with
  | Some d =>
      (if validate_domain d then subdomains ∪ {[d]} else subdomains, url)
  | None =>
      match item_url item with
      | Some u =>
          if startswith u "http://" || startswith u "https://" then
            let domain_part := nth 2 (split "/" u) ""%string in
            (if endswith domain_part domain && validate_domain domain_part
             then subdomains ∪ {[domain_part]} else subdomains, u)
          else (subdomains, u)
      | None => (subdomains, url)
      end
  end.

(** How one turn of the loop ends. *)
Inductive control : Type :=
| Continue (s : zoomeye_state)
| Break (s : zoomeye_state)
| Escaped (s : zoomeye_state).

Definition add_log (s : zoomeye_state) (l : log) : zoomeye_state :=
  {| zs_url := zs_url s; zs_payload := zs_payload s; total_pages := total_pages s;
     current_page := current_page s; zs_subdomains := zs_subdomains s;
     zs_net := zs_net s; zs_log := zs_log s ++ l |}.

Definition send (s : zoomeye_state) (req : request) : zoomeye_state :=
  {| zs_url := zs_url s; zs_payload := zs_payload s; total_pages := total_pages s;
     current_page := current_page s; zs_subdomains := zs_subdomains s;
     zs_net := zs_net s ++ [req]; zs_log := zs_log s |}.

(** The body of [while current_page <= total_pages]. *)
Definition zoomeye_page (w : world) (domain : string) (s : zoomeye_state) : control :=
  let req :=
    {| req_source := "zoomeye"; req_url := zs_url s;
       req_payload := Some (zs_payload s) |} in
  let s := send s req in
  match zoomeye_post w (length (zs_net s) - 1) req with
  | HttpOk body =>
      let size := pagesize (zs_payload s) in
      let total_count := default 0%Z (total body) in
      let pages :=
        if (current_page s =? 1)%Z then ((total_count + size - 1) `div` size)%Z
        else total_pages s in
      let l1 :=
        if (current_page s =? 1)%Z && (1 <? pages)%Z
        then [(INFO, PageCount total_count pages)] else [] in
      let '(subs, url) :=
        foldl (zoomeye_item_step domain) (zs_subdomains s, zs_url s)
          (default [] (data body)) in
      if (current_page s <? pages)%Z then
        Continue
          {| zs_url := url;
             zs_payload :=
               {| qbase64 := qbase64 (zs_payload s);
                  page := (page (zs_payload s) + 1)%Z;
                  pagesize := size |};
             total_pages := pages;
             current_page := (current_page s + 1)%Z;
             zs_subdomains := subs;
             zs_net := zs_net s;
             zs_log := zs_log s ++ l1 ++ [(DEBUG, PageProgress (current_page s) pages)] |}
      else
        Break
          {| zs_url := url; zs_payload := zs_payload s; total_pages := pages;
             current_page := current_page s; zs_subdomains := subs;
             zs_net := zs_net s; zs_log := zs_log s ++ l1 |}
  | HttpError status =>
      Break (add_log s [(ERROR, PageError (current_page s) "HTTPError")])
  | RequestFailed e => Break (add_log s [(ERROR, PageError (current_page s) e)])
  | OtherError e => Escaped (add_log s [(ERROR, ProcessingError "zoomeye" e)])
  end.

(** The loop, with the number of turns it may take.  [None]: the turns ran
    out before the loop ended. *)
Fixpoint zoomeye_loop (fuel : nat) (w : world) (domain : string)
    (s : zoomeye_state) : option control :=
  if (current_page s <=? total_pages s)%Z then
    match fuel with
    | O => None
    | S fuel' =>
        match zoomeye_page w domain s with
        | Continue s' => zoomeye_loop fuel' w domain s'
        | Break s' => Some (Break s')
        | Escaped s' => Some (Escaped s')
        end
    end
  else Some (Break s).

Definition zoomeye_start (w : world) (domain : string) : zoomeye_state :=
  {| zs_url := "https://api.zoomeye.org/v2/search";
     zs_payload :=
       {| qbase64 := b64encode w ("domain:" +:+ domain); page := 1; pagesize := 100 |};
     total_pages := 1;
     current_page := 1;
     zs_subdomains := ∅;
     zs_net := [];
     zs_log := [(INFO, Collecting "zoomeye")] |}.

Definition run_zoomeye_within (fuel : nat) (w : world) (cfg : config)
    (domain : string) : option task_run :=
  match subdomain cfg with
  | None =>
      Some (returned ∅ [] [(ERROR, ProcessingError "zoomeye" "KeyError: 'subdomain'")])
  | Some sc =>
      if negb (key_truthy (zoomeye_api_key sc)) then
        Some (returned ∅ [] [(ERROR, KeyMissing "zoomeye")])
      else
        match zoomeye_loop fuel w domain (zoomeye_start w domain) with
        | None => None
        | Some (Continue s) | Some (Break s) =>
            Some (returned (zs_subdomains s) (zs_net s)
                    (zs_log s ++ [summary "zoomeye" (zs_subdomains s)]))
        | Some (Escaped s) => Some (returned (zs_subdomains s) (zs_net s) (zs_log s))
        end
  end.

(** The number of pages is fixed by the answer to the first request, and the
    loop takes no more turns than that, and one at least: a number of turns
    that always lets the loop end (see [zoomeye_loop_ends]). *)
Definition zoomeye_turns (w : world) (domain : string) : nat :=
  let s := zoomeye_start w domain in
  let req :=
    {| req_source := "zoomeye"; req_url := zs_url s;
       req_payload := Some (zs_payload s) |} in
  match zoomeye_post w 0 req with
  | HttpOk body =>
      S (Z.to_nat ((default 0%Z (total body) + 100 - 1) `div` 100))
  | _ => 1
  end.

Definition run_zoomeye (w : world) (cfg : config) (domain : string) : task_run :=
  default (returned ∅ [] [])
    (run_zoomeye_within (zoomeye_turns w domain) w cfg domain).

(** *** The orchestrator: the one-key collection of [run] *)

(** A Python dictionary with string keys: the items in insertion order.
    Assigning to a key that is present keeps its place. *)
Definition dict (V : Type) : Type := list (string * V).

Fixpoint dict_set {V : Type} (d : dict V) (k : string) (v : V) : dict V :=
  match d with
  | [] => [(k, v)]
  | (k', v') :: d' =>
      if String.eqb k k' then (k, v) :: d' else (k', v') :: dict_set d' k v
  end.

Fixpoint dict_get {V : Type} (d : dict V) (k : string) : option V :=
  match d with
  | [] => None
  | (k', v') :: d' => if String.eqb k k' then Some v' else dict_get d' k
  end.

Definition values {V : Type} (d : dict V) : list V := map snd d.
Definition keys {V : Type} (d : dict V) : list string := map fst d.

(** The union of the non-empty values of [results]: [set().union] applied
    to the list [[s for s in results.values() if s]]. *)
Definition combined_result (results : dict (gset string)) : gset string :=
  ⋃ (filter (fun s => set_truthy s = true) (values results)).

(** [any(domains for domains in results.values())] *)
Definition any_found (results : dict (gset string)) : bool :=
  existsb set_truthy (values results).

Definition str_le (a b : string) : Prop := Is_true (String.leb a b).

(** [sorted(domains)] *)
Definition sorted (domains : gset string) : list string :=
  merge_sort str_le (elements domains).

Definition combined_sheet : string := "合并结果".

(** [save_results_to_excel]: the sheets written, one per source that found
    something and the combined one, or [None] with the logged error when
    the writer raises.  [run] calls it only when some source found
    something. *)
Definition save_results_to_excel (w : world) (results : dict (gset string))
  : option (list (string * list string)) * log :=
  match excel_writer w with
  | Some e => (None, [(ERROR, SaveError e)])
  | None =>
      (Some
         (map (fun it => (it.1, sorted it.2))
              (filter (fun it => set_truthy it.2 = true) results)
          ++ (if any_found results
              then [(combined_sheet, sorted (combined_result results))] else [])),
       [])
  end.

(** The API keys [run] reads from the configuration. *)
Definition api_key (cfg : config) (field : subdomain_config -> option string)
  : option string :=
  match subdomain cfg with
  | Some sc => field sc
  | None => None
  end.

(** The collection tasks: the source name and what running its collector
    comes to.  The two key-less collectors always, a keyed one only when
    its key is set. *)
Definition collection_tasks (w : world) (cfg : config) (domain : string)
  : list (string * task_run) :=
  [("subfinder"%string, run_subfinder w cfg domain);
   ("crtsh"%string, run_crtsh w cfg domain)]
  ++ (if key_truthy (api_key cfg securitytrails_api_key)
      then [("securitytrails"%string, run_securitytrails w cfg domain)] else [])
  ++ (if key_truthy (api_key cfg zoomeye_api_key)
      then [("zoomeye"%string, run_zoomeye w cfg domain)] else [])
  ++ (if key_truthy (api_key cfg shodan_api_key)
      then [("shodan"%string, run_shodan w cfg domain)] else []).

(** The body of [for future in as_completed(future_to_task)]. *)
Definition collect_step (total_tasks : nat)
    (acc : dict (gset string) * nat * log) (done : string * task_run)
  : dict (gset string) * nat * log :=
  let '(results, completed, l) := acc in
  let task_name := done.1 in
  let completed := S completed in
  match value done.2 with
  | Returned result =>
      (dict_set results task_name result, completed,
       l ++ [if set_truthy result
             then (INFO, TaskDone completed total_tasks task_name (size result))
             else (WARNING, TaskEmpty completed total_tasks task_name)])
  | Raised e =>
      (dict_set results task_name ∅, completed,
       l ++ [(ERROR, TaskFailed completed total_tasks task_name e)])
  end.

(** What a completed task leaves in [results]: the set it returned, or the
    empty set when it raised. *)
Definition contribution (o : outcome) : gset string :=
  match o with
  | Returned result => result
  | Raised _ => ∅
  end.

(** The loop over the futures, in the order in which they complete. *)
Definition collect (done : list (string * task_run))
  : dict (gset string) * nat * log :=
  foldl (collect_step (length done)) ([], 0, []) done.

(** What the one-key collection leaves behind. *)
Record report : Type := {
  results : dict (gset string);
  run_log : log;
  run_net : list request;
  sheets : option (list (string * list string));
  combined : option (gset string)
}.

(** The branch [choice == '4'] of [run].  [as_completed] stands for the
    thread pool: it gives the tasks in the order in which they complete. *)
Definition one_key_collect
    (as_completed : list (string * task_run) -> list (string * task_run))
    (w : world) (cfg : config) (domain : string) : report :=
  let tasks := collection_tasks w cfg domain in
  let l0 :=
    (INFO, OneKeyStart)
    :: (if key_truthy (api_key cfg securitytrails_api_key)
        then [(INFO, UsingSecurityTrails)] else []) in
  let '(results, _, l1) := collect (as_completed tasks) in
  let sent := concat (map (fun t => net t.2) tasks) in
  if any_found results then
    match save_results_to_excel w results with
    | (Some written, l2) =>
        let combined_result := combined_result results in
        {| results := results;
           run_log :=
             l0 ++ l1 ++ l2
             ++ [(INFO, ResultsSaved); (INFO, UniqueTotal (size combined_result))]
             ++ map (fun it => (INFO, MethodTotal it.1 (size it.2)))
                    (filter (fun it => set_truthy it.2 = true) results);
           run_net := sent;
           sheets := Some written;
           combined := Some combined_result |}
    | (None, l2) =>
        {| results := results; run_log := l0 ++ l1 ++ l2 ++ [(ERROR, SaveFailed)];
           run_net := sent; sheets := None; combined := None |}
    end
  else
    {| results := results; run_log := l0 ++ l1 ++ [(WARNING, NothingFound)];
       run_net := sent; sheets := None; combined := None |}.

End Subdomain.

(** ** [modules/icp_query.py] *)

Module IcpQuery.

Local Open Scope Q_scope.

Definition MAX_CONCURRENT : nat := 20.
Definition RATE_LIMIT : Q := 40.
Definition REQUEST_INTERVAL : Q := 1.5 / RATE_LIMIT.

Definition API_ENDPOINTS : list string :=
  ["https://cn.apihz.cn/api/wangzhan/icp.php";
   "http://101.35.2.25/api/wangzhan/icp.php";
   "http://124.222.204.22/api/wangzhan/icp.php";
   "http://124.220.49.230/api/wangzhan/icp.php"]%string.

(** The module-level variables: the semaphore's free permits, the rotation
    cursor and the time of the last request. *)
Record state : Type := {
  permits : nat;
  current_endpoint_index : nat;
  last_request_time : Q
}.

Definition initial : state :=
  {| permits := MAX_CONCURRENT; current_endpoint_index := 0%nat;
     last_request_time := 0 |}.

(** The JSON object of an answer: the fields the function reads, each of
    which may be missing. *)
Record icp_data : Type := {
  data_code : option Z;
  data_msg : option string;
  data_td : option string;
  data_type : option string;
  data_icp : option string;
  data_unit : option string;
  data_domain : option string;
  data_time : option string
}.

(** The body of a response as [response.json()] reads it: a JSON object,
    a JSON value of another kind (null, a list, a string, a number), which
    has no method [get], or a text that is no JSON at all. *)
Inductive json_body : Type :=
| JsonObject (data : icp_data)
| JsonValue
| NotJson.

(** What [requests.get] comes to: a response with its status code and
    body, or a [RequestException] (a timeout is one). *)
Inductive http_outcome : Type :=
| Response (status_code : Z) (body : json_body)
| RequestException (e : string).

(** The network: for the k-th request sent, the time it takes and what it
    comes to. *)
Definition network : Type := nat -> Q * http_outcome.

(** The wall clock, in seconds, and the number of requests sent so far. *)
Record clock : Type := { now : Q; sent : nat }.

Inductive event : Type :=
| Slept (seconds : Q)
| Requested (at_time : Q) (endpoint url : string).

Inductive level : Type := WARNING | ERROR.

Inductive message : Type :=
| EndpointStatus (endpoint : string) (status : Z) (try max_retries : nat)
| EndpointError (endpoint e : string) (try max_retries : nat)
| AllFailed (last_status : option Z).

(** The dictionary [icp_query] returns: the eight fields of an answer, or
    the two fields of the failure. *)
Inductive icp_result : Type :=
| IcpInfo (code : Z)
    (msg td registration_type icp_number company_name website_name
       registration_time : string)
| IcpFailure (code : Z) (msg : string).

(** How a call ends: with the dictionary it returns, waiting for a permit,
    or with an exception: [IndexError] from the list of endpoints,
    [JSONDecodeError] from [response.json()], [AttributeError] from
    [data.get]. *)
Inductive ending : Type :=
| Answered (r : icp_result)
| Blocked
| IndexError
| JSONDecodeError
| AttributeError.

Record call : Type := {
  ended : ending;
  state_after : state;
  clock_after : clock;
  trace : list event;
  logged : list (level * message)
}.

Definition Qltb (a b : Q) : bool := negb (Qle_bool b a).

(** [time.sleep(seconds)] *)
Definition sleep (seconds : Q) (ck : clock) : clock :=
  {| now := now ck + seconds; sent := sent ck |}.

(** [bool(response)]: [requests] gives a response the truth value of its
    [ok], false for a status from 400 to 599. *)
Definition response_truthy (status : Z) : bool :=
  negb ((400 <=? status)%Z && (status <? 600)%Z).

Definition max_retries : nat := 3.

(** One attempt: the request goes to the endpoint under the cursor, the
    time of the request is recorded, and the [finally] clause moves the
    cursor on.  [None]: the cursor is outside of the list. *)
Definition attempt (net : network) (domain : string) (st : state) (ck : clock)
  : option (string * http_outcome) * state * clock * list event :=
  let advanced := ((current_endpoint_index st + 1) `mod` length API_ENDPOINTS)%nat in
  match API_ENDPOINTS !! current_endpoint_index st with
  | None =>
      (None,
       {| permits := permits st; current_endpoint_index := advanced;
          last_request_time := last_request_time st |}, ck, [])
  | Some endpoint =>
      let url :=
        (endpoint +:+ "?id=10004437&key=89afe5d9cbee98f8fab517307eae0187&domain="
           +:+ domain)%string in
      let t := now ck in
      let '(latency, out) := net (sent ck) in
      (Some (endpoint, out),
       {| permits := permits st; current_endpoint_index := advanced;
          last_request_time := t |},
       {| now := t + latency; sent := S (sent ck) |},
       [Requested t endpoint url])
  end.

(** What the retry loop leaves: whether an exception escaped it, the
    variable [response] (the last response received, if any), the module
    variables, the clock, the events and the log records. *)
Record loop_end : Type := {
  escaped : bool;
  response : option (Z * json_body);
  loop_state : state;
  loop_clock : clock;
  loop_trace : list event;
  loop_log : list (level * message)
}.

(** The retry loop, [left] turns before [retry_count] reaches
    [max_retries]. *)
Fixpoint retry_loop (net : network) (domain : string) (left : nat)
    (resp : option (Z * json_body)) (st : state) (ck : clock)
    (tr : list event) (lg : list (level * message)) : loop_end :=
  match left with
  | O =>
      {| escaped := false; response := resp; loop_state := st; loop_clock := ck;
         loop_trace := tr; loop_log := lg |}
  | S left' =>
      let retry_count := (max_retries - left)%nat in
      let '(got, st1, ck1, evs) := attempt net domain st ck in
      let '(ck2, pause) :=
        if (0 <? left')%nat then (sleep 1 ck1, [Slept 1]) else (ck1, []) in
      match got with
      | None =>
          {| escaped := true; response := resp; loop_state := st1;
             loop_clock := ck2; loop_trace := tr ++ evs ++ pause; loop_log := lg |}
      | Some (endpoint, Response status body) =>
          if (status =? 200)%Z then
            {| escaped := false; response := Some (status, body); loop_state := st1;
               loop_clock := ck2; loop_trace := tr ++ evs ++ pause; loop_log := lg |}
          else
            retry_loop net domain left' (Some (status, body)) st1 ck2
              (tr ++ evs ++ pause)
              (lg ++ [(WARNING,
                       EndpointStatus endpoint status (retry_count + 1)%nat max_retries)])
      | Some (endpoint, RequestException e) =>
          retry_loop net domain left' resp st1 ck2 (tr ++ evs ++ pause)
            (lg ++ [(WARNING,
                     EndpointError endpoint e (retry_count + 1)%nat max_retries)])
      end
  end.

Definition failure : icp_result := IcpFailure 500 "所有端点请求失败".

Definition extract (data : icp_data) : icp_result :=
  IcpInfo (default 400%Z (data_code data)) (default ""%string (data_msg data))
    (default ""%string (data_td data)) (default ""%string (data_type data))
    (default ""%string (data_icp data)) (default ""%string (data_unit data))
    (default ""%string (data_domain data)) (default ""%string (data_time data)).

Definition release (st : state) : state :=
  {| permits := S (permits st);
     current_endpoint_index := current_endpoint_index st;
     last_request_time := last_request_time st |}.

(** The pacing before the first attempt.  The source computes the time
    elapsed since the last request once, and has the check with its sleep
    twice in a row, inside and after the [try]: both are run. *)
Definition pace (st : state) (ck : clock) : clock * list event :=
  let current_time := now ck in
  let elapsed := current_time - last_request_time st in
  let '(ck1, tr1) :=
    if Qltb elapsed REQUEST_INTERVAL
    then (sleep (REQUEST_INTERVAL - elapsed) ck, [Slept (REQUEST_INTERVAL - elapsed)])
    else (ck, []) in
  if Qltb elapsed REQUEST_INTERVAL
  then (sleep (REQUEST_INTERVAL - elapsed) ck1,
        tr1 ++ [Slept (REQUEST_INTERVAL - elapsed)])
  else (ck1, tr1).

Definition icp_query (net : network) (domain : string) (st : state) (ck : clock)
  : call :=
  match permits st with
  | O =>
      {| ended := Blocked; state_after := st; clock_after := ck;
         trace := []; logged := [] |}
  | S free =>
      let st0 :=
        {| permits := free; current_endpoint_index := current_endpoint_index st;
           last_request_time := last_request_time st |} in
      let '(ck2, tr2) := pace st ck in
      let e := retry_loop net domain max_retries None st0 ck2 tr2 [] in
      if escaped e then
        {| ended := IndexError; state_after := loop_state e;
           clock_after := loop_clock e; trace := loop_trace e;
           logged := loop_log e |}
      else
        match response e with
        | Some (status, body) =>
            if (status =? 200)%Z then
              match body with
              | JsonObject data =>
                  {| ended := Answered (extract data);
                     state_after := release (loop_state e);
                     clock_after := loop_clock e; trace := loop_trace e;
                     logged := loop_log e |}
              | JsonValue =>
                  {| ended := AttributeError;
                     state_after := release (loop_state e);
                     clock_after := loop_clock e; trace := loop_trace e;
                     logged := loop_log e |}
              | NotJson =>
                  {| ended := JSONDecodeError; state_after := loop_state e;
                     clock_after := loop_clock e; trace := loop_trace e;
                     logged := loop_log e |}
              end
            else
              {| ended := Answered failure;
                 state_after := release (loop_state e);
                 clock_after := loop_clock e; trace := loop_trace e;
                 logged :=
                   loop_log e
                   ++ [(ERROR, AllFailed (if response_truthy status
                                          then Some status else None))] |}
        | None =>
            {| ended := Answered failure;
               state_after := release (loop_state e);
               clock_after := loop_clock e; trace := loop_trace e;
               logged := loop_log e ++ [(ERROR, AllFailed None)] |}
        end
  end.

(** A series of calls of [icp_query] in one process, for the domains given
    that are not empty: each call starts from the module variables and the
    clock that the call before has left, whether it returned or raised, and
    whoever made it.  A call that waits for a permit does not return, and
    is the last.  The calls of one [run] are the first calls of such a
    series: its loop stops at a call that raises, and at one that returns
    the dictionary of the failure. *)
Fixpoint query_all (net : network) (domains : list string) (st : state)
    (ck : clock) : list call :=
  match domains with
  | [] => []
  | domain :: rest =>
      if String.eqb domain "" then query_all net rest st ck
      else
        let c := icp_query net domain st ck in
        match ended c with
        | Blocked => [c]
        | _ => c :: query_all net rest (state_after c) (clock_after c)
        end
  end.

(** The endpoints of the requests of a trace, in order. *)
Definition endpoints_used (tr : list event) : list string :=
  omap (fun ev => match ev with
                  | Requested _ endpoint _ => Some endpoint
                  | Slept _ => None
                  end) tr.

(** The times of the requests of a trace, in order. *)
Definition request_times (tr : list event) : list Q :=
  omap (fun ev => match ev with
                  | Requested t _ _ => Some t
                  | Slept _ => None
                  end) tr.

(** The contract's words on the terminal failure: the result carries the
    last observed status or error. *)
Definition carries (r : icp_result) (last : http_outcome) : Prop :=
  match r, last with
  | IcpFailure code _, Response status _ => code = status
  | IcpFailure _ msg, RequestException e => msg = e
  | IcpInfo _ _ _ _ _ _ _ _, _ => False
  end.

End IcpQuery.

(** ** [modules/subdomain.py]: the menu of [run] *)

Module SubdomainMenu.
Import Subdomain.

(** The records [run] logs itself, and the ones of the collectors it
    calls. *)
Inductive menu_message : Type :=
| ModuleDisabled
| InitError (e : string)
| InvalidChoice
| EmptyDomain
| BadDomain (domain : string)
| SavedTo (domain : string)
| SecurityTrailsKeyMissing
| FromCollector (m : message).

Inductive ending : Type :=
| Returns
| Raises (e : string).

(** What a call of [run] comes to: how it ends, the lines of the standard
    input it has not read, the collectors it called with their argument,
    the requests sent, the records logged and the workbooks written. *)
Record session : Type := {
  session_end : ending;
  unread : list string;
  invoked : list (string * string);
  session_net : list request;
  session_log : list (level * menu_message);
  workbooks : list (list (string * list string))
}.

Definition stop (e : ending) (rest : list string) : session :=
  {| session_end := e; unread := rest; invoked := []; session_net := [];
     session_log := []; workbooks := [] |}.

(** What happened first, then the session [s]. *)
Definition after (calls : list (string * string)) (reqs : list request)
    (l : list (level * menu_message)) (books : list (list (string * list string)))
    (s : session) : session :=
  {| session_end := session_end s; unread := unread s;
     invoked := calls ++ invoked s; session_net := reqs ++ session_net s;
     session_log := l ++ session_log s; workbooks := books ++ workbooks s |}.

Definition say (lv : level) (m : menu_message) (s : session) : session :=
  after [] [] [(lv, m)] [] s.

Definition lift (l : log) : list (level * menu_message) :=
  map (fun r => (r.1, FromCollector r.2)) l.

(** The test on the domain read: it validates, or it is the path of a
    file that exists and ends in [.txt]. *)
Definition acceptable (w : world) (domain : string) : bool :=
  validate_domain domain || (os_path_exists w domain && endswith domain ".txt").

(** The choices 1, 2 and 3: one collector is called; an exception it raises
    leaves [run]; the choices 1 and 2 then leave the loop. *)
Definition single (name domain : string) (r : task_run) (leaves : bool)
    (rest : list string) (next : session) : session :=
  match value r with
  | Raised e => after [(name, domain)] (net r) (lift (logged r)) [] (stop (Raises e) rest)
  | Returned found =>
      after [(name, domain)] (net r)
        (lift (logged r) ++ (if set_truthy found then [(INFO, SavedTo domain)] else []))
        [] (if leaves then stop Returns rest else next)
  end.

(** One turn of [while True] once the choice and the domain are read;
    [next] is what the loop comes to on the lines that remain. *)
Definition menu_turn
    (as_completed : list (string * task_run) -> list (string * task_run))
    (w : world) (cfg : config) (choice line : string) (rest : list string)
    (next : session) : session :=
  let domain := strip line in
  if negb (str_truthy domain) then say WARNING EmptyDomain next
  else if negb (acceptable w domain) then say ERROR (BadDomain domain) next
  else if String.eqb choice "1" then
    single "subfinder" domain (run_subfinder w cfg domain) true rest next
  else if String.eqb choice "2" then
    single "crtsh" domain (run_crtsh w cfg domain) true rest next
  else if String.eqb choice "3" then
    if negb (key_truthy (api_key cfg securitytrails_api_key))
    then say ERROR SecurityTrailsKeyMissing next
    else single "securitytrails" domain (run_securitytrails w cfg domain) false rest next
  else if String.eqb choice "4" then
    let r := one_key_collect as_completed w cfg domain in
    let calls := map (fun t => (t.1, domain)) (collection_tasks w cfg domain) in
    if any_found (results r) then
      after calls (run_net r) (lift (run_log r))
        (match sheets r with Some book => [book] | None => [] end) next
    else after calls (run_net r) (lift (run_log r)) [] (stop Returns rest)
  else next.

(** The loop of [run] over the lines of the standard input; reading past
    the last line raises [EOFError]. *)
Fixpoint menu_loop
    (as_completed : list (string * task_run) -> list (string * task_run))
    (w : world) (cfg : config) (stdin : list string) : session :=
  match stdin with
  | [] => stop (Raises "EOFError") []
  | choice :: rest =>
      if String.eqb choice "0" then stop Returns rest
      else if negb (existsb (String.eqb choice) ["1"; "2"; "3"; "4"; "5"]%string) then
        say WARNING InvalidChoice (menu_loop as_completed w cfg rest)
      else
        match rest with
        | [] => stop (Raises "EOFError") []
        | line :: rest' =>
            menu_turn as_completed w cfg choice line rest'
              (menu_loop as_completed w cfg rest')
        end
  end.

(** [run].  The configuration is a dictionary; [mkdir] is what creating the
    output directories raises, if anything. *)
Definition run
    (as_completed : list (string * task_run) -> list (string * task_run))
    (w : world) (mkdir : option string) (cfg : config) (stdin : list string)
  : session :=
  match subdomain cfg with
  | None => say WARNING ModuleDisabled (stop Returns stdin)
  | Some sc =>
      if negb (enabled sc) then say WARNING ModuleDisabled (stop Returns stdin)
      else
        match mkdir with
        | Some e => say ERROR (InitError e) (stop Returns stdin)
        | None => menu_loop as_completed w cfg stdin
        end
  end.

End SubdomainMenu.

(** ** [modules/icp_query.py]: [run] and the functions it calls *)

Module IcpRun.
Import IcpQuery.

Inductive read : Type :=
| FileLines (lines : list string)
| FileError (e : string).

(** What [run] needs besides the network: the lines of a text file, or the
    exception reading it raises; the built-in [int], which gives no number
    when it raises [ValueError]; and what opening the results file for
    appending raises, if anything. *)
Record env : Type := {
  open_utf8 : string -> read;
  parse_int : string -> option Z;
  append : option string
}.

(** The log records of [run] and of the functions it calls. *)
Inductive record : Type :=
| FromQuery (r : level * message)
| NoDomain
| Info (info : icp_result)
| ReadError (e : string)
| Saved
| SaveError (e : string).

(** What [run] prints. *)
Inductive shown : Type :=
| Listing (infos : list icp_result)
| InvalidSelection
| NotANumber.

Inductive run_end : Type :=
| Done
| Raised (e : string)
| Waits.

(** The state that outlives a call of [run]: the module variables of the
    client, the clock, and the attribute [run.last_icp_info], missing until
    it is first assigned. *)
Record run_state : Type := {
  query_state : state;
  time : clock;
  last_icp_info : option icp_result
}.

#[global] Instance icp_result_eq_dec : EqDecision icp_result.
Proof. solve_decision. Defined.

(** [read_domains_from_file] *)
Definition read_domains_from_file (e : env) (file_path : string)
  : list string * list record :=
  match open_utf8 e file_path with
  | FileLines domains => (domains, [])
  | FileError err => ([], [ReadError err])
  end.

(** What the loop over the domains comes to: how it ends, the state it
    leaves, the calls of [icp_query] made, the list [icp_info_list] and the
    records logged. *)
Record batch : Type := {
  batch_end : run_end;
  batch_state : run_state;
  calls : list call;
  icp_info_list : list icp_result;
  batch_log : list record
}.

Definition with_call (c : call) (kept : list icp_result) (l : list record)
    (b : batch) : batch :=
  {| batch_end := batch_end b; batch_state := batch_state b;
     calls := c :: calls b; icp_info_list := kept ++ icp_info_list b;
     batch_log := l ++ batch_log b |}.

Definition last_call (e : run_end) (rs : run_state) (c : call) (l : list record)
  : batch :=
  {| batch_end := e; batch_state := rs; calls := [c]; icp_info_list := [];
     batch_log := l |}.

(** The loop [for domain in domains] of [run].  A dictionary that
    [icp_query] returns is never empty, so it is always taken as an answer;
    the record logged for it reads the field [registration_type], which the
    dictionary of the failure does not have. *)
Fixpoint query_domains (net : network) (domains : list string) (rs : run_state)
  : batch :=
  match domains with
  | [] =>
      {| batch_end := Done; batch_state := rs; calls := []; icp_info_list := [];
         batch_log := [] |}
  | domain :: rest =>
      if String.eqb domain "" then
        let b := query_domains net rest rs in
        {| batch_end := batch_end b; batch_state := batch_state b; calls := calls b;
           icp_info_list := icp_info_list b; batch_log := NoDomain :: batch_log b |}
      else
        let c := icp_query net domain (query_state rs) (time rs) in
        let rs' :=
          {| query_state := state_after c; time := clock_after c;
             last_icp_info := last_icp_info rs |} in
        let l := map FromQuery (logged c) in
        match ended c with
        | Blocked => last_call Waits rs' c l
        | IndexError => last_call (Raised "IndexError") rs' c l
        | JSONDecodeError => last_call (Raised "JSONDecodeError") rs' c l
        | AttributeError => last_call (Raised "AttributeError") rs' c l
        | Answered icp_info =>
            if bool_decide (last_icp_info rs = Some icp_info) then
              with_call c [] l (query_domains net rest rs')
            else
              match icp_info with
              | IcpFailure _ _ =>
                  last_call (Raised "KeyError: 'registration_type'") rs' c l
              | IcpInfo _ _ _ _ _ _ _ _ =>
                  with_call c [icp_info] (l ++ [Info icp_info])
                    (query_domains net rest
                       {| query_state := state_after c; time := clock_after c;
                          last_icp_info := Some icp_info |})
              end
        end
  end.

(** A line of the results file: the company, the number, the site and the
    time of an answer. *)
Definition line : Type := string * string * string * string.

Definition line_of (info : icp_result) : option line :=
  match info with
  | IcpInfo _ _ _ _ icp_number company_name website_name registration_time =>
      Some (company_name, icp_number, website_name, registration_time)
  | IcpFailure _ _ => None
  end.

(** [icp_info_list[idx]]: a negative index counts from the end. *)
Definition item (icp_info_list : list icp_result) (idx : Z) : option icp_result :=
  if (0 <=? idx)%Z then icp_info_list !! Z.to_nat idx
  else if (- Z.of_nat (length icp_info_list) <=? idx)%Z
       then icp_info_list !! Z.to_nat (Z.of_nat (length icp_info_list) + idx)
       else None.

(** The loop of [save_icp_info]: the lines written, and the exception that
    ends the loop, if any. *)
Fixpoint write_lines (icp_info_list : list icp_result) (selected_indices : list Z)
  : list line * option string :=
  match selected_indices with
  | [] => ([], None)
  | idx :: rest =>
      match item icp_info_list idx with
      | None => ([], Some "IndexError")
      | Some info =>
          match line_of info with
          | None => ([], Some "KeyError: 'company_name'")
          | Some ln =>
              let '(lines, err) := write_lines icp_info_list rest in
              (ln :: lines, err)
          end
      end
  end.

Definition save_icp_info (e : env) (icp_info_list : list icp_result)
    (selected_indices : list Z) : list line * record :=
  match append e with
  | Some err => ([], SaveError err)
  | None =>
      let '(lines, err) := write_lines icp_info_list selected_indices in
      (lines, match err with None => Saved | Some x => SaveError x end)
  end.

(** [selection.lower() == 'q'] *)
Definition is_quit (selection : string) : bool :=
  String.eqb selection "q" || String.eqb selection "Q".

(** [[int(idx.strip()) for idx in selection.split(',')]] *)
Definition indices_of (e : env) (selection : string) : option (list Z) :=
  mapM (fun idx => parse_int e (Subdomain.strip idx)) (Subdomain.split "," selection).

Definition in_range (icp_info_list : list icp_result) (idx : Z) : bool :=
  (0 <=? idx)%Z && (idx <? Z.of_nat (length icp_info_list))%Z.

(** What the selection comes to. *)
Record chosen : Type := {
  select_end : run_end;
  unread : list string;
  written : list line;
  select_log : list record;
  select_shown : list shown
}.

Definition show (x : shown) (s : chosen) : chosen :=
  {| select_end := select_end s; unread := unread s; written := written s;
     select_log := select_log s; select_shown := x :: select_shown s |}.

(** The loop that reads the selection. *)
Fixpoint select (e : env) (icp_info_list : list icp_result) (stdin : list string)
  : chosen :=
  match stdin with
  | [] =>
      {| select_end := Raised "EOFError"; unread := []; written := [];
         select_log := []; select_shown := [] |}
  | selection :: rest =>
      if is_quit selection then
        {| select_end := Done; unread := rest; written := []; select_log := [];
           select_shown := [] |}
      else
        match indices_of e selection with
        | None => show NotANumber (select e icp_info_list rest)
        | Some selected_indices =>
            if forallb (in_range icp_info_list) selected_indices then
              let '(lines, r) := save_icp_info e icp_info_list selected_indices in
              {| select_end := Done; unread := rest; written := lines;
                 select_log := [r]; select_shown := [] |}
            else show InvalidSelection (select e icp_info_list rest)
        end
  end.

(** What a call of [run] comes to. *)
Record run_outcome : Type := {
  run_ended : run_end;
  state_left : run_state;
  queried : list call;
  listed : list icp_result;
  saved : list line;
  run_log : list record;
  run_shown : list shown;
  run_unread : list string
}.

(** [run] *)
Definition run (net : network) (e : env) (rs : run_state) (stdin : list string)
  : run_outcome :=
  match stdin with
  | [] =>
      {| run_ended := Raised "EOFError"; state_left := rs; queried := [];
         listed := []; saved := []; run_log := []; run_shown := []; run_unread := [] |}
  | file_path :: rest =>
      let '(domains, l0) :=
        if Subdomain.endswith file_path ".txt" then read_domains_from_file e file_path
        else ([file_path], []) in
      let b := query_domains net domains rs in
      match batch_end b with
      | Done =>
          match icp_info_list b with
          | [] =>
              {| run_ended := Done; state_left := batch_state b; queried := calls b;
                 listed := []; saved := []; run_log := l0 ++ batch_log b;
                 run_shown := []; run_unread := rest |}
          | _ :: _ =>
              let s := select e (icp_info_list b) rest in
              {| run_ended := select_end s; state_left := batch_state b;
                 queried := calls b; listed := icp_info_list b; saved := written s;
                 run_log := l0 ++ batch_log b ++ select_log s;
                 run_shown := Listing (icp_info_list b) :: select_shown s;
                 run_unread := unread s |}
          end
      | ending =>
          {| run_ended := ending; state_left := batch_state b; queried := calls b;
             listed := icp_info_list b; saved := []; run_log := l0 ++ batch_log b;
             run_shown := []; run_unread := rest |}
      end
  end.

End IcpRun.

(** ** [modules/dns_enum.py] *)

Module DnsEnum.
Import Subdomain.

(** What [dns.resolver.resolve] comes to. *)
Inductive answer : Type :=
| Records (records : list string)
| NoAnswer
| NXDOMAIN
| ResolveError (e : string).

(** What the zone transfer comes to: a zone, with its truth value, or an
    exception. *)
Inductive transfer : Type :=
| Zone (truthy : bool)
| TransferError.

Inductive file : Type :=
| FileLines (lines : list string)
| FileNotFound
| FileFailed (e : string).

(** The resolver, the name servers and the file system.  A query and a
    transfer are given the number of those made before them, so that the
    same question may get different answers. *)
Record dns : Type := {
  resolve : nat -> string -> string -> answer;
  from_xfr : nat -> string -> string -> transfer;
  open_utf8 : string -> file
}.

Inductive dns_message : Type :=
| NoRecords (domain record_type : string)
| NoSuchDomain (domain : string)
| QueryError (domain record_type e : string)
| TransferOpen (domain : string)
| FileMissing (path : string)
| FileUnreadable (e : string)
| NoTargets
| Starting (targets : nat)
| TargetDone (target : string) (found : dict (list string)) (vulnerable : bool)
| TargetEmpty (target : string)
| ScanDone (found : dict (list string)) (vulnerable : bool)
| ScanEmpty.

(** What has happened so far: the queries made, as the domain and the
    record type asked, the transfers tried, as the name server and the
    domain, the records logged and the warnings printed. *)
Record trail : Type := {
  asked : list (string * string);
  tried : list (string * string);
  logged : list (level * dns_message);
  printed : list string
}.

Definition nothing : trail :=
  {| asked := []; tried := []; logged := []; printed := [] |}.

Definition note (l : list (level * dns_message)) (t : trail) : trail :=
  {| asked := asked t; tried := tried t; logged := logged t ++ l;
     printed := printed t |}.

(** [query_dns_records] *)
Definition query_dns_records (w : dns) (domain record_type : string) (t : trail)
  : list string * trail :=
  let t' :=
    {| asked := asked t ++ [(domain, record_type)]; tried := tried t;
       logged := logged t; printed := printed t |} in
  match resolve w (length (asked t)) domain record_type with
  | Records records => (records, t')
  | NoAnswer => ([], note [(WARNING, NoRecords domain record_type)] t')
  | NXDOMAIN => ([], note [(WARNING, NoSuchDomain domain)] t')
  | ResolveError e => ([], note [(ERROR, QueryError domain record_type e)] t')
  end.

(** [check_axfr] *)
Definition check_axfr (w : dns) (domain nameserver : string) (t : trail)
  : bool * trail :=
  let t' :=
    {| asked := asked t; tried := tried t ++ [(nameserver, domain)];
       logged := logged t; printed := printed t |} in
  match from_xfr w (length (tried t)) nameserver domain with
  | Zone true => (true, note [(WARNING, TransferOpen domain)] t')
  | Zone false => (false, t')
  | TransferError => (false, t')
  end.

Definition record_types : list string := ["A"; "MX"; "NS"; "TXT"; "CNAME"]%string.

(** The body of [for rtype in record_types]. *)
Definition lookup (w : dns) (target : string) (acc : dict (list string) * trail)
    (rtype : string) : dict (list string) * trail :=
  let '(results, t) := acc in
  let '(records, t') := query_dns_records w target rtype t in
  (match records with
   | [] => results
   | _ :: _ => dict_set results rtype records
   end, t').

(** The body of [for ns in nameservers]; [warn] tells whether the warning
    is printed too. *)
Definition probe (w : dns) (target : string) (warn : bool) (acc : bool * trail)
    (ns : string) : bool * trail :=
  let '(vulnerable, t) := acc in
  let '(open, t') := check_axfr w target ns t in
  if open then
    (true,
     {| asked := asked t'; tried := tried t'; logged := logged t';
        printed := printed t' ++ (if warn then [target] else []) |})
  else (vulnerable, t').

(** The records of a target and the transfers from its name servers: what
    the body of the loop over the targets does, and what is done once more
    after the loop. *)
Definition scan (w : dns) (target : string) (warn : bool) (t : trail)
  : dict (list string) * bool * trail :=
  let '(results, t1) := foldl (lookup w target) ([], t) record_types in
  let '(nameservers, t2) := query_dns_records w target "NS" t1 in
  let '(vulnerable, t3) := foldl (probe w target warn) (false, t2) nameservers in
  (results, vulnerable, t3).

(** Whether the dictionary [results] is empty. *)
Definition found_any (results : dict (list string)) (vulnerable : bool) : bool :=
  match results with
  | [] => vulnerable
  | _ :: _ => true
  end.

(** The body of [for target in targets]. *)
Definition scan_target (w : dns) (t : trail) (target : string) : trail :=
  let '(results, vulnerable, t') := scan w target true t in
  note [if found_any results vulnerable
        then (INFO, TargetDone target results vulnerable)
        else (WARNING, TargetEmpty target)] t'.

(** The lines after the loop: the variable [target] still holds the last
    target. *)
Definition scan_again (w : dns) (t : trail) (target : string) : trail :=
  let '(results, vulnerable, t') := scan w target false t in
  note [if found_any results vulnerable
        then (INFO, ScanDone results vulnerable)
        else (WARNING, ScanEmpty)] t'.

(** [[t.strip() for t in ... if t.strip()]] *)
Definition stripped (parts : list string) : list string :=
  List.filter str_truthy (map strip parts).

Inductive ending : Type :=
| Returns
| Raises (e : string).

(** The targets read from the input, or the record logged when the file of
    targets cannot be read. *)
Definition read_targets (w : dns) (input_target : string)
  : list string + level * dns_message :=
  if endswith input_target ".txt" then
    match open_utf8 w input_target with
    | FileLines lines => inl (stripped lines)
    | FileNotFound => inr (ERROR, FileMissing input_target)
    | FileFailed e => inr (ERROR, FileUnreadable e)
    end
  else inl (stripped (split "," input_target)).

(** [run] *)
Definition run (w : dns) (stdin : list string) : ending * trail :=
  match stdin with
  | [] => (Raises "EOFError", nothing)
  | line :: _ =>
      match read_targets w (strip line) with
      | inr r => (Returns, note [r] nothing)
      | inl targets =>
          match last targets with
          | None => (Returns, note [(ERROR, NoTargets)] nothing)
          | Some target =>
              let t0 := note [(INFO, Starting (length targets))] nothing in
              (Returns, scan_again w (foldl (scan_target w) t0 targets) target)
          end
      end
  end.

End DnsEnum.

(** ** [main.py] *)

Module Main.
Import Subdomain.

(** The exceptions the handlers of [main.py] tell apart. *)
Inductive exception : Type :=
| ImportError (e : string)
| OtherException (e : string)
| KeyboardInterrupt.

(** What [module.run(config)] comes to: it returns or raises, and leaves
    the lines of the standard input it has not read. *)
Record module_run : Type := {
  raised : option exception;
  left_unread : list string
}.

Definition module : Type := config -> list string -> module_run.

(** What reading [config.yaml] comes to; a configuration comes with its
    truth value. *)
Inductive loaded : Type :=
| Config (truthy : bool) (cfg : config)
| ConfigMissing
| ConfigBadFormat (e : string)
| ConfigFailed (e : string).

(** The installation: what importing a module gives, what creating the
    result directories raises, if anything, and the configuration file. *)
Record program : Type := {
  import_module : string -> exception + module;
  mkdir : option string;
  config_file : loaded
}.

Inductive main_message : Type :=
| DirectoriesReady
| DirectoryError (e : string)
| ConfigLoaded
| NoConfigFile
| BadConfigFormat (e : string)
| ConfigError (e : string)
| Chose (choice : string)
| Leaving
| InvalidChoice
| Loading (module_name : string)
| ModuleDone (module_name : string)
| LoadFailed (module_name e : string)
| ModuleError (module_name e : string)
| UserInterrupt
| Unexpected (e : string).

Definition main_log : Type := list (level * main_message).

(** [ModuleRunner.modules] *)
Definition modules : dict (string * string) :=
  [("1", ("modules.subdomain", "子域名收集"));
   ("2", ("modules.dns_enum", "DNS扫描"));
   ("3", ("modules.icp_query", "备案查询"));
   ("4", ("modules.port_scan", "端口扫描"));
   ("5", ("modules.zoomeye", "ZoomEye查询"))]%string.

(** What [run_module] comes to: the records logged, the lines left, and
    whether a [KeyboardInterrupt] leaves it. *)
Record ran : Type := {
  ran_log : main_log;
  ran_unread : list string;
  interrupted : bool
}.

(** The handlers of [run_module]. *)
Definition handle (module_name : string) (e : exception) (l : main_log)
    (rest : list string) : ran :=
  match e with
  | ImportError msg =>
      {| ran_log := l ++ [(ERROR, LoadFailed module_name msg)]; ran_unread := rest;
         interrupted := false |}
  | OtherException msg =>
      {| ran_log := l ++ [(ERROR, ModuleError module_name msg)]; ran_unread := rest;
         interrupted := false |}
  | KeyboardInterrupt => {| ran_log := l; ran_unread := rest; interrupted := true |}
  end.

(** [ModuleRunner.run_module] *)
Definition run_module (p : program) (cfg : config) (choice : string)
    (stdin : list string) : ran :=
  match dict_get modules choice with
  | None =>
      {| ran_log := [(WARNING, InvalidChoice)]; ran_unread := stdin;
         interrupted := false |}
  | Some (module_path, module_name) =>
      let l := [(INFO, Loading module_name)] in
      match import_module p module_path with
      | inl e => handle module_name e l stdin
      | inr m =>
          let r := m cfg stdin in
          match raised r with
          | None =>
              {| ran_log := l ++ [(INFO, ModuleDone module_name)];
                 ran_unread := left_unread r; interrupted := false |}
          | Some e => handle module_name e l (left_unread r)
          end
      end
  end.

(** The loop [while True] of [main], for a number of turns.  [None]: the
    loop has not ended within them.  At the end of the input [input]
    raises [EOFError], which the last handler of the loop logs. *)
Fixpoint menu (p : program) (cfg : config) (turns : nat) (stdin : list string)
  : option main_log :=
  match turns with
  | O => None
  | S turns' =>
      match stdin with
      | [] =>
          cons (ERROR, Unexpected "EOFError") <$> menu p cfg turns' []
      | choice :: rest =>
          if String.eqb choice "0" then Some [(INFO, Chose choice); (INFO, Leaving)]
          else
            let r := run_module p cfg choice rest in
            if interrupted r
            then Some ((INFO, Chose choice) :: ran_log r ++ [(INFO, UserInterrupt)])
            else app ((INFO, Chose choice) :: ran_log r)
                   <$> menu p cfg turns' (ran_unread r)
      end
  end.

(** [main], for a number of turns of its loop. *)
Definition main (p : program) (turns : nat) (stdin : list string) : option main_log :=
  match mkdir p with
  | Some e => Some [(ERROR, DirectoryError e)]
  | None =>
      let l := [(INFO, DirectoriesReady)] in
      match config_file p with
      | ConfigMissing => Some (l ++ [(ERROR, NoConfigFile)])
      | ConfigBadFormat e => Some (l ++ [(ERROR, BadConfigFormat e)])
      | ConfigFailed e => Some (l ++ [(ERROR, ConfigError e)])
      | Config truthy cfg =>
          if truthy then app (l ++ [(INFO, ConfigLoaded)]) <$> menu p cfg turns stdin
          else Some (l ++ [(INFO, ConfigLoaded)])
      end
  end.

End Main.

(** ** Concrete inputs, for the statements made on examples *)

Module Examples.
Import Subdomain.

(** A name whose final label has 64 letters. *)
Definition long_final_label : string :=
  "a." +:+ string_of_list_ascii (repeat "b"%char 64).

(** The two sources of the scenario, as completed tasks. *)
Definition scenario : list (string * task_run) :=
  [("subfinder", returned {["a.example.com"; "b.example.com"]} [] []);
   ("crtsh", returned {["b.example.com"; "c.example.com"]} [] [])]%string.

(** A world given by what the enumeration tool leaves in its output file
    and by what the providers answer.  The tool is installed and exits
    with status 0, its output file exists afterwards, the file decodes as
    UTF-8 to [file], and the spreadsheet writer works. *)
Definition example_world (file : list string)
    (crt : http_result crtsh_body)
    (st : http_result securitytrails_body)
    (sh : http_result shodan_body)
    (ze : nat -> request -> http_result zoomeye_body) : world :=
  {| os_path_join := fun a b => (a +:+ "/" +:+ b)%string;
     os_path_basename := fun path => path;
     os_path_splitext_root := fun path => path;
     os_path_exists := fun path => String.eqb path "tools/subfinder.exe";
     subprocess_run := fun _ => Exited0 "" "";
     os_path_exists_after := fun _ => true;
     open_read := fun _ encoding =>
       if String.eqb encoding "utf-8" then Lines file else UnicodeDecodeError;
     b64encode := fun query => query;
     crtsh_get := fun _ => crt;
     securitytrails_get := fun _ => st;
     shodan_get := fun _ => sh;
     zoomeye_post := ze;
     excel_writer := None |}.

Definition down {A : Type} : http_result A := RequestFailed "ConnectionError".

(** Nothing answers and the tool finds nothing. *)
Definition offline : world :=
  example_world [] down down down (fun _ _ => down).

Definition with_keys (st ze sh : option string) (g : option global_section)
  : config :=
  {| subdomain :=
       Some {| enabled := true; securitytrails_api_key := st;
               zoomeye_api_key := ze; shodan_api_key := sh |};
     global := g |}.

Definition all_keys : config :=
  with_keys (Some "k1"%string) (Some "k2"%string) (Some "k3"%string)
    (Some (Settings {| tools_path := None |})).

Definition no_keys : config :=
  with_keys None (Some ""%string) None (Some (Settings {| tools_path := None |})).

(** A configuration without its [global] section: [run_subfinder] raises. *)
Definition no_global : config :=
  with_keys (Some "k1"%string) None None None.

(** A configuration whose [global] section is empty, which the loader reads
    as null: [run_subfinder] raises. *)
Definition null_global : config :=
  with_keys (Some "k1"%string) None None (Some (NoMapping "NoneType")).

(** SecurityTrails answers with two prefixes, one of which makes no
    hostname. *)
Definition securitytrails_answers : world :=
  example_world [] down
    (HttpOk {| subdomains := Some ["www"; "-bad"]%string |})
    down (fun _ _ => down).

(** The pages ZoomEye answers with: 250 results in all, one name a page. *)
Definition three_pages (k : nat) : zoomeye_body :=
  {| total := Some 250%Z;
     data :=
       Some [{| item_domain :=
                  Some (nth k ["a.example.com"; "b.example.com"; "c.example.com"]
                          "z.example.com")%string;
                item_url := None |}] |}.

Definition zoomeye_answers : world :=
  example_world [] down down down (fun k _ => HttpOk (three_pages k)).

(** The same, with the request of the second page failing. *)
Definition zoomeye_second_page_fails : world :=
  example_world [] down down down
    (fun k _ => if k =? 1 then HttpError 429 else HttpOk (three_pages k)).

(** ZoomEye reports 150 results, and the first page holds an item with a
    [url] and no [domain]. *)
Definition zoomeye_url_item : world :=
  example_world [] down down down
    (fun k _ =>
       HttpOk {| total := Some 150%Z;
                 data :=
                   Some [{| item_domain := None;
                            item_url := Some "https://www.example.com/x"%string |}] |}).

(** The ideographic space U+3000 and the no-break space U+00A0, two of the
    characters outside ASCII that [strip] removes. *)
Definition ideographic_space : string := string_of_list_ascii (utf8 12288).
Definition no_break_space : string := string_of_list_ascii (utf8 160).

(** The table of crt.sh holds one row, whose fifth cell is a name after a
    no-break space. *)
Definition crtsh_no_break_space : world :=
  example_world []
    (HttpOk [[""; ""; ""; ""; no_break_space +:+ "www.example.com"]%string])
    down down (fun _ _ => down).

(** The tool's output file holds a name between ideographic spaces, and a
    line of one no-break space. *)
Definition tool_writes_spaces : world :=
  example_world
    [ideographic_space +:+ "www.example.com" +:+ ideographic_space; no_break_space]%string
    down down down (fun _ _ => down).

(** The tool's output file holds a line that is no hostname. *)
Definition tool_writes_junk : world :=
  example_world ["www.example.com"; "not a domain"; ""]%string
    down down down (fun _ _ => down).

End Examples.

Module IcpExamples.
Import IcpQuery.

Definition midnight : clock := {| now := 0; sent := 0 |}.

Definition noon : clock := {| now := 43200; sent := 0 |}.

Definition no_data : icp_data :=
  {| data_code := None; data_msg := None; data_td := None; data_type := None;
     data_icp := None; data_unit := None; data_domain := None; data_time := None |}.

(** Every request times out after five seconds. *)
Definition timing_out : network := fun _ => (5%Q, RequestException "timeout").

(** Every request is answered at once with the given status. *)
Definition answering (status : Z) : network :=
  fun _ => (0%Q, Response status (JsonObject no_data)).

(** Every request takes a hundredth of a second; of every three in a row the
    first two are refused and the third is answered. *)
Definition third_time_lucky : network :=
  fun k =>
    ((1 # 100)%Q,
     if (k mod 3 =? 2)%nat then Response 200 (JsonObject no_data)
     else RequestException "ConnectionError").

(** Every request is answered at once with the status 200 and a page that
    is no JSON. *)
Definition answering_html : network := fun _ => (0%Q, Response 200 NotJson).

(** Every request is answered at once with the status 200 and a JSON list. *)
Definition answering_list : network := fun _ => (0%Q, Response 200 JsonValue).

End IcpExamples.

(** ** The terms of the statements *)

Module SubdomainTerms.
Import Regex Subdomain.

(** The separator does not occur in [l]. *)
Definition free_of (sep : ascii) (l : list ascii) : Prop :=
  Forall (fun c => c <> sep) l.

(** The labels [ls], each followed by the separator, then [t]. *)
Definition join_with (sep : ascii) (ls : list (list ascii)) (t : list ascii)
  : list ascii :=
  concat (map (fun l => l ++ [sep]) ls) ++ t.

(** A name of the queried domain proper: a prefix, a dot, the domain. *)
Definition under (domain x : string) : Prop :=
  exists prefix, x = (prefix +:+ "." +:+ domain)%string.

(** Every request carries the name of the collector. *)
Definition tagged (name : string) (reqs : list request) : Prop :=
  Forall (fun req => req_source req = name) reqs.

(** The request the loop sends from a state. *)
Definition request_of (s : zoomeye_state) : request :=
  {| req_source := "zoomeye"; req_url := zs_url s;
     req_payload := Some (zs_payload s) |}.

(** The name an item of a page adds to the set, if any. *)
Definition item_name (domain : string) (item : zoomeye_item) : option string :=
  match item_domain item with
  | Some d => if validate_domain d then Some d else None
  | None =>
      match item_url item with
      | Some u =>
          let domain_part := nth 2 (split "/" u) ""%string in
          if (startswith u "http://" || startswith u "https://")
             && (endswith domain_part domain && validate_domain domain_part)
          then Some domain_part else None
      | None => None
      end
  end.

(** The names of a page. *)
Definition page_names (domain : string) (body : zoomeye_body) : gset string :=
  list_to_set (omap (item_name domain) (default [] (data body))).

(** The page number of a request. *)
Definition page_of (req : request) : option Z := page <$> req_payload req.

(** A failure of the request of a page: the inner handler catches it. *)
Definition page_failure (r : http_result zoomeye_body) : Prop :=
  match r with
  | HttpError _ | RequestFailed _ => True
  | _ => False
  end.

(** The number of pages after the answer [body] to the request of a state. *)
Definition pages_after (s : zoomeye_state) (body : zoomeye_body) : Z :=
  if (current_page s =? 1)%Z
  then ((default 0 (total body) + pagesize (zs_payload s) - 1)
          `div` pagesize (zs_payload s))%Z
  else total_pages s.

(** The provider answers the [m] requests from the [lo]-th on with the
    pages [bodies]. *)
Definition answers (w : world) (bodies : nat -> zoomeye_body) (lo m : nat) : Prop :=
  forall i req, i < m -> zoomeye_post w (lo + i) req = HttpOk (bodies (lo + i)).

(** The names of the [m] pages from the [lo]-th on. *)
Definition names_from (domain : string) (bodies : nat -> zoomeye_body)
    (lo m : nat) : gset string :=
  ⋃ (map (fun i => page_names domain (bodies i)) (seq lo m)).

(** The page numbers [first], [first + 1], ... of [m] requests. *)
Definition page_numbers (first : Z) (m : nat) : list (option Z) :=
  map (fun i => Some (first + Z.of_nat i)%Z) (seq 0 m).

(** The number of pages the first answer announces: the total count over
    the page size of 100, rounded up. *)
Definition announced (body : zoomeye_body) : Z :=
  ((default 0 (total body) + 100 - 1) `div` 100)%Z.

(** The number of requests of a run whose pages are all answered: the
    number of pages announced, and one at least. *)
Definition requests_due (body : zoomeye_body) : nat :=
  Z.to_nat (Z.max 1 (announced body)).

(** The state a turn of the loop ends in. *)
Definition state_of (c : control) : zoomeye_state :=
  match c with
  | Continue s | Break s | Escaped s => s
  end.

(** The entries the loop writes, for distinct task names: one for each
    task, in the order of completion. *)
Definition entries (done : list (string * task_run)) : dict (gset string) :=
  map (fun t => (t.1, contribution (value t.2))) done.

(** The names of the tasks dispatched. *)
Definition task_names (cfg : config) : list string :=
  ["subfinder"%string; "crtsh"%string]
  ++ (if key_truthy (api_key cfg securitytrails_api_key)
      then ["securitytrails"%string] else [])
  ++ (if key_truthy (api_key cfg zoomeye_api_key) then ["zoomeye"%string] else [])
  ++ (if key_truthy (api_key cfg shodan_api_key) then ["shodan"%string] else []).

(** A provider is left out of a run: no task, no request, no entry. *)
Definition left_out (provider : string) (names : list string) (r : report) : Prop :=
  (provider ∉ names)
  /\ (forall req, req ∈ run_net r -> req_source req <> provider)
  /\ dict_get (results r) provider = None.

(** A collector gives up for want of its key: nothing found, nothing sent,
    one error record. *)
Definition gives_up (provider : string) (run : task_run) : Prop :=
  run = returned ∅ [] [(ERROR, KeyMissing provider)].

End SubdomainTerms.

Module IcpTerms.
Import IcpQuery.

Local Open Scope nat_scope.

Abbreviation N := (length API_ENDPOINTS).

(** The endpoint at a position of the list. *)
Definition endpoint_at (i : nat) : string := nth i API_ENDPOINTS ""%string.

(** The endpoints of [n] attempts in a row from the cursor [c]. *)
Definition rotation (c n : nat) : list string :=
  map (fun k => endpoint_at ((c + k) mod N)) (seq 0 n).

(** The address an attempt asks. *)
Definition url_of (endpoint domain : string) : string :=
  (endpoint +:+ "?id=10004437&key=89afe5d9cbee98f8fab517307eae0187&domain="
     +:+ domain)%string.

(** An answer with the status 200 ends the retry loop. *)
Definition succeeded (o : http_outcome) : bool :=
  match o with
  | Response status _ => (status =? 200)%Z
  | RequestException _ => false
  end.

(** The number of attempts the loop makes from the [i]-th request on, with
    [left] turns to go: up to the first answer with the status 200. *)
Fixpoint attempts_made (net : network) (i left : nat) : nat :=
  match left with
  | O => 0
  | S left' =>
      if succeeded (net i).2 then 1 else S (attempts_made net (S i) left')
  end.

(** The module variables after an attempt made at the clock [ck]. *)
Definition state_next (st : state) (ck : clock) : state :=
  {| permits := permits st;
     current_endpoint_index := (current_endpoint_index st + 1) mod N;
     last_request_time := now ck |}.

(** The clock after an attempt with [left] turns to go after it: the
    request has taken its time and, when a turn is left, the loop has slept
    for a second. *)
Definition clock_next (net : network) (left : nat) (ck : clock) : clock :=
  let ck1 := {| now := (now ck + (net (sent ck)).1)%Q; sent := S (sent ck) |} in
  if 0 <? left then sleep 1 ck1 else ck1.

(** The events of that attempt. *)
Definition events_next (domain : string) (left : nat) (st : state) (ck : clock)
  : list event :=
  Requested (now ck) (endpoint_at (current_endpoint_index st))
    (url_of (endpoint_at (current_endpoint_index st)) domain)
  :: (if 0 <? left then [Slept 1] else []).

(** The events of a series of calls, in order. *)
Definition events (calls : list call) : list event := concat (map trace calls).

(** What the [k]-th attempt of a call made at the clock [ck] comes to. *)
Definition outcome (net : network) (ck : clock) (k : nat) : http_outcome :=
  (net (k + sent ck)).2.

(** The request of the [k]-th attempt of a call that finds the cursor at
    [c], sent at the time [t]. *)
Definition asks (domain : string) (c k : nat) (t : Q) : event :=
  Requested t (endpoint_at ((c + k) mod N))
    (url_of (endpoint_at ((c + k) mod N)) domain).

(** The warning logged when the [k]-th attempt fails. *)
Definition warning (net : network) (ck : clock) (c k : nat) : level * message :=
  (WARNING,
   match outcome net ck k with
   | Response status _ =>
       EndpointStatus (endpoint_at ((c + k) mod N)) status (k + 1) max_retries
   | RequestException e =>
       EndpointError (endpoint_at ((c + k) mod N)) e (k + 1) max_retries
   end).

(** The variable [response] holds no answer with the status 200. *)
Definition no_success (resp : option (Z * json_body)) : Prop :=
  match resp with
  | Some (status, _) => (status =? 200)%Z = false
  | None => True
  end.

(** The variable [response] holds an answer with the status 200. *)
Definition success (resp : option (Z * json_body)) : Prop :=
  exists status body, resp = Some (status, body) /\ (status =? 200)%Z = true.

(** How a call ends on the body of an answer with the status 200: line 91
    decodes it, the permit still held, and lines 95 to 102 read its
    fields. *)
Definition ending_of (body : json_body) : ending :=
  match body with
  | JsonObject data => Answered (extract data)
  | JsonValue => AttributeError
  | NotJson => JSONDecodeError
  end.

(** The body of an answer can be read: with the status 200 it is a JSON
    object. *)
Definition decodable (o : http_outcome) : Prop :=
  match o with
  | Response status body =>
      (status =? 200)%Z = true -> exists data, body = JsonObject data
  | RequestException _ => True
  end.

(** The module variables once the permit is taken. *)
Definition acquired (st : state) : state :=
  {| permits := pred (permits st);
     current_endpoint_index := current_endpoint_index st;
     last_request_time := last_request_time st |}.

(** The time the caller is suspended before the first request of a
    trace. *)
Fixpoint suspended (tr : list event) : Q :=
  match tr with
  | Slept seconds :: rest => (seconds + suspended rest)%Q
  | _ => 0%Q
  end.

(** No request takes a negative time. *)
Definition causal (net : network) : Prop := forall k, (0 <= (net k).1)%Q.

End IcpTerms.

Module CollectorTerms.
Import Regex Subdomain SubdomainTerms.

(** A character a validated name may hold: a letter, a digit, a hyphen, a
    dot, or the newline that the pattern's last item lets through. *)
Definition name_char (c : ascii) : bool :=
  is_label_char c || Ascii.eqb c "." || Ascii.eqb c newline.

(** The command lines a collector handed to [subprocess.run]: the code logs
    each one just before it starts the process. *)
Definition commands (l : log) : list (list string) :=
  omap (fun r => match r.2 with Running cmd => Some cmd | _ => None end) l.

(** The path of the enumeration tool under a configuration's tools
    directory. *)
Definition tool_path (w : world) (g : global_config) : string :=
  os_path_join w (default "tools"%string (tools_path g)) "subfinder.exe".

(** The exception the first line of [run_subfinder] raises: the section
    [global] is missing, or it is no mapping. *)
Definition global_unreadable (cfg : config) (e : string) : Prop :=
  (global cfg = None /\ e = "KeyError: 'global'"%string)
  \/ exists type_name,
       global cfg = Some (NoMapping type_name) /\ e = no_get type_name.

(** The bytes begin with a character for which [space] holds. *)
Definition begins_with (space : list ascii -> bool) (s : list ascii) : bool :=
  match s with
  | [] => false
  | c1 :: s1 =>
      space [c1]
      || match s1 with
         | [] => false
         | c2 :: s2 =>
             space [c1; c2]
             || match s2 with
                | [] => false
                | c3 :: _ => space [c1; c2; c3]
                end
         end
  end.

(** The file the tool is told to write for a name. *)
Definition output_for (w : world) (name : string) : string :=
  os_path_join w (os_path_join w "results" "subdomains")
    ("subdomains_" +:+ name +:+ ".txt").

(** The request of the certificate-log collector. *)
Definition crtsh_request (domain : string) : request :=
  {| req_source := "crtsh"; req_url := ("https://crt.sh/?q=%25." +:+ domain)%string;
     req_payload := None |}.

(** An exchange that gives no body: a status error, a failed request or
    any other exception. *)
Definition failed {A : Type} (r : http_result A) : Prop :=
  match r with
  | HttpOk _ => False
  | _ => True
  end.

(** A request carries the query for the domain and the page size of 100. *)
Definition query_of (w : world) (domain : string) (req : request) : Prop :=
  exists p,
    req_payload req = Some p
    /\ qbase64 p = b64encode w ("domain:" +:+ domain) /\ pagesize p = 100%Z.

(** What holds of the requests sent and the names kept so far: the
    requests are for the pages 1, 2, ... in order, each with the same query,
    and every name kept validates. *)
Definition sent_ok (w : world) (domain : string) (s : zoomeye_state) : Prop :=
  map page_of (zs_net s) = page_numbers 1 (length (zs_net s))
  /\ Forall (query_of w domain) (zs_net s)
  /\ (forall x, x ∈ zs_subdomains s -> validate_domain x = true).

(** What holds at the head of the loop: the payload is the one of the next
    page. *)
Definition head_ok (w : world) (domain : string) (s : zoomeye_state) : Prop :=
  sent_ok w domain s
  /\ page (zs_payload s) = (1 + Z.of_nat (length (zs_net s)))%Z
  /\ qbase64 (zs_payload s) = b64encode w ("domain:" +:+ domain)
  /\ pagesize (zs_payload s) = 100%Z.

(** The address an item assigns to the variable [url]: the one of its [url]
    field, when it has no [domain] field. *)
Definition item_address (item : zoomeye_item) : option string :=
  match item_domain item with
  | Some _ => None
  | None => item_url item
  end.

(** The value of the variable [url] after the items of a page. *)
Definition address_after (url : string) (items : list zoomeye_item) : string :=
  default url (last (omap item_address items)).

Definition zoomeye_api : string := "https://api.zoomeye.org/v2/search".

End CollectorTerms.

Module MenuTerms.
Import Subdomain SubdomainMenu.

(** The domain a collector is called with has passed the tests of [run]:
    it is a line of the input, stripped, not empty, and it validates or
    names a text file that exists. *)
Definition admitted (w : world) (stdin : list string) (domain : string) : Prop :=
  domain <> ""%string /\ strip domain = domain
  /\ (exists line, line ∈ stdin /\ domain = strip line)
  /\ (validate_domain domain = true
      \/ (os_path_exists w domain = true /\ endswith domain ".txt" = true)).

(** The module is switched on in the configuration. *)
Definition switched_on (cfg : config) : Prop :=
  exists sc, subdomain cfg = Some sc /\ enabled sc = true.

(** The sources [run] can call one at a time. *)
Definition single_sources : list string :=
  ["subfinder"; "crtsh"; "securitytrails"]%string.

(** A session in which the one-key collection was not run: no workbook,
    no request but to crt.sh and SecurityTrails, no collector but the three
    of the choices 1, 2 and 3. *)
Definition one_at_a_time (s : session) : Prop :=
  workbooks s = []
  /\ Forall (fun req => req_source req = "crtsh"%string
                        \/ req_source req = "securitytrails"%string) (session_net s)
  /\ Forall (fun call => call.1 ∈ single_sources) (invoked s).

(** The exceptions that leave [run]: the end of the input, met when all of
    it is read, or the one of a [global] section that is missing or is no
    mapping, met when the choice 1 calls [run_subfinder]. *)
Definition only_expected (cfg : config) (s : session) (e : string) : Prop :=
  (e = "EOFError"%string /\ unread s = [])
  \/ (((global cfg = None /\ e = "KeyError: 'global'"%string)
       \/ exists type_name,
            global cfg = Some (NoMapping type_name) /\ e = no_get type_name)
      /\ exists domain, ("subfinder"%string, domain) ∈ invoked s).

End MenuTerms.

Module IcpCallTerms.
Import IcpQuery IcpTerms.

(** An answer with the eight fields, as opposed to the dictionary of the
    failure. *)
Definition is_info (r : icp_result) : Prop :=
  match r with
  | IcpInfo _ _ _ _ _ _ _ _ => True
  | IcpFailure _ _ => False
  end.

(** A call that ended with an answer of eight fields. *)
Definition informed (c : call) : Prop :=
  exists r, ended c = Answered r /\ is_info r.

(** A call that ended with the dictionary of the failure. *)
Definition gave_up (c : call) : Prop :=
  exists code msg, ended c = Answered (IcpFailure code msg).

(** The domains [run] queries: the lines that are not empty. *)
Definition queried_domains (domains : list string) : list string :=
  List.filter (fun d => negb (String.eqb d "")) domains.

(** The longest a retry loop with [left] turns to go can take, when no
    request takes more than its timeout of five seconds: five seconds for
    each request and a second of sleep after each but the last. *)
Fixpoint budget (left : nat) : Q :=
  match left with
  | O => 0
  | S left' => 5 + (if 0 <? left' then 1 else 0) + budget left'
  end.

(** Every request returns within the timeout given to [requests.get]. *)
Definition timely (net : network) : Prop :=
  forall k, (0 <= (net k).1 /\ (net k).1 <= 5)%Q.

End IcpCallTerms.

Module IcpRunTerms.
Import IcpQuery IcpTerms IcpCallTerms IcpRun.

(** No two neighbours of the list are equal. *)
Fixpoint no_repeat {A : Type} (l : list A) : Prop :=
  match l with
  | a :: (b :: _) as rest => a <> b /\ no_repeat rest
  | _ => True
  end.

(** A state as the program starts with. *)
Definition fresh : run_state :=
  {| query_state := initial; time := {| now := 0; sent := 0 |};
     last_icp_info := None |}.

(** An environment in which [int] reads the digits 0 and 1, no file can be
    read and the results file can be appended to. *)
Definition two_digits : env :=
  {| open_utf8 := fun _ => FileError "FileNotFoundError";
     parse_int := fun s =>
       if String.eqb s "0" then Some 0%Z
       else if String.eqb s "1" then Some 1%Z else None;
     append := None |}.

(** The state in which a call of [run] can be made: a permit is free, the
    cursor is inside the list of endpoints, and the attribute
    [last_icp_info], if set, is an answer of eight fields. *)
Definition usable (rs : run_state) : Prop :=
  0 < permits (query_state rs)
  /\ current_endpoint_index (query_state rs) < N
  /\ (forall r, last_icp_info rs = Some r -> is_info r).

(** The ways a call of [run] ends from such a state. *)
Definition expected_end (e : run_end) : Prop :=
  e = Done \/ e = Raised "EOFError" \/ e = Raised "KeyError: 'registration_type'"
  \/ e = Raised "AttributeError" \/ e = Raised "JSONDecodeError".

End IcpRunTerms.

Module DnsTerms.
Import Subdomain SubdomainTerms DnsEnum.

(** The queries of one scan of a target: the five record types, then the
    name servers once more. *)
Definition queries_of (target : string) : list (string * string) :=
  map (pair target) (record_types ++ ["NS"%string]).

(** A target as the scan takes it: not empty and without white space
    around it. *)
Definition trimmed (target : string) : Prop :=
  target <> ""%string /\ strip target = target.

(** A resolver that knows one name, with one name server that lets the zone
    be transferred. *)
Definition open_zone : dns :=
  {| resolve := fun _ domain record_type =>
       if String.eqb domain "example.com" && String.eqb record_type "NS"
       then Records ["ns.example.com"%string] else NoAnswer;
     from_xfr := fun _ _ _ => Zone true;
     open_utf8 := fun _ => FileNotFound |}.

(** The records a query gives: none when the resolver raises. *)
Definition records_of (a : answer) : list string :=
  match a with
  | Records records => records
  | _ => []
  end.

End DnsTerms.

Module MainTerms.
Import Subdomain SubdomainMenu Main.

(** A module reads the lines of the input in order: what it leaves is the
    end of what it was given. *)
Definition reads_in_order (p : program) : Prop :=
  forall path m cfg stdin,
    import_module p path = inr m -> left_unread (m cfg stdin) `suffix_of` stdin.

(** The program stops before its menu: the directories or the
    configuration are not there. *)
Definition stops_early (p : program) : Prop :=
  mkdir p <> None
  \/ match config_file p with
     | Config truthy _ => truthy = false
     | _ => True
     end.

(** [modules/subdomain.py] as a module of the program: its [run], with the
    exception that leaves it, if any. *)
Definition subdomain_module
    (as_completed : list (string * task_run) -> list (string * task_run))
    (w : world) : module :=
  fun cfg stdin =>
    let s := SubdomainMenu.run as_completed w None cfg stdin in
    {| raised :=
         match session_end s with
         | Returns => None
         | Raises e => Some (OtherException e)
         end;
       left_unread := unread s |}.

(** An installation with the subdomain module only. *)
Definition only_subdomain (w : world) (cfg : config) : program :=
  {| import_module := fun path =>
       if String.eqb path "modules.subdomain"
       then inr (subdomain_module (fun l => l) w)
       else inl (ImportError "ModuleNotFoundError");
     mkdir := None;
     config_file := Config true cfg |}.

End MainTerms.

(** * Facts *)

(** ** The matcher decides the language *)

Module RegexFacts.
Import Regex.

Create HintDb re.
#[local] Hint Constructors matches : re.

Lemma matches_Eps_inv s : matches Eps s -> s = [].
Proof. inversion 1; reflexivity. Qed.

Lemma matches_Cls_inv items s :
  matches (Cls items) s -> exists c, s = [c] /\ cset_mem items c = true.
Proof. inversion 1; subst; eauto. Qed.

Lemma matches_Cat_inv r1 r2 s :
  matches (Cat r1 r2) s ->
  exists s1 s2, s = s1 ++ s2 /\ matches r1 s1 /\ matches r2 s2.
Proof. inversion 1; subst; eauto. Qed.

Lemma matches_Alt_inv r1 r2 s :
  matches (Alt r1 r2) s -> matches r1 s \/ matches r2 s.
Proof. inversion 1; subst; eauto. Qed.

Lemma nullable_sound r : nullable r = true -> matches r [].
Proof.
  induction r; simpl; intros Hn; try discriminate; eauto with re.
  - apply andb_prop in Hn as [H1 H2].
    change (@nil ascii) with (@nil ascii ++ []). auto with re.
  - apply orb_prop in Hn as [H|H]; auto with re.
Qed.

Lemma nullable_complete r s : matches r s -> s = [] -> nullable r = true.
Proof.
  induction 1; simpl; intros Heq; try reflexivity; try discriminate.
  - apply app_eq_nil in Heq as [-> ->]. rewrite IHmatches1, IHmatches2; auto.
  - rewrite IHmatches; auto.
  - rewrite IHmatches; auto using orb_true_r.
Qed.

Lemma nullable_matches r : nullable r = true <-> matches r [].
Proof. split; [apply nullable_sound | intros H; exact (nullable_complete _ _ H eq_refl)]. Qed.

(** A non-empty word of a starred expression starts with a non-empty word
    of the expression. *)
Lemma matches_Star_cons r c s :
  matches (Star r) (c :: s) ->
  exists s1 s2, s = s1 ++ s2 /\ matches r (c :: s1) /\ matches (Star r) s2.
Proof.
  intros H. remember (Star r) as r' eqn:Hr. remember (c :: s) as w eqn:Hw.
  revert c s Hw. induction H; intros c0 s0 Hw; try discriminate.
  injection Hr as ->. destruct s1 as [|a s1]; simpl in Hw.
  - subst s2. eauto.
  - injection Hw as Ha Hs. subst a s0. exists s1, s2. auto.
Qed.

Lemma deriv_sound c r : forall s, matches (deriv c r) s -> matches r (c :: s).
Proof.
  induction r; simpl; intros s H.
  - inversion H.
  - inversion H.
  - destruct (cset_mem items c) eqn:Hc; [|inversion H].
    apply matches_Eps_inv in H as ->. auto with re.
  - destruct (nullable r1) eqn:Hn.
    + apply matches_Alt_inv in H as [H|H].
      * apply matches_Cat_inv in H as (s1 & s2 & -> & H1 & H2).
        change (c :: s1 ++ s2) with ((c :: s1) ++ s2). auto with re.
      * change (c :: s) with ([] ++ c :: s).
        apply MCat; [apply nullable_sound; assumption | auto].
    + apply matches_Cat_inv in H as (s1 & s2 & -> & H1 & H2).
      change (c :: s1 ++ s2) with ((c :: s1) ++ s2). auto with re.
  - apply matches_Alt_inv in H as [H|H]; auto with re.
  - apply matches_Cat_inv in H as (s1 & s2 & -> & H1 & H2).
    change (c :: s1 ++ s2) with ((c :: s1) ++ s2). auto with re.
Qed.

Lemma deriv_complete c r : forall s, matches r (c :: s) -> matches (deriv c r) s.
Proof.
  induction r; simpl; intros s H.
  - inversion H.
  - inversion H.
  - apply matches_Cls_inv in H as (c' & Heq & Hc). injection Heq as -> ->.
    rewrite Hc. constructor.
  - apply matches_Cat_inv in H as (s1 & s2 & Heq & H1 & H2).
    destruct s1 as [|a s1]; simpl in Heq.
    + subst s2. rewrite (nullable_complete _ _ H1 eq_refl). auto with re.
    + injection Heq as <- ->.
      destruct (nullable r1); [apply MAltL|]; auto with re.
  - apply matches_Alt_inv in H as [H|H]; auto with re.
  - apply matches_Star_cons in H as (s1 & s2 & -> & H1 & H2). auto with re.
Qed.

Lemma matchb_matches r s : matchb r s = true <-> matches r s.
Proof.
  revert r. induction s as [|c s IH]; intros r; simpl.
  - apply nullable_matches.
  - rewrite IH. split; [apply deriv_sound | apply deriv_complete].
Qed.

End RegexFacts.

(** ** The validator *)

Module ValidatorFacts.
Import Regex RegexFacts Subdomain Examples SubdomainTerms.

Lemma alpha_mem c : cset_mem [Range "a" "z"; Range "A" "Z"] c = is_alpha c.
Proof. unfold cset_mem, is_alpha, in_range; simpl. now rewrite orb_false_r. Qed.

Lemma alnum_mem c :
  cset_mem [Range "a" "z"; Range "A" "Z"; Range "0" "9"] c = is_alnum c.
Proof.
  unfold cset_mem, is_alnum, is_alpha, in_range; simpl.
  now rewrite orb_false_r, orb_assoc.
Qed.

Lemma alnum_hyphen_mem c :
  cset_mem [Range "a" "z"; Range "A" "Z"; Range "0" "9"; Single "-"] c
  = is_label_char c.
Proof.
  unfold cset_mem, is_label_char, is_alnum, is_alpha, in_range; simpl.
  now rewrite orb_false_r, !orb_assoc.
Qed.

Lemma matches_Chr c s : matches (Chr c) s <-> s = [c].
Proof.
  unfold Chr, cset_mem. split.
  - intros H. apply matches_Cls_inv in H as (c' & -> & Hc). simpl in Hc.
    rewrite orb_false_r in Hc. apply Ascii.eqb_eq in Hc. now subst.
  - intros ->. constructor. simpl. now rewrite Ascii.eqb_refl.
Qed.

(** [r{0,n}] over a character class: at most [n] characters of the class. *)
Lemma matches_UpTo items n : forall s,
  matches (UpTo n (Cls items)) s
  <-> length s <= n /\ forallb (cset_mem items) s = true.
Proof.
  induction n as [|n IH]; intros s; simpl.
  - split.
    + intros H. apply matches_Eps_inv in H as ->. simpl. split; [lia|reflexivity].
    + intros [Hl _]. destruct s; [constructor | simpl in Hl; lia].
  - split.
    + intros H. apply matches_Alt_inv in H as [H|H].
      * apply matches_Eps_inv in H as ->. simpl. split; [lia|reflexivity].
      * apply matches_Cat_inv in H as (s1 & s2 & -> & H1 & H2).
        apply matches_Cls_inv in H1 as (c & -> & Hc).
        apply IH in H2 as [Hl Hall]. simpl. rewrite Hc, Hall. split; [lia|reflexivity].
    + intros [Hl Hall]. destruct s as [|c s]; [apply MAltL; constructor|].
      simpl in Hl, Hall. apply andb_prop in Hall as [Hc Hall].
      apply MAltR. change (c :: s) with ([c] ++ s). constructor.
      * now constructor.
      * apply IH. split; [lia|assumption].
Qed.

(** A starred expression matches the concatenations of its words. *)
Lemma matches_Star_concat r s :
  matches (Star r) s <-> exists ws, Forall (matches r) ws /\ s = concat ws.
Proof.
  split.
  - intros H. remember (Star r) as r' eqn:Hr. induction H; try discriminate.
    + exists []. split; [constructor | reflexivity].
    + injection Hr as ->. destruct (IHmatches2 eq_refl) as (ws & Hws & ->).
      exists (s1 :: ws). split; [constructor; assumption | reflexivity].
  - intros (ws & Hws & ->). induction Hws; simpl; constructor; assumption.
Qed.

Lemma matches_Star_Cls items s :
  matches (Star (Cls items)) s <-> forallb (cset_mem items) s = true.
Proof.
  rewrite matches_Star_concat. split.
  - intros (ws & Hws & ->). induction Hws as [|w ws Hw _ IH]; [reflexivity|].
    apply matches_Cls_inv in Hw as (c & -> & Hc). simpl. now rewrite Hc.
  - induction s as [|c s IH]; simpl; intros H.
    + exists []. split; [constructor | reflexivity].
    + apply andb_prop in H as [Hc Hs]. destruct (IH Hs) as (ws & Hws & ->).
      exists ([c] :: ws). split; [|reflexivity].
      constructor; [now constructor | assumption].
Qed.

(** [r{n,}] over a character class: at least [n] characters of the class. *)
Lemma matches_AtLeast items n : forall s,
  matches (AtLeast n (Cls items)) s
  <-> n <= length s /\ forallb (cset_mem items) s = true.
Proof.
  induction n as [|n IH]; intros s; simpl.
  - rewrite matches_Star_Cls. split; [intros H; split; [lia|assumption] | tauto].
  - split.
    + intros H. apply matches_Cat_inv in H as (s1 & s2 & -> & H1 & H2).
      apply matches_Cls_inv in H1 as (c & -> & Hc).
      apply IH in H2 as [Hl Hall]. simpl. rewrite Hc, Hall. split; [lia|reflexivity].
    + intros [Hl Hall]. destruct s as [|c s]; [simpl in Hl; lia|].
      simpl in Hl, Hall. apply andb_prop in Hall as [Hc Hall].
      change (c :: s) with ([c] ++ s). constructor.
      * now constructor.
      * apply IH. split; [lia|assumption].
Qed.

Lemma forallb_pointwise {A} (f g : A -> bool) l :
  (forall x, f x = g x) -> forallb f l = forallb g l.
Proof. intros E. induction l as [|x l IH]; simpl; [|rewrite E, IH]; reflexivity. Qed.

Lemma alnum_label_char c : is_alnum c = true -> is_label_char c = true.
Proof. unfold is_label_char. intros ->. reflexivity. Qed.

Lemma alpha_alnum c : is_alpha c = true -> is_alnum c = true.
Proof. unfold is_alnum. intros ->. reflexivity. Qed.

(** The label of the pattern is the label of the grammar. *)
Lemma matches_label l : matches label l <-> is_label l = true.
Proof.
  unfold label, alnum, alnum_hyphen, Opt. split.
  - intros H. apply matches_Cat_inv in H as (s1 & s2 & -> & H1 & H2).
    apply matches_Cls_inv in H1 as (c & -> & Hc). rewrite alnum_mem in Hc.
    apply matches_Alt_inv in H2 as [H2|H2].
    + apply matches_Eps_inv in H2 as ->. simpl.
      now rewrite Hc, (alnum_label_char _ Hc).
    + apply matches_Cat_inv in H2 as (m & e & -> & Hm & He).
      apply matches_Cls_inv in He as (d & -> & Hd). rewrite alnum_mem in Hd.
      apply matches_UpTo in Hm as [Hl Hall].
      rewrite (forallb_pointwise _ _ _ alnum_hyphen_mem) in Hall.
      change ([c] ++ m ++ [d]) with ((c :: m) ++ [d]).
      unfold is_label. change ((c :: m) ++ [d]) with (c :: m ++ [d]) at 1.
      cbv beta iota. rewrite last_last, Hc, Hd, forallb_app.
      simpl forallb. rewrite (alnum_label_char _ Hc), (alnum_label_char _ Hd), Hall.
      rewrite length_app. simpl length.
      replace (S (length m) + 1 <=? 63) with true; [reflexivity|].
      symmetry. apply Nat.leb_le. lia.
  - intros H. destruct l as [|c rest]; [discriminate|].
    unfold is_label in H.
    apply andb_prop in H as [H Hall]. apply andb_prop in H as [H Hd].
    apply andb_prop in H as [Hl Hc]. apply Nat.leb_le in Hl.
    change (c :: rest) with ([c] ++ rest). constructor.
    + constructor. now rewrite alnum_mem.
    + induction rest as [|d m _] using rev_ind; [apply MAltL; constructor|].
      apply MAltR. constructor.
      * apply matches_UpTo. rewrite (forallb_pointwise _ _ _ alnum_hyphen_mem).
        simpl in Hl, Hall. rewrite length_app in Hl. simpl in Hl.
        apply andb_prop in Hall as [_ Hall]. rewrite forallb_app in Hall.
        apply andb_prop in Hall as [Hall _]. split; [lia|assumption].
      * constructor. rewrite alnum_mem.
        change (c :: m ++ [d]) with ((c :: m) ++ [d]) in Hd.
        now rewrite last_last in Hd.
Qed.

(** *** Splitting at a separator and joining again *)

Lemma split_on_nonempty sep s : split_on sep s <> [].
Proof.
  destruct s as [|c s]; simpl; [discriminate|].
  destruct (Ascii.eqb c sep); [discriminate|].
  destruct (split_on sep s); discriminate.
Qed.

Lemma split_on_join sep s :
  join_with sep (removelast (split_on sep s)) (List.last (split_on sep s) []) = s.
Proof.
  unfold join_with. induction s as [|c s IH]; [reflexivity|].
  simpl split_on. destruct (Ascii.eqb c sep) eqn:E.
  - apply Ascii.eqb_eq in E as ->.
    pose proof (split_on_nonempty sep s) as Hne.
    destruct (split_on sep s) as [|p ps]; [contradiction|].
    simpl in IH |- *. now rewrite IH.
  - destruct (split_on sep s) as [|p ps] eqn:Es.
    + now apply split_on_nonempty in Es.
    + destruct ps as [|q ps]; simpl in IH |- *; now rewrite <- IH.
Qed.

Lemma split_on_free sep l : free_of sep l -> split_on sep l = [l].
Proof.
  induction 1 as [|c l Hc _ IH]; [reflexivity|].
  simpl. apply Ascii.eqb_neq in Hc. now rewrite Hc, IH.
Qed.

Lemma split_on_app sep l rest :
  free_of sep l -> split_on sep (l ++ sep :: rest) = l :: split_on sep rest.
Proof.
  induction 1 as [|c l Hc _ IH]; simpl.
  - now rewrite Ascii.eqb_refl.
  - apply Ascii.eqb_neq in Hc. now rewrite Hc, IH.
Qed.

Lemma split_on_joined sep ls t :
  Forall (free_of sep) ls -> free_of sep t ->
  split_on sep (join_with sep ls t) = ls ++ [t].
Proof.
  unfold join_with. intros Hls Ht. induction Hls as [|l ls Hl _ IH]; simpl.
  - now apply split_on_free.
  - rewrite <- !app_assoc. simpl. now rewrite split_on_app, IH.
Qed.

Lemma label_char_not_dot c : is_label_char c = true -> c <> "."%char.
Proof. intros H ->. discriminate H. Qed.

Lemma alpha_not_dot c : is_alpha c = true -> c <> "."%char.
Proof. intros H ->. discriminate H. Qed.

Lemma alpha_not_newline c : is_alpha c = true -> c <> newline.
Proof. intros H ->. discriminate H. Qed.

Lemma forallb_free (p : ascii -> bool) sep l :
  (forall c, p c = true -> c <> sep) -> forallb p l = true -> free_of sep l.
Proof.
  intros Hp. induction l as [|c l IH]; simpl; intros H; [constructor|].
  apply andb_prop in H as [Hc Hl]. constructor; [exact (Hp _ Hc) | exact (IH Hl)].
Qed.

Lemma is_label_free l : is_label l = true -> free_of "." l.
Proof.
  destruct l as [|c l]; [discriminate|]. unfold is_label. intros H.
  apply andb_prop in H as [_ H]. revert H. apply forallb_free, label_char_not_dot.
Qed.

Lemma is_alpha_run_free l : is_alpha_run l = true -> free_of "." l.
Proof.
  unfold is_alpha_run. intros H. apply andb_prop in H as [_ H].
  revert H. apply forallb_free, alpha_not_dot.
Qed.

(** *** The language of [domain_pattern] *)

Lemma matches_alpha_run t : matches (AtLeast 2 alpha) t <-> is_alpha_run t = true.
Proof.
  unfold alpha, is_alpha_run. rewrite matches_AtLeast.
  rewrite (forallb_pointwise _ _ _ alpha_mem), andb_true_iff, Nat.leb_le. tauto.
Qed.

Lemma matches_Dollar nl : matches Dollar nl <-> nl = [] \/ nl = [newline].
Proof.
  unfold Dollar, Opt. split.
  - intros H. apply matches_Alt_inv in H as [H|H].
    + left. now apply matches_Eps_inv.
    + right. now apply matches_Chr.
  - intros [->| ->]; [apply MAltL; constructor | apply MAltR; now apply matches_Chr].
Qed.

Lemma matches_dotted x :
  matches (Cat label (Chr ".")) x
  <-> exists l, is_label l = true /\ x = l ++ ["."%char].
Proof.
  split.
  - intros H. apply matches_Cat_inv in H as (l & d & -> & Hl & Hd).
    apply matches_Chr in Hd as ->. apply matches_label in Hl. eauto.
  - intros (l & Hl & ->). constructor; [now apply matches_label | now apply matches_Chr].
Qed.

Lemma Forall_dotted ws :
  Forall (matches (Cat label (Chr "."))) ws ->
  exists ls, Forall (fun l => is_label l = true) ls
             /\ ws = map (fun l => l ++ ["."%char]) ls.
Proof.
  induction 1 as [|x ws Hx _ (ls & Hls & ->)].
  - exists []. split; [constructor | reflexivity].
  - apply matches_dotted in Hx as (l & Hl & ->).
    exists (l :: ls). split; [constructor; assumption | reflexivity].
Qed.

(** The words of the pattern: one label or more, each followed by a dot,
    then an alphabetic run of two characters or more, then what [$]
    lets through. *)
Lemma matches_domain_pattern w :
  matches domain_pattern w
  <-> exists ls t nl,
        ls <> [] /\ Forall (fun l => is_label l = true) ls
        /\ is_alpha_run t = true /\ (nl = [] \/ nl = [newline])
        /\ w = join_with "." ls (t ++ nl).
Proof.
  unfold domain_pattern, Plus, join_with. split.
  - intros H. apply matches_Cat_inv in H as (h & tl & -> & Hh & Htl).
    apply matches_Cat_inv in Hh as (x & xs & -> & Hx & Hxs).
    apply matches_Cat_inv in Htl as (t & nl & -> & Ht & Hnl).
    apply matches_dotted in Hx as (l & Hl & ->).
    apply matches_Star_concat in Hxs as (ws & Hws & ->).
    apply Forall_dotted in Hws as (ls & Hls & ->).
    apply matches_alpha_run in Ht. apply matches_Dollar in Hnl.
    exists (l :: ls), t, nl. repeat split; try assumption; try discriminate.
    now constructor.
  - intros (ls & t & nl & Hne & Hls & Ht & Hnl & ->).
    destruct ls as [|l ls]; [contradiction|]. inversion Hls as [|? ? Hl Hls']; subst.
    simpl. constructor.
    + constructor; [apply matches_dotted; eauto|].
      apply matches_Star_concat. exists (map (fun l => l ++ ["."%char]) ls).
      split; [|reflexivity]. clear -Hls'.
      induction Hls'; constructor; [apply matches_dotted; eauto | assumption].
    + constructor; [now apply matches_alpha_run | now apply matches_Dollar].
Qed.

(** The grammar, as a decomposition of the word. *)
Lemma hostname_grammar_join candidate :
  hostname_grammar candidate = true
  <-> exists ls t,
        ls <> [] /\ Forall (fun l => is_label l = true) ls
        /\ is_alpha_run t = true
        /\ list_ascii_of_string candidate = join_with "." ls t.
Proof.
  unfold hostname_grammar. set (w := list_ascii_of_string candidate). split.
  - intros H. apply andb_prop in H as [H Ht]. apply andb_prop in H as [Hn Hls].
    apply Nat.leb_le in Hn.
    exists (removelast (split_on "." w)), (List.last (split_on "." w) []).
    repeat split.
    + destruct (split_on "." w) as [|p [|q ps]]; simpl in Hn; try lia. simpl. discriminate.
    + apply List.Forall_forall. intros l Hl. rewrite forallb_forall in Hls. auto.
    + assumption.
    + symmetry. apply split_on_join.
  - intros (ls & t & Hne & Hls & Ht & ->).
    assert (Hfree : Forall (free_of ".") ls).
    { eapply List.Forall_impl; [|exact Hls]. apply is_label_free. }
    rewrite (split_on_joined _ _ _ Hfree (is_alpha_run_free _ Ht)).
    rewrite removelast_last, last_last, Ht, length_app.
    replace (forallb is_label ls) with true.
    + replace (2 <=? length ls + length [t]) with true; [reflexivity|].
      symmetry. apply Nat.leb_le. destruct ls; [contradiction | simpl; lia].
    + symmetry. apply forallb_forall. rewrite List.Forall_forall in Hls. exact Hls.
Qed.

Lemma ends_with_newline_app x :
  ends_with_newline (string_of_list_ascii (x ++ [newline])) = true.
Proof.
  unfold ends_with_newline. rewrite list_ascii_of_string_of_list_ascii, rev_app_distr.
  reflexivity.
Qed.

(** Apart from a final newline, the validator accepts the grammar of the
    pattern and nothing else. *)
Lemma validate_domain_hostname_grammar candidate :
  ends_with_newline candidate = false ->
  validate_domain candidate = hostname_grammar candidate.
Proof.
  intros Hnl. apply eq_true_iff_eq. unfold validate_domain.
  rewrite matchb_matches, matches_domain_pattern, hostname_grammar_join. split.
  - intros (ls & t & nl & Hne & Hls & Ht & [->| ->] & Hw).
    + rewrite app_nil_r in Hw. eauto 6.
    + exfalso. unfold join_with in Hw. rewrite app_assoc in Hw.
      rewrite <- (string_of_list_ascii_of_string candidate), Hw in Hnl.
      rewrite ends_with_newline_app in Hnl. discriminate.
  - intros (ls & t & Hne & Hls & Ht & Hw). exists ls, t, [].
    rewrite app_nil_r. auto 6.
Qed.

Lemma list_ascii_of_string_app s t :
  list_ascii_of_string (s +:+ t) = list_ascii_of_string s ++ list_ascii_of_string t.
Proof. induction s as [|c s IH]; simpl; [reflexivity | now rewrite IH]. Qed.

(** A candidate that ends with a newline is accepted when the rest is. *)
Lemma validate_domain_final_newline candidate :
  validate_domain (candidate +:+ String newline EmptyString)
  = hostname_grammar candidate.
Proof.
  apply eq_true_iff_eq. unfold validate_domain.
  rewrite matchb_matches, matches_domain_pattern, hostname_grammar_join.
  rewrite list_ascii_of_string_app. simpl list_ascii_of_string at 2. split.
  - intros (ls & t & nl & Hne & Hls & Ht & [->| ->] & Hw).
    + exfalso. rewrite app_nil_r in Hw.
      assert (Hin : In newline (join_with "." ls t)).
      { rewrite <- Hw. apply in_or_app. right. now left. }
      unfold join_with in Hin. apply in_app_or in Hin as [Hin|Hin].
      * apply in_concat in Hin as (x & Hx & Hin).
        apply in_map_iff in Hx as (l & <- & Hl).
        rewrite List.Forall_forall in Hls. specialize (Hls _ Hl).
        apply in_app_or in Hin as [Hin|[Hin|[]]]; [|discriminate Hin].
        destruct l as [|c l]; [discriminate|]. unfold is_label in Hls.
        apply andb_prop in Hls as [_ Hall]. rewrite forallb_forall in Hall.
        specialize (Hall _ Hin). discriminate Hall.
      * unfold is_alpha_run in Ht. apply andb_prop in Ht as [_ Hall].
        rewrite forallb_forall in Hall. specialize (Hall _ Hin). discriminate Hall.
    + unfold join_with in Hw. rewrite app_assoc in Hw.
      apply app_inj_tail in Hw as [Hw _]. eauto 6.
  - intros (ls & t & Hne & Hls & Ht & ->). exists ls, t, [newline].
    unfold join_with. rewrite app_assoc. auto 6.
Qed.

Lemma is_label_bounds l : is_label l = true -> 1 <= length l <= 63.
Proof.
  destruct l as [|c l]; [discriminate|]. unfold is_label. intros H.
  apply andb_prop in H as [H _]. apply andb_prop in H as [H _].
  apply andb_prop in H as [H _]. apply Nat.leb_le in H. simpl in *. lia.
Qed.

(** The validator on some names. *)
Example validate_domain_examples :
  validate_domain "a.example.com" = true
  /\ validate_domain "xn--fiq228c.com" = true
  /\ validate_domain "" = false
  /\ validate_domain "com" = false
  /\ validate_domain ".example.com" = false
  /\ validate_domain "example.com." = false
  /\ validate_domain "a..com" = false
  /\ validate_domain "-a.example.com" = false
  /\ validate_domain "a-.example.com" = false
  /\ validate_domain "example.c" = false
  /\ validate_domain "example.c0m" = false
  /\ validate_domain "not a domain" = false.
Proof. repeat split; vm_compute; reflexivity. Qed.

(** A name followed by a newline is accepted: [$] lets it through. *)
Example validate_domain_trailing_newline :
  validate_domain ("a.com" +:+ String newline EmptyString) = true.
Proof. vm_compute. reflexivity. Qed.

(** C3, as stated, fails: the validator accepts a name whose final label
    exceeds 63 characters, which the grammar of the contract rejects. *)
Lemma validate_domain_long_final_label :
  validate_domain long_final_label = true
  /\ spec_validate long_final_label = false.
Proof. split; vm_compute; reflexivity. Qed.

(** C3, amended.  For every candidate that does not end with a newline,
    [validate_domain] returns true exactly when the candidate is one label
    or more (a letter or digit, then optionally up to 61 letters, digits
    or hyphens and a letter or digit), each followed by a dot, then a final
    run of two letters or more with no upper bound on its length.  In
    particular it returns false when a label before the final one is empty
    (so for a leading dot and for two dots in a row) or exceeds 63
    characters, and when the final label is not alphabetic or shorter than
    2 (so for the empty string and for a trailing dot). *)
Theorem validate_domain_pattern_grammar (candidate : string) :
  ends_with_newline candidate = false ->
  let parts := split_on "." (list_ascii_of_string candidate) in
  validate_domain candidate = hostname_grammar candidate
  /\ (forall l, In l (removelast parts) -> l = [] \/ 63 < length l ->
      validate_domain candidate = false)
  /\ (is_alpha_run (List.last parts []) = false ->
      validate_domain candidate = false).
Proof.
  intros Hnl parts. rewrite (validate_domain_hostname_grammar _ Hnl).
  unfold hostname_grammar. fold parts. split; [reflexivity|]. split.
  - intros l Hin Hbad.
    destruct (forallb is_label (removelast parts)) eqn:Hall.
    + rewrite forallb_forall in Hall. apply Hall, is_label_bounds in Hin.
      destruct Hbad as [->|Hlong]; simpl in Hin; lia.
    + now rewrite andb_false_r.
  - intros ->. apply andb_false_r.
Qed.

(** The amended statement on a name the validator accepts. *)
Lemma validate_domain_pattern_grammar_witness :
  ends_with_newline "a.example.com" = false
  /\ validate_domain "a.example.com" = hostname_grammar "a.example.com".
Proof.
  split; [reflexivity|].
  exact (proj1 (validate_domain_pattern_grammar "a.example.com" eq_refl)).
Defined.

End ValidatorFacts.

(** ** The collectors *)

Module CollectorFacts.
Import Regex RegexFacts Subdomain Examples SubdomainTerms ValidatorFacts.

Lemma validate_domain_leading_dot rest :
  validate_domain ("." +:+ rest) = false.
Proof.
  apply not_true_is_false. unfold validate_domain.
  rewrite matchb_matches, matches_domain_pattern.
  intros (ls & t & nl & Hne & Hls & _ & _ & Hw).
  destruct ls as [|l ls]; [contradiction|]. inversion Hls as [|? ? Hl _]; subst.
  destruct l as [|c l]; [discriminate|].
  unfold join_with in Hw. simpl in Hw. injection Hw as Hc _. subst c.
  unfold is_label in Hl. apply andb_prop in Hl as [Hl _].
  apply andb_prop in Hl as [Hl _]. apply andb_prop in Hl as [_ Hc].
  discriminate Hc.
Qed.

Lemma securitytrails_entries domain l : forall acc x,
  x ∈ foldl (securitytrails_entry domain) acc l ->
  x ∈ acc \/ (under domain x /\ validate_domain x = true).
Proof.
  induction l as [|sub l IH]; simpl; intros acc x Hx; [now left|].
  apply IH in Hx as [Hx|Hx]; [|now right].
  unfold securitytrails_entry in Hx.
  destruct (validate_domain (sub +:+ "." +:+ domain)) eqn:Hv; [|now left].
  apply elem_of_union in Hx as [Hx|Hx]; [now left|].
  apply elem_of_singleton in Hx as ->. right. split; [now exists sub | assumption].
Qed.

Lemma shodan_entries domain l : forall acc x,
  x ∈ foldl (shodan_entry domain) acc l ->
  x ∈ acc \/ (under domain x /\ validate_domain x = true).
Proof.
  induction l as [|record l IH]; simpl; intros acc x Hx; [now left|].
  apply IH in Hx as [Hx|Hx]; [|now right].
  unfold shodan_entry in Hx.
  destruct (subdomain_field record) as [sub|]; [|now left].
  destruct (str_truthy sub); [|now left].
  destruct (validate_domain (sub +:+ "." +:+ domain)) eqn:Hv; [|now left].
  apply elem_of_union in Hx as [Hx|Hx]; [now left|].
  apply elem_of_singleton in Hx as ->. right. split; [now exists sub | assumption].
Qed.

Lemma shodan_types domain body l : forall acc x,
  x ∈ foldl (shodan_records domain body) acc l ->
  x ∈ acc \/ (under domain x /\ validate_domain x = true).
Proof.
  induction l as [|ty l IH]; simpl; intros acc x Hx; [now left|].
  apply IH in Hx as [Hx|Hx]; [|now right].
  unfold shodan_records in Hx. now apply shodan_entries in Hx.
Qed.

(** Unfolds what a collector returns, and nothing of what it computed. *)
Ltac reveal := unfold returned; cbn [value net logged negb].

Lemma Returned_inj s s' : Returned s = Returned s' -> s = s'.
Proof. congruence. Qed.

Lemma run_securitytrails_found w cfg domain s x :
  value (run_securitytrails w cfg domain) = Returned s -> x ∈ s ->
  under domain x /\ validate_domain x = true.
Proof.
  unfold run_securitytrails. destruct (subdomain cfg) as [sc|]; reveal.
  2:{ intros <-%Returned_inj Hx. set_solver. }
  destruct (key_truthy (securitytrails_api_key sc)); reveal.
  2:{ intros <-%Returned_inj Hx. set_solver. }
  destruct (securitytrails_get w _) as [body|status|e|e]; reveal;
    intros <-%Returned_inj Hx; try set_solver.
  apply securitytrails_entries in Hx as [Hx|Hx]; [set_solver | assumption].
Qed.

Lemma run_shodan_found w cfg domain s x :
  value (run_shodan w cfg domain) = Returned s -> x ∈ s ->
  under domain x /\ validate_domain x = true.
Proof.
  unfold run_shodan. destruct (subdomain cfg) as [sc|]; reveal.
  2:{ intros <-%Returned_inj Hx. set_solver. }
  destruct (shodan_api_key sc) as [api_key|]; reveal.
  2:{ intros <-%Returned_inj Hx. set_solver. }
  destruct (str_truthy api_key); reveal.
  2:{ intros <-%Returned_inj Hx. set_solver. }
  destruct (shodan_get w _) as [body|status|e|e]; reveal;
    intros <-%Returned_inj Hx; try set_solver.
  apply shodan_types in Hx as [Hx|Hx]; [set_solver | assumption].
Qed.

Lemma is_prefix_app p q : is_prefix p (p ++ q) = true.
Proof.
  induction p as [|c p IH]; simpl; [reflexivity|].
  now rewrite Ascii.eqb_refl.
Qed.

Lemma endswith_app a b : endswith (a +:+ b) b = true.
Proof.
  unfold endswith. rewrite list_ascii_of_string_app, rev_app_distr.
  apply is_prefix_app.
Qed.

(** *** The requests of a collector carry its name *)

Lemma run_subfinder_offline w cfg domain : net (run_subfinder w cfg domain) = [].
Proof.
  unfold run_subfinder, returned.
  repeat (case_match; cbn [net]; try reflexivity).
Qed.

Lemma run_crtsh_tagged w cfg domain : tagged "crtsh" (net (run_crtsh w cfg domain)).
Proof.
  unfold run_crtsh, returned.
  repeat (case_match; cbn [net]); repeat constructor.
Qed.

Lemma run_securitytrails_tagged w cfg domain :
  tagged "securitytrails" (net (run_securitytrails w cfg domain)).
Proof.
  unfold run_securitytrails, returned.
  repeat (case_match; cbn [net]); repeat constructor.
Qed.

Lemma run_shodan_tagged w cfg domain :
  tagged "shodan" (net (run_shodan w cfg domain)).
Proof.
  unfold run_shodan, returned.
  repeat (case_match; cbn [net]); repeat constructor.
Qed.

(** *** The encodings tried on the tool's output file *)

(** The file is read as UTF-8 when that decodes, else as GBK when that
    decodes, else as UTF-8 with a byte order mark; the lines are stripped
    and the empty ones dropped, and nothing else is done to them. *)
Lemma read_file_with_encoding_order w path :
  (forall ls, open_read w path "utf-8" = Lines ls ->
              (read_file_with_encoding w path).1 = stripped_lines ls)
  /\ (open_read w path "utf-8" = UnicodeDecodeError ->
      forall ls, open_read w path "gbk" = Lines ls ->
                 (read_file_with_encoding w path).1 = stripped_lines ls)
  /\ (open_read w path "utf-8" = UnicodeDecodeError ->
      open_read w path "gbk" = UnicodeDecodeError ->
      forall ls, open_read w path "utf-8-sig" = Lines ls ->
                 (read_file_with_encoding w path).1 = stripped_lines ls)
  /\ (open_read w path "utf-8" = UnicodeDecodeError ->
      open_read w path "gbk" = UnicodeDecodeError ->
      open_read w path "utf-8-sig" = UnicodeDecodeError ->
      (read_file_with_encoding w path).1 = ∅).
Proof.
  unfold read_file_with_encoding, encodings. cbn [read_with].
  repeat split.
  - intros ls ->. reflexivity.
  - intros -> ls ->. reflexivity.
  - intros -> -> ls ->. reflexivity.
  - intros -> -> ->. reflexivity.
Qed.

Lemma elem_of_stripped_lines ls x :
  x ∈ stripped_lines ls <-> x <> ""%string /\ exists l, l ∈ ls /\ x = strip l.
Proof.
  unfold stripped_lines, str_truthy.
  rewrite elem_of_list_to_set, list_elem_of_filter, negb_true_iff, String.eqb_neq.
  rewrite list_elem_of_In, in_map_iff. split.
  - intros (Hne & l & <- & Hl). split; [assumption|]. exists l.
    split; [now apply list_elem_of_In | reflexivity].
  - intros (Hne & l & Hl & ->). split; [assumption|]. exists l.
    split; [reflexivity | now apply list_elem_of_In].
Qed.

(** C9.  The collector fails the contract on a file that decodes as UTF-8
    and holds a line that is no hostname: the line is returned with the
    hostnames, though the validator rejects it. *)
Theorem run_subfinder_returns_unvalidated_line :
  value (run_subfinder tool_writes_junk all_keys "example.com")
  = Returned {["www.example.com"; "not a domain"]}%string
  /\ validate_domain "not a domain" = false.
Proof. split; vm_compute; reflexivity. Qed.

(** C10.  Every name the SecurityTrails collector or the Shodan collector
    returns is a prefix, a dot and the queried domain, with a prefix that
    is not empty, and it validates.  The certificate-log collector has no
    such property: it keeps a name that only contains the domain. *)
Theorem keyed_collectors_return_names_under_domain
    (w : world) (cfg : config) (domain : string) (s : gset string) (x : string) :
  value (run_securitytrails w cfg domain) = Returned s
  \/ value (run_shodan w cfg domain) = Returned s ->
  x ∈ s ->
  (exists prefix,
      prefix <> ""%string /\ x = (prefix +:+ "." +:+ domain)%string)
  /\ endswith x ("." +:+ domain) = true
  /\ validate_domain x = true
  /\ (crtsh_row "example.com" ∅ [""; ""; ""; ""; "example.com.evil.org"]%string
      = {["example.com.evil.org"%string]}
      /\ endswith "example.com.evil.org" ".example.com" = false).
Proof.
  intros Hs Hx.
  assert (Hu : under domain x /\ validate_domain x = true).
  { destruct Hs as [Hs|Hs];
      [eapply run_securitytrails_found | eapply run_shodan_found]; eassumption. }
  destruct Hu as [[prefix ->] Hv]. split; [|split; [|split]].
  - exists prefix. split; [|reflexivity]. intros ->.
    change (validate_domain ("." +:+ domain) = true) in Hv.
    now rewrite validate_domain_leading_dot in Hv.
  - apply endswith_app.
  - exact Hv.
  - split; vm_compute; reflexivity.
Qed.

(** C10 on an answer of SecurityTrails with a good and a bad prefix. *)
Lemma keyed_collectors_return_names_under_domain_witness :
  value (run_securitytrails securitytrails_answers all_keys "example.com")
  = Returned {["www.example.com"%string]}
  /\ validate_domain "www.example.com" = true.
Proof.
  assert (Hs : value (run_securitytrails securitytrails_answers all_keys "example.com")
               = Returned {["www.example.com"%string]})
    by (vm_compute; reflexivity).
  split; [exact Hs|].
  refine (proj1 (proj2 (proj2
    (keyed_collectors_return_names_under_domain securitytrails_answers all_keys
       "example.com" {["www.example.com"%string]} "www.example.com"
       (or_introl Hs) _)))).
  vm_compute. reflexivity.
Defined.

End CollectorFacts.

(** ** The paginated collector *)

Module ZoomeyeFacts.
Import Subdomain Examples SubdomainTerms CollectorFacts.

Lemma zoomeye_item_step_name domain acc u item :
  (zoomeye_item_step domain (acc, u) item).1
  = acc ∪ (match item_name domain item with Some x => {[x]} | None => ∅ end).
Proof.
  unfold zoomeye_item_step, item_name.
  destruct (item_domain item) as [d|].
  - destruct (validate_domain d); simpl; set_solver.
  - destruct (item_url item) as [u'|]; [|simpl; set_solver].
    destruct (startswith u' "http://" || startswith u' "https://"); cbn [andb];
      [|simpl; set_solver].
    destruct (endswith _ domain && validate_domain _); simpl; set_solver.
Qed.

Lemma zoomeye_items_names domain items : forall acc u,
  (foldl (zoomeye_item_step domain) (acc, u) items).1
  = acc ∪ list_to_set (omap (item_name domain) items).
Proof.
  induction items as [|item items IH]; intros acc u.
  - simpl. set_solver.
  - cbn [foldl].
    pose proof (zoomeye_item_step_name domain acc u item) as Hstep.
    destruct (zoomeye_item_step domain (acc, u) item) as [acc' u'].
    simpl in Hstep. subst acc'. rewrite IH. cbn [omap list_omap].
    destruct (item_name domain item); cbn [list_to_set]; set_solver.
Qed.

Lemma send_index s req : length (zs_net (send s req)) - 1 = length (zs_net s).
Proof. unfold send. cbn [zs_net]. rewrite length_app. simpl. lia. Qed.

(** A page that is answered: its names are added, and the loop goes on to
    the next page when there is one. *)
Lemma zoomeye_page_ok w domain s body :
  zoomeye_post w (length (zs_net s)) (request_of s) = HttpOk body ->
  exists s',
    zoomeye_page w domain s
    = (if (current_page s <? pages_after s body)%Z then Continue s' else Break s')
    /\ zs_net s' = zs_net s ++ [request_of s]
    /\ zs_subdomains s' = zs_subdomains s ∪ page_names domain body
    /\ total_pages s' = pages_after s body
    /\ current_page s'
       = (if (current_page s <? pages_after s body)%Z
          then current_page s + 1 else current_page s)%Z
    /\ page (zs_payload s')
       = (if (current_page s <? pages_after s body)%Z
          then page (zs_payload s) + 1 else page (zs_payload s))%Z
    /\ pagesize (zs_payload s') = pagesize (zs_payload s).
Proof.
  intros Hok. unfold zoomeye_page. fold (request_of s).
  rewrite send_index, Hok. cbn [send zs_net zs_payload current_page total_pages
                                 zs_subdomains zs_url zs_log].
  fold (pages_after s body).
  pose proof (zoomeye_items_names domain (default [] (data body))
                (zs_subdomains s) (zs_url s)) as Hnames.
  destruct (foldl _ _ _) as [subs url]. simpl in Hnames. subst subs.
  destruct (current_page s <? pages_after s body)%Z;
    eexists; (split; [reflexivity|]); cbn; repeat split; reflexivity.
Qed.

(** A page whose request fails: the loop stops with what it has. *)
Lemma zoomeye_page_failed w domain s :
  page_failure (zoomeye_post w (length (zs_net s)) (request_of s)) ->
  exists s',
    zoomeye_page w domain s = Break s'
    /\ zs_net s' = zs_net s ++ [request_of s]
    /\ zs_subdomains s' = zs_subdomains s.
Proof.
  intros Hf. unfold zoomeye_page. fold (request_of s). rewrite send_index.
  destruct (zoomeye_post w _ _) as [body|status|e|e]; try contradiction;
    eexists; (split; [reflexivity|]); split; reflexivity.
Qed.

Lemma answers_tail w bodies lo m :
  answers w bodies lo (S m) -> answers w bodies (S lo) m.
Proof.
  intros H i req Hi. replace (S lo + i) with (lo + S i) by lia.
  apply H. lia.
Qed.

Lemma names_from_S domain bodies lo m :
  names_from domain bodies lo (S m)
  = page_names domain (bodies lo) ∪ names_from domain bodies (S lo) m.
Proof. reflexivity. Qed.

Lemma page_numbers_S first m :
  page_numbers first (S m) = Some first :: page_numbers (first + 1) m.
Proof.
  unfold page_numbers. cbn [seq map]. rewrite Z.add_0_r. f_equal.
  rewrite <- seq_shift, map_map. apply map_ext. intros i. f_equal. lia.
Qed.

Lemma page_of_request_of s : page_of (request_of s) = Some (page (zs_payload s)).
Proof. reflexivity. Qed.

(** After the first page: the pages that remain are all answered. *)
Lemma zoomeye_loop_answered w domain bodies : forall m s fuel,
  (1 < current_page s)%Z ->
  (current_page s + Z.of_nat m = total_pages s)%Z ->
  S m <= fuel ->
  answers w bodies (length (zs_net s)) (S m) ->
  exists s',
    zoomeye_loop fuel w domain s = Some (Break s')
    /\ map page_of (zs_net s')
       = map page_of (zs_net s) ++ page_numbers (page (zs_payload s)) (S m)
    /\ zs_subdomains s'
       = zs_subdomains s ∪ names_from domain bodies (length (zs_net s)) (S m).
Proof.
  induction m as [|m IH]; intros s fuel Hc Hp Hfuel Hans;
    (destruct fuel as [|fuel]; [lia|]); cbn [zoomeye_loop];
    (replace (current_page s <=? total_pages s)%Z with true
      by (symmetry; apply Z.leb_le; lia));
    pose proof (Hans 0 (request_of s) ltac:(lia)) as Hok;
    rewrite Nat.add_0_r in Hok;
    destruct (zoomeye_page_ok w domain s _ Hok)
      as (s1 & Hpage & Hnet & Hsubs & Htot & Hcur & Hpg & Hsz);
    unfold pages_after in *;
    (replace (current_page s =? 1)%Z with false in *
      by (symmetry; apply Z.eqb_neq; lia)).
  - replace (current_page s <? total_pages s)%Z with false in *
      by (symmetry; apply Z.ltb_ge; lia).
    rewrite Hpage. exists s1. split; [reflexivity|]. split.
    + rewrite Hnet, map_app, page_numbers_S. reflexivity.
    + rewrite Hsubs, names_from_S. unfold names_from. simpl. set_solver.
  - replace (current_page s <? total_pages s)%Z with true in *
      by (symmetry; apply Z.ltb_lt; lia).
    rewrite Hpage.
    assert (Hlen : length (zs_net s1) = S (length (zs_net s)))
      by (rewrite Hnet, length_app; simpl; lia).
    destruct (IH s1 fuel) as (s' & Hloop & Hnet' & Hsubs').
    + lia.
    + lia.
    + lia.
    + rewrite Hlen. now apply answers_tail.
    + exists s'. split; [exact Hloop|]. split.
      * rewrite Hnet', Hnet, map_app, <- app_assoc, Hpg.
        rewrite (page_numbers_S _ (S m)). reflexivity.
      * rewrite Hsubs', Hsubs, Hlen, (names_from_S _ _ _ (S m)). set_solver.
Qed.

(** After the first page: [m] pages are answered and the request of the
    next one fails. *)
Lemma zoomeye_loop_fails w domain bodies : forall m s fuel,
  (1 < current_page s)%Z ->
  (current_page s + Z.of_nat m <= total_pages s)%Z ->
  S m <= fuel ->
  answers w bodies (length (zs_net s)) m ->
  (forall req, page_failure (zoomeye_post w (length (zs_net s) + m) req)) ->
  exists s',
    zoomeye_loop fuel w domain s = Some (Break s')
    /\ map page_of (zs_net s')
       = map page_of (zs_net s) ++ page_numbers (page (zs_payload s)) (S m)
    /\ zs_subdomains s'
       = zs_subdomains s ∪ names_from domain bodies (length (zs_net s)) m.
Proof.
  induction m as [|m IH]; intros s fuel Hc Hp Hfuel Hans Hfail;
    (destruct fuel as [|fuel]; [lia|]); cbn [zoomeye_loop];
    (replace (current_page s <=? total_pages s)%Z with true
      by (symmetry; apply Z.leb_le; lia)).
  - specialize (Hfail (request_of s)). rewrite Nat.add_0_r in Hfail.
    destruct (zoomeye_page_failed w domain s Hfail) as (s1 & Hpage & Hnet & Hsubs).
    rewrite Hpage. exists s1. split; [reflexivity|]. split.
    + rewrite Hnet, map_app, page_numbers_S. reflexivity.
    + rewrite Hsubs. unfold names_from. simpl. set_solver.
  - pose proof (Hans 0 (request_of s) ltac:(lia)) as Hok.
    rewrite Nat.add_0_r in Hok.
    destruct (zoomeye_page_ok w domain s _ Hok)
      as (s1 & Hpage & Hnet & Hsubs & Htot & Hcur & Hpg & Hsz).
    unfold pages_after in *.
    replace (current_page s =? 1)%Z with false in *
      by (symmetry; apply Z.eqb_neq; lia).
    replace (current_page s <? total_pages s)%Z with true in *
      by (symmetry; apply Z.ltb_lt; lia).
    rewrite Hpage.
    assert (Hlen : length (zs_net s1) = S (length (zs_net s)))
      by (rewrite Hnet, length_app; simpl; lia).
    destruct (IH s1 fuel) as (s' & Hloop & Hnet' & Hsubs').
    + lia.
    + lia.
    + lia.
    + rewrite Hlen. now apply answers_tail.
    + intros req. rewrite Hlen. replace (S (length (zs_net s)) + m)
        with (length (zs_net s) + S m) by lia. apply Hfail.
    + exists s'. split; [exact Hloop|]. split.
      * rewrite Hnet', Hnet, map_app, <- app_assoc, Hpg.
        rewrite (page_numbers_S _ (S m)). reflexivity.
      * rewrite Hsubs', Hsubs, Hlen, (names_from_S _ _ _ m). set_solver.
Qed.

Lemma zoomeye_start_first w domain body :
  zoomeye_post w 0 (request_of (zoomeye_start w domain)) = HttpOk body ->
  exists s1,
    zoomeye_page w domain (zoomeye_start w domain)
    = (if (1 <? announced body)%Z then Continue s1 else Break s1)
    /\ zs_net s1 = [request_of (zoomeye_start w domain)]
    /\ zs_subdomains s1 = page_names domain body
    /\ total_pages s1 = announced body
    /\ current_page s1 = (if (1 <? announced body)%Z then 2 else 1)%Z
    /\ page (zs_payload s1) = (if (1 <? announced body)%Z then 2 else 1)%Z.
Proof.
  intros Hok.
  destruct (zoomeye_page_ok w domain (zoomeye_start w domain) body Hok)
    as (s1 & Hpage & Hnet & Hsubs & Htot & Hcur & Hpg & _).
  change (pages_after (zoomeye_start w domain) body) with (announced body) in *.
  cbn [zoomeye_start current_page zs_net zs_subdomains zs_payload page] in *.
  exists s1. split; [exact Hpage|]. split; [exact Hnet|].
  split; [rewrite Hsubs; set_solver|]. split; [exact Htot|].
  split; [rewrite Hcur | rewrite Hpg]; now destruct (1 <? announced body)%Z.
Qed.

(** From the start: every page is answered. *)
Lemma zoomeye_loop_start_answered w domain bodies fuel :
  requests_due (bodies 0) <= fuel ->
  answers w bodies 0 (requests_due (bodies 0)) ->
  exists s',
    zoomeye_loop fuel w domain (zoomeye_start w domain) = Some (Break s')
    /\ map page_of (zs_net s') = page_numbers 1 (requests_due (bodies 0))
    /\ zs_subdomains s' = names_from domain bodies 0 (requests_due (bodies 0)).
Proof.
  unfold requests_due. intros Hfuel Hans.
  destruct fuel as [|fuel]; [lia|]. cbn [zoomeye_loop].
  change (current_page (zoomeye_start w domain) <=? total_pages (zoomeye_start w domain))%Z
    with true. cbv iota.
  pose proof (Hans 0 (request_of (zoomeye_start w domain)) ltac:(lia)) as Hok.
  cbn [Nat.add] in Hok.
  destruct (zoomeye_start_first w domain _ Hok)
    as (s1 & Hpage & Hnet & Hsubs & Htot & Hcur & Hpg).
  rewrite Hpage. destruct (1 <? announced (bodies 0%nat))%Z eqn:Hmore.
  - apply Z.ltb_lt in Hmore.
    destruct (Z.to_nat (Z.max 1 (announced (bodies 0)))) as [|[|m]] eqn:Hn; try lia.
    destruct (zoomeye_loop_answered w domain bodies m s1 fuel)
      as (s' & Hloop & Hnet' & Hsubs'); try lia.
    + rewrite Hnet. simpl. now apply answers_tail.
    + exists s'. split; [exact Hloop|]. split.
      * rewrite Hnet', Hnet, Hpg, (page_numbers_S 1%Z). reflexivity.
      * rewrite Hsubs', Hsubs, Hnet, (names_from_S _ _ 0). reflexivity.
  - apply Z.ltb_ge in Hmore.
    replace (Z.to_nat (Z.max 1 (announced (bodies 0)))) with 1 by lia.
    exists s1. split; [reflexivity|]. split.
    + rewrite Hnet. reflexivity.
    + rewrite Hsubs. unfold names_from. simpl. set_solver.
Qed.

(** From the start: [j] pages are answered and the request of the next
    page, one of those due, fails. *)
Lemma zoomeye_loop_start_fails w domain bodies j fuel :
  j < requests_due (bodies 0) ->
  S j <= fuel ->
  answers w bodies 0 j ->
  (forall req, page_failure (zoomeye_post w j req)) ->
  exists s',
    zoomeye_loop fuel w domain (zoomeye_start w domain) = Some (Break s')
    /\ map page_of (zs_net s') = page_numbers 1 (S j)
    /\ zs_subdomains s' = names_from domain bodies 0 j.
Proof.
  unfold requests_due. intros Hj Hfuel Hans Hfail.
  destruct fuel as [|fuel]; [lia|]. cbn [zoomeye_loop].
  change (current_page (zoomeye_start w domain) <=? total_pages (zoomeye_start w domain))%Z
    with true. cbv iota.
  destruct j as [|j].
  - destruct (zoomeye_page_failed w domain (zoomeye_start w domain)
                (Hfail _)) as (s1 & Hpage & Hnet & Hsubs).
    rewrite Hpage. exists s1. split; [reflexivity|]. split.
    + rewrite Hnet. reflexivity.
    + rewrite Hsubs. reflexivity.
  - pose proof (Hans 0 (request_of (zoomeye_start w domain)) ltac:(lia)) as Hok.
    cbn [Nat.add] in Hok.
    destruct (zoomeye_start_first w domain _ Hok)
      as (s1 & Hpage & Hnet & Hsubs & Htot & Hcur & Hpg).
    rewrite Hpage.
    replace (1 <? announced (bodies 0%nat))%Z with true in *
      by (symmetry; apply Z.ltb_lt; lia).
    destruct (zoomeye_loop_fails w domain bodies j s1 fuel)
      as (s' & Hloop & Hnet' & Hsubs'); try lia.
    + rewrite Hnet. simpl. now apply answers_tail.
    + intros req. rewrite Hnet. apply Hfail.
    + exists s'. split; [exact Hloop|]. split.
      * rewrite Hnet', Hnet, Hpg, (page_numbers_S 1%Z). reflexivity.
      * rewrite Hsubs', Hsubs, Hnet, (names_from_S _ _ 0). reflexivity.
Qed.

(** *** The loop ends, and every request is the collector's own *)

Lemma zoomeye_page_net w domain s :
  zs_net (state_of (zoomeye_page w domain s)) = zs_net s ++ [request_of s].
Proof.
  destruct (zoomeye_post w (length (zs_net s)) (request_of s))
    as [body|status|e|e] eqn:Hr.
  - destruct (zoomeye_page_ok w domain s body Hr) as (s' & Hpage & Hnet & _).
    rewrite Hpage. now destruct (current_page s <? pages_after s body)%Z.
  - destruct (zoomeye_page_failed w domain s) as (s' & Hpage & Hnet & _).
    { now rewrite Hr. }
    now rewrite Hpage.
  - destruct (zoomeye_page_failed w domain s) as (s' & Hpage & Hnet & _).
    { now rewrite Hr. }
    now rewrite Hpage.
  - unfold zoomeye_page. fold (request_of s). rewrite send_index, Hr. reflexivity.
Qed.

Lemma zoomeye_page_continue w domain s s' :
  zoomeye_page w domain s = Continue s' ->
  current_page s' = (current_page s + 1)%Z
  /\ (current_page s <> 1%Z -> total_pages s' = total_pages s).
Proof.
  destruct (zoomeye_post w (length (zs_net s)) (request_of s))
    as [body|status|e|e] eqn:Hr.
  - destruct (zoomeye_page_ok w domain s body Hr)
      as (s1 & Hpage & _ & _ & Htot & Hcur & _).
    rewrite Hpage. destruct (current_page s <? pages_after s body)%Z; [|discriminate].
    intros [= <-]. split; [exact Hcur|]. intros Hne. rewrite Htot.
    unfold pages_after. apply Z.eqb_neq in Hne. now rewrite Hne.
  - destruct (zoomeye_page_failed w domain s) as (s1 & Hpage & _).
    { now rewrite Hr. }
    rewrite Hpage. discriminate.
  - destruct (zoomeye_page_failed w domain s) as (s1 & Hpage & _).
    { now rewrite Hr. }
    rewrite Hpage. discriminate.
  - unfold zoomeye_page. fold (request_of s). rewrite send_index, Hr. discriminate.
Qed.

(** After the first page the loop ends within the pages that remain. *)
Lemma zoomeye_loop_tail_ends w domain : forall n s fuel,
  (1 < current_page s)%Z ->
  (total_pages s - current_page s < Z.of_nat n)%Z ->
  n <= fuel ->
  is_Some (zoomeye_loop fuel w domain s).
Proof.
  induction n as [|n IH]; intros s fuel Hc Hn Hfuel.
  - destruct fuel; cbn [zoomeye_loop];
      (replace (current_page s <=? total_pages s)%Z with false
        by (symmetry; apply Z.leb_gt; lia)); eauto.
  - destruct fuel as [|fuel]; [lia|]. cbn [zoomeye_loop].
    destruct (current_page s <=? total_pages s)%Z; [|eauto].
    destruct (zoomeye_page w domain s) as [s'|s'|s'] eqn:Hpage; [|eauto|eauto].
    apply zoomeye_page_continue in Hpage as [Hcur Htot].
    apply IH; [lia| |lia]. rewrite Hcur, Htot by lia. lia.
Qed.

(** The turns [run_zoomeye] gives the loop let it end, whatever the
    provider answers. *)
Lemma zoomeye_loop_ends w domain :
  is_Some (zoomeye_loop (zoomeye_turns w domain) w domain (zoomeye_start w domain)).
Proof.
  unfold zoomeye_turns. fold (request_of (zoomeye_start w domain)).
  fold announced.
  destruct (zoomeye_post w 0 (request_of (zoomeye_start w domain)))
    as [body|status|e|e] eqn:Hr; cbn [zoomeye_loop];
    change (current_page (zoomeye_start w domain)
            <=? total_pages (zoomeye_start w domain))%Z with true; cbv iota.
  - fold (announced body).
    destruct (zoomeye_start_first w domain body Hr)
      as (s1 & Hpage & _ & _ & Htot & Hcur & _).
    rewrite Hpage. destruct (1 <? announced body)%Z eqn:Hmore; [|eauto].
    apply Z.ltb_lt in Hmore.
    apply (zoomeye_loop_tail_ends w domain (Z.to_nat (announced body))); lia.
  - destruct (zoomeye_page_failed w domain (zoomeye_start w domain)) as (s1 & -> & _);
      [|eauto].
    change (page_failure (zoomeye_post w 0 (request_of (zoomeye_start w domain)))).
    now rewrite Hr.
  - destruct (zoomeye_page_failed w domain (zoomeye_start w domain)) as (s1 & -> & _);
      [|eauto].
    change (page_failure (zoomeye_post w 0 (request_of (zoomeye_start w domain)))).
    now rewrite Hr.
  - unfold zoomeye_page. fold (request_of (zoomeye_start w domain)).
    rewrite send_index.
    change (length (zs_net (zoomeye_start w domain))) with 0.
    rewrite Hr. eauto.
Qed.

(** More turns than the loop needs change nothing. *)
Lemma zoomeye_loop_more_fuel w domain : forall fuel s c,
  zoomeye_loop fuel w domain s = Some c ->
  forall fuel', fuel <= fuel' -> zoomeye_loop fuel' w domain s = Some c.
Proof.
  induction fuel as [|fuel IH]; intros s c Hloop fuel' Hle.
  - cbn [zoomeye_loop] in Hloop. destruct fuel'; cbn [zoomeye_loop];
      destruct (current_page s <=? total_pages s)%Z; congruence.
  - destruct fuel' as [|fuel']; [lia|]. cbn [zoomeye_loop] in *.
    destruct (current_page s <=? total_pages s)%Z; [|assumption].
    destruct (zoomeye_page w domain s); [|assumption|assumption].
    apply IH; [assumption | lia].
Qed.

Lemma run_zoomeye_within_turns w cfg domain :
  run_zoomeye_within (zoomeye_turns w domain) w cfg domain
  = Some (run_zoomeye w cfg domain).
Proof.
  unfold run_zoomeye.
  destruct (run_zoomeye_within _ w cfg domain) as [r|] eqn:Hrun; [reflexivity|].
  exfalso. unfold run_zoomeye_within in Hrun.
  destruct (subdomain cfg) as [sc|]; [|discriminate].
  destruct (negb _); [discriminate|].
  destruct (zoomeye_loop_ends w domain) as [c Hc]. rewrite Hc in Hrun.
  destruct c; discriminate.
Qed.

(** With more turns than [zoomeye_turns] the collector returns the same. *)
Lemma run_zoomeye_within_more w cfg domain fuel :
  zoomeye_turns w domain <= fuel ->
  run_zoomeye_within fuel w cfg domain = Some (run_zoomeye w cfg domain).
Proof.
  intros Hle. rewrite <- run_zoomeye_within_turns. unfold run_zoomeye_within.
  destruct (subdomain cfg) as [sc|]; [|reflexivity].
  destruct (negb _); [reflexivity|].
  destruct (zoomeye_loop_ends w domain) as [c Hc].
  now rewrite Hc, (zoomeye_loop_more_fuel _ _ _ _ _ Hc _ Hle).
Qed.

Lemma zoomeye_loop_tagged w domain : forall fuel s c,
  zoomeye_loop fuel w domain s = Some c ->
  tagged "zoomeye" (zs_net s) -> tagged "zoomeye" (zs_net (state_of c)).
Proof.
  assert (Hstep : forall s, tagged "zoomeye" (zs_net s) ->
                    tagged "zoomeye" (zs_net (state_of (zoomeye_page w domain s)))).
  { intros s Hs. rewrite zoomeye_page_net. apply Forall_app. split; [assumption|].
    now repeat constructor. }
  induction fuel as [|fuel IH]; intros s c Hloop Hs; cbn [zoomeye_loop] in Hloop;
    destruct (current_page s <=? total_pages s)%Z; try discriminate;
    try (injection Hloop as <-; exact Hs).
  specialize (Hstep s Hs).
  destruct (zoomeye_page w domain s) as [s'|s'|s'] eqn:Hpage;
    [eauto | injection Hloop as <-; exact Hstep | injection Hloop as <-; exact Hstep].
Qed.

Lemma run_zoomeye_tagged w cfg domain : tagged "zoomeye" (net (run_zoomeye w cfg domain)).
Proof.
  pose proof (run_zoomeye_within_turns w cfg domain) as Hrun.
  unfold run_zoomeye_within in Hrun.
  destruct (subdomain cfg) as [sc|]; [|injection Hrun as <-; constructor].
  destruct (negb _); [injection Hrun as <-; constructor|].
  destruct (zoomeye_loop _ w domain _) as [c|] eqn:Hloop; [|discriminate].
  apply zoomeye_loop_tagged in Hloop; [|constructor].
  destruct c; injection Hrun as <-; exact Hloop.
Qed.

Lemma run_zoomeye_break w cfg domain fuel s' :
  key_truthy (api_key cfg zoomeye_api_key) = true ->
  zoomeye_loop fuel w domain (zoomeye_start w domain) = Some (Break s') ->
  net (run_zoomeye w cfg domain) = zs_net s'
  /\ value (run_zoomeye w cfg domain) = Returned (zs_subdomains s').
Proof.
  intros Hkey Hloop.
  pose proof (run_zoomeye_within_more w cfg domain
                (Nat.max fuel (zoomeye_turns w domain)) ltac:(lia)) as Hrun.
  unfold run_zoomeye_within in Hrun. unfold api_key in Hkey.
  destruct (subdomain cfg) as [sc|]; [|discriminate]. rewrite Hkey in Hrun.
  rewrite (zoomeye_loop_more_fuel _ _ _ _ _ Hloop) in Hrun by lia.
  cbn [negb] in Hrun. injection Hrun as <-. split; reflexivity.
Qed.

Lemma announced_ceiling body count :
  total body = Some count -> (0 < count)%Z ->
  (100 * (announced body - 1) < count <= 100 * announced body)%Z.
Proof.
  intros Ht Hpos. unfold announced. rewrite Ht. cbn [from_option id].
  pose proof (Z.div_mod (count + 100 - 1) 100 ltac:(lia)) as Hdm.
  pose proof (Z.mod_pos_bound (count + 100 - 1) 100 ltac:(lia)) as Hb.
  lia.
Qed.

(** The request of the second page fails: two requests, and the name of
    the first page is returned. *)
Example run_zoomeye_second_page_fails :
  map page_of (net (run_zoomeye zoomeye_second_page_fails all_keys "example.com"))
  = [Some 1%Z; Some 2%Z]
  /\ value (run_zoomeye zoomeye_second_page_fails all_keys "example.com")
     = Returned {["a.example.com"%string]}.
Proof. split; vm_compute; reflexivity. Qed.

(** An item with a [url] is assigned to the variable the request is sent
    to: the request of the second page goes to the address of the item. *)
Example run_zoomeye_url_overwritten :
  map req_url (net (run_zoomeye zoomeye_url_item all_keys "example.com"))
  = ["https://api.zoomeye.org/v2/search"; "https://www.example.com/x"]%string
  /\ value (run_zoomeye zoomeye_url_item all_keys "example.com")
     = Returned {["www.example.com"%string]}.
Proof. split; vm_compute; reflexivity. Qed.

(** C6.  With the key set: when the first answer reports a total of 250
    at the page size of 100 and the three pages are answered, exactly
    three requests are sent, for the pages 1, 2 and 3, and the set
    returned holds the names of the three pages.  In general the number of
    pages is the total over the page size, rounded up, the pages are
    requested in order up to it, and their names are all returned.  When
    the request of a page fails, no further request is sent and the
    names of the pages before it are returned. *)
Theorem zoomeye_pagination (w : world) (cfg : config) (domain : string)
    (bodies : nat -> zoomeye_body) :
  key_truthy (api_key cfg zoomeye_api_key) = true ->
  (total (bodies 0) = Some 250%Z -> answers w bodies 0 3 ->
   length (net (run_zoomeye w cfg domain)) = 3
   /\ map page_of (net (run_zoomeye w cfg domain)) = [Some 1; Some 2; Some 3]%Z
   /\ value (run_zoomeye w cfg domain)
      = Returned (page_names domain (bodies 0) ∪ page_names domain (bodies 1)
                  ∪ page_names domain (bodies 2)))
  /\ (forall count, total (bodies 0) = Some count -> (0 < count)%Z ->
      (100 * (Z.of_nat (requests_due (bodies 0%nat)) - 1) < count
       <= 100 * Z.of_nat (requests_due (bodies 0%nat)))%Z)
  /\ (answers w bodies 0 (requests_due (bodies 0)) ->
      map page_of (net (run_zoomeye w cfg domain))
      = page_numbers 1 (requests_due (bodies 0))
      /\ value (run_zoomeye w cfg domain)
         = Returned (names_from domain bodies 0 (requests_due (bodies 0))))
  /\ (forall j,
      j < requests_due (bodies 0) -> answers w bodies 0 j ->
      (forall req, page_failure (zoomeye_post w j req)) ->
      map page_of (net (run_zoomeye w cfg domain)) = page_numbers 1 (S j)
      /\ value (run_zoomeye w cfg domain)
         = Returned (names_from domain bodies 0 j)).
Proof.
  intros Hkey.
  assert (Hall : answers w bodies 0 (requests_due (bodies 0)) ->
                 map page_of (net (run_zoomeye w cfg domain))
                 = page_numbers 1 (requests_due (bodies 0))
                 /\ value (run_zoomeye w cfg domain)
                    = Returned (names_from domain bodies 0 (requests_due (bodies 0)))).
  { intros Hans.
    destruct (zoomeye_loop_start_answered w domain bodies _ (le_n _) Hans)
      as (s' & Hloop & Hnet & Hsubs).
    destruct (run_zoomeye_break w cfg domain _ s' Hkey Hloop) as [-> ->].
    now rewrite Hnet, Hsubs. }
  split; [|split; [|split]].
  - intros Htot Hans.
    assert (Hdue : requests_due (bodies 0) = 3).
    { unfold requests_due, announced. rewrite Htot. reflexivity. }
    rewrite Hdue in Hall. destruct (Hall Hans) as [Hnet Hval].
    split; [|split].
    + rewrite <- (length_map page_of), Hnet. reflexivity.
    + exact Hnet.
    + rewrite Hval. f_equal. unfold names_from. simpl. set_solver.
  - intros count Htot Hpos.
    pose proof (announced_ceiling _ _ Htot Hpos) as Hc.
    unfold requests_due. lia.
  - exact Hall.
  - intros j Hj Hans Hfail.
    destruct (zoomeye_loop_start_fails w domain bodies j _ Hj (le_n _) Hans Hfail)
      as (s' & Hloop & Hnet & Hsubs).
    destruct (run_zoomeye_break w cfg domain _ s' Hkey Hloop) as [-> ->].
    now rewrite Hnet, Hsubs.
Qed.

(** C6 on a provider that reports 250 results and answers every page. *)
Lemma zoomeye_pagination_witness :
  key_truthy (api_key all_keys zoomeye_api_key) = true
  /\ total (three_pages 0) = Some 250%Z
  /\ length (net (run_zoomeye zoomeye_answers all_keys "example.com")) = 3.
Proof.
  split; [reflexivity|]. split; [reflexivity|].
  refine (proj1 (proj1 (zoomeye_pagination zoomeye_answers all_keys "example.com"
                          three_pages eq_refl) eq_refl _)).
  intros i req Hi. reflexivity.
Defined.

End ZoomeyeFacts.

(** ** The orchestrator *)

Module OrchestratorFacts.
Import Subdomain Examples SubdomainTerms CollectorFacts ZoomeyeFacts.

Lemma set_truthy_spec (s : gset string) : set_truthy s = true <-> s ≠ ∅.
Proof.
  unfold set_truthy. rewrite negb_true_iff, bool_decide_eq_false. reflexivity.
Qed.

Lemma elem_of_values {V} (d : dict V) (v : V) :
  v ∈ values d <-> exists k, (k, v) ∈ d.
Proof.
  unfold values. rewrite list_elem_of_In, in_map_iff. split.
  - intros ([k v'] & <- & Hin). exists k. now apply list_elem_of_In.
  - intros (k & Hin). exists (k, v). split; [reflexivity | now apply list_elem_of_In].
Qed.

(** The combined result holds exactly the names some source found. *)
Lemma elem_of_combined_result (results : dict (gset string)) (x : string) :
  x ∈ combined_result results <-> exists source s, (source, s) ∈ results /\ x ∈ s.
Proof.
  unfold combined_result. rewrite elem_of_union_list. split.
  - intros (s & Hs & Hx). apply list_elem_of_filter in Hs as [_ Hs].
    apply elem_of_values in Hs as (k & Hk). eauto.
  - intros (k & s & Hk & Hx). exists s. split; [|assumption].
    apply list_elem_of_filter. split.
    + apply set_truthy_spec. set_solver.
    + apply elem_of_values. eauto.
Qed.

Lemma combined_result_perm (d d' : dict (gset string)) :
  d ≡ₚ d' -> combined_result d = combined_result d'.
Proof.
  intros Hp. apply set_eq. intros x. rewrite !elem_of_combined_result.
  split; intros (k & s & Hk & Hx); exists k, s; split; try assumption.
  - now rewrite <- Hp.
  - now rewrite Hp.
Qed.

Lemma dict_get_set_eq {V} (d : dict V) k v : dict_get (dict_set d k v) k = Some v.
Proof.
  induction d as [|[k' v'] d IH]; simpl.
  - now rewrite String.eqb_refl.
  - destruct (String.eqb k k') eqn:E; simpl; [now rewrite String.eqb_refl|].
    now rewrite E.
Qed.

Lemma dict_get_set_ne {V} (d : dict V) k k' v :
  k <> k' -> dict_get (dict_set d k v) k' = dict_get d k'.
Proof.
  intros Hne. induction d as [|[k0 v0] d IH]; simpl.
  - apply not_eq_sym, String.eqb_neq in Hne. now rewrite Hne.
  - destruct (String.eqb k k0) eqn:E; simpl.
    + apply String.eqb_eq in E as <-.
      apply not_eq_sym, String.eqb_neq in Hne. now rewrite Hne.
    + now rewrite IH.
Qed.

Lemma dict_set_fresh {V} (d : dict V) k v :
  k ∉ keys d -> dict_set d k v = d ++ [(k, v)].
Proof.
  unfold keys. induction d as [|[k' v'] d IH]; simpl; intros Hk; [reflexivity|].
  apply not_elem_of_cons in Hk as [Hne Hk].
  apply String.eqb_neq in Hne. now rewrite Hne, IH.
Qed.

Lemma collect_step_results n acc t :
  (collect_step n acc t).1.1 = dict_set acc.1.1 t.1 (contribution (value t.2)).
Proof.
  destruct acc as [[r c] l]. unfold collect_step. simpl.
  destruct (value t.2); reflexivity.
Qed.

Lemma keys_entries done : keys (entries done) = map fst done.
Proof. unfold keys, entries. rewrite map_map. reflexivity. Qed.

Lemma foldl_collect_results n done : forall acc,
  NoDup (keys acc.1.1 ++ map fst done) ->
  (foldl (collect_step n) acc done).1.1 = acc.1.1 ++ entries done.
Proof.
  induction done as [|t done IH]; intros acc Hnd; simpl.
  - now rewrite app_nil_r.
  - rewrite IH; rewrite collect_step_results.
    + rewrite dict_set_fresh.
      * now rewrite <- app_assoc.
      * apply NoDup_app in Hnd as (_ & Hd & _). intros Hin.
        apply (Hd _ Hin). simpl. left.
    + rewrite dict_set_fresh.
      * unfold keys in *. rewrite map_app, <- app_assoc. exact Hnd.
      * apply NoDup_app in Hnd as (_ & Hd & _). intros Hin.
        apply (Hd _ Hin). simpl. left.
Qed.

Lemma collect_results done :
  NoDup (map fst done) -> (collect done).1.1 = entries done.
Proof. intros Hnd. unfold collect. now rewrite foldl_collect_results. Qed.

Lemma dict_get_entries done name run :
  NoDup (map fst done) -> (name, run) ∈ done ->
  dict_get (entries done) name = Some (contribution (value run)).
Proof.
  induction done as [|[k r] done IH]; simpl; intros Hnd Hin.
  - inversion Hin.
  - apply NoDup_cons in Hnd as [Hk Hnd].
    apply elem_of_cons in Hin as [[= -> ->]|Hin].
    + now rewrite String.eqb_refl.
    + destruct (String.eqb name k) eqn:E; [|auto].
      apply String.eqb_eq in E as ->. exfalso. apply Hk.
      apply list_elem_of_In, in_map_iff. exists (k, run).
      split; [reflexivity | now apply list_elem_of_In].
Qed.

Lemma entries_perm done done' : done ≡ₚ done' -> entries done ≡ₚ entries done'.
Proof. unfold entries. intros Hp. now apply Permutation_map. Qed.

(** The combined result of a run is the one of its [results]. *)
Lemma one_key_combined as_completed w cfg domain c :
  combined (one_key_collect as_completed w cfg domain) = Some c ->
  c = combined_result (results (one_key_collect as_completed w cfg domain)).
Proof.
  unfold one_key_collect.
  destruct (collect _) as [[r n] l].
  destruct (any_found r); [|discriminate].
  destruct (save_results_to_excel w r) as [[written|] l2]; simpl; congruence.
Qed.

(** C1.  The combined result is the union of the per-source sets: a name
    is in it exactly when some source found it, for the [results] of any
    run.  The merge does not depend on the order in which the sources
    complete and merging a set that is already there changes nothing.  In
    the scenario, the sources' sets {a, b} and {b, c} combine to
    {a, b, c} and each stays under its source's name as it was. *)
Theorem combined_result_union :
  (forall (results : dict (gset string)) (x : string),
      x ∈ combined_result results
      <-> exists source s, (source, s) ∈ results /\ x ∈ s)
  /\ (forall as_completed w cfg domain c,
      combined (one_key_collect as_completed w cfg domain) = Some c ->
      forall x,
        x ∈ c <-> exists source s,
                    (source, s) ∈ results (one_key_collect as_completed w cfg domain)
                    /\ x ∈ s)
  /\ (forall done done' : list (string * task_run),
      NoDup (map fst done) -> done ≡ₚ done' ->
      combined_result (collect done).1.1 = combined_result (collect done').1.1)
  /\ (forall (results : dict (gset string)) (other : string) (s : gset string),
      s ∈ values results ->
      combined_result (results ++ [(other, s)]) = combined_result results)
  /\ (forall done name run s,
      NoDup (map fst done) -> (name, run) ∈ done -> value run = Returned s ->
      dict_get (collect done).1.1 name = Some s)
  /\ (combined_result (collect scenario).1.1
      = {["a.example.com"; "b.example.com"; "c.example.com"]}%string
      /\ dict_get (collect scenario).1.1 "subfinder"
         = Some {["a.example.com"; "b.example.com"]}%string
      /\ dict_get (collect scenario).1.1 "crtsh"
         = Some {["b.example.com"; "c.example.com"]}%string
      /\ combined_result (collect (rev scenario)).1.1
         = combined_result (collect scenario).1.1).
Proof.
  assert (Hord : forall done done' : list (string * task_run),
             NoDup (map fst done) -> done ≡ₚ done' ->
             combined_result (collect done).1.1
             = combined_result (collect done').1.1).
  { intros done done' Hnd Hp.
    assert (Hnd' : NoDup (map fst done')).
    { assert (Hm : map fst done ≡ₚ map fst done') by now apply Permutation_map.
      now rewrite <- Hm. }
    rewrite !collect_results by assumption.
    now apply combined_result_perm, entries_perm. }
  assert (Hsc : NoDup (map fst scenario)).
  { apply (bool_decide_unpack _). vm_compute. exact I. }
  split; [exact elem_of_combined_result|]. split.
  { intros ac w cfg domain c Hc x. rewrite (one_key_combined _ _ _ _ _ Hc).
    apply elem_of_combined_result. }
  split; [exact Hord|]. split.
  { intros results other s Hs. apply set_eq. intros x.
    rewrite !elem_of_combined_result. split.
    - intros (k & s' & Hk & Hx). apply elem_of_app in Hk as [Hk|Hk]; [eauto|].
      apply list_elem_of_singleton in Hk as [= -> ->].
      apply elem_of_values in Hs as (k' & Hk'). eauto.
    - intros (k & s' & Hk & Hx). exists k, s'. split; [|assumption].
      apply elem_of_app. now left. }
  split.
  { intros done name run s Hnd Hin Hv. rewrite collect_results by assumption.
    rewrite (dict_get_entries _ _ _ Hnd Hin), Hv. reflexivity. }
  split; [|split; [|split]].
  - rewrite collect_results by exact Hsc. apply set_eq. intros x.
    rewrite elem_of_combined_result. unfold scenario, entries. simpl. split.
    + intros (k & s & Hk & Hx).
      apply elem_of_cons in Hk as [[= -> ->]|Hk]; [set_solver|].
      apply list_elem_of_singleton in Hk as [= -> ->]. set_solver.
    + intros Hx.
      assert (x = "a.example.com" \/ x = "b.example.com" \/ x = "c.example.com")%string
        as [->|[->| ->]] by set_solver.
      * exists "subfinder"%string, {["a.example.com"; "b.example.com"]}%string. set_solver.
      * exists "subfinder"%string, {["a.example.com"; "b.example.com"]}%string. set_solver.
      * exists "crtsh"%string, {["b.example.com"; "c.example.com"]}%string. set_solver.
  - rewrite collect_results by exact Hsc. reflexivity.
  - rewrite collect_results by exact Hsc. reflexivity.
  - symmetry. apply Hord; [exact Hsc|]. apply Permutation_rev.
Qed.

(** The order and per-source parts on the scenario of two sources. *)
Lemma combined_result_union_witness :
  NoDup (map fst scenario)
  /\ combined_result (collect scenario).1.1
     = combined_result (collect (rev scenario)).1.1
  /\ dict_get (collect scenario).1.1 "crtsh"
     = Some {["b.example.com"; "c.example.com"]}%string.
Proof.
  assert (Hsc : NoDup (map fst scenario)).
  { apply (bool_decide_unpack _). vm_compute. exact I. }
  destruct combined_result_union as (_ & _ & Hord & _ & Hget & _).
  split; [exact Hsc|]. split.
  - apply Hord; [exact Hsc | apply Permutation_rev].
  - apply (Hget scenario "crtsh"%string
             (returned {["b.example.com"; "c.example.com"]}%string [] []));
      [exact Hsc | set_solver | reflexivity].
Defined.

(** *** A failing collector *)

Lemma collect_step_log n acc t x : x ∈ acc.2 -> x ∈ (collect_step n acc t).2.
Proof.
  destruct acc as [[r c] l]. unfold collect_step. simpl. intros Hx.
  destruct (value t.2); simpl; apply elem_of_app; now left.
Qed.

Lemma foldl_collect_log n done : forall acc x,
  x ∈ acc.2 -> x ∈ (foldl (collect_step n) acc done).2.
Proof.
  induction done as [|t done IH]; intros acc x Hx; simpl; [assumption|].
  now apply IH, collect_step_log.
Qed.

Lemma foldl_collect_failed n done : forall acc name run e,
  (name, run) ∈ done -> value run = Raised e ->
  exists i, (ERROR, TaskFailed i n name e) ∈ (foldl (collect_step n) acc done).2.
Proof.
  induction done as [|t done IH]; intros acc name run e Hin Hv; simpl.
  - inversion Hin.
  - apply elem_of_cons in Hin as [<-|Hin]; [|eauto].
    destruct acc as [[r c] l]. exists (S c). apply foldl_collect_log.
    unfold collect_step. simpl. rewrite Hv. simpl.
    apply elem_of_app. right. apply list_elem_of_singleton. reflexivity.
Qed.

Lemma foldl_collect_count n done : forall acc,
  (foldl (collect_step n) acc done).1.2 = acc.1.2 + length done.
Proof.
  induction done as [|t done IH]; intros [[r c] l]; simpl; [lia|].
  rewrite IH. unfold collect_step. simpl. destruct (value t.2); simpl; lia.
Qed.

Lemma collection_tasks_names w cfg domain :
  map fst (collection_tasks w cfg domain) = task_names cfg.
Proof.
  unfold collection_tasks, task_names.
  destruct (key_truthy (api_key cfg securitytrails_api_key)),
    (key_truthy (api_key cfg zoomeye_api_key)),
    (key_truthy (api_key cfg shodan_api_key)); reflexivity.
Qed.

Lemma task_names_NoDup cfg : NoDup (task_names cfg).
Proof.
  unfold task_names.
  destruct (key_truthy (api_key cfg securitytrails_api_key)),
    (key_truthy (api_key cfg zoomeye_api_key)),
    (key_truthy (api_key cfg shodan_api_key));
    apply (bool_decide_unpack _); vm_compute; exact I.
Qed.

Lemma one_key_results as_completed w cfg domain :
  results (one_key_collect as_completed w cfg domain)
  = (collect (as_completed (collection_tasks w cfg domain))).1.1.
Proof.
  unfold one_key_collect. destruct (collect _) as [[r n] l]. simpl.
  destruct (any_found r); [|reflexivity].
  destruct (save_results_to_excel w r) as [[written|] l2]; reflexivity.
Qed.

Lemma one_key_log as_completed w cfg domain x :
  x ∈ (collect (as_completed (collection_tasks w cfg domain))).2 ->
  x ∈ run_log (one_key_collect as_completed w cfg domain).
Proof.
  unfold one_key_collect. destruct (collect _) as [[r n] l]. simpl. intros Hx.
  destruct (any_found r);
    [destruct (save_results_to_excel w r) as [[written|] l2]|]; simpl;
    apply elem_of_cons; right; rewrite !elem_of_app; auto.
Qed.

(** The results of a run have one entry for each task dispatched. *)
Lemma one_key_keys as_completed w cfg domain :
  (forall l, as_completed l ≡ₚ l) ->
  NoDup (map fst (as_completed (collection_tasks w cfg domain)))
  /\ keys (results (one_key_collect as_completed w cfg domain))
     ≡ₚ map fst (collection_tasks w cfg domain).
Proof.
  intros Hp. set (tasks := collection_tasks w cfg domain).
  assert (Hnd : NoDup (map fst (as_completed tasks))).
  { assert (Hm : map fst (as_completed tasks) ≡ₚ map fst tasks)
      by apply Permutation_map, Hp.
    rewrite Hm. unfold tasks. rewrite collection_tasks_names.
    apply task_names_NoDup. }
  split; [exact Hnd|]. rewrite one_key_results. fold tasks.
  rewrite collect_results by exact Hnd.
  rewrite keys_entries. apply Permutation_map, Hp.
Qed.

(** C2.  Whatever the tasks of a batch come to, and in whatever order they
    complete, the loop goes through all of them: [results] has one entry
    per task, the set the task returned or, for a task that raised, the
    empty set, and for that task an error record with the reason is
    logged.  So the run ends with a per-source breakdown over all the
    tasks dispatched, whose combined result holds what the tasks that
    returned found. *)
Theorem failing_collector_is_not_fatal
    (as_completed : list (string * task_run) -> list (string * task_run))
    (w : world) (cfg : config) (domain : string) :
  (forall l, as_completed l ≡ₚ l) ->
  let tasks := collection_tasks w cfg domain in
  let r := one_key_collect as_completed w cfg domain in
  keys (results r) ≡ₚ map fst tasks
  /\ (collect (as_completed tasks)).1.2 = length tasks
  /\ (forall name run s,
      (name, run) ∈ tasks -> value run = Returned s ->
      dict_get (results r) name = Some s)
  /\ (forall name run e,
      (name, run) ∈ tasks -> value run = Raised e ->
      dict_get (results r) name = Some ∅
      /\ exists i, (ERROR, TaskFailed i (length tasks) name e) ∈ run_log r)
  /\ (forall x,
      x ∈ combined_result (results r)
      <-> exists name run s,
            (name, run) ∈ tasks /\ value run = Returned s /\ x ∈ s).
Proof.
  intros Hp tasks r. subst r.
  destruct (one_key_keys as_completed w cfg domain Hp) as [Hnd Hkeys].
  fold tasks in Hnd, Hkeys.
  split; [exact Hkeys|]. rewrite one_key_results. fold tasks.
  rewrite collect_results by exact Hnd.
  assert (Hlen : length (as_completed tasks) = length tasks)
    by apply Permutation_length, Hp.
  split; [|split; [|split]].
  - unfold collect. rewrite foldl_collect_count. simpl. exact Hlen.
  - intros name run s Hin Hv. rewrite <- (Hp tasks) in Hin.
    rewrite (dict_get_entries _ _ _ Hnd Hin), Hv. reflexivity.
  - intros name run e Hin Hv. rewrite <- (Hp tasks) in Hin. split.
    + rewrite (dict_get_entries _ _ _ Hnd Hin), Hv. reflexivity.
    + destruct (foldl_collect_failed (length (as_completed tasks))
                  (as_completed tasks) ([], 0, []) name run e Hin Hv) as [i Hi].
      exists i. apply one_key_log. fold tasks. unfold collect.
      rewrite <- Hlen. exact Hi.
  - intros x. rewrite elem_of_combined_result. unfold entries. split.
    + intros (k & s & Hk & Hx).
      apply list_elem_of_In, in_map_iff in Hk as ([name run] & [= <- <-] & Hin).
      apply list_elem_of_In in Hin. rewrite (Hp tasks) in Hin. simpl in Hx.
      destruct (value run) as [s|e] eqn:Hv; simpl in Hx; [eauto 6|set_solver].
    + intros (name & run & s & Hin & Hv & Hx). exists name, s. split; [|assumption].
      apply list_elem_of_In, in_map_iff. exists (name, run). simpl.
      rewrite Hv. split; [reflexivity|].
      apply list_elem_of_In. now rewrite (Hp tasks).
Qed.

(** C2 on a run whose first collector raises: the configuration has no
    [global] section, and the tasks complete in the reverse order. *)
Lemma failing_collector_is_not_fatal_witness :
  (forall l : list (string * task_run), rev l ≡ₚ l)
  /\ dict_get (results (one_key_collect (@rev _) offline no_global "example.com"))
       "subfinder" = Some ∅.
Proof.
  assert (Hp : forall l : list (string * task_run), rev l ≡ₚ l)
    by (intros l; symmetry; apply Permutation_rev).
  split; [exact Hp|].
  destruct (failing_collector_is_not_fatal (@rev _) offline no_global
              "example.com" Hp) as (_ & _ & _ & Hf & _).
  apply (Hf "subfinder"%string (run_subfinder offline no_global "example.com")
            "KeyError: 'global'"%string).
  - unfold collection_tasks. apply elem_of_app. left. left.
  - reflexivity.
Defined.

(** *** A provider without its key *)

Lemma one_key_net as_completed w cfg domain :
  run_net (one_key_collect as_completed w cfg domain)
  = concat (map (fun t => net t.2) (collection_tasks w cfg domain)).
Proof.
  unfold one_key_collect. destruct (collect _) as [[r n] l].
  destruct (any_found r); [|reflexivity].
  destruct (save_results_to_excel w r) as [[written|] l2]; reflexivity.
Qed.

Lemma collection_tasks_tagged w cfg domain name run :
  (name, run) ∈ collection_tasks w cfg domain -> tagged name (net run).
Proof.
  unfold collection_tasks. rewrite !elem_of_app. intros [H|[H|[H|H]]].
  - apply elem_of_cons in H as [[= -> ->]|H].
    + rewrite run_subfinder_offline. constructor.
    + apply list_elem_of_singleton in H as [= -> ->]. apply run_crtsh_tagged.
  - destruct (key_truthy _); [|inversion H].
    apply list_elem_of_singleton in H as [= -> ->]. apply run_securitytrails_tagged.
  - destruct (key_truthy _); [|inversion H].
    apply list_elem_of_singleton in H as [= -> ->]. apply run_zoomeye_tagged.
  - destruct (key_truthy _); [|inversion H].
    apply list_elem_of_singleton in H as [= -> ->]. apply run_shodan_tagged.
Qed.

(** Every request of a run comes from a task that was dispatched. *)
Lemma run_net_sources as_completed w cfg domain req :
  req ∈ run_net (one_key_collect as_completed w cfg domain) ->
  req_source req ∈ task_names cfg.
Proof.
  rewrite one_key_net, <- (collection_tasks_names w cfg domain).
  rewrite list_elem_of_In, in_concat. intros (reqs & Hreqs & Hreq).
  apply in_map_iff in Hreqs as ([name run] & <- & Hin).
  apply list_elem_of_In in Hin.
  pose proof (collection_tasks_tagged _ _ _ _ _ Hin) as Htag.
  unfold tagged in Htag. rewrite List.Forall_forall in Htag.
  rewrite (Htag _ Hreq). apply list_elem_of_In, in_map_iff.
  exists (name, run). split; [reflexivity | now apply list_elem_of_In].
Qed.

Lemma dict_get_absent {V} (d : dict V) k : k ∉ keys d -> dict_get d k = None.
Proof.
  unfold keys. induction d as [|[k' v] d IH]; simpl; intros Hk; [reflexivity|].
  apply not_elem_of_cons in Hk as [Hne Hk].
  apply String.eqb_neq in Hne. now rewrite Hne, IH.
Qed.

Lemma left_out_absent as_completed w cfg domain provider :
  (forall l, as_completed l ≡ₚ l) ->
  provider ∉ task_names cfg ->
  left_out provider (map fst (collection_tasks w cfg domain))
    (one_key_collect as_completed w cfg domain).
Proof.
  intros Hp Hout. unfold left_out. rewrite collection_tasks_names.
  split; [exact Hout|]. split.
  - intros req Hreq Heq. apply run_net_sources in Hreq. now rewrite Heq in Hreq.
  - rewrite one_key_results. set (tasks := collection_tasks w cfg domain).
    assert (Hm : map fst (as_completed tasks) ≡ₚ task_names cfg).
    { unfold tasks. rewrite <- (collection_tasks_names w cfg domain).
      apply Permutation_map, Hp. }
    rewrite collect_results.
    + apply dict_get_absent. rewrite keys_entries, Hm. exact Hout.
    + rewrite Hm. apply task_names_NoDup.
Qed.

(** C8.  The local-binary and the certificate-log collectors are always
    dispatched.  A keyed provider whose key is absent or empty is left out
    of the run: it is not among the tasks, no request of the run is its
    own, and it has no entry in the results, which hold one entry for each
    of the collectors that remain.  Invoked without its key, a keyed
    collector returns the empty set with an error record and sends
    nothing. *)
Theorem absent_key_excludes_collector
    (as_completed : list (string * task_run) -> list (string * task_run))
    (w : world) (cfg : config) (domain : string) :
  (forall l, as_completed l ≡ₚ l) ->
  let names := map fst (collection_tasks w cfg domain) in
  let r := one_key_collect as_completed w cfg domain in
  ("subfinder"%string ∈ names /\ "crtsh"%string ∈ names)
  /\ (key_truthy (api_key cfg securitytrails_api_key) = false ->
      left_out "securitytrails" names r)
  /\ (key_truthy (api_key cfg zoomeye_api_key) = false -> left_out "zoomeye" names r)
  /\ (key_truthy (api_key cfg shodan_api_key) = false -> left_out "shodan" names r)
  /\ keys (results r) ≡ₚ names
  /\ (forall sc, subdomain cfg = Some sc ->
      (key_truthy (securitytrails_api_key sc) = false ->
       gives_up "securitytrails" (run_securitytrails w cfg domain))
      /\ (key_truthy (zoomeye_api_key sc) = false ->
          gives_up "zoomeye" (run_zoomeye w cfg domain))
      /\ (key_truthy (shodan_api_key sc) = false ->
          gives_up "shodan" (run_shodan w cfg domain))).
Proof.
  intros Hp names r. subst names r.
  split; [|split; [|split; [|split; [|split]]]].
  - rewrite collection_tasks_names. unfold task_names. split; set_solver.
  - intros Hk. apply left_out_absent; [exact Hp|].
    unfold task_names. rewrite Hk.
    destruct (key_truthy (api_key cfg zoomeye_api_key)),
      (key_truthy (api_key cfg shodan_api_key)); set_solver.
  - intros Hk. apply left_out_absent; [exact Hp|].
    unfold task_names. rewrite Hk.
    destruct (key_truthy (api_key cfg securitytrails_api_key)),
      (key_truthy (api_key cfg shodan_api_key)); set_solver.
  - intros Hk. apply left_out_absent; [exact Hp|].
    unfold task_names. rewrite Hk.
    destruct (key_truthy (api_key cfg securitytrails_api_key)),
      (key_truthy (api_key cfg zoomeye_api_key)); set_solver.
  - exact (proj2 (one_key_keys as_completed w cfg domain Hp)).
  - intros sc Hsc. split; [|split]; intros Hk; unfold gives_up.
    + unfold run_securitytrails. now rewrite Hsc, Hk.
    + pose proof (run_zoomeye_within_turns w cfg domain) as Hrun.
      unfold run_zoomeye_within in Hrun. rewrite Hsc, Hk in Hrun.
      cbn [negb] in Hrun. now injection Hrun as <-.
    + unfold run_shodan. rewrite Hsc. unfold key_truthy in Hk.
      destruct (shodan_api_key sc) as [k|]; [|reflexivity]. now rewrite Hk.
Qed.

(** C8 on a configuration whose ZoomEye key is the empty string and whose
    other keys are absent. *)
Lemma absent_key_excludes_collector_witness :
  (forall l : list (string * task_run), rev l ≡ₚ l)
  /\ key_truthy (api_key no_keys zoomeye_api_key) = false
  /\ left_out "zoomeye" (map fst (collection_tasks offline no_keys "example.com"))
       (one_key_collect (@rev _) offline no_keys "example.com").
Proof.
  assert (Hp : forall l : list (string * task_run), rev l ≡ₚ l)
    by (intros l; symmetry; apply Permutation_rev).
  split; [exact Hp|]. split; [reflexivity|].
  exact (proj1 (proj2 (proj2
    (absent_key_excludes_collector (@rev _) offline no_keys "example.com" Hp)))
    eq_refl).
Defined.

End OrchestratorFacts.

(** ** The paced client *)

Module IcpFacts.
Import IcpQuery IcpExamples IcpTerms.

Local Open Scope nat_scope.

Lemma Qltb_lt (a b : Q) : Qltb a b = true <-> (a < b)%Q.
Proof.
  unfold Qltb. rewrite negb_true_iff. split.
  - intros H. apply Qnot_le_lt. intros Hle. apply Qle_bool_iff in Hle. congruence.
  - intros H. apply not_true_is_false. intros Hle. apply Qle_bool_iff in Hle.
    apply (Qlt_not_le _ _ H Hle).
Qed.

Lemma N_pos : 0 < N.
Proof. simpl. lia. Qed.

(** One attempt asks the endpoint under the cursor and moves the cursor
    on by one, around the list, whatever the request comes to. *)
Lemma attempt_at net domain st ck :
  current_endpoint_index st < N ->
  attempt net domain st ck
  = (Some (endpoint_at (current_endpoint_index st), (net (sent ck)).2),
     {| permits := permits st;
        current_endpoint_index := (current_endpoint_index st + 1) mod N;
        last_request_time := now ck |},
     {| now := (now ck + (net (sent ck)).1)%Q; sent := S (sent ck) |},
     [Requested (now ck) (endpoint_at (current_endpoint_index st))
        (url_of (endpoint_at (current_endpoint_index st)) domain)]).
Proof.
  intros Hc. unfold attempt, endpoint_at.
  destruct (lookup_lt_is_Some_2 API_ENDPOINTS _ Hc) as [endpoint He].
  rewrite He, (nth_lookup_Some _ _ ""%string _ He).
  destruct (net (sent ck)) as [latency out]. reflexivity.
Qed.

Lemma attempts_made_bounds net i left :
  attempts_made net i left <= left /\ (0 < left -> 0 < attempts_made net i left).
Proof.
  revert i. induction left as [|left IH]; intros i; simpl; [lia|].
  destruct (succeeded (net i).2); [lia|]. specialize (IH (S i)). lia.
Qed.

Lemma rotation_S c n :
  rotation c (S n) = endpoint_at (c mod N) :: rotation ((c + 1) mod N) n.
Proof.
  unfold rotation. cbn [seq map]. rewrite Nat.add_0_r. f_equal.
  rewrite <- seq_shift, map_map. apply map_ext. intros k. f_equal.
  rewrite Nat.Div0.add_mod_idemp_l. f_equal. lia.
Qed.

Lemma endpoints_used_app tr1 tr2 :
  endpoints_used (tr1 ++ tr2) = endpoints_used tr1 ++ endpoints_used tr2.
Proof. apply omap_app. Qed.

Lemma request_times_app tr1 tr2 :
  request_times (tr1 ++ tr2) = request_times tr1 ++ request_times tr2.
Proof. apply omap_app. Qed.

(** One turn of the retry loop. *)
Lemma retry_loop_S net domain left resp st ck tr lg :
  current_endpoint_index st < N ->
  retry_loop net domain (S left) resp st ck tr lg
  = match (net (sent ck)).2 with
    | Response status body =>
        if (status =? 200)%Z then
          {| escaped := false; response := Some (status, body);
             loop_state := state_next st ck;
             loop_clock := clock_next net left ck;
             loop_trace := tr ++ events_next domain left st ck;
             loop_log := lg |}
        else
          retry_loop net domain left (Some (status, body)) (state_next st ck)
            (clock_next net left ck) (tr ++ events_next domain left st ck)
            (lg ++ [(WARNING,
                     EndpointStatus (endpoint_at (current_endpoint_index st)) status
                       (max_retries - S left + 1) max_retries)])
    | RequestException e =>
        retry_loop net domain left resp (state_next st ck)
          (clock_next net left ck) (tr ++ events_next domain left st ck)
          (lg ++ [(WARNING,
                   EndpointError (endpoint_at (current_endpoint_index st)) e
                     (max_retries - S left + 1) max_retries)])
    end.
Proof.
  intros Hc. cbn [retry_loop]. rewrite attempt_at by assumption.
  unfold state_next, clock_next, events_next.
  destruct (0 <? left); destruct ((net (sent ck)).2) as [status body|e];
    try destruct (status =? 200)%Z; reflexivity.
Qed.

Lemma endpoints_used_next domain left st ck :
  endpoints_used (events_next domain left st ck)
  = [endpoint_at (current_endpoint_index st)].
Proof. unfold events_next. destruct (0 <? left); reflexivity. Qed.

Lemma request_times_next domain left st ck :
  request_times (events_next domain left st ck) = [now ck].
Proof. unfold events_next. destruct (0 <? left); reflexivity. Qed.

Lemma sent_clock_next net left ck : sent (clock_next net left ck) = S (sent ck).
Proof. unfold clock_next. destruct (0 <? left); reflexivity. Qed.

(** The retry loop as a whole: it makes [attempts_made] attempts, on the
    endpoints in rotation from the cursor, and leaves the cursor that many
    places further. *)
Lemma retry_loop_run net domain : forall left resp st ck tr lg,
  current_endpoint_index st < N ->
  let e := retry_loop net domain left resp st ck tr lg in
  let k := attempts_made net (sent ck) left in
  escaped e = false
  /\ endpoints_used (loop_trace e)
     = endpoints_used tr ++ rotation (current_endpoint_index st) k
  /\ current_endpoint_index (loop_state e) = (current_endpoint_index st + k) mod N
  /\ permits (loop_state e) = permits st
  /\ sent (loop_clock e) = sent ck + k.
Proof.
  induction left as [|left IH]; intros resp st ck tr lg Hc.
  - cbv zeta.
    cbn [retry_loop attempts_made escaped loop_trace loop_state loop_clock].
    unfold rotation. cbn [seq map].
    rewrite app_nil_r, !Nat.add_0_r, Nat.mod_small by assumption.
    repeat split; reflexivity.
  - cbv zeta. rewrite retry_loop_S by assumption. cbn [attempts_made].
    assert (Hc' : current_endpoint_index (state_next st ck) < N)
      by (apply Nat.mod_upper_bound; pose proof N_pos; lia).
    assert (Hrec : forall resp' lg',
      let e := retry_loop net domain left resp' (state_next st ck)
                 (clock_next net left ck) (tr ++ events_next domain left st ck) lg' in
      let k := S (attempts_made net (S (sent ck)) left) in
      escaped e = false
      /\ endpoints_used (loop_trace e)
         = endpoints_used tr ++ rotation (current_endpoint_index st) k
      /\ current_endpoint_index (loop_state e)
         = (current_endpoint_index st + k) mod N
      /\ permits (loop_state e) = permits st
      /\ sent (loop_clock e) = sent ck + k).
    { intros resp' lg'.
      destruct (IH resp' (state_next st ck) (clock_next net left ck)
                  (tr ++ events_next domain left st ck) lg' Hc')
        as (He & Hu & Hi & Hp & Hs).
      rewrite sent_clock_next in *. cbv zeta.
      split; [exact He|]. split; [|split; [|split]].
      - rewrite Hu, endpoints_used_app, endpoints_used_next, <- app_assoc.
        rewrite rotation_S, Nat.mod_small by assumption. reflexivity.
      - rewrite Hi. cbn [state_next current_endpoint_index].
        rewrite Nat.Div0.add_mod_idemp_l. f_equal. lia.
      - rewrite Hp. reflexivity.
      - rewrite Hs. lia. }
    destruct ((net (sent ck)).2) as [status body|err]; cbn [succeeded].
    + destruct (status =? 200)%Z; [|apply Hrec].
      cbn [escaped loop_trace loop_state loop_clock state_next
             current_endpoint_index permits].
      rewrite endpoints_used_app, endpoints_used_next, sent_clock_next.
      rewrite rotation_S, Nat.mod_small by assumption.
      repeat split; try reflexivity. lia.
    + apply Hrec.
Qed.

(** The pacing: when the time elapsed since the last request is below the
    interval, two sleeps of what is missing; else none. *)
Lemma pace_run st ck :
  pace st ck
  = if Qltb (now ck - last_request_time st) REQUEST_INTERVAL
    then (sleep (REQUEST_INTERVAL - (now ck - last_request_time st))
            (sleep (REQUEST_INTERVAL - (now ck - last_request_time st)) ck),
          [Slept (REQUEST_INTERVAL - (now ck - last_request_time st));
           Slept (REQUEST_INTERVAL - (now ck - last_request_time st))])
    else (ck, []).
Proof. unfold pace. destruct (Qltb _ _); reflexivity. Qed.

(** A call that finds a free permit: it ends after [attempts_made]
    attempts on the endpoints in rotation, with an answer or with the
    exception the body of a 200 answer raises; the permit is given back
    except when [response.json()] raises. *)
Lemma icp_query_run net domain st ck :
  0 < permits st -> current_endpoint_index st < N ->
  let c := icp_query net domain st ck in
  let k := attempts_made net (sent ck) max_retries in
  ((exists r, ended c = Answered r) \/ ended c = AttributeError
   \/ ended c = JSONDecodeError)
  /\ endpoints_used (trace c) = rotation (current_endpoint_index st) k
  /\ current_endpoint_index (state_after c) = (current_endpoint_index st + k) mod N
  /\ permits (state_after c)
     = match ended c with
       | JSONDecodeError => pred (permits st)
       | _ => permits st
       end.
Proof.
  intros Hp Hc. unfold icp_query.
  destruct (permits st) as [|free] eqn:Hfree; [lia|].
  set (st0 := {| permits := free;
                 current_endpoint_index := current_endpoint_index st;
                 last_request_time := last_request_time st |}).
  pose proof (pace_run st ck) as Hpace.
  destruct (pace st ck) as [ck2 tr2].
  assert (Hsent : sent ck2 = sent ck)
    by (destruct (Qltb _ _); injection Hpace as -> _; reflexivity).
  assert (Hnone : endpoints_used tr2 = [])
    by (destruct (Qltb _ _); injection Hpace as _ ->; reflexivity).
  clear Hpace.
  destruct (retry_loop_run net domain max_retries None st0 ck2 tr2 [] Hc)
    as (He & Hu & Hi & Hperm & _).
  rewrite Hsent, Hnone in *. cbn [app] in Hu.
  set (e := retry_loop net domain max_retries None st0 ck2 tr2 []) in *.
  rewrite He.
  destruct (response e) as [[status body]|];
    [destruct (status =? 200)%Z; [destruct body as [data| |]|]|];
    cbn [ended trace state_after release current_endpoint_index permits pred];
    rewrite ?Hperm; (split; [eauto|]); repeat split; assumption.
Qed.

Lemma rotation_length c n : length (rotation c n) = n.
Proof. unfold rotation. now rewrite length_map, length_seq. Qed.

Lemma rotation_app c a b :
  rotation c (a + b) = rotation c a ++ rotation ((c + a) mod N) b.
Proof.
  revert c. induction a as [|a IH]; intros c.
  - cbn [Nat.add rotation]. unfold rotation at 2. cbn [seq map app].
    unfold rotation. apply map_ext. intros k.
    now rewrite Nat.add_0_r, Nat.Div0.add_mod_idemp_l.
  - cbn [Nat.add]. rewrite !rotation_S, IH. cbn [app]. do 3 f_equal.
    rewrite Nat.Div0.add_mod_idemp_l. f_equal. lia.
Qed.

(** Any [N] attempts in a row use the endpoints of a full turn. *)
Lemma rotation_window c total i :
  i + N <= total ->
  take N (drop i (rotation c total)) = rotation ((c + i) mod N) N.
Proof.
  intros Hle. replace total with (i + (N + (total - i - N))) by lia.
  rewrite rotation_app, drop_app_length' by now rewrite rotation_length.
  rewrite rotation_app, take_app_length' by now rewrite rotation_length.
  reflexivity.
Qed.

(** A full turn from any place of the list uses each endpoint once. *)
Lemma rotation_full c : c < N -> rotation c N ≡ₚ API_ENDPOINTS.
Proof.
  intros Hc. do 4 (destruct c as [|c]; [apply (bool_decide_unpack _); vm_compute;
                                          exact I|]).
  simpl in Hc. lia.
Qed.

Lemma query_all_run net : forall domains st ck,
  current_endpoint_index st < N ->
  exists total,
    endpoints_used (events (query_all net domains st ck))
    = rotation (current_endpoint_index st) total.
Proof.
  unfold events.
  induction domains as [|domain rest IH]; intros st ck Hc; cbn [query_all].
  - exists 0. reflexivity.
  - destruct (String.eqb domain ""); [now apply IH|].
    destruct (permits st) as [|free] eqn:Hfree.
    { unfold icp_query. rewrite Hfree. exists 0. reflexivity. }
    assert (Hp : 0 < permits st) by lia.
    destruct (icp_query_run net domain st ck Hp Hc) as (Hend & Hu & Hi & _).
    destruct (IH (state_after (icp_query net domain st ck))
                (clock_after (icp_query net domain st ck))) as [total Ht].
    { rewrite Hi. apply Nat.mod_upper_bound. pose proof N_pos. lia. }
    assert (Hgo : exists total,
      endpoints_used
        (concat (map trace
           (icp_query net domain st ck
            :: query_all net rest (state_after (icp_query net domain st ck))
                 (clock_after (icp_query net domain st ck)))))
      = rotation (current_endpoint_index st) total).
    { cbn [map concat]. rewrite endpoints_used_app, Hu, Ht, Hi.
      eexists. symmetry. apply rotation_app. }
    destruct (ended (icp_query net domain st ck)); try exact Hgo.
    destruct Hend as [[r Hr]|[Hr|Hr]]; discriminate.
Qed.

(** C4.  Every attempt asks the endpoint under the rotation cursor and
    then moves the cursor on by one modulo the number of endpoints,
    whatever the attempt comes to.  So, over any series of calls, any
    [N] attempts in a row use each of the [N] endpoints, which are
    distinct, exactly once. *)
Theorem endpoint_rotation (net : network) (domains : list string)
    (st : state) (ck : clock) :
  0 < permits st -> current_endpoint_index st < N ->
  (forall domain,
      API_ENDPOINTS !! current_endpoint_index st
      = Some (endpoint_at (current_endpoint_index st))
      /\ (attempt net domain st ck).1.1.1
         = Some (endpoint_at (current_endpoint_index st), (net (sent ck)).2)
      /\ endpoints_used (attempt net domain st ck).2
         = [endpoint_at (current_endpoint_index st)]
      /\ current_endpoint_index (attempt net domain st ck).1.1.2
         = (current_endpoint_index st + 1) mod N)
  /\ NoDup API_ENDPOINTS
  /\ (forall i,
      let used := endpoints_used (events (query_all net domains st ck)) in
      i + N <= length used -> take N (drop i used) ≡ₚ API_ENDPOINTS).
Proof.
  intros Hp Hc. split; [|split].
  - intros domain. rewrite attempt_at by assumption. cbn [fst snd].
    split; [|repeat split].
    destruct (lookup_lt_is_Some_2 API_ENDPOINTS _ Hc) as [endpoint He].
    rewrite He. unfold endpoint_at. now rewrite (nth_lookup_Some _ _ _ _ He).
  - apply (bool_decide_unpack _). vm_compute. exact I.
  - intros i used Hi. subst used.
    destruct (query_all_run net domains st ck Hc) as [total Ht].
    rewrite Ht in *. rewrite rotation_length in Hi.
    rewrite rotation_window by assumption.
    apply rotation_full, Nat.mod_upper_bound. pose proof N_pos. lia.
Qed.

(** C4 on two calls whose requests all time out: six attempts, and the
    four from the second on use each endpoint once. *)
Lemma endpoint_rotation_witness :
  0 < permits initial
  /\ current_endpoint_index initial < N
  /\ take N (drop 1 (endpoints_used
                       (events (query_all timing_out ["a.com"; "b.com"]%string
                                  initial midnight))))
     ≡ₚ API_ENDPOINTS.
Proof.
  assert (Hp : 0 < permits initial) by (vm_compute; lia).
  assert (Hc : current_endpoint_index initial < N) by (vm_compute; lia).
  split; [exact Hp|]. split; [exact Hc|].
  refine (proj2 (proj2 (endpoint_rotation timing_out ["a.com"; "b.com"]%string
                          initial midnight Hp Hc)) 1 _).
  vm_compute. lia.
Defined.

(** *** The three attempts of a call *)

Lemma cursor_step c k : ((c + k) mod N + 1) mod N = (c + S k) mod N.
Proof. rewrite Nat.Div0.add_mod_idemp_l. f_equal. lia. Qed.

Lemma events_next_asks domain left st ck k c :
  current_endpoint_index st = (c + k) mod N ->
  events_next domain left st ck
  = asks domain c k (now ck) :: (if 0 <? left then [Slept 1] else []).
Proof. intros Hc. unfold events_next, asks. now rewrite Hc. Qed.

(** The retry loop of a call, turn by turn. *)
Lemma retry_loop_three net domain st ck tr :
  current_endpoint_index st < N ->
  let e := retry_loop net domain max_retries None st ck tr [] in
  let c := current_endpoint_index st in
  exists t1 t2,
    if succeeded (outcome net ck 0) then
      loop_trace e = tr ++ [asks domain c 0 (now ck); Slept 1]
      /\ loop_log e = [] /\ success (response e)
    else if succeeded (outcome net ck 1) then
      loop_trace e
      = tr ++ [asks domain c 0 (now ck); Slept 1; asks domain c 1 t1; Slept 1]
      /\ loop_log e = [warning net ck c 0] /\ success (response e)
    else
      loop_trace e
      = tr ++ [asks domain c 0 (now ck); Slept 1; asks domain c 1 t1; Slept 1;
               asks domain c 2 t2]
      /\ (succeeded (outcome net ck 2) = true ->
          loop_log e = [warning net ck c 0; warning net ck c 1]
          /\ success (response e))
      /\ (succeeded (outcome net ck 2) = false ->
          loop_log e = [warning net ck c 0; warning net ck c 1; warning net ck c 2]
          /\ no_success (response e)).
Proof.
  intros Hc. cbv zeta. unfold max_retries.
  set (c := current_endpoint_index st).
  set (ck1 := clock_next net 2 ck). set (st1 := state_next st ck).
  set (ck2 := clock_next net 1 ck1). set (st2 := state_next st1 ck1).
  exists (now ck1), (now ck2).
  assert (H0 : current_endpoint_index st = (c + 0) mod N)
    by (subst c; now rewrite Nat.add_0_r, Nat.mod_small).
  assert (H1 : current_endpoint_index st1 = (c + 1) mod N) by reflexivity.
  assert (H2 : current_endpoint_index st2 = (c + 2) mod N)
    by (subst st2; cbn [state_next current_endpoint_index]; rewrite H1;
        apply cursor_step).
  assert (Hb : forall k, (c + k) mod N < N)
    by (intros k; apply Nat.mod_upper_bound; pose proof N_pos; lia).
  assert (Hs1 : sent ck1 = S (sent ck)) by apply sent_clock_next.
  assert (Hs2 : sent ck2 = S (S (sent ck)))
    by (subst ck2; rewrite sent_clock_next, Hs1; reflexivity).
  unfold warning, outcome, success. cbn [Nat.add]. rewrite <- Hs2, <- Hs1.
  rewrite retry_loop_S by assumption. fold st1 ck1.
  rewrite (events_next_asks _ _ _ _ 0 c H0). cbn [Nat.ltb Nat.leb].
  rewrite <- H0.
  destruct ((net (sent ck)).2) as [s0 b0|e0]; cbn [succeeded];
    [destruct (s0 =? 200)%Z eqn:E0;
     [cbn [loop_trace loop_log response]; now eauto 6|]|];
    (rewrite retry_loop_S by (rewrite H1; apply Hb)); fold st2 ck2;
    rewrite (events_next_asks _ _ _ _ 1 c H1); cbn [Nat.ltb Nat.leb];
    rewrite <- !app_assoc; cbn [app]; rewrite H1;
    (destruct ((net (sent ck1)).2) as [s1 b1|e1]; cbn [succeeded];
     [destruct (s1 =? 200)%Z eqn:E1;
      [cbn [loop_trace loop_log response]; now eauto 6|]|]);
    (rewrite retry_loop_S by (rewrite H2; apply Hb));
    rewrite (events_next_asks _ _ _ _ 2 c H2); cbn [Nat.ltb Nat.leb];
    rewrite <- !app_assoc; cbn [app]; rewrite H2;
    (destruct ((net (sent ck2)).2) as [s2 b2|e2]; cbn [succeeded];
     [destruct (s2 =? 200)%Z eqn:E2|]);
    cbn [retry_loop loop_trace loop_log response no_success];
    (split; [reflexivity|]); split; intros Hf; try discriminate; eauto 6.
Qed.

Lemma pace_sent st ck : sent (pace st ck).1 = sent ck.
Proof. rewrite pace_run. destruct (Qltb _ _); reflexivity. Qed.

Lemma pace_no_request st ck : request_times (pace st ck).2 = [].
Proof. rewrite pace_run. destruct (Qltb _ _); reflexivity. Qed.

(** A call that finds a free permit, in terms of its retry loop. *)
Lemma icp_query_loop net domain st ck :
  0 < permits st -> current_endpoint_index st < N ->
  let c := icp_query net domain st ck in
  let e := retry_loop net domain max_retries None (acquired st)
             (pace st ck).1 (pace st ck).2 [] in
  trace c = loop_trace e
  /\ state_after c
     = match ended c with
       | JSONDecodeError => loop_state e
       | _ => release (loop_state e)
       end
  /\ clock_after c = loop_clock e
  /\ (forall status body,
      response e = Some (status, body) -> (status =? 200)%Z = true ->
      ended c = ending_of body)
  /\ (no_success (response e) ->
      ended c = Answered failure
      /\ exists last, logged c = loop_log e ++ [(ERROR, AllFailed last)])
  /\ (success (response e) -> logged c = loop_log e).
Proof.
  intros Hp Hc. cbv zeta. unfold icp_query, acquired.
  destruct (permits st) as [|free] eqn:Hfree; [lia|]. cbn [pred].
  destruct (pace st ck) as [ck2 tr2]. cbn [fst snd].
  set (st0 := {| permits := free;
                 current_endpoint_index := current_endpoint_index st;
                 last_request_time := last_request_time st |}).
  destruct (retry_loop_run net domain max_retries None st0 ck2 tr2 [] Hc)
    as (He & _).
  set (e := retry_loop net domain max_retries None st0 ck2 tr2 []) in *.
  rewrite He. unfold success.
  destruct (response e) as [[status body]|];
    [destruct (status =? 200)%Z eqn:E; [destruct body as [data| |]|]|];
    cbn [trace ended logged state_after clock_after no_success];
    repeat split; try congruence; eauto;
    try (intros s' b' [= <- <-] _; reflexivity);
    try (intros s' b' [= <- <-] E'; congruence).
  - intros (s' & d' & [= <- <-] & E'). congruence.
  - intros (s' & d' & [=] & _).
Qed.

(** A call whose three requests time out after five seconds each, made at
    time 0 with no request before: two sleeps of 0.0375 s, then requests at
    0.075 s, 6.075 s and 12.075 s on the first three endpoints, and the
    fixed failure at 17.075 s. *)
Example icp_query_timing_out :
  let c := icp_query timing_out "a.com" initial midnight in
  ended c = Answered failure
  /\ map Qred (request_times (trace c)) = [3 # 40; 243 # 40; 483 # 40]%Q
  /\ endpoints_used (trace c) = take 3 API_ENDPOINTS
  /\ current_endpoint_index (state_after c) = 3
  /\ permits (state_after c) = MAX_CONCURRENT
  /\ Qred (now (clock_after c)) = (683 # 40)%Q.
Proof. repeat split; vm_compute; reflexivity. Qed.

(** The last record of a failed call names the last status only when the
    response has a true value: not for a status from 400 to 599. *)
Example icp_query_last_status_logged :
  last (logged (icp_query (answering 429) "a.com" initial midnight))
  = Some (ERROR, AllFailed None)
  /\ last (logged (icp_query (answering 302) "a.com" initial midnight))
     = Some (ERROR, AllFailed (Some 302%Z)).
Proof. split; vm_compute; reflexivity. Qed.

(** The retry loop ends on the first answer with the status 200. *)
Lemma retry_loop_first_success net domain (body : json_body) :
  forall k left resp st ck tr lg,
  current_endpoint_index st < N -> k < left ->
  (forall j, j < k -> succeeded (net (j + sent ck)).2 = false) ->
  (net (k + sent ck)).2 = Response 200 body ->
  Forall (fun r => r.1 = WARNING) lg ->
  let e := retry_loop net domain left resp st ck tr lg in
  escaped e = false /\ response e = Some (200%Z, body)
  /\ length (loop_log e) = length lg + k
  /\ Forall (fun r => r.1 = WARNING) (loop_log e)
  /\ length (request_times (loop_trace e)) = length (request_times tr) + S k.
Proof.
  induction k as [|k IH]; intros left resp st ck tr lg Hc Hk Hfail Hok Hlg;
    (destruct left as [|left]; [lia|]); cbv zeta; rewrite retry_loop_S by assumption.
  - cbn [Nat.add] in Hok. rewrite Hok. cbn [Z.eqb Pos.eqb].
    cbn [escaped response loop_log loop_trace].
    rewrite request_times_app, request_times_next, length_app. cbn [length].
    repeat split; try assumption; lia.
  - assert (Hc' : current_endpoint_index (state_next st ck) < N)
      by (apply Nat.mod_upper_bound; pose proof N_pos; lia).
    assert (Hrec : forall resp' r,
               r.1 = WARNING ->
               let e := retry_loop net domain left resp' (state_next st ck)
                          (clock_next net left ck)
                          (tr ++ events_next domain left st ck) (lg ++ [r]) in
               escaped e = false /\ response e = Some (200%Z, body)
               /\ length (loop_log e) = length lg + S k
               /\ Forall (fun r => r.1 = WARNING) (loop_log e)
               /\ length (request_times (loop_trace e))
                  = length (request_times tr) + S (S k)).
    { intros resp' r Hr.
      destruct (IH left resp' (state_next st ck) (clock_next net left ck)
                  (tr ++ events_next domain left st ck) (lg ++ [r]))
        as (H1 & H2 & H3 & H4 & H5); try assumption; try lia.
      - intros j Hj. rewrite sent_clock_next.
        replace (j + S (sent ck)) with (S j + sent ck) by lia. apply Hfail. lia.
      - rewrite sent_clock_next.
        replace (k + S (sent ck)) with (S k + sent ck) by lia. exact Hok.
      - apply Forall_app. split; [exact Hlg|]. now constructor.
      - cbv zeta. rewrite H3, H5, length_app, request_times_app, request_times_next,
          length_app. cbn [length]. repeat split; try assumption; lia. }
    specialize (Hfail 0 ltac:(lia)). cbn [Nat.add] in Hfail.
    destruct ((net (sent ck)).2) as [status b|err]; cbn [succeeded] in Hfail.
    + rewrite Hfail. now apply Hrec.
    + now apply Hrec.
Qed.

(** A call whose attempt number k is the first to be answered with the
    status 200: it ends as the body of that answer has it, after k + 1
    requests and k warnings. *)
Lemma icp_query_first_success net domain st ck k (body : json_body) :
  0 < permits st -> current_endpoint_index st < N ->
  k < max_retries ->
  (forall j, j < k -> succeeded (outcome net ck j) = false) ->
  outcome net ck k = Response 200 body ->
  let c := icp_query net domain st ck in
  ended c = ending_of body
  /\ length (request_times (trace c)) = S k
  /\ length (logged c) = k
  /\ Forall (fun r => r.1 = WARNING) (logged c).
Proof.
  intros Hp Hc Hk Hfail Hok.
  destruct (icp_query_loop net domain st ck Hp Hc)
    as (Htr & _ & _ & Hend & _ & Hlogged).
  destruct (retry_loop_first_success net domain body k max_retries None
              (acquired st) (pace st ck).1 (pace st ck).2 [])
    as (_ & Hr & Hlog & Hwarn & Htimes); try assumption.
  - intros j Hj. rewrite pace_sent. exact (Hfail j Hj).
  - rewrite pace_sent. exact Hok.
  - constructor.
  - rewrite pace_no_request in Htimes. cbn [length Nat.add] in Htimes, Hlog.
    cbv zeta. rewrite Htr, (Hend _ _ Hr eq_refl), Hlogged
      by (exists 200%Z, body; auto).
    repeat split; assumption.
Qed.

(** Of the three attempts of a call either one is the first to be answered
    with the status 200, or none is. *)
Lemma first_success_or_none net ck :
  (exists k body,
      k < max_retries
      /\ (forall j, j < k -> succeeded (outcome net ck j) = false)
      /\ outcome net ck k = Response 200 body)
  \/ (forall j, j < max_retries -> succeeded (outcome net ck j) = false).
Proof.
  assert (Hstep : forall k,
    (exists body, outcome net ck k = Response 200 body)
    \/ succeeded (outcome net ck k) = false).
  { intros k. destruct (outcome net ck k) as [status body|e]; [|now right].
    cbn [succeeded]. destruct (status =? 200)%Z eqn:E; [|now right].
    apply Z.eqb_eq in E as ->. left. eauto. }
  unfold max_retries.
  destruct (Hstep 0) as [[b0 H0]|H0].
  { left. exists 0, b0. repeat split; [lia| |exact H0]. intros j Hj. lia. }
  destruct (Hstep 1) as [[b1 H1]|H1].
  { left. exists 1, b1. repeat split; [lia| |exact H1].
    intros j Hj. replace j with 0 by lia. exact H0. }
  destruct (Hstep 2) as [[b2 H2]|H2].
  { left. exists 2, b2. repeat split; [lia| |exact H2].
    intros j Hj. destruct j as [|[|j]]; [exact H0|exact H1|lia]. }
  right. intros j Hj. destruct j as [|[|[|j]]]; [exact H0|exact H1|exact H2|lia].
Qed.

(** C5, as stated, fails: when the three attempts are answered with the
    status 429 the call returns its fixed failure, of code 500, which
    carries neither that status nor an error. *)
Lemma failure_does_not_carry_last_status :
  ended (icp_query (answering 429) "example.com" initial midnight)
  = Answered (IcpFailure 500 "所有端点请求失败")
  /\ ~ carries (IcpFailure 500 "所有端点请求失败") (Response 429 (JsonObject no_data)).
Proof. split; [vm_compute; reflexivity | cbn; discriminate]. Qed.

(** C5, amended.  A call makes one attempt at least and three at most.  It
    ends with an answer, or with the exception that the body of an answer
    with the status 200 raises when it is read (lines 91 to 102, outside
    any [try]): with an answer, then, whenever such a body is a JSON
    object.  An attempt that meets a transport error, a timeout or a status
    other than 200 is followed, when it is not the third, by a sleep of one
    second and an attempt on the next endpoint in rotation, and a warning
    with the status or error observed is logged for it.  When the three
    attempts fail the call returns the fixed failure, of code 500. *)
Theorem bounded_retry (net : network) (domain : string) (st : state) (ck : clock) :
  0 < permits st -> current_endpoint_index st < N ->
  let c := icp_query net domain st ck in
  let i := current_endpoint_index st in
  let o := outcome net ck in
  let pre := (pace st ck).2 in
  let t0 := now (pace st ck).1 in
  1 <= length (request_times (trace c)) <= 3
  /\ ((exists r, ended c = Answered r)
      \/ ended c = JSONDecodeError \/ ended c = AttributeError)
  /\ ((forall k, k < max_retries -> decodable (o k)) ->
      exists r, ended c = Answered r)
  /\ exists t1 t2,
      if succeeded (o 0) then
        trace c = pre ++ [asks domain i 0 t0; Slept 1]
        /\ logged c = []
      else if succeeded (o 1) then
        trace c = pre ++ [asks domain i 0 t0; Slept 1; asks domain i 1 t1; Slept 1]
        /\ logged c = [warning net ck i 0]
      else
        trace c
        = pre ++ [asks domain i 0 t0; Slept 1; asks domain i 1 t1; Slept 1;
                  asks domain i 2 t2]
        /\ (succeeded (o 2) = true ->
            logged c = [warning net ck i 0; warning net ck i 1])
        /\ (succeeded (o 2) = false ->
            ended c = Answered failure
            /\ exists last,
                logged c
                = [warning net ck i 0; warning net ck i 1; warning net ck i 2;
                   (ERROR, AllFailed last)]).
Proof.
  intros Hp Hc. cbv zeta.
  destruct (icp_query_loop net domain st ck Hp Hc)
    as (Ht & _ & _ & _ & Hfail & Hok).
  destruct (icp_query_run net domain st ck Hp Hc) as (Hend & _).
  assert (Hread : (forall k, k < max_retries -> decodable (outcome net ck k)) ->
                  exists r, ended (icp_query net domain st ck) = Answered r).
  { intros Hdec. destruct Hend as [Hr|[He|He]]; [exact Hr| |];
      (destruct (first_success_or_none net ck) as [(k & body & Hk & Hno & Hyes)|Hno];
       [destruct (icp_query_first_success net domain st ck k body Hp Hc Hk Hno Hyes)
          as (Hb & _);
        specialize (Hdec k Hk); rewrite Hyes in Hdec;
        destruct (Hdec eq_refl) as [data ->]; cbn [ending_of] in Hb; eauto|]);
      exfalso;
      destruct (retry_loop_three net domain (acquired st) (pace st ck).1
                  (pace st ck).2 Hc) as (t1 & t2 & Hthree);
      assert (Ho : forall k, outcome net (pace st ck).1 k = outcome net ck k)
        by (intros k; unfold outcome; now rewrite pace_sent);
      rewrite !Ho, !Hno in Hthree by (unfold max_retries; lia);
      destruct Hthree as (_ & _ & Hbad);
      destruct (Hbad eq_refl) as [_ Hnone];
      destruct (Hfail Hnone) as [Hf _]; congruence. }
  destruct (retry_loop_three net domain (acquired st) (pace st ck).1
              (pace st ck).2 Hc) as (t1 & t2 & Hthree).
  cbn [acquired current_endpoint_index] in Hthree.
  assert (Ho : forall k, outcome net (pace st ck).1 k = outcome net ck k)
    by (intros k; unfold outcome; now rewrite pace_sent).
  assert (Hw : forall k, warning net (pace st ck).1 (current_endpoint_index st) k
                         = warning net ck (current_endpoint_index st) k)
    by (intros k; unfold warning; now rewrite Ho).
  rewrite !Ho, !Hw in Hthree. rewrite Ht.
  split; [|split; [tauto|split; [exact Hread|]]].
  - destruct (succeeded (outcome net ck 0));
      [|destruct (succeeded (outcome net ck 1))];
      rewrite (proj1 Hthree), request_times_app, pace_no_request; cbn; lia.
  - exists t1, t2.
    destruct (succeeded (outcome net ck 0)).
    { destruct Hthree as (Hthree & Hlog & Hs). split; [exact Hthree|].
      now rewrite (Hok Hs). }
    destruct (succeeded (outcome net ck 1)).
    + destruct Hthree as (Hthree & Hlog & Hs). split; [exact Hthree|].
      now rewrite (Hok Hs).
    + destruct Hthree as (Hthree & Hgood & Hbad). split; [exact Hthree|]. split.
      * intros H2. destruct (Hgood H2) as [Hlog Hs]. now rewrite (Hok Hs).
      * intros H2. destruct (Hbad H2) as [Hlog Hno].
        destruct (Hfail Hno) as (Hended & last & Hlast).
        split; [exact Hended|]. exists last. now rewrite Hlast, Hlog.
Qed.

(** C5 amended, on a provider that answers every request with 429. *)
Lemma bounded_retry_witness :
  0 < permits initial
  /\ current_endpoint_index initial < N
  /\ 1 <= length (request_times
                    (trace (icp_query (answering 429) "example.com" initial midnight)))
     <= 3.
Proof.
  assert (Hp : 0 < permits initial) by (vm_compute; lia).
  assert (Hc : current_endpoint_index initial < N) by (vm_compute; lia).
  split; [exact Hp|]. split; [exact Hc|].
  exact (proj1 (bounded_retry (answering 429) "example.com" initial midnight Hp Hc)).
Defined.

(** *** The times of the requests *)

Local Open Scope Q_scope.

Lemma clock_next_now net left ck :
  causal net -> now ck <= now (clock_next net left ck).
Proof.
  intros Hnet. specialize (Hnet (sent ck)). unfold clock_next, sleep.
  destruct (0 <? left)%nat; cbn [now]; lra.
Qed.

(** The requests of the retry loop are sent from now on, and the time of
    the last request is the latest of them. *)
Lemma retry_loop_times net domain :
  causal net ->
  forall left resp st ck tr lg,
    (current_endpoint_index st < N)%nat ->
    last_request_time st <= now ck ->
    let e := retry_loop net domain left resp st ck tr lg in
    last_request_time st <= last_request_time (loop_state e)
    /\ last_request_time (loop_state e) <= now (loop_clock e)
    /\ forall t, t ∈ request_times (loop_trace e) ->
                 t ∈ request_times tr
                 \/ (now ck <= t /\ t <= last_request_time (loop_state e)).
Proof.
  intros Hnet. induction left as [|left IH]; intros resp st ck tr lg Hc Hlast.
  - cbn. repeat split; try lra. auto.
  - cbv zeta. rewrite retry_loop_S by assumption.
    pose proof (clock_next_now net left ck Hnet) as Hnow.
    assert (Hc' : (current_endpoint_index (state_next st ck) < N)%nat)
      by (apply Nat.mod_upper_bound; pose proof N_pos; lia).
    assert (Hrec : forall resp' lg',
      let e := retry_loop net domain left resp' (state_next st ck)
                 (clock_next net left ck) (tr ++ events_next domain left st ck) lg' in
      last_request_time st <= last_request_time (loop_state e)
      /\ last_request_time (loop_state e) <= now (loop_clock e)
      /\ forall t, t ∈ request_times (loop_trace e) ->
                   t ∈ request_times tr
                   \/ (now ck <= t /\ t <= last_request_time (loop_state e))).
    { intros resp' lg'.
      destruct (IH resp' (state_next st ck) (clock_next net left ck)
                  (tr ++ events_next domain left st ck) lg' Hc' Hnow)
        as (H1 & H2 & H3).
      cbn [state_next last_request_time] in H1. cbv zeta.
      split; [lra|]. split; [exact H2|]. intros t Ht.
      apply H3 in Ht as [Ht|[Ht1 Ht2]].
      - rewrite request_times_app, request_times_next in Ht.
        apply elem_of_app in Ht as [Ht|Ht]; [now left|].
        apply list_elem_of_singleton in Ht as ->. right. split; lra.
      - right. split; lra. }
    destruct ((net (sent ck)).2) as [status body|err]; [|apply Hrec].
    destruct (status =? 200)%Z; [|apply Hrec].
    cbn [loop_state loop_clock loop_trace state_next last_request_time].
    split; [lra|]. split; [exact Hnow|]. intros t Ht.
    rewrite request_times_app, request_times_next in Ht.
    apply elem_of_app in Ht as [Ht|Ht]; [now left|].
    apply list_elem_of_singleton in Ht as ->. right. split; lra.
Qed.

Lemma REQUEST_INTERVAL_pos : 0 < REQUEST_INTERVAL.
Proof. reflexivity. Qed.

(** After the pacing the interval has gone by since the last request. *)
Lemma pace_waits st ck :
  last_request_time st + REQUEST_INTERVAL <= now (pace st ck).1.
Proof.
  rewrite pace_run.
  destruct (Qltb (now ck - last_request_time st) REQUEST_INTERVAL) eqn:E.
  - apply Qltb_lt in E. cbn [fst sleep now]. lra.
  - assert (~ now ck - last_request_time st < REQUEST_INTERVAL)
      by (intros H; apply Qltb_lt in H; congruence).
    cbn [fst]. lra.
Qed.

(** The requests of a call: none before the interval has gone by since
    the last request, and none after the time the call records as that of
    its last request. *)
Lemma icp_query_times net domain st ck :
  causal net -> (0 < permits st)%nat -> (current_endpoint_index st < N)%nat ->
  forall t, t ∈ request_times (trace (icp_query net domain st ck)) ->
            last_request_time st + REQUEST_INTERVAL <= t
            /\ t <= last_request_time (state_after (icp_query net domain st ck)).
Proof.
  intros Hnet Hp Hc t Ht.
  destruct (icp_query_loop net domain st ck Hp Hc) as (Htr & Hst & _).
  rewrite Htr in Ht.
  replace (last_request_time (state_after (icp_query net domain st ck)))
    with (last_request_time
            (loop_state (retry_loop net domain max_retries None (acquired st)
                           (pace st ck).1 (pace st ck).2 [])))
    by (rewrite Hst; destruct (ended _); reflexivity).
  pose proof (pace_waits st ck) as Hw. pose proof REQUEST_INTERVAL_pos as Hi.
  destruct (retry_loop_times net domain Hnet max_retries None (acquired st)
              (pace st ck).1 (pace st ck).2 [] Hc) as (_ & _ & Hall).
  { cbn [acquired last_request_time]. lra. }
  apply Hall in Ht as [Ht|[Ht1 Ht2]].
  - rewrite pace_no_request in Ht. inversion Ht.
  - cbn [acquired last_request_time] in *. split; [lra | exact Ht2].
Qed.

(** A call starts with its pacing, and then sends its first request. *)
Lemma icp_query_head net domain st ck :
  (0 < permits st)%nat -> (current_endpoint_index st < N)%nat ->
  exists rest,
    trace (icp_query net domain st ck)
    = (pace st ck).2
      ++ asks domain (current_endpoint_index st) 0 (now (pace st ck).1) :: rest.
Proof.
  intros Hp Hc.
  destruct (icp_query_loop net domain st ck Hp Hc) as (-> & _).
  destruct (retry_loop_three net domain (acquired st) (pace st ck).1
              (pace st ck).2 Hc) as (t1 & t2 & Hthree).
  cbn [acquired current_endpoint_index] in Hthree.
  destruct (succeeded _); [|destruct (succeeded _)];
    rewrite (proj1 Hthree); eauto.
Qed.

(** The sleep of the pacing is run twice: a call made before the interval
    has gone by sleeps for what is missing, and then for as much again. *)
Lemma icp_query_sleeps_twice net domain st ck :
  (0 < permits st)%nat -> (current_endpoint_index st < N)%nat ->
  now ck - last_request_time st < REQUEST_INTERVAL ->
  exists t rest,
    trace (icp_query net domain st ck)
    = Slept (REQUEST_INTERVAL - (now ck - last_request_time st))
      :: Slept (REQUEST_INTERVAL - (now ck - last_request_time st))
      :: asks domain (current_endpoint_index st) 0 t :: rest.
Proof.
  intros Hp Hc Hlt. destruct (icp_query_head net domain st ck Hp Hc) as [rest ->].
  rewrite pace_run. apply Qltb_lt in Hlt. rewrite Hlt. cbn [fst snd app]. eauto.
Qed.

(** The separation the pacing gives.  Before its first request a call
    computes the time elapsed since the last request; when it is below the
    minimum interval the caller is put to sleep, else the request is sent
    at once.  No request of the call is sent before the interval has gone
    by since the last request, so that the requests of two calls in a row
    are at least the interval apart.  Time is the clock of the model: a
    sleep moves it on by its argument and a request by a non-negative
    time. *)
Lemma paced_requests (net : network) (domain next : string)
    (st : state) (ck : clock) :
  causal net -> (0 < permits st)%nat -> (current_endpoint_index st < N)%nat ->
  let elapsed := now ck - last_request_time st in
  let c := icp_query net domain st ck in
  let c' := icp_query net next (state_after c) (clock_after c) in
  (elapsed < REQUEST_INTERVAL ->
   exists rest, trace c = Slept (REQUEST_INTERVAL - elapsed) :: rest)
  /\ (~ elapsed < REQUEST_INTERVAL ->
      exists rest,
        trace c = asks domain (current_endpoint_index st) 0 (now ck) :: rest)
  /\ (forall t, t ∈ request_times (trace c) ->
                last_request_time st + REQUEST_INTERVAL <= t)
  /\ (forall t t',
      t ∈ request_times (trace c) -> t' ∈ request_times (trace c') ->
      t + REQUEST_INTERVAL <= t').
Proof.
  intros Hnet Hp Hc. cbv zeta. split; [|split; [|split]].
  - intros Hlt.
    destruct (icp_query_sleeps_twice net domain st ck Hp Hc Hlt) as (t & rest & ->).
    eauto.
  - intros Hge. destruct (icp_query_head net domain st ck Hp Hc) as [rest ->].
    rewrite pace_run.
    destruct (Qltb (now ck - last_request_time st) REQUEST_INTERVAL) eqn:E.
    + apply Qltb_lt in E. contradiction.
    + cbn [fst snd app]. eauto.
  - intros t Ht. now apply (icp_query_times net domain st ck Hnet Hp Hc).
  - intros t t' Ht Ht'.
    apply (icp_query_times net domain st ck Hnet Hp Hc) in Ht as [_ Ht].
    destruct (icp_query_run net domain st ck Hp Hc) as (_ & _ & Hi & _).
    destruct (permits (state_after (icp_query net domain st ck))) as [|free] eqn:Hfree.
    { unfold icp_query at 1 in Ht'. rewrite Hfree in Ht'. inversion Ht'. }
    apply (icp_query_times net next _ _ Hnet) in Ht' as [Ht' _].
    + lra.
    + rewrite Hfree. lia.
    + rewrite Hi. apply Nat.mod_upper_bound. pose proof N_pos. lia.
Qed.

(** C7.  The claim has the caller suspended once, for what is missing of
    the interval.  The code runs the check with its sleep twice in a row
    (lines 39 to 40 and 46 to 47): a call made before the interval has gone
    by is suspended for twice what is missing, and its first request leaves
    that much later than the claim has it. *)
Theorem pacing_suspends_twice (net : network) (domain : string)
    (st : state) (ck : clock) :
  (0 < permits st)%nat -> (current_endpoint_index st < N)%nat ->
  let elapsed := now ck - last_request_time st in
  let delta := REQUEST_INTERVAL - elapsed in
  let c := icp_query net domain st ck in
  elapsed < REQUEST_INTERVAL ->
  (exists rest,
      trace c
      = Slept delta :: Slept delta
        :: asks domain (current_endpoint_index st) 0 (now ck + delta + delta) :: rest)
  /\ suspended (trace c) == 2 * delta
  /\ ~ suspended (trace c) == delta
  /\ head (request_times (trace c)) = Some (now ck + delta + delta)
  /\ now ck + delta < now ck + delta + delta.
Proof.
  intros Hp Hc elapsed delta c Hlt.
  destruct (icp_query_head net domain st ck Hp Hc) as [rest Hrest].
  rewrite pace_run in Hrest. fold elapsed in Hrest.
  pose proof Hlt as Hb. apply Qltb_lt in Hb. rewrite Hb in Hrest.
  cbn [fst snd app sleep now] in Hrest. fold delta in Hrest. fold c in Hrest.
  assert (Hsum : suspended (trace c) == 2 * delta).
  { rewrite Hrest. unfold asks. cbn [suspended]. lra. }
  split; [eauto|]. split; [exact Hsum|]. split; [|split].
  - rewrite Hsum. subst delta. lra.
  - rewrite Hrest. reflexivity.
  - subst delta. lra.
Qed.

(** C7 on the first call of a client whose clock starts at the time of the
    last request. *)
Lemma pacing_suspends_twice_witness :
  now midnight - last_request_time initial < REQUEST_INTERVAL
  /\ ~ suspended (trace (icp_query (answering 200) "a.com" initial midnight))
       == REQUEST_INTERVAL - (now midnight - last_request_time initial).
Proof.
  assert (Hp : (0 < permits initial)%nat) by (vm_compute; lia).
  assert (Hc : (current_endpoint_index initial < N)%nat) by (vm_compute; lia).
  assert (Hlt : now midnight - last_request_time initial < REQUEST_INTERVAL)
    by reflexivity.
  split; [exact Hlt|].
  exact (proj1 (proj2 (proj2
    (pacing_suspends_twice (answering 200) "a.com" initial midnight Hp Hc Hlt)))).
Defined.

(** Two domains queried in a row, the first answered at its third attempt
    within a hundredth of a second: the third attempt is followed by no
    sleep, so the second call finds 0.01 s elapsed of the 0.0375 s of the
    interval and sleeps 0.0275 s twice, 0.055 s in all. *)
Example second_call_sleeps_twice :
  let c1 := icp_query third_time_lucky "a.com" initial noon in
  let c2 := icp_query third_time_lucky "b.com" (state_after c1) (clock_after c1) in
  Qred (now (clock_after c1) - last_request_time (state_after c1)) = 1 # 100
  /\ Qred (suspended (trace c1)) = 0
  /\ Qred (suspended (trace c2)) = 11 # 200
  /\ Qred (2 * (REQUEST_INTERVAL
                - (now (clock_after c1) - last_request_time (state_after c1))))
     = 11 # 200.
Proof. repeat split; vm_compute; reflexivity. Qed.

End IcpFacts.

(** ** The collectors in detail *)

Module CollectorDetails.
Import Regex RegexFacts Subdomain Examples SubdomainTerms ValidatorFacts
  CollectorFacts ZoomeyeFacts OrchestratorFacts CollectorTerms.

Lemma name_char_safe c : name_char c = true -> unsafe_char c = false.
Proof.
  destruct c as [[] [] [] [] [] [] [] []]; vm_compute; congruence.
Qed.

Lemma name_char_not_quote c : name_char c = true -> Ascii.eqb c dquote = false.
Proof.
  destruct c as [[] [] [] [] [] [] [] []]; vm_compute; congruence.
Qed.

Lemma label_name_chars l : is_label l = true -> forallb name_char l = true.
Proof.
  intros Hl. destruct l as [|c l]; [discriminate|].
  unfold is_label in Hl. apply andb_prop in Hl as [_ Hl].
  apply forallb_forall. intros x Hx.
  rewrite forallb_forall in Hl. specialize (Hl x Hx).
  unfold name_char. now rewrite Hl.
Qed.

Lemma alpha_run_name_chars t : is_alpha_run t = true -> forallb name_char t = true.
Proof.
  unfold is_alpha_run. intros [_ Ht]%andb_prop.
  apply forallb_forall. intros x Hx. rewrite forallb_forall in Ht.
  specialize (Ht x Hx). unfold name_char.
  now rewrite (alnum_label_char _ (alpha_alnum _ Ht)).
Qed.

Lemma join_name_chars ls t :
  Forall (fun l => is_label l = true) ls -> forallb name_char t = true ->
  forallb name_char (join_with "." ls t) = true.
Proof.
  intros Hls Ht. unfold join_with. rewrite forallb_app, Ht, andb_true_r.
  induction Hls as [|l ls Hl _ IH]; [reflexivity|].
  simpl. rewrite !forallb_app, IH, (label_name_chars _ Hl). reflexivity.
Qed.

Lemma validate_domain_chars domain :
  validate_domain domain = true ->
  forallb name_char (list_ascii_of_string domain) = true.
Proof.
  unfold validate_domain. rewrite matchb_matches, matches_domain_pattern.
  intros (ls & t & nl & _ & Hls & Ht & Hnl & ->).
  apply join_name_chars; [assumption|].
  rewrite forallb_app, (alpha_run_name_chars _ Ht).
  destruct Hnl as [-> | ->]; reflexivity.
Qed.

Lemma lstrip_by_none p l :
  forallb (fun c => negb (p c)) l = true -> lstrip_by p l = l.
Proof.
  destruct l as [|c l]; [reflexivity|]. simpl.
  intros [Hc _]%andb_prop. apply negb_true_iff in Hc. now rewrite Hc.
Qed.

Lemma forallb_rev {A} (f : A -> bool) l : forallb f (rev l) = forallb f l.
Proof.
  induction l as [|x l IH]; [reflexivity|].
  simpl. rewrite forallb_app, IH. simpl. rewrite andb_true_r. apply andb_comm.
Qed.

Lemma strip_by_none p s :
  forallb (fun c => negb (p c)) (list_ascii_of_string s) = true -> strip_by p s = s.
Proof.
  intros H. unfold strip_by. rewrite (lstrip_by_none _ _ H).
  rewrite lstrip_by_none by now rewrite forallb_rev.
  now rewrite rev_involutive, string_of_list_ascii_of_string.
Qed.

Lemma sanitize_validated domain :
  validate_domain domain = true -> sanitize domain = domain.
Proof.
  intros Hv. pose proof (validate_domain_chars _ Hv) as Hc.
  rewrite forallb_forall in Hc. unfold sanitize.
  rewrite <- (string_of_list_ascii_of_string domain) at 2. f_equal.
  rewrite <- (map_id (list_ascii_of_string domain)) at 2.
  apply map_ext_in. intros c Hin. now rewrite (name_char_safe _ (Hc c Hin)).
Qed.

(** X1.  A name that validates passes through the preparation of
    [run_subfinder] unchanged: it holds only letters, digits, hyphens, dots
    and at most the final newline that the pattern lets through, so
    stripping the double quotes and replacing the characters unsafe in a
    file name both leave it as it is. *)
Theorem validated_name_passes_unchanged (domain : string) :
  validate_domain domain = true ->
  Forall (fun c => is_label_char c = true \/ c = "."%char \/ c = newline)
    (list_ascii_of_string domain)
  /\ strip_quotes domain = domain
  /\ sanitize domain = domain.
Proof.
  intros Hv. pose proof (validate_domain_chars _ Hv) as Hc.
  rewrite forallb_forall in Hc. split; [|split].
  - apply List.Forall_forall. intros c Hin. specialize (Hc c Hin).
    unfold name_char in Hc.
    apply orb_prop in Hc as [Hc|Hc]; [apply orb_prop in Hc as [Hc|Hc]|].
    + now left.
    + right. left. now apply Ascii.eqb_eq.
    + right. right. now apply Ascii.eqb_eq.
  - apply strip_by_none. apply forallb_forall. intros c Hin.
    now rewrite (name_char_not_quote _ (Hc c Hin)).
  - now apply sanitize_validated.
Qed.

(** X1 on a hostname. *)
Lemma validated_name_passes_unchanged_witness :
  validate_domain "a.example.com" = true
  /\ sanitize "a.example.com" = "a.example.com"%string.
Proof.
  assert (Hv : validate_domain "a.example.com" = true) by (vm_compute; reflexivity).
  split; [exact Hv|].
  exact (proj2 (proj2 (validated_name_passes_unchanged "a.example.com" Hv))).
Defined.

Lemma commands_app l1 l2 : commands (l1 ++ l2) = commands l1 ++ commands l2.
Proof. apply omap_app. Qed.

Lemma commands_summary name s : commands [summary name s] = [].
Proof. unfold summary. now destruct (set_truthy s). Qed.

Lemma commands_read w path : commands (read_file_with_encoding w path).2 = [].
Proof.
  unfold read_file_with_encoding. induction encodings as [|enc encs IH]; [reflexivity|].
  simpl. destruct (open_read w path enc); [reflexivity|exact IH|].
  destruct (read_with w path encs) as [r l]. exact IH.
Qed.

(** What [run_subfinder] hands to [subprocess.run]. *)
Lemma run_subfinder_commands w cfg domain :
  commands (logged (run_subfinder w cfg domain))
  = match global cfg with
    | None | Some (NoMapping _) => []
    | Some (Settings g) =>
        let clean := strip_quotes domain in
        if negb (os_path_exists w (tool_path w g)) then []
        else if os_path_exists w clean && endswith clean ".txt" then
          [[tool_path w g; "-dL"; clean; "-o";
            output_for w (os_path_splitext_root w (sanitize (os_path_basename w clean)));
            "-all"]%string]
        else if validate_domain clean then
          [[tool_path w g; "-d"; clean; "-o"; output_for w (sanitize clean); "-all"]%string]
        else []
    end.
Proof.
  unfold run_subfinder, tool_path, output_for.
  destruct (global cfg) as [[g|type_name]|]; [|reflexivity|reflexivity].
  cbv zeta.
  destruct (negb (os_path_exists w _)); [reflexivity|].
  assert (Hrun : forall out cmd,
    commands
      (logged
         match subprocess_run w cmd with
         | Exited0 o err =>
             if os_path_exists_after w out then
               let '(result_domains, l3) := read_file_with_encoding w out in
               returned result_domains []
                 ([(INFO, Collecting "subfinder"); (DEBUG, Running cmd)]
                  ++ (if str_truthy o then [(DEBUG, ToolStdout o)] else [])
                  ++ (if str_truthy err then [(WARNING, ToolStderr err)] else [])
                  ++ l3 ++ [summary "subfinder" result_domains])
             else
               returned ∅ []
                 ([(INFO, Collecting "subfinder"); (DEBUG, Running cmd)]
                  ++ (if str_truthy o then [(DEBUG, ToolStdout o)] else [])
                  ++ (if str_truthy err then [(WARNING, ToolStderr err)] else [])
                  ++ [(ERROR, OutputMissing out)])
         | CalledProcessError err =>
             returned ∅ []
               ([(INFO, Collecting "subfinder"); (DEBUG, Running cmd)]
                ++ (ERROR, ToolFailed "CalledProcessError")
                   :: (if str_truthy err then [(ERROR, ToolStderr err)] else []))
         | SpawnError e =>
             returned ∅ []
               ([(INFO, Collecting "subfinder"); (DEBUG, Running cmd)]
                ++ [(ERROR, ToolFailed e)])
         end) = [cmd]).
  { intros out cmd. destruct (subprocess_run w cmd) as [o err|err|e].
    - destruct (os_path_exists_after w out).
      + pose proof (commands_read w out) as Hread.
        destruct (read_file_with_encoding w out) as [r l3]. cbn [snd] in Hread.
        reveal. rewrite !commands_app, Hread, commands_summary.
        now destruct (str_truthy o), (str_truthy err).
      + reveal. rewrite !commands_app. now destruct (str_truthy o), (str_truthy err).
    - reveal. rewrite commands_app. now destruct (str_truthy err).
    - reflexivity. }
  destruct (os_path_exists w (strip_quotes domain) && endswith (strip_quotes domain) ".txt").
  - apply Hrun.
  - destruct (validate_domain (strip_quotes domain)); [|reflexivity].
    cbn [negb]. apply Hrun.
Qed.

(** X2.  What [run_subfinder] hands to [subprocess.run]: at most one
    command, only with the [global] section a mapping and the tool installed,
    and its target is either an existing file whose name ends in [.txt],
    given with [-dL], or else a name that validates, given with [-d]; such a
    name does not start with a hyphen and its output file is [subdomains_]
    followed by the name and [.txt]. *)
Theorem run_subfinder_command_is_guarded
    (w : world) (cfg : config) (domain : string) (cmd : list string) :
  cmd ∈ commands (logged (run_subfinder w cfg domain)) ->
  let clean := strip_quotes domain in
  commands (logged (run_subfinder w cfg domain)) = [cmd]
  /\ exists g,
      global cfg = Some (Settings g)
      /\ os_path_exists w (tool_path w g) = true
      /\ ((os_path_exists w clean = true /\ endswith clean ".txt" = true
           /\ exists out,
               cmd = [tool_path w g; "-dL"; clean; "-o"; out; "-all"]%string)
          \/ (os_path_exists w clean && endswith clean ".txt" = false
              /\ validate_domain clean = true
              /\ startswith clean "-" = false
              /\ cmd = [tool_path w g; "-d"; clean; "-o"; output_for w clean;
                        "-all"]%string)).
Proof.
  rewrite run_subfinder_commands. intros Hin clean.
  destruct (global cfg) as [[g|type_name]|]; try now apply elem_of_nil in Hin.
  cbv zeta in Hin |- *. fold clean in Hin |- *.
  destruct (os_path_exists w (tool_path w g)) eqn:Htool; cbn [negb] in Hin |- *;
    [|now apply elem_of_nil in Hin].
  destruct (os_path_exists w clean && endswith clean ".txt") eqn:Hfile.
  - apply list_elem_of_singleton in Hin as ->. split; [reflexivity|].
    exists g. apply andb_prop in Hfile as [Hex Hend].
    repeat split; try assumption. left. repeat split; try assumption. eauto.
  - destruct (validate_domain clean) eqn:Hv; [|now apply elem_of_nil in Hin].
    apply list_elem_of_singleton in Hin as ->.
    rewrite (sanitize_validated clean Hv). split; [reflexivity|].
    exists g. repeat split; try assumption. right. repeat split; try assumption.
    unfold startswith. unfold validate_domain in Hv.
    apply matchb_matches, matches_domain_pattern in Hv
      as (ls & t & nl & Hne & Hls & _ & _ & Hw).
    rewrite Hw. destruct ls as [|l ls]; [contradiction|].
    inversion Hls as [|? ? Hl _]; subst. destruct l as [|c l]; [discriminate|].
    unfold is_label in Hl. apply andb_prop in Hl as [Hl _].
    apply andb_prop in Hl as [Hl _]. apply andb_prop in Hl as [_ Hc].
    unfold join_with. cbn [map concat app].
    change (list_ascii_of_string "-") with ["-"%char]. cbn [is_prefix].
    rewrite andb_true_r. apply Ascii.eqb_neq. intros <-. discriminate Hc.
Qed.

(** X2 on the domain example.com with the tool installed. *)
Lemma run_subfinder_command_is_guarded_witness :
  commands (logged (run_subfinder offline all_keys "example.com"))
  = [["tools/subfinder.exe"; "-d"; "example.com"; "-o";
      "results/subdomains/subdomains_example.com.txt"; "-all"]%string].
Proof.
  assert (Hin : ["tools/subfinder.exe"; "-d"; "example.com"; "-o";
                 "results/subdomains/subdomains_example.com.txt"; "-all"]%string
                ∈ commands (logged (run_subfinder offline all_keys "example.com"))).
  { vm_compute. apply list_elem_of_here. }
  exact (proj1 (run_subfinder_command_is_guarded offline all_keys "example.com" _ Hin)).
Defined.

(** ** Which task can raise *)

Lemma run_zoomeye_returns w cfg domain :
  exists s, value (run_zoomeye w cfg domain) = Returned s.
Proof.
  pose proof (run_zoomeye_within_turns w cfg domain) as Hrun.
  unfold run_zoomeye_within in Hrun.
  destruct (subdomain cfg) as [sc|]; [|injection Hrun as <-; eauto].
  destruct (negb _); [injection Hrun as <-; eauto|].
  destruct (zoomeye_loop _ w domain _) as [c|]; [|discriminate].
  destruct c; injection Hrun as <-; eauto.
Qed.

Lemma run_crtsh_returns w cfg domain :
  exists s, value (run_crtsh w cfg domain) = Returned s.
Proof. unfold run_crtsh. destruct (crtsh_get w _); eauto. Qed.

Lemma run_securitytrails_returns w cfg domain :
  exists s, value (run_securitytrails w cfg domain) = Returned s.
Proof.
  unfold run_securitytrails. destruct (subdomain cfg) as [sc|]; [|eauto].
  destruct (negb _); [eauto|]. destruct (securitytrails_get w _); eauto.
Qed.

Lemma run_shodan_returns w cfg domain :
  exists s, value (run_shodan w cfg domain) = Returned s.
Proof.
  unfold run_shodan. destruct (subdomain cfg) as [sc|]; [|eauto].
  destruct (shodan_api_key sc) as [k|]; [|eauto].
  destruct (negb _); [eauto|]. destruct (shodan_get w _); eauto.
Qed.

(** [run_subfinder] raises at its first line or not at all: when the
    section [global] is missing or is no mapping. *)
Lemma run_subfinder_raises w cfg domain e :
  value (run_subfinder w cfg domain) = Raised e <-> global_unreadable cfg e.
Proof.
  unfold run_subfinder, global_unreadable.
  destruct (global cfg) as [[g|type_name]|].
  - split.
    + intros He. exfalso. revert He. cbv zeta.
      repeat (case_match; reveal; try discriminate).
    + intros [[Hg _]|(t & Hg & _)]; discriminate Hg.
  - cbn [value]. split.
    + intros [= <-]. right. eauto.
    + intros [[Hg _]|(t & [= <-] & ->)]; [discriminate Hg|reflexivity].
  - cbn [value]. split.
    + intros [= <-]. left. auto.
    + intros [[_ ->]|(t & Hg & _)]; [reflexivity|discriminate Hg].
Qed.

Lemma run_subfinder_raises_quietly w cfg domain e :
  value (run_subfinder w cfg domain) = Raised e ->
  net (run_subfinder w cfg domain) = [] /\ logged (run_subfinder w cfg domain) = [].
Proof.
  intros He. apply run_subfinder_raises in He.
  unfold run_subfinder.
  destruct He as [[Hg _]|(t & Hg & _)]; rewrite Hg; auto.
Qed.

(** X3.  Of the collection tasks only [subfinder] can raise, and only at
    its first line, which reads the [global] section outside any [try]:
    [KeyError] when the configuration has no such section, [AttributeError]
    when the section is no mapping, as the null that an empty section is
    loaded as.  It has sent nothing and logged nothing then.  The four
    other collectors catch every exception. *)
Theorem only_subfinder_can_raise
    (w : world) (cfg : config) (domain name : string) (run : task_run) (e : string) :
  (name, run) ∈ collection_tasks w cfg domain ->
  value run = Raised e ->
  name = "subfinder"%string
  /\ ((global cfg = None /\ e = "KeyError: 'global'"%string)
      \/ exists type_name,
           global cfg = Some (NoMapping type_name)
           /\ e = ("AttributeError: '" +:+ type_name
                     +:+ "' object has no attribute 'get'")%string)
  /\ net run = [] /\ logged run = [].
Proof.
  intros Hin He. unfold collection_tasks in Hin.
  assert (Hno : forall r : task_run,
             (exists s, value r = Returned s) -> r = run -> False).
  { intros r [s Hs] ->. congruence. }
  rewrite !elem_of_app, !elem_of_cons in Hin.
  destruct Hin as [[Hin|[Hin|Hin]]|[Hin|[Hin|Hin]]].
  - injection Hin as -> ->. split; [reflexivity|].
    split; [exact (proj1 (run_subfinder_raises w cfg domain e) He)|].
    exact (run_subfinder_raises_quietly w cfg domain e He).
  - injection Hin as -> Hr. exfalso.
    exact (Hno _ (run_crtsh_returns w cfg domain) (eq_sym Hr)).
  - now apply elem_of_nil in Hin.
  - destruct (key_truthy _); [|now apply elem_of_nil in Hin].
    apply list_elem_of_singleton in Hin. injection Hin as -> Hr. exfalso.
    exact (Hno _ (run_securitytrails_returns w cfg domain) (eq_sym Hr)).
  - destruct (key_truthy (api_key cfg zoomeye_api_key));
      [|now apply elem_of_nil in Hin].
    apply list_elem_of_singleton in Hin. injection Hin as -> Hr. exfalso.
    exact (Hno _ (run_zoomeye_returns w cfg domain) (eq_sym Hr)).
  - destruct (key_truthy (api_key cfg shodan_api_key));
      [|now apply elem_of_nil in Hin].
    apply list_elem_of_singleton in Hin. injection Hin as -> Hr. exfalso.
    exact (Hno _ (run_shodan_returns w cfg domain) (eq_sym Hr)).
Qed.

(** X3 on a configuration whose [global] section is empty. *)
Lemma only_subfinder_can_raise_witness :
  ("subfinder"%string, run_subfinder offline null_global "example.com")
    ∈ collection_tasks offline null_global "example.com"
  /\ value (run_subfinder offline null_global "example.com")
     = Raised "AttributeError: 'NoneType' object has no attribute 'get'"
  /\ net (run_subfinder offline null_global "example.com") = [].
Proof.
  assert (Hin : ("subfinder"%string, run_subfinder offline null_global "example.com")
                  ∈ collection_tasks offline null_global "example.com")
    by apply list_elem_of_here.
  assert (He : value (run_subfinder offline null_global "example.com")
               = Raised "AttributeError: 'NoneType' object has no attribute 'get'")
    by reflexivity.
  split; [exact Hin|]. split; [exact He|].
  exact (proj1 (proj2 (proj2 (only_subfinder_can_raise offline null_global
                                "example.com" "subfinder" _ _ Hin He)))).
Defined.

(** ** What the certificate-log collector keeps *)

Lemma crtsh_rows domain rows : forall acc x,
  x ∈ foldl (crtsh_row domain) acc rows
  <-> x ∈ acc
      \/ exists cells,
           cells ∈ rows /\ 5 <= length cells
           /\ x = strip (nth 4 cells ""%string)
           /\ contains x domain = true /\ validate_domain x = true.
Proof.
  induction rows as [|cells rows IH]; intros acc x; simpl.
  - split; [now left|]. intros [H|(cells & Hin & _)]; [exact H|].
    now apply elem_of_nil in Hin.
  - rewrite IH. unfold crtsh_row at 1.
    destruct (5 <=? length cells) eqn:Hlen.
    + apply Nat.leb_le in Hlen.
      destruct (contains _ domain && validate_domain _) eqn:Hkeep.
      * apply andb_prop in Hkeep as [Hc Hv]. rewrite elem_of_union, elem_of_singleton.
        split.
        -- intros [[H| ->]|(c & Hin & H)]; [now left| |].
           ++ right. exists cells. split; [apply list_elem_of_here|]. auto.
           ++ right. exists c. split; [now apply list_elem_of_further|exact H].
        -- intros [H|(c & Hin & Hl & -> & H)]; [now left; left|].
           apply elem_of_cons in Hin as [->|Hin]; [now left; right|].
           right. exists c. auto.
      * split.
        -- intros [H|(c & Hin & H)]; [now left|].
           right. exists c. split; [now apply list_elem_of_further|exact H].
        -- intros [H|(c & Hin & Hl & -> & Hc & Hv)]; [now left|].
           apply elem_of_cons in Hin as [->|Hin].
           ++ rewrite Hc, Hv in Hkeep. discriminate.
           ++ right. exists c. auto.
    + apply Nat.leb_gt in Hlen. split.
      * intros [H|(c & Hin & H)]; [now left|].
        right. exists c. split; [now apply list_elem_of_further|exact H].
      * intros [H|(c & Hin & Hl & H)]; [now left|].
        apply elem_of_cons in Hin as [->|Hin]; [lia|].
        right. exists c. auto.
Qed.

(** X4.  [run_crtsh] sends exactly one request, to the address made of the
    queried domain, never raises, and returns exactly the stripped fifth
    cells of the rows with at least five cells that contain the queried
    domain and validate; nothing when the request fails. *)
Theorem run_crtsh_keeps_matching_cells (w : world) (cfg : config) (domain : string) :
  net (run_crtsh w cfg domain) = [crtsh_request domain]
  /\ exists s,
      value (run_crtsh w cfg domain) = Returned s
      /\ forall x,
          x ∈ s
          <-> exists rows cells,
                crtsh_get w (req_url (crtsh_request domain)) = HttpOk rows
                /\ cells ∈ rows /\ 5 <= length cells
                /\ x = strip (nth 4 cells ""%string)
                /\ contains x domain = true /\ validate_domain x = true.
Proof.
  unfold run_crtsh, crtsh_request. cbn [req_url].
  destruct (crtsh_get w _) as [rows|status|e|e]; reveal; (split; [reflexivity|]).
  1:{ eexists. split; [reflexivity|]. intros x. rewrite crtsh_rows. split.
      - intros [H|(cells & H)]; [now apply not_elem_of_empty in H|]. eauto.
      - intros (rows' & cells & [= <-] & H). right. eauto. }
  all: exists ∅; split; [reflexivity|]; intros x; split;
    [intros H; now apply not_elem_of_empty in H
    |intros (rows & cells & Hget & _); discriminate].
Qed.

(** ** What the keyed collectors keep *)

Lemma securitytrails_kept domain l : forall acc x,
  x ∈ foldl (securitytrails_entry domain) acc l
  <-> x ∈ acc
      \/ exists sub, sub ∈ l /\ x = (sub +:+ "." +:+ domain)%string
                     /\ validate_domain x = true.
Proof.
  induction l as [|sub l IH]; intros acc x; simpl.
  - split; [now left|]. intros [H|(s & Hin & _)]; [exact H|].
    now apply elem_of_nil in Hin.
  - rewrite IH. unfold securitytrails_entry at 1.
    destruct (validate_domain (sub +:+ "." +:+ domain)) eqn:Hv.
    + rewrite elem_of_union, elem_of_singleton. split.
      * intros [[H| ->]|(s & Hin & H)]; [now left| |].
        -- right. exists sub. split; [apply list_elem_of_here|]. auto.
        -- right. exists s. split; [now apply list_elem_of_further|exact H].
      * intros [H|(s & Hin & -> & H)]; [now left; left|].
        apply elem_of_cons in Hin as [->|Hin]; [now left; right|].
        right. exists s. auto.
    + split.
      * intros [H|(s & Hin & H)]; [now left|].
        right. exists s. split; [now apply list_elem_of_further|exact H].
      * intros [H|(s & Hin & -> & H)]; [now left|].
        apply elem_of_cons in Hin as [->|Hin]; [congruence|].
        right. exists s. auto.
Qed.

Lemma shodan_kept domain l : forall acc x,
  x ∈ foldl (shodan_entry domain) acc l
  <-> x ∈ acc
      \/ exists record sub,
           record ∈ l /\ subdomain_field record = Some sub /\ sub <> ""%string
           /\ x = (sub +:+ "." +:+ domain)%string /\ validate_domain x = true.
Proof.
  induction l as [|record l IH]; intros acc x; simpl.
  - split; [now left|]. intros [H|(r & s & Hin & _)]; [exact H|].
    now apply elem_of_nil in Hin.
  - rewrite IH.
    assert (Hlater : forall P : Prop,
      (exists r sub, r ∈ l /\ subdomain_field r = Some sub /\ sub <> ""%string
                     /\ x = (sub +:+ "." +:+ domain)%string
                     /\ validate_domain x = true) ->
      P \/ exists r sub, r ∈ record :: l /\ subdomain_field r = Some sub
                         /\ sub <> ""%string
                         /\ x = (sub +:+ "." +:+ domain)%string
                         /\ validate_domain x = true).
    { intros P (r & s & Hin & H). right. exists r, s.
      split; [now apply list_elem_of_further|exact H]. }
    unfold shodan_entry at 1.
    destruct (subdomain_field record) as [sub|] eqn:Hf.
    2:{ split; [intros [H|H]; [now left|now apply Hlater]|].
        intros [H|(r & s & Hin & Hs & H)]; [now left|].
        apply elem_of_cons in Hin as [->|Hin]; [congruence|].
        right. exists r, s. auto. }
    unfold str_truthy. destruct (String.eqb sub "") eqn:He; cbn [negb].
    1:{ apply String.eqb_eq in He. subst sub.
        split; [intros [H|H]; [now left|now apply Hlater]|].
        intros [H|(r & s & Hin & Hs & Hne & H)]; [now left|].
        apply elem_of_cons in Hin as [->|Hin]; [congruence|].
        right. exists r, s. auto. }
    apply String.eqb_neq in He.
    destruct (validate_domain (sub +:+ "." +:+ domain)) eqn:Hv.
    + rewrite elem_of_union, elem_of_singleton. split.
      * intros [[H| ->]|H]; [now left| |now apply Hlater].
        right. exists record, sub. split; [apply list_elem_of_here|]. auto.
      * intros [H|(r & s & Hin & Hs & Hne & -> & H)]; [now left; left|].
        apply elem_of_cons in Hin as [->|Hin].
        -- left. right. congruence.
        -- right. exists r, s. auto.
    + split; [intros [H|H]; [now left|now apply Hlater]|].
      intros [H|(r & s & Hin & Hs & Hne & -> & H)]; [now left|].
      apply elem_of_cons in Hin as [->|Hin]; [congruence|].
      right. exists r, s. auto.
Qed.

Lemma shodan_types_kept domain body l : forall acc x,
  x ∈ foldl (shodan_records domain body) acc l
  <-> x ∈ acc
      \/ exists record_type record sub,
           record_type ∈ l /\ record ∈ default [] (body !! record_type)
           /\ subdomain_field record = Some sub /\ sub <> ""%string
           /\ x = (sub +:+ "." +:+ domain)%string /\ validate_domain x = true.
Proof.
  induction l as [|ty l IH]; intros acc x; simpl.
  - split; [now left|]. intros [H|(t & r & s & Hin & _)]; [exact H|].
    now apply elem_of_nil in Hin.
  - rewrite IH. unfold shodan_records at 1. rewrite shodan_kept. split.
    + intros [[H|(r & s & Hin & H)]|(t & r & s & Hin & H)]; [now left| |].
      * right. exists ty, r, s. split; [apply list_elem_of_here|]. auto.
      * right. exists t, r, s. split; [now apply list_elem_of_further|exact H].
    + intros [H|(t & r & s & Hin & Hr & H)]; [now left; left|].
      apply elem_of_cons in Hin as [->|Hin].
      * left. right. exists r, s. auto.
      * right. exists t, r, s. auto.
Qed.

(** X5.  With its key set and its request answered, the SecurityTrails
    collector returns exactly the names made of a prefix of the answer, a
    dot and the domain that validate, and the Shodan collector exactly those
    made of the non-empty [subdomain] fields of the records of the six
    record types: no valid name of the answer is dropped. *)
Theorem keyed_collectors_keep_every_valid_name
    (w : world) (cfg : config) (domain : string) (sc : subdomain_config) :
  subdomain cfg = Some sc ->
  (forall body,
      key_truthy (securitytrails_api_key sc) = true ->
      securitytrails_get w
        ("https://api.securitytrails.com/v1/domain/" +:+ domain +:+ "/subdomains")
      = HttpOk body ->
      exists s,
        value (run_securitytrails w cfg domain) = Returned s
        /\ forall x,
            x ∈ s
            <-> exists sub,
                  sub ∈ default [] (subdomains body)
                  /\ x = (sub +:+ "." +:+ domain)%string
                  /\ validate_domain x = true)
  /\ (forall key body,
        shodan_api_key sc = Some key -> key <> ""%string ->
        shodan_get w
          ("https://api.shodan.io/dns/domain/" +:+ domain +:+ "?key=" +:+ key)
        = HttpOk body ->
        exists s,
          value (run_shodan w cfg domain) = Returned s
          /\ forall x,
              x ∈ s
              <-> exists record_type record sub,
                    record_type ∈ record_types
                    /\ record ∈ default [] (body !! record_type)
                    /\ subdomain_field record = Some sub /\ sub <> ""%string
                    /\ x = (sub +:+ "." +:+ domain)%string
                    /\ validate_domain x = true).
Proof.
  intros Hsc. split.
  - intros body Hkey Hget. unfold run_securitytrails. rewrite Hsc, Hkey. cbn [negb].
    rewrite Hget. reveal. eexists. split; [reflexivity|].
    intros x. rewrite securitytrails_kept. split; [|now right].
    intros [H|H]; [now apply not_elem_of_empty in H|exact H].
  - intros key body Hkey Hne Hget. unfold run_shodan. rewrite Hsc, Hkey.
    unfold str_truthy. apply String.eqb_neq in Hne. rewrite Hne. cbn [negb].
    rewrite Hget. reveal. eexists. split; [reflexivity|].
    intros x. rewrite shodan_types_kept. split; [|now right].
    intros [H|H]; [now apply not_elem_of_empty in H|exact H].
Qed.

(** X5 on an answer of SecurityTrails with a good and a bad prefix. *)
Lemma keyed_collectors_keep_every_valid_name_witness :
  exists s,
    value (run_securitytrails securitytrails_answers all_keys "example.com")
    = Returned s
    /\ forall x,
        x ∈ s
        <-> exists sub,
              sub ∈ ["www"; "-bad"]%string
              /\ x = (sub +:+ "." +:+ "example.com")%string
              /\ validate_domain x = true.
Proof.
  exact (proj1 (keyed_collectors_keep_every_valid_name securitytrails_answers
                  all_keys "example.com" _ eq_refl) _ eq_refl eq_refl).
Defined.

(** ** The lines read from the tool's output file *)

Lemma lstrip_chars_fixed space l :
  begins_with space l = false -> lstrip_chars space l = l.
Proof.
  destruct l as [|c1 [|c2 [|c3 l]]]; cbn [begins_with lstrip_chars];
    try reflexivity;
    destruct (space [c1]); try discriminate;
    try destruct (space [c1; c2]); try discriminate;
    try destruct (space [c1; c2; c3]); try discriminate; reflexivity.
Qed.

Lemma begins_with_app space l k :
  begins_with space l = true -> begins_with space (l ++ k) = true.
Proof.
  destruct l as [|c1 [|c2 [|c3 l]]]; cbn [begins_with app];
    try discriminate;
    destruct (space [c1]); try reflexivity; cbn [orb];
    try discriminate;
    destruct (space [c1; c2]); try reflexivity; cbn [orb];
    try discriminate.
  now intros ->.
Qed.

(** What [lstrip_chars] drops, and what it leaves: a string that begins
    with no white space. *)
Lemma lstrip_chars_split space : forall n l,
  length l <= n ->
  (exists pre, l = pre ++ lstrip_chars space l)
  /\ begins_with space (lstrip_chars space l) = false.
Proof.
  induction n as [|n IH]; intros l Hn.
  { destruct l; [|simpl in Hn; lia]. split; [now exists []|reflexivity]. }
  destruct l as [|c1 s1]; [split; [now exists []|reflexivity]|].
  cbn [length] in Hn. cbn [lstrip_chars].
  destruct (space [c1]) eqn:E1.
  { destruct (IH s1 ltac:(lia)) as [[pre Hpre] Hhead].
    split; [|exact Hhead]. exists (c1 :: pre). cbn [app]. now f_equal. }
  destruct s1 as [|c2 s2].
  { split; [now exists []|]. cbn [begins_with]. now rewrite E1. }
  cbn [length] in Hn. destruct (space [c1; c2]) eqn:E2.
  { destruct (IH s2 ltac:(lia)) as [[pre Hpre] Hhead].
    split; [|exact Hhead]. exists (c1 :: c2 :: pre). cbn [app]. now do 2 f_equal. }
  destruct s2 as [|c3 s3].
  { split; [now exists []|]. cbn [begins_with]. now rewrite E1, E2. }
  cbn [length] in Hn. destruct (space [c1; c2; c3]) eqn:E3.
  { destruct (IH s3 ltac:(lia)) as [[pre Hpre] Hhead].
    split; [|exact Hhead]. exists (c1 :: c2 :: c3 :: pre). cbn [app].
    now do 3 f_equal. }
  split; [now exists []|]. cbn [begins_with]. now rewrite E1, E2, E3.
Qed.

(** A stripped string is left unchanged by [strip]. *)
Lemma strip_idempotent s : strip (strip s) = strip s.
Proof.
  unfold strip. rewrite list_ascii_of_string_of_list_ascii.
  set (back := fun bytes : list ascii => is_space (rev bytes)).
  set (q := lstrip_chars is_space (list_ascii_of_string s)).
  set (m := lstrip_chars back (rev q)).
  destruct (lstrip_chars_split is_space _ (list_ascii_of_string s) (le_n _))
    as [_ Hq]. fold q in Hq.
  destruct (lstrip_chars_split back _ (rev q) (le_n _)) as [[pre Hpre] Hm].
  fold m in Hpre, Hm.
  assert (Hr : lstrip_chars is_space (rev m) = rev m).
  { apply lstrip_chars_fixed.
    destruct (begins_with is_space (rev m)) eqn:Hb; [|reflexivity].
    apply (begins_with_app _ _ (rev pre)) in Hb.
    rewrite <- rev_app_distr, <- Hpre, rev_involutive in Hb. congruence. }
  now rewrite Hr, rev_involutive, (lstrip_chars_fixed back m Hm).
Qed.

Lemma read_with_lines w path encs x :
  x ∈ (read_with w path encs).1 ->
  exists encoding ls,
    encoding ∈ encs /\ open_read w path encoding = Lines ls /\ x ∈ stripped_lines ls.
Proof.
  induction encs as [|enc encs IH]; simpl; [intros H; now apply not_elem_of_empty in H|].
  destruct (open_read w path enc) as [ls| |e] eqn:Hopen.
  - intros Hx. exists enc, ls. split; [apply list_elem_of_here|]. auto.
  - intros Hx. destruct (IH Hx) as (e' & ls & Hin & H).
    exists e', ls. split; [now apply list_elem_of_further|exact H].
  - destruct (read_with w path encs) as [r l]. intros Hx.
    destruct (IH Hx) as (e' & ls & Hin & H).
    exists e', ls. split; [now apply list_elem_of_further|exact H].
Qed.

Lemma read_with_log w path encs :
  length (read_with w path encs).2 <= length encs
  /\ forall record, record ∈ (read_with w path encs).2 ->
                    exists e, record = (ERROR, ReadError path e).
Proof.
  induction encs as [|enc encs [IHn IHr]]; simpl.
  - split; [lia|]. intros record H. now apply elem_of_nil in H.
  - destruct (open_read w path enc) as [ls| |e]; simpl.
    + split; [lia|]. intros record H. now apply elem_of_nil in H.
    + split; [lia|exact IHr].
    + destruct (read_with w path encs) as [r l]. simpl in *. split; [lia|].
      intros record [->|H]%elem_of_cons; eauto.
Qed.

Lemma read_with_none w path encs :
  (forall encoding ls, encoding ∈ encs -> open_read w path encoding <> Lines ls) ->
  (read_with w path encs).1 = ∅.
Proof.
  induction encs as [|enc encs IH]; simpl; [reflexivity|]. intros Hno.
  assert (Hrest : (read_with w path encs).1 = ∅).
  { apply IH. intros e' ls Hin. apply Hno. now apply list_elem_of_further. }
  destruct (open_read w path enc) as [ls| |e] eqn:Hopen.
  - exfalso. apply (Hno enc ls); [apply list_elem_of_here|exact Hopen].
  - exact Hrest.
  - now destruct (read_with w path encs).
Qed.

(** The white space of [strip], byte by byte. *)
Example white_space_bytes :
  map (fun n => map nat_of_ascii (utf8 n)) white_space
  = [[9]; [10]; [11]; [12]; [13]; [28]; [29]; [30]; [31]; [32];
     [194; 133]; [194; 160]; [225; 154; 128];
     [226; 128; 128]; [226; 128; 129]; [226; 128; 130]; [226; 128; 131];
     [226; 128; 132]; [226; 128; 133]; [226; 128; 134]; [226; 128; 135];
     [226; 128; 136]; [226; 128; 137]; [226; 128; 138];
     [226; 128; 168]; [226; 128; 169]; [226; 128; 175]; [226; 129; 159];
     [227; 128; 128]].
Proof. vm_compute. reflexivity. Qed.

(** [strip] removes the white space outside ASCII as it removes the blank,
    from both ends, and leaves the white space inside. *)
Example strip_white_space :
  strip (ideographic_space +:+ " example.com" +:+ no_break_space) = "example.com"%string
  /\ strip (no_break_space +:+ ideographic_space) = ""%string
  /\ strip ("a" +:+ ideographic_space +:+ "b") = ("a" +:+ ideographic_space +:+ "b")%string.
Proof. repeat split; vm_compute; reflexivity. Qed.

(** A cell of the table of crt.sh that holds a name after a no-break space:
    the name is kept. *)
Example run_crtsh_strips_no_break_space :
  value (run_crtsh crtsh_no_break_space all_keys "example.com")
  = Returned {["www.example.com"%string]}.
Proof. vm_compute. reflexivity. Qed.

(** A file whose lines hold ideographic and no-break spaces around the
    names: the names are returned without them, and a line of such spaces
    counts as empty. *)
Example read_file_strips_white_space :
  (read_file_with_encoding tool_writes_spaces "subdomains.txt").1
  = {["www.example.com"%string]}.
Proof. vm_compute. reflexivity. Qed.

(** X6.  [read_file_with_encoding]: every line returned is not empty, is
    left unchanged by [strip], and is the stripped form of a line read with
    one of the three encodings; when no encoding reads the file the set is
    empty; at most three error records are logged, each about this file; and
    an error other than a decoding error does not stop the loop: the next
    encoding is still tried. *)
Theorem read_file_with_encoding_lines (w : world) (path : string) :
  let r := read_file_with_encoding w path in
  (forall x,
      x ∈ r.1 ->
      x <> ""%string /\ strip x = x
      /\ exists encoding ls l,
          encoding ∈ encodings /\ open_read w path encoding = Lines ls
          /\ l ∈ ls /\ x = strip l)
  /\ ((forall encoding ls,
         encoding ∈ encodings -> open_read w path encoding <> Lines ls) ->
      r.1 = ∅)
  /\ length r.2 <= 3
  /\ (forall record, record ∈ r.2 -> exists e, record = (ERROR, ReadError path e))
  /\ (forall e ls,
        open_read w path "utf-8" = ReadFailed e ->
        open_read w path "gbk" = Lines ls ->
        r = (stripped_lines ls, [(ERROR, ReadError path e)])).
Proof.
  cbv zeta. unfold read_file_with_encoding. split; [|split; [|split; [|split]]].
  - intros x Hx. apply read_with_lines in Hx as (enc & ls & Hin & Hopen & Hx).
    apply elem_of_stripped_lines in Hx as (Hne & l & Hl & ->).
    split; [exact Hne|]. split; [apply strip_idempotent|]. eauto 8.
  - apply read_with_none.
  - apply (read_with_log w path encodings).
  - apply (read_with_log w path encodings).
  - intros e ls H1 H2. unfold encodings. cbn [read_with]. now rewrite H1, H2.
Qed.

(** ** The sheets written *)

Lemma str_le_total : Total str_le.
Proof.
  intros a b. unfold str_le. destruct (String.leb_total a b) as [H|H];
    rewrite H; [left|right]; exact I.
Qed.

Lemma sorted_spec (s : gset string) :
  Sorted str_le (sorted s) /\ NoDup (sorted s)
  /\ (forall x, x ∈ sorted s <-> x ∈ s)
  /\ (s <> ∅ -> sorted s <> []).
Proof.
  unfold sorted. split; [apply Sorted_merge_sort, str_le_total|]. split; [|split].
  - rewrite merge_sort_Permutation. apply NoDup_elements.
  - intros x. rewrite merge_sort_Permutation. apply elem_of_elements.
  - intros Hne Hnil. apply Hne, leibniz_equiv, elements_empty_inv.
    pose proof (merge_sort_Permutation str_le (elements s)) as Hp.
    rewrite Hnil in Hp. now apply Permutation.Permutation_nil in Hp.
Qed.

(** X7.  The sheets [save_results_to_excel] writes when the writer does not
    raise: one for each source with a non-empty set, in the order of the
    dictionary, then the combined sheet when some source found something. No
    sheet is empty, every column is in ascending order without repeats, a
    source's column holds exactly its names and the combined one exactly the
    union. *)
Theorem save_results_to_excel_sheets
    (w : world) (results : dict (gset string))
    (written : list (string * list string)) (l : log) :
  save_results_to_excel w results = (Some written, l) ->
  l = []
  /\ map fst written
     = map fst (filter (fun it => set_truthy it.2 = true) results)
       ++ (if any_found results then [combined_sheet] else [])
  /\ forall name column,
      (name, column) ∈ written ->
      Sorted str_le column /\ NoDup column /\ column <> []
      /\ ((exists s, (name, s) ∈ results /\ forall x, x ∈ column <-> x ∈ s)
          \/ (name = combined_sheet
              /\ forall x, x ∈ column <-> x ∈ combined_result results)).
Proof.
  unfold save_results_to_excel. destruct (excel_writer w); [discriminate|].
  intros [= <- <-]. split; [reflexivity|]. split.
  - rewrite map_app, map_map. f_equal. now destruct (any_found results).
  - intros name column Hin. apply elem_of_app in Hin as [Hin|Hin].
    + apply list_elem_of_fmap in Hin as ([source s] & [= -> ->] & Hin).
      apply list_elem_of_filter in Hin as [Hs Hin]. cbn [snd fst] in *.
      apply set_truthy_spec in Hs.
      destruct (sorted_spec s) as (Hsorted & Hnd & Hmem & Hne).
      repeat split; auto. left. exists s. auto.
    + destruct (any_found results) eqn:Hany; [|now apply elem_of_nil in Hin].
      apply list_elem_of_singleton in Hin as [= -> ->].
      destruct (sorted_spec (combined_result results)) as (Hsorted & Hnd & Hmem & Hne).
      repeat split; auto.
      apply Hne. unfold any_found in Hany.
      apply existsb_exists in Hany as (s & Hs & Ht).
      apply set_truthy_spec in Ht.
      assert (Hx : exists x, x ∈ s) by (apply set_choose_L; exact Ht).
      destruct Hx as [x Hx]. intros Hempty.
      assert (Hc : x ∈ combined_result results).
      { apply elem_of_combined_result. apply list_elem_of_In in Hs.
        apply elem_of_values in Hs as [k Hk]. eauto. }
      rewrite Hempty in Hc. now apply not_elem_of_empty in Hc.
Qed.

(** X7 on the two sources of the scenario. *)
Lemma save_results_to_excel_sheets_witness :
  map fst (default [] (save_results_to_excel offline (collect scenario).1.1).1)
  = ["subfinder"; "crtsh"; combined_sheet]%string.
Proof.
  assert (Hsave : save_results_to_excel offline (collect scenario).1.1
                  = (Some (default [] (save_results_to_excel offline
                                         (collect scenario).1.1).1), []))
    by (vm_compute; reflexivity).
  rewrite (proj1 (proj2 (save_results_to_excel_sheets _ _ _ _ Hsave))).
  vm_compute. reflexivity.
Defined.

End CollectorDetails.

(** ** The validator and the substitution of unsafe characters *)

Module ValidatorDetails.
Import Regex RegexFacts Subdomain Examples SubdomainTerms ValidatorFacts
  CollectorFacts ZoomeyeFacts CollectorTerms CollectorDetails.

(** X25.  The dollar of the pattern lets one final newline through: a
    candidate followed by a newline validates exactly when the candidate
    does, and the ZoomEye collector keeps such a [domain] field with its
    newline. *)
Theorem validate_domain_ignores_final_newline (candidate : string) :
  ends_with_newline candidate = false ->
  validate_domain (candidate +:+ String newline EmptyString) = validate_domain candidate
  /\ (validate_domain candidate = true ->
      forall domain,
        item_name domain
          {| item_domain := Some (candidate +:+ String newline EmptyString);
             item_url := None |}
        = Some (candidate +:+ String newline EmptyString)).
Proof.
  intros Hnl.
  assert (Heq : validate_domain (candidate +:+ String newline EmptyString)
                = validate_domain candidate).
  { rewrite validate_domain_final_newline.
    symmetry. now apply validate_domain_hostname_grammar. }
  split; [exact Heq|]. intros Hv domain. unfold item_name. cbn [item_domain].
  now rewrite Heq, Hv.
Qed.

(** X25 on a hostname. *)
Lemma validate_domain_ignores_final_newline_witness :
  validate_domain ("a.com" +:+ String newline EmptyString) = validate_domain "a.com".
Proof.
  refine (proj1 (validate_domain_ignores_final_newline "a.com" _)).
  vm_compute. reflexivity.
Defined.

Lemma underscore_safe : unsafe_char "_" = false.
Proof. vm_compute. reflexivity. Qed.

(** X26.  The substitution [re.sub] of [run_subfinder]: the result holds
    none of the nine characters, has the length of the name, is left
    unchanged by a second pass, and keeps every character that is not one of
    the nine in its place. *)
Theorem sanitize_leaves_no_unsafe_character (name : string) :
  Forall (fun c => unsafe_char c = false) (list_ascii_of_string (sanitize name))
  /\ length (list_ascii_of_string (sanitize name))
     = length (list_ascii_of_string name)
  /\ sanitize (sanitize name) = sanitize name
  /\ (forall i c,
        list_ascii_of_string name !! i = Some c -> unsafe_char c = false ->
        list_ascii_of_string (sanitize name) !! i = Some c).
Proof.
  unfold sanitize. rewrite !list_ascii_of_string_of_list_ascii.
  set (l := list_ascii_of_string name).
  assert (Hsafe : Forall (fun c => unsafe_char c = false)
                    (map (fun c => if unsafe_char c then "_"%char else c) l)).
  { apply List.Forall_forall. intros c Hin. apply in_map_iff in Hin as (a & <- & _).
    destruct (unsafe_char a) eqn:Ha; [exact underscore_safe|exact Ha]. }
  split; [exact Hsafe|]. split; [apply length_map|]. split.
  - f_equal. rewrite <- (map_id (map _ l)) at 2. apply map_ext_in.
    intros c Hin. rewrite List.Forall_forall in Hsafe. cbv beta.
    now rewrite (Hsafe c Hin).
  - intros i c Hi Hc. rewrite list_lookup_fmap, Hi.
    cbv [fmap option_fmap option_map]. now rewrite Hc.
Qed.

End ValidatorDetails.

(** ** The paginated collector, whatever the provider answers *)

Module ZoomeyeInvariants.
Import Regex RegexFacts Subdomain Examples SubdomainTerms ValidatorFacts
  CollectorFacts ZoomeyeFacts OrchestratorFacts CollectorTerms
  CollectorDetails.

Lemma page_numbers_snoc first n :
  page_numbers first (S n) = page_numbers first n ++ [Some (first + Z.of_nat n)%Z].
Proof. unfold page_numbers. now rewrite seq_S, map_app. Qed.

Lemma item_name_valid domain item x :
  item_name domain item = Some x -> validate_domain x = true.
Proof.
  unfold item_name. destruct (item_domain item) as [d|].
  - destruct (validate_domain d) eqn:Hv; [|discriminate]. now intros [= <-].
  - destruct (item_url item) as [u|]; [|discriminate].
    destruct (_ && (_ && validate_domain _)) eqn:H; [|discriminate].
    intros [= <-]. apply andb_prop in H as [_ H]. now apply andb_prop in H as [_ H].
Qed.

Lemma page_names_valid domain body x :
  x ∈ page_names domain body -> validate_domain x = true.
Proof.
  unfold page_names. rewrite elem_of_list_to_set, list_elem_of_omap.
  intros (item & _ & Hname). exact (item_name_valid _ _ _ Hname).
Qed.

Lemma zoomeye_page_continue_payload w domain s s' :
  zoomeye_page w domain s = Continue s' ->
  page (zs_payload s') = (page (zs_payload s) + 1)%Z
  /\ qbase64 (zs_payload s') = qbase64 (zs_payload s)
  /\ pagesize (zs_payload s') = pagesize (zs_payload s).
Proof.
  unfold zoomeye_page. fold (request_of s). rewrite send_index.
  destruct (zoomeye_post w _ _) as [body|status|e|e]; try discriminate.
  cbn [send zs_net zs_payload current_page total_pages zs_subdomains zs_url zs_log].
  destruct (foldl _ _ _) as [subs url].
  destruct (_ <? _)%Z; [|discriminate]. intros [= <-]. now cbn.
Qed.

Lemma zoomeye_page_names w domain s x :
  x ∈ zs_subdomains (state_of (zoomeye_page w domain s)) ->
  x ∈ zs_subdomains s \/ validate_domain x = true.
Proof.
  destruct (zoomeye_post w (length (zs_net s)) (request_of s))
    as [body|status|e|e] eqn:Hr.
  - destruct (zoomeye_page_ok w domain s body Hr) as (s' & Hpage & _ & Hsubs & _).
    rewrite Hpage.
    assert (Hs : state_of (if (current_page s <? pages_after s body)%Z
                           then Continue s' else Break s') = s')
      by now destruct (_ <? _)%Z.
    rewrite Hs, Hsubs, elem_of_union. intros [H|H]; [now left|].
    right. exact (page_names_valid _ _ _ H).
  - destruct (zoomeye_page_failed w domain s) as (s' & Hpage & _ & Hsubs).
    { now rewrite Hr. }
    rewrite Hpage. cbn [state_of]. rewrite Hsubs. now left.
  - destruct (zoomeye_page_failed w domain s) as (s' & Hpage & _ & Hsubs).
    { now rewrite Hr. }
    rewrite Hpage. cbn [state_of]. rewrite Hsubs. now left.
  - unfold zoomeye_page. fold (request_of s). rewrite send_index, Hr.
    cbn. now left.
Qed.

(** One turn of the loop keeps what holds of the requests and the names. *)
Lemma zoomeye_page_sent_ok w domain s :
  head_ok w domain s -> sent_ok w domain (state_of (zoomeye_page w domain s)).
Proof.
  intros ((Hpages & Hquery & Hvalid) & Hpage & Hq & Hsize). split; [|split].
  - rewrite zoomeye_page_net, map_app, length_app, Hpages. cbn [length map].
    rewrite Nat.add_1_r, page_numbers_snoc, page_of_request_of, Hpage. reflexivity.
  - rewrite zoomeye_page_net. apply Forall_app. split; [exact Hquery|].
    constructor; [|constructor]. exists (zs_payload s). auto.
  - intros x Hx. apply zoomeye_page_names in Hx as [Hx|Hx]; auto.
Qed.

Lemma zoomeye_page_head_ok w domain s s' :
  head_ok w domain s -> zoomeye_page w domain s = Continue s' -> head_ok w domain s'.
Proof.
  intros Hhead Hpage. pose proof (zoomeye_page_sent_ok w domain s Hhead) as Hsent.
  pose proof (zoomeye_page_net w domain s) as Hnet.
  rewrite Hpage in Hsent, Hnet. cbn [state_of] in Hsent, Hnet.
  destruct (zoomeye_page_continue_payload w domain s s' Hpage) as (Hp & Hq & Hsz).
  destruct Hhead as (_ & Hpage0 & Hq0 & Hsize0).
  split; [exact Hsent|]. rewrite Hp, Hq, Hsz, Hnet, length_app, Hpage0. cbn [length].
  repeat split; try assumption. lia.
Qed.

Lemma zoomeye_loop_sent_ok w domain : forall fuel s c,
  zoomeye_loop fuel w domain s = Some c ->
  head_ok w domain s -> sent_ok w domain (state_of c).
Proof.
  induction fuel as [|fuel IH]; intros s c Hloop Hhead; cbn [zoomeye_loop] in Hloop;
    destruct (current_page s <=? total_pages s)%Z; try discriminate;
    try (injection Hloop as <-; exact (proj1 Hhead)).
  pose proof (zoomeye_page_sent_ok w domain s Hhead) as Hsent.
  destruct (zoomeye_page w domain s) as [s'|s'|s'] eqn:Hpage.
  - apply (IH s' c Hloop). exact (zoomeye_page_head_ok w domain s s' Hhead Hpage).
  - injection Hloop as <-. exact Hsent.
  - injection Hloop as <-. exact Hsent.
Qed.

Lemma zoomeye_start_head_ok w domain : head_ok w domain (zoomeye_start w domain).
Proof.
  repeat split; try reflexivity; cbn.
  - constructor.
  - intros x Hx. now apply not_elem_of_empty in Hx.
Qed.

(** After the first page the loop sends no more requests than pages
    remain. *)
Lemma zoomeye_loop_tail_requests w domain : forall fuel s c,
  zoomeye_loop fuel w domain s = Some c ->
  (1 < current_page s)%Z ->
  (Z.of_nat (length (zs_net (state_of c)))
   <= Z.of_nat (length (zs_net s)) + Z.max 0 (total_pages s - current_page s + 1))%Z.
Proof.
  induction fuel as [|fuel IH]; intros s c Hloop Hcur; cbn [zoomeye_loop] in Hloop;
    destruct (current_page s <=? total_pages s)%Z eqn:Hle; try discriminate;
    try (injection Hloop as <-; cbn [state_of]; lia).
  apply Z.leb_le in Hle.
  pose proof (zoomeye_page_net w domain s) as Hnet.
  destruct (zoomeye_page w domain s) as [s'|s'|s'] eqn:Hpage; cbn [state_of] in Hnet.
  - apply zoomeye_page_continue in Hpage as [Hc Ht].
    specialize (IH s' c Hloop ltac:(lia)).
    rewrite Hnet, length_app, Hc, Ht in IH by lia. cbn [length] in IH. lia.
  - injection Hloop as <-. cbn [state_of]. rewrite Hnet, length_app. cbn [length]. lia.
  - injection Hloop as <-. cbn [state_of]. rewrite Hnet, length_app. cbn [length]. lia.
Qed.

(** The loop from the start sends no more requests than the first answer
    announces pages, and one when the first request fails. *)
Lemma zoomeye_loop_requests w domain fuel c :
  zoomeye_loop fuel w domain (zoomeye_start w domain) = Some c ->
  length (zs_net (state_of c))
  <= match zoomeye_post w 0 (request_of (zoomeye_start w domain)) with
     | HttpOk body => requests_due body
     | _ => 1
     end.
Proof.
  destruct fuel as [|fuel]; cbn [zoomeye_loop];
    change (current_page (zoomeye_start w domain)
            <=? total_pages (zoomeye_start w domain))%Z with true; cbv iota;
    [discriminate|].
  pose proof (zoomeye_page_net w domain (zoomeye_start w domain)) as Hnet.
  destruct (zoomeye_post w 0 (request_of (zoomeye_start w domain)))
    as [body|status|e|e] eqn:Hr.
  - destruct (zoomeye_start_first w domain body Hr)
      as (s1 & Hpage & Hnet1 & _ & Htot & Hcur & _).
    rewrite Hpage. unfold requests_due.
    destruct (1 <? announced body)%Z eqn:Hmore.
    + apply Z.ltb_lt in Hmore. intros Hloop.
      apply zoomeye_loop_tail_requests in Hloop; [|lia].
      rewrite Hnet1, Htot, Hcur in Hloop. cbn [length] in Hloop. lia.
    + apply Z.ltb_ge in Hmore. intros [= <-]. cbn [state_of]. rewrite Hnet1.
      cbn [length]. lia.
  - destruct (zoomeye_page w domain (zoomeye_start w domain)) as [s'|s'|s'] eqn:Hpage;
      cbn [state_of] in Hnet.
    + exfalso. destruct (zoomeye_page_failed w domain (zoomeye_start w domain))
        as (s1 & Hp & _); [|congruence].
      change (page_failure (zoomeye_post w 0 (request_of (zoomeye_start w domain)))).
      now rewrite Hr.
    + intros [= <-]. cbn [state_of]. now rewrite Hnet.
    + intros [= <-]. cbn [state_of]. now rewrite Hnet.
  - destruct (zoomeye_page w domain (zoomeye_start w domain)) as [s'|s'|s'] eqn:Hpage;
      cbn [state_of] in Hnet.
    + exfalso. destruct (zoomeye_page_failed w domain (zoomeye_start w domain))
        as (s1 & Hp & _); [|congruence].
      change (page_failure (zoomeye_post w 0 (request_of (zoomeye_start w domain)))).
      now rewrite Hr.
    + intros [= <-]. cbn [state_of]. now rewrite Hnet.
    + intros [= <-]. cbn [state_of]. now rewrite Hnet.
  - destruct (zoomeye_page w domain (zoomeye_start w domain)) as [s'|s'|s'] eqn:Hpage;
      cbn [state_of] in Hnet.
    + exfalso. revert Hpage. unfold zoomeye_page.
      fold (request_of (zoomeye_start w domain)). rewrite send_index.
      change (length (zs_net (zoomeye_start w domain))) with 0.
      rewrite Hr. discriminate.
    + intros [= <-]. cbn [state_of]. now rewrite Hnet.
    + intros [= <-]. cbn [state_of]. now rewrite Hnet.
Qed.

(** What the collector returns is what its loop leaves, when it has its
    key. *)
Lemma run_zoomeye_outcome w cfg domain :
  (net (run_zoomeye w cfg domain) = []
   /\ value (run_zoomeye w cfg domain) = Returned ∅
   /\ key_truthy (api_key cfg zoomeye_api_key) = false)
  \/ (exists c,
        zoomeye_loop (zoomeye_turns w domain) w domain (zoomeye_start w domain) = Some c
        /\ net (run_zoomeye w cfg domain) = zs_net (state_of c)
        /\ value (run_zoomeye w cfg domain) = Returned (zs_subdomains (state_of c))
        /\ key_truthy (api_key cfg zoomeye_api_key) = true).
Proof.
  pose proof (run_zoomeye_within_turns w cfg domain) as Hrun.
  unfold run_zoomeye_within, api_key in *.
  destruct (subdomain cfg) as [sc|]; [|injection Hrun as <-; now left].
  destruct (key_truthy (zoomeye_api_key sc)); cbn [negb] in Hrun;
    [|injection Hrun as <-; now left].
  destruct (zoomeye_loop _ w domain _) as [c|] eqn:Hloop; [|discriminate].
  right. exists c. destruct c; injection Hrun as <-; auto.
Qed.

(** X9.  Whatever the provider answers, [run_zoomeye] returns a set, of
    names that validate; its requests are for the pages 1, 2, ... in order,
    each with the same query and the page size 100; and there are no more of
    them than the first answer announces pages, and one when the first
    request fails: the number of pages is fixed by the first answer alone. *)
Theorem run_zoomeye_requests_are_bounded (w : world) (cfg : config) (domain : string) :
  let reqs := net (run_zoomeye w cfg domain) in
  (exists s,
      value (run_zoomeye w cfg domain) = Returned s
      /\ forall x, x ∈ s -> validate_domain x = true)
  /\ map page_of reqs = page_numbers 1 (length reqs)
  /\ Forall (query_of w domain) reqs
  /\ length reqs
     <= match zoomeye_post w 0 (request_of (zoomeye_start w domain)) with
        | HttpOk body => requests_due body
        | _ => 1
        end.
Proof.
  cbv zeta.
  destruct (run_zoomeye_outcome w cfg domain)
    as [(Hnet & Hval & _)|(c & Hloop & Hnet & Hval & _)]; rewrite Hnet, Hval.
  - split; [exists ∅; split; [reflexivity|]; intros x Hx;
            now apply not_elem_of_empty in Hx|].
    split; [reflexivity|]. split; [constructor|].
    cbn [length]. destruct (zoomeye_post w 0 _); unfold requests_due; lia.
  - destruct (zoomeye_loop_sent_ok w domain _ _ _ Hloop (zoomeye_start_head_ok w domain))
      as (Hpages & Hquery & Hvalid).
    split; [eauto|]. split; [exact Hpages|]. split; [exact Hquery|].
    exact (zoomeye_loop_requests w domain _ _ Hloop).
Qed.

(** ** The address of the later requests *)

Lemma address_after_cons url item items :
  address_after url (item :: items)
  = address_after (default url (item_address item)) items.
Proof.
  unfold address_after. cbn [omap list_omap].
  destruct (item_address item) as [u|]; [|reflexivity].
  cbn [from_option id]. destruct (omap item_address items) as [|a l] eqn:Ho;
    [reflexivity|].
  rewrite last_cons. now destruct (last (a :: l)).
Qed.

Lemma zoomeye_item_step_address domain acc url item :
  (zoomeye_item_step domain (acc, url) item).2 = default url (item_address item).
Proof.
  unfold zoomeye_item_step, item_address.
  destruct (item_domain item) as [d|]; [reflexivity|].
  destruct (item_url item) as [u|]; [|reflexivity].
  now destruct (startswith u "http://" || startswith u "https://").
Qed.

Lemma zoomeye_items_address domain items : forall acc url,
  (foldl (zoomeye_item_step domain) (acc, url) items).2 = address_after url items.
Proof.
  induction items as [|item items IH]; intros acc url; [reflexivity|].
  cbn [foldl]. rewrite address_after_cons, <- (zoomeye_item_step_address domain acc).
  destruct (zoomeye_item_step domain (acc, url) item) as [acc' url']. apply IH.
Qed.

Lemma zoomeye_page_address w domain s s' body :
  zoomeye_post w (length (zs_net s)) (request_of s) = HttpOk body ->
  zoomeye_page w domain s = Continue s' ->
  zs_url s' = address_after (zs_url s) (default [] (data body)).
Proof.
  intros Hok. unfold zoomeye_page. fold (request_of s). rewrite send_index, Hok.
  cbn [send zs_net zs_payload current_page total_pages zs_subdomains zs_url zs_log].
  pose proof (zoomeye_items_address domain (default [] (data body))
                (zs_subdomains s) (zs_url s)) as Haddr.
  destruct (foldl _ _ _) as [subs url]. cbn [snd] in Haddr. subst url.
  destruct (_ <? _)%Z; [|discriminate]. now intros [= <-].
Qed.

Lemma zoomeye_loop_first_request w domain : forall fuel s c,
  zoomeye_loop fuel w domain s = Some c ->
  (current_page s <= total_pages s)%Z ->
  exists rest, zs_net (state_of c) = zs_net s ++ request_of s :: rest.
Proof.
  assert (Hany : forall fuel s c,
             zoomeye_loop fuel w domain s = Some c ->
             exists rest, zs_net (state_of c) = zs_net s ++ rest).
  { induction fuel as [|fuel IH]; intros s c Hloop; cbn [zoomeye_loop] in Hloop;
      destruct (current_page s <=? total_pages s)%Z; try discriminate;
      try (injection Hloop as <-; exists []; now rewrite app_nil_r).
    pose proof (zoomeye_page_net w domain s) as Hnet.
    destruct (zoomeye_page w domain s) as [s'|s'|s']; cbn [state_of] in Hnet.
    - destruct (IH s' c Hloop) as [rest Hrest]. rewrite Hrest, Hnet, <- app_assoc.
      eauto.
    - injection Hloop as <-. eauto.
    - injection Hloop as <-. eauto. }
  intros fuel s c Hloop Hle. apply Z.leb_le in Hle.
  destruct fuel as [|fuel]; cbn [zoomeye_loop] in Hloop; rewrite Hle in Hloop;
    [discriminate|].
  pose proof (zoomeye_page_net w domain s) as Hnet.
  destruct (zoomeye_page w domain s) as [s'|s'|s']; cbn [state_of] in Hnet.
  - destruct (Hany _ _ _ Hloop) as [rest Hrest]. rewrite Hrest, Hnet, <- app_assoc.
    eauto.
  - injection Hloop as <-. exists []. exact Hnet.
  - injection Hloop as <-. exists []. exact Hnet.
Qed.

(** X10.  The second request of [run_zoomeye] goes to what the items of the
    first page left in the variable [url]: the [url] field of the last item
    without a [domain] field, when there is one, and the address of the API
    otherwise. *)
Theorem run_zoomeye_follows_item_url
    (w : world) (cfg : config) (domain : string) (body : zoomeye_body) :
  key_truthy (api_key cfg zoomeye_api_key) = true ->
  zoomeye_post w 0 (request_of (zoomeye_start w domain)) = HttpOk body ->
  (1 < announced body)%Z ->
  exists rest,
    map req_url (net (run_zoomeye w cfg domain))
    = zoomeye_api :: address_after zoomeye_api (default [] (data body)) :: rest.
Proof.
  intros Hkey Hok Hmore.
  destruct (run_zoomeye_outcome w cfg domain)
    as [(_ & _ & Hno)|(c & Hloop & Hnet & _)]; [congruence|].
  rewrite Hnet. clear Hnet.
  destruct (zoomeye_turns w domain) as [|fuel]; cbn [zoomeye_loop] in Hloop;
    change (current_page (zoomeye_start w domain)
            <=? total_pages (zoomeye_start w domain))%Z with true in Hloop;
    cbv iota in Hloop; [discriminate|].
  destruct (zoomeye_start_first w domain body Hok)
    as (s1 & Hpage & Hnet1 & _ & Htot & Hcur & _).
  apply Z.ltb_lt in Hmore. rewrite Hmore in Hpage, Hcur.
  rewrite Hpage in Hloop.
  pose proof (zoomeye_page_address w domain (zoomeye_start w domain) s1 body
                Hok Hpage) as Hurl.
  apply zoomeye_loop_first_request in Hloop as [rest Hrest];
    [|rewrite Hcur, Htot; apply Z.ltb_lt in Hmore; lia].
  exists (map req_url rest). rewrite Hrest, Hnet1. cbn [app map request_of req_url].
  now rewrite Hurl.
Qed.

(** X10 on a first page that holds an item with a [url] and no [domain]. *)
Lemma run_zoomeye_follows_item_url_witness :
  exists rest,
    map req_url (net (run_zoomeye zoomeye_url_item all_keys "example.com"))
    = zoomeye_api :: "https://www.example.com/x"%string :: rest.
Proof.
  refine (run_zoomeye_follows_item_url zoomeye_url_item all_keys "example.com"
            {| total := Some 150%Z;
               data := Some [{| item_domain := None;
                                item_url := Some "https://www.example.com/x"%string |}] |}
            _ _ _); vm_compute; reflexivity.
Defined.

End ZoomeyeInvariants.

(** ** The one-key collection when every source fails *)

Module OrchestratorFailures.
Import Regex RegexFacts Subdomain Examples SubdomainTerms ValidatorFacts
  CollectorFacts ZoomeyeFacts OrchestratorFacts CollectorTerms
  CollectorDetails.

Lemma run_crtsh_failed w cfg domain :
  (forall url, failed (crtsh_get w url)) ->
  value (run_crtsh w cfg domain) = Returned ∅.
Proof.
  intros Hf. unfold run_crtsh. specialize (Hf ("https://crt.sh/?q=%25." +:+ domain)%string).
  destruct (crtsh_get w _); [contradiction|reflexivity..].
Qed.

Lemma run_securitytrails_failed w cfg domain :
  (forall url, failed (securitytrails_get w url)) ->
  value (run_securitytrails w cfg domain) = Returned ∅.
Proof.
  intros Hf. unfold run_securitytrails. destruct (subdomain cfg) as [sc|]; [|reflexivity].
  destruct (negb _); [reflexivity|].
  specialize (Hf ("https://api.securitytrails.com/v1/domain/" +:+ domain
                    +:+ "/subdomains")%string).
  destruct (securitytrails_get w _); [contradiction|reflexivity..].
Qed.

Lemma run_shodan_failed w cfg domain :
  (forall url, failed (shodan_get w url)) ->
  value (run_shodan w cfg domain) = Returned ∅.
Proof.
  intros Hf. unfold run_shodan. destruct (subdomain cfg) as [sc|]; [|reflexivity].
  destruct (shodan_api_key sc) as [k|]; [|reflexivity].
  destruct (negb _); [reflexivity|].
  specialize (Hf ("https://api.shodan.io/dns/domain/" +:+ domain +:+ "?key=" +:+ k)%string).
  destruct (shodan_get w _); [contradiction|reflexivity..].
Qed.

Lemma run_zoomeye_failed w cfg domain :
  failed (zoomeye_post w 0 (request_of (zoomeye_start w domain))) ->
  value (run_zoomeye w cfg domain) = Returned ∅
  /\ length (net (run_zoomeye w cfg domain)) <= 1.
Proof.
  intros Hf. pose proof (run_zoomeye_within_turns w cfg domain) as Hrun.
  unfold run_zoomeye_within, zoomeye_turns in Hrun.
  destruct (subdomain cfg) as [sc|];
    [|injection Hrun as <-; split; [reflexivity|simpl; lia]].
  destruct (negb _); [injection Hrun as <-; split; [reflexivity|simpl; lia]|].
  fold (request_of (zoomeye_start w domain)) in Hrun.
  destruct (zoomeye_post w 0 (request_of (zoomeye_start w domain))) eqn:Hr;
    [contradiction|..].
  all: cbn [zoomeye_loop] in Hrun;
    change (current_page (zoomeye_start w domain)
            <=? total_pages (zoomeye_start w domain))%Z with true in Hrun;
    cbv iota in Hrun; unfold zoomeye_page in Hrun;
    fold (request_of (zoomeye_start w domain)) in Hrun;
    rewrite send_index in Hrun;
    change (length (zs_net (zoomeye_start w domain))) with 0 in Hrun;
    rewrite Hr in Hrun; injection Hrun as <-; split; [reflexivity|simpl; lia].
Qed.

Lemma any_found_none (d : dict (gset string)) :
  (forall s, s ∈ values d -> s = ∅) -> any_found d = false.
Proof.
  intros Hall. unfold any_found. apply not_true_is_false.
  intros (s & Hin & Hs)%existsb_exists.
  apply set_truthy_spec in Hs. apply Hs, Hall. now apply list_elem_of_In.
Qed.

(** X8.  When the exchange with every provider fails and the enumeration
    tool contributes nothing, the one-key collection, in whatever order the
    tasks complete, writes no workbook, computes no union, ends its log with
    the warning that nothing was found, and leaves the empty set in
    [results] for every task dispatched; ZoomEye got one request at most. *)
Theorem nothing_found_when_every_source_fails
    (as_completed : list (string * task_run) -> list (string * task_run))
    (w : world) (cfg : config) (domain : string) :
  (forall l, as_completed l ≡ₚ l) ->
  contribution (value (run_subfinder w cfg domain)) = ∅ ->
  (forall url, failed (crtsh_get w url)) ->
  (forall url, failed (securitytrails_get w url)) ->
  (forall url, failed (shodan_get w url)) ->
  failed (zoomeye_post w 0 (request_of (zoomeye_start w domain))) ->
  let r := one_key_collect as_completed w cfg domain in
  sheets r = None
  /\ combined r = None
  /\ last (run_log r) = Some (WARNING, NothingFound)
  /\ (forall name, name ∈ task_names cfg -> dict_get (results r) name = Some ∅)
  /\ length (filter (fun req => bool_decide (req_source req = "zoomeye"%string))
                (run_net r)) <= 1.
Proof.
  intros Hperm Hsub Hcrt Hst Hsh Hze r.
  assert (Htask : forall name run,
             (name, run) ∈ collection_tasks w cfg domain ->
             contribution (value run) = ∅).
  { intros name run Hin. unfold collection_tasks in Hin.
    rewrite !elem_of_app, !elem_of_cons in Hin.
    destruct Hin as [[Hin|[Hin|Hin]]|[Hin|[Hin|Hin]]].
    - injection Hin as -> ->. exact Hsub.
    - injection Hin as -> ->. now rewrite run_crtsh_failed.
    - now apply elem_of_nil in Hin.
    - destruct (key_truthy _); [|now apply elem_of_nil in Hin].
      apply list_elem_of_singleton in Hin. injection Hin as -> ->.
      now rewrite run_securitytrails_failed.
    - destruct (key_truthy (api_key cfg zoomeye_api_key));
        [|now apply elem_of_nil in Hin].
      apply list_elem_of_singleton in Hin. injection Hin as -> ->.
      now rewrite (proj1 (run_zoomeye_failed w cfg domain Hze)).
    - destruct (key_truthy (api_key cfg shodan_api_key));
        [|now apply elem_of_nil in Hin].
      apply list_elem_of_singleton in Hin. injection Hin as -> ->.
      now rewrite run_shodan_failed. }
  destruct (one_key_keys as_completed w cfg domain Hperm) as [Hnd _].
  pose proof (one_key_results as_completed w cfg domain) as Hres. fold r in Hres.
  rewrite (collect_results _ Hnd) in Hres.
  assert (Hany : any_found (entries (as_completed (collection_tasks w cfg domain)))
                 = false).
  { apply any_found_none. intros s Hs. unfold values, entries in Hs.
    rewrite map_map in Hs. apply list_elem_of_fmap in Hs as ([name run] & -> & Hin).
    rewrite Hperm in Hin. exact (Htask _ _ Hin). }
  assert (Hshape : sheets r = None /\ combined r = None
                   /\ last (run_log r) = Some (WARNING, NothingFound)).
  { subst r. unfold one_key_collect in *.
    destruct (collect (as_completed (collection_tasks w cfg domain)))
      as [[res n] l1] eqn:Hc.
    pose proof (collect_results _ Hnd) as Hentries. rewrite Hc in Hentries.
    cbn [fst] in Hentries. subst res. rewrite Hany.
    cbn [sheets combined run_log]. repeat split.
    rewrite app_assoc. apply last_snoc. }
  destruct Hshape as (H1 & H2 & H3). repeat split; try assumption.
  - intros name Hin. rewrite Hres.
    rewrite <- (collection_tasks_names w cfg domain) in Hin.
    apply list_elem_of_fmap in Hin as ([name' run] & -> & Hin).
    rewrite <- (Htask _ _ Hin). apply dict_get_entries; [exact Hnd|].
    now rewrite Hperm.
  - subst r. rewrite one_key_net. unfold collection_tasks.
    rewrite !map_app, !concat_app. cbn [map concat snd].
    rewrite run_subfinder_offline.
    assert (Hother : forall name reqs,
               tagged name reqs -> name <> "zoomeye"%string ->
               filter (fun req => bool_decide (req_source req = "zoomeye"%string)) reqs
               = []).
    { intros name reqs Ht Hne. induction Ht as [|req reqs Hreq _ IH]; [reflexivity|].
      rewrite filter_cons, IH. rewrite bool_decide_eq_false_2; [reflexivity|].
      now rewrite Hreq. }
    rewrite !filter_app.
    rewrite (Hother "crtsh"%string _ (run_crtsh_tagged w cfg domain)) by discriminate.
    rewrite !app_nil_r. cbn [app].
    destruct (key_truthy (api_key cfg securitytrails_api_key)); cbn [map concat app snd];
      destruct (key_truthy (api_key cfg zoomeye_api_key)); cbn [map concat app snd];
      destruct (key_truthy (api_key cfg shodan_api_key)); cbn [map concat app snd];
      rewrite ?app_nil_r, ?filter_app, ?filter_nil,
        ?(Hother "securitytrails"%string _ (run_securitytrails_tagged w cfg domain))
          by discriminate;
      rewrite ?(Hother "shodan"%string _ (run_shodan_tagged w cfg domain))
          by discriminate;
      rewrite ?app_nil_r; cbn [app length]; try lia.
    all: etransitivity; [apply length_filter|];
      apply (run_zoomeye_failed w cfg domain Hze).
Qed.

(** X8 with nothing answering, the tasks completing in reverse order. *)
Lemma nothing_found_when_every_source_fails_witness :
  (forall l : list (string * task_run), rev l ≡ₚ l)
  /\ last (run_log (one_key_collect (@rev _) offline all_keys "example.com"))
     = Some (WARNING, NothingFound).
Proof.
  assert (Hperm : forall l : list (string * task_run), rev l ≡ₚ l)
    by (intros l; symmetry; apply Permutation_rev).
  split; [exact Hperm|].
  refine (proj1 (proj2 (proj2
    (nothing_found_when_every_source_fails (@rev _) offline all_keys "example.com"
       Hperm _ _ _ _ _)))).
  - vm_compute. reflexivity.
  - intros url. exact I.
  - intros url. exact I.
  - intros url. exact I.
  - exact I.
Defined.

End OrchestratorFailures.

(** ** The menu of the subdomain module *)

Module MenuFacts.
Import Regex RegexFacts Subdomain Examples SubdomainTerms ValidatorFacts
  CollectorFacts ZoomeyeFacts OrchestratorFacts CollectorTerms
  CollectorDetails SubdomainMenu MenuTerms.

(** Induction over the turns of the loop. *)
Lemma menu_loop_kept (P : list string -> session -> Prop) as_completed w cfg :
  (forall stdin, P stdin (stop (Raises "EOFError") [])) ->
  (forall rest, P ("0"%string :: rest) (stop Returns rest)) ->
  (forall choice rest lv m s, P rest s -> P (choice :: rest) (say lv m s)) ->
  (forall choice line rest next,
      String.eqb choice "0" = false ->
      P rest next ->
      P (choice :: line :: rest) (menu_turn as_completed w cfg choice line rest next)) ->
  forall stdin, P stdin (menu_loop as_completed w cfg stdin).
Proof.
  intros Heof Hstop Hsay Hturn.
  assert (H : forall n stdin,
             length stdin <= n -> P stdin (menu_loop as_completed w cfg stdin)).
  { induction n as [|n IH]; intros stdin Hlen.
    - destruct stdin; [apply Heof|simpl in Hlen; lia].
    - destruct stdin as [|choice rest]; [apply Heof|]. cbn [menu_loop].
      simpl in Hlen. destruct (String.eqb choice "0") eqn:H0.
      { apply String.eqb_eq in H0. subst choice. apply Hstop. }
      destruct (negb _); [apply Hsay, IH; lia|].
      destruct rest as [|line rest']; [apply Heof|].
      apply Hturn; [exact H0|]. apply IH. simpl in Hlen. lia. }
  intros stdin. now apply (H (length stdin)).
Qed.

Lemma admitted_later w stdin a domain :
  admitted w stdin domain -> admitted w (a :: stdin) domain.
Proof.
  intros (H1 & H2 & (line & Hin & H3) & H4). repeat split; try assumption.
  exists line. split; [now apply list_elem_of_further|assumption].
Qed.

Lemma admitted_here w choice line rest :
  str_truthy (strip line) = true -> acceptable w (strip line) = true ->
  admitted w (choice :: line :: rest) (strip line).
Proof.
  intros Ht Ha. split; [|split; [|split]].
  - unfold str_truthy in Ht. now apply negb_true_iff, String.eqb_neq in Ht.
  - apply strip_idempotent.
  - exists line. split; [|reflexivity]. apply list_elem_of_further, list_elem_of_here.
  - unfold acceptable in Ha. apply orb_prop in Ha as [Ha|Ha]; [now left|].
    right. now apply andb_prop in Ha.
Qed.

Lemma menu_loop_admitted as_completed w cfg stdin name domain :
  (name, domain) ∈ invoked (menu_loop as_completed w cfg stdin) ->
  admitted w stdin domain.
Proof.
  revert name domain.
  apply (menu_loop_kept
           (fun stdin s => forall name domain,
                (name, domain) ∈ invoked s -> admitted w stdin domain)).
  - intros ? name domain Hin. now apply elem_of_nil in Hin.
  - intros rest name domain Hin. now apply elem_of_nil in Hin.
  - intros choice rest lv m s IH name domain Hin.
    apply admitted_later, (IH name). exact Hin.
  - intros choice line rest next _ IH name domain. unfold menu_turn. cbv zeta.
    assert (Hnext : (name, domain) ∈ invoked next ->
                    admitted w (choice :: line :: rest) domain).
    { intros Hin. now apply admitted_later, admitted_later, (IH name). }
    destruct (str_truthy (strip line)) eqn:Ht; cbn [negb]; [|exact Hnext].
    destruct (acceptable w (strip line)) eqn:Ha; cbn [negb]; [|exact Hnext].
    pose proof (admitted_here w choice line rest Ht Ha) as Hhere.
    assert (Hsingle : forall nm r leaves,
               (name, domain) ∈ invoked (single nm (strip line) r leaves rest next) ->
               admitted w (choice :: line :: rest) domain).
    { intros nm r leaves. unfold single.
      destruct (value r); cbn [after invoked app]; [destruct leaves|];
        cbn [stop invoked]; intros [[= _ ->]|Hin]%elem_of_cons; auto;
        now apply elem_of_nil in Hin. }
    destruct (String.eqb choice "1"); [apply Hsingle|].
    destruct (String.eqb choice "2"); [apply Hsingle|].
    destruct (String.eqb choice "3").
    { destruct (negb _); [exact Hnext|apply Hsingle]. }
    destruct (String.eqb choice "4"); [|exact Hnext].
    destruct (any_found _); cbn [after invoked stop]; rewrite ?app_nil_r;
      rewrite ?elem_of_app; intros Hin;
      repeat match goal with
             | H : _ \/ _ |- _ => destruct H as [H|H]
             | H : _ ∈ map _ _ |- _ =>
                 apply list_elem_of_fmap in H as (t & [= _ ->] & _)
             end; auto.
Qed.

(** X11.  [run] calls a collector only when the module is enabled and the
    directories could be made, and only with a domain that is a stripped
    line of the input, not empty, and that validates or names an existing
    file ending in [.txt]. *)
Theorem run_calls_collectors_on_admitted_input
    (as_completed : list (string * task_run) -> list (string * task_run))
    (w : world) (mkdir : option string) (cfg : config) (stdin : list string)
    (name domain : string) :
  (name, domain) ∈ invoked (run as_completed w mkdir cfg stdin) ->
  switched_on cfg /\ mkdir = None /\ admitted w stdin domain.
Proof.
  unfold run, switched_on. destruct (subdomain cfg) as [sc|].
  2:{ intros Hin. now apply elem_of_nil in Hin. }
  destruct (enabled sc) eqn:Hen; cbn [negb].
  2:{ intros Hin. now apply elem_of_nil in Hin. }
  destruct mkdir as [e|]; [intros Hin; now apply elem_of_nil in Hin|].
  intros Hin. split; [eauto|]. split; [reflexivity|].
  exact (menu_loop_admitted _ _ _ _ _ _ Hin).
Qed.

(** X11 on the choice 2 with a domain given with blanks around it. *)
Lemma run_calls_collectors_on_admitted_input_witness :
  admitted offline ["2"; " example.com "]%string "example.com".
Proof.
  refine (proj2 (proj2
    (run_calls_collectors_on_admitted_input (fun l => l) offline None all_keys
       ["2"; " example.com "]%string "crtsh" "example.com" _))).
  vm_compute. apply list_elem_of_here.
Defined.

(** A domain entered after an ideographic space: the collector is called
    with the domain alone. *)
Example run_strips_ideographic_space :
  invoked (run (fun l => l) offline None all_keys
             ["2"; ideographic_space +:+ "example.com"]%string)
  = [("crtsh", "example.com")]%string.
Proof. vm_compute. reflexivity. Qed.

Lemma one_at_a_time_single name domain r leaves rest next :
  name ∈ single_sources ->
  Forall (fun req => req_source req = "crtsh"%string
                     \/ req_source req = "securitytrails"%string) (net r) ->
  one_at_a_time next -> one_at_a_time (single name domain r leaves rest next).
Proof.
  intros Hname Hnet (Hb & Hn & Hi). unfold single, one_at_a_time.
  destruct (value r); [destruct leaves|];
    cbn [after stop workbooks session_net invoked app]; rewrite ?app_nil_r;
    repeat split; try assumption; try reflexivity;
    try (apply Forall_app; split; assumption);
    constructor; try assumption; constructor.
Qed.

Lemma tagged_either name reqs :
  tagged name reqs -> name = "crtsh"%string \/ name = "securitytrails"%string ->
  Forall (fun req => req_source req = "crtsh"%string
                     \/ req_source req = "securitytrails"%string) reqs.
Proof.
  intros Ht Hname. eapply List.Forall_impl; [|exact Ht].
  intros req ->. exact Hname.
Qed.

Lemma menu_loop_one_at_a_time as_completed w cfg stdin :
  "4"%string ∉ stdin -> one_at_a_time (menu_loop as_completed w cfg stdin).
Proof.
  apply (menu_loop_kept
           (fun stdin s => "4"%string ∉ stdin -> one_at_a_time s)).
  - intros ? _. repeat split; constructor.
  - intros rest _. repeat split; constructor.
  - intros choice rest lv m s' IH Hno. apply IH. set_solver.
  - intros choice line rest next _ IH Hno.
    assert (Hnext : one_at_a_time next) by (apply IH; set_solver).
    assert (H4 : String.eqb choice "4" = false).
    { apply String.eqb_neq. intros ->. apply Hno, list_elem_of_here. }
    unfold menu_turn. cbv zeta. rewrite H4.
    destruct (negb (str_truthy _)); [exact Hnext|].
    destruct (negb (acceptable _ _)); [exact Hnext|].
    destruct (String.eqb choice "1").
    { apply one_at_a_time_single; [set_solver| |exact Hnext].
      rewrite run_subfinder_offline. constructor. }
    destruct (String.eqb choice "2").
    { apply one_at_a_time_single; [set_solver| |exact Hnext].
      eapply tagged_either; [apply run_crtsh_tagged|now left]. }
    destruct (String.eqb choice "3"); [|exact Hnext].
    destruct (negb _); [exact Hnext|].
    apply one_at_a_time_single; [set_solver| |exact Hnext].
    eapply tagged_either; [apply run_securitytrails_tagged|now right].
Qed.

(** X12.  As long as the choice 4 is not entered, a session of [run] writes
    no workbook, sends requests to crt.sh and to SecurityTrails only, and
    calls no collector but the three of the choices 1, 2 and 3. The choice
    5, which the menu announces as the ZoomEye collection, is accepted and
    does nothing: the session is that of the input that remains. *)
Theorem run_queries_zoomeye_only_in_one_key
    (as_completed : list (string * task_run) -> list (string * task_run))
    (w : world) (mkdir : option string) (cfg : config) (stdin : list string) :
  "4"%string ∉ stdin ->
  one_at_a_time (run as_completed w mkdir cfg stdin)
  /\ forall line rest,
      str_truthy (strip line) = true -> acceptable w (strip line) = true ->
      menu_loop as_completed w cfg ("5"%string :: line :: rest)
      = menu_loop as_completed w cfg rest.
Proof.
  intros Hno. split.
  - unfold run. destruct (subdomain cfg) as [sc|]; [|repeat split; constructor].
    destruct (negb _); [repeat split; constructor|].
    destruct mkdir; [repeat split; constructor|].
    now apply menu_loop_one_at_a_time.
  - intros line rest Ht Ha. cbn [menu_loop]. unfold menu_turn. cbv zeta.
    rewrite Ht, Ha. reflexivity.
Qed.

(** X12 on the choice 5, with ZoomEye answering and every key set. *)
Lemma run_queries_zoomeye_only_in_one_key_witness :
  one_at_a_time
    (run (fun l => l) zoomeye_answers None all_keys
       ["5"; "example.com"; "0"]%string).
Proof.
  refine (proj1 (run_queries_zoomeye_only_in_one_key (fun l => l) zoomeye_answers
                   None all_keys ["5"; "example.com"; "0"]%string _)).
  apply (bool_decide_unpack _). vm_compute. exact I.
Defined.

Lemma only_expected_after cfg calls reqs l books s e :
  only_expected cfg s e -> only_expected cfg (after calls reqs l books s) e.
Proof.
  intros [[-> Hu]|(Hg & domain & Hin)]; [now left|].
  right. split; [exact Hg|]. exists domain.
  cbn [after invoked]. apply elem_of_app. now right.
Qed.

Lemma menu_loop_raises as_completed w cfg stdin e :
  session_end (menu_loop as_completed w cfg stdin) = Raises e ->
  only_expected cfg (menu_loop as_completed w cfg stdin) e.
Proof.
  revert e.
  apply (menu_loop_kept
           (fun _ s => forall e, session_end s = Raises e -> only_expected cfg s e)).
  - intros _ e [= <-]. now left.
  - intros rest e. discriminate.
  - intros choice rest lv m s' IH e He. apply only_expected_after, IH, He.
  - intros choice line rest next _ IH e. unfold menu_turn. cbv zeta.
    assert (Hsay : forall lv m, session_end (say lv m next) = Raises e ->
                                only_expected cfg (say lv m next) e).
    { intros lv m He. apply only_expected_after, IH, He. }
    assert (Hsingle : forall nm r leaves,
               ((exists found, value r = Returned found)
                \/ (nm = "subfinder"%string /\ r = run_subfinder w cfg (strip line))) ->
               session_end (single nm (strip line) r leaves rest next) = Raises e ->
               only_expected cfg (single nm (strip line) r leaves rest next) e).
    { intros nm r leaves Hr. unfold single. destruct (value r) as [found|e'] eqn:Hv.
      - destruct leaves; [discriminate|]. intros He. apply only_expected_after, IH, He.
      - cbn [after stop session_end]. intros [= ->].
        destruct Hr as [[found Hf]|[-> ->]]; [congruence|].
        right. split; [exact (proj1 (run_subfinder_raises _ _ _ _) Hv)|].
        exists (strip line).
        cbn [after invoked app]. apply list_elem_of_here. }
    destruct (negb (str_truthy _)); [apply Hsay|].
    destruct (negb (acceptable _ _)); [apply Hsay|].
    destruct (String.eqb choice "1"); [apply Hsingle; now right|].
    destruct (String.eqb choice "2");
      [apply Hsingle; left; apply run_crtsh_returns|].
    destruct (String.eqb choice "3").
    { destruct (negb _); [apply Hsay|].
      apply Hsingle; left; apply run_securitytrails_returns. }
    destruct (String.eqb choice "4"); [|exact (IH e)].
    destruct (any_found _); [|discriminate].
    intros He. apply only_expected_after, IH, He.
Qed.

(** X13.  The exceptions that leave [run]: [EOFError], when the input ends,
    with all of it read, and the exception of the first line of
    [run_subfinder], called by the choice 1: [KeyError] under a
    configuration without [global] section, [AttributeError] under one
    whose [global] section is no mapping.  No other. *)
Theorem run_raises_only_at_end_of_input
    (as_completed : list (string * task_run) -> list (string * task_run))
    (w : world) (mkdir : option string) (cfg : config) (stdin : list string)
    (e : string) :
  session_end (run as_completed w mkdir cfg stdin) = Raises e ->
  only_expected cfg (run as_completed w mkdir cfg stdin) e.
Proof.
  unfold run. destruct (subdomain cfg) as [sc|]; [|discriminate].
  destruct (negb _); [discriminate|]. destruct mkdir; [discriminate|].
  apply menu_loop_raises.
Qed.

(** X13 on the choice 1 under a configuration whose [global] section is
    empty. *)
Lemma run_raises_only_at_end_of_input_witness :
  session_end (run (fun l => l) offline None null_global ["1"; "example.com"]%string)
  = Raises "AttributeError: 'NoneType' object has no attribute 'get'"
  /\ exists domain,
      ("subfinder"%string, domain)
        ∈ invoked (run (fun l => l) offline None null_global
                     ["1"; "example.com"]%string).
Proof.
  split; [reflexivity|].
  destruct (run_raises_only_at_end_of_input (fun l => l) offline None null_global
              ["1"; "example.com"]%string
              "AttributeError: 'NoneType' object has no attribute 'get'" eq_refl)
    as [[H _]|[_ H]].
  - discriminate H.
  - exact H.
Defined.

(** What [run] leaves unread is the end of its input. *)
Lemma menu_loop_unread as_completed w cfg stdin :
  unread (menu_loop as_completed w cfg stdin) `suffix_of` stdin.
Proof.
  apply (menu_loop_kept (fun stdin s => unread s `suffix_of` stdin)).
  - intros ?. apply suffix_nil.
  - intros rest. apply suffix_cons_r. reflexivity.
  - intros choice rest lv m s IH. now apply suffix_cons_r.
  - intros choice line rest next _ IH.
    assert (Hnext : unread next `suffix_of` choice :: line :: rest)
      by now apply suffix_cons_r, suffix_cons_r.
    assert (Hrest : rest `suffix_of` choice :: line :: rest)
      by now apply suffix_cons_r, suffix_cons_r.
    unfold menu_turn, single, say. cbv zeta.
    repeat (case_match; cbn [after stop unread]); assumption.
Qed.

Lemma run_unread as_completed w mkdir cfg stdin :
  unread (run as_completed w mkdir cfg stdin) `suffix_of` stdin.
Proof.
  unfold run. destruct (subdomain cfg) as [sc|]; [|reflexivity].
  destruct (negb _); [reflexivity|]. destruct mkdir; [reflexivity|].
  apply menu_loop_unread.
Qed.

End MenuFacts.

(** ** One call of the paced client *)

Module IcpCallFacts.
Import IcpQuery IcpExamples IcpTerms IcpFacts IcpCallTerms.

Local Open Scope nat_scope.

(** A call answered with the status 200 and a JSON list: the permit is
    given back, then reading the first field raises. *)
Example icp_query_not_an_object :
  ended (icp_query answering_list "a.com" initial noon) = AttributeError
  /\ permits (state_after (icp_query answering_list "a.com" initial noon))
     = MAX_CONCURRENT
  /\ length (request_times (trace (icp_query answering_list "a.com" initial noon)))
     = 1.
Proof. repeat split; vm_compute; reflexivity. Qed.

(** Twenty calls in a row, each answered with the status 200 and a page
    that is no JSON, leave no permit: the next call waits for ever. *)
Example permits_run_out :
  let next (s : state * clock) :=
    let c := icp_query answering_html "a.com" s.1 s.2 in
    (state_after c, clock_after c) in
  let s := Nat.iter 20 next (initial, noon) in
  permits s.1 = 0
  /\ ended (icp_query answering_html "a.com" s.1 s.2) = Blocked.
Proof. split; vm_compute; reflexivity. Qed.

(** X15.  When the attempt number k, below three, is the first to be
    answered with the status 200, after k + 1 requests, with k warnings and
    no error record, the call ends as the body of that answer has it: a
    JSON object gives its fields, the missing ones by default, and the
    permit is given back; a JSON value of another kind raises
    [AttributeError] at the first [data.get], after the permit is given
    back; a body that is no JSON raises [JSONDecodeError] at
    [response.json()], and the permit is never given back. *)
Theorem icp_query_answers_with_first_success
    (net : network) (domain : string) (st : state) (ck : clock)
    (k : nat) (body : json_body) :
  0 < permits st -> current_endpoint_index st < N ->
  k < max_retries ->
  (forall j, j < k -> succeeded (outcome net ck j) = false) ->
  outcome net ck k = Response 200 body ->
  let c := icp_query net domain st ck in
  match body with
  | JsonObject data =>
      ended c = Answered (extract data) /\ permits (state_after c) = permits st
  | JsonValue => ended c = AttributeError /\ permits (state_after c) = permits st
  | NotJson => ended c = JSONDecodeError /\ S (permits (state_after c)) = permits st
  end
  /\ length (request_times (trace c)) = S k
  /\ length (logged c) = k
  /\ Forall (fun r => r.1 = WARNING) (logged c).
Proof.
  intros Hp Hc Hk Hfail Hok.
  destruct (icp_query_first_success net domain st ck k body Hp Hc Hk Hfail Hok)
    as (Hend & Hrest).
  destruct (icp_query_run net domain st ck Hp Hc) as (_ & _ & _ & Hperm).
  cbv zeta. split; [|exact Hrest].
  rewrite Hend in Hperm.
  destruct body as [data| |]; cbn [ending_of] in *; split;
    try assumption; lia.
Qed.

(** X15 on a first attempt answered with the status 200 and a page that is
    no JSON. *)
Lemma icp_query_answers_with_first_success_witness :
  ended (icp_query answering_html "a.com" initial midnight) = JSONDecodeError
  /\ S (permits (state_after (icp_query answering_html "a.com" initial midnight)))
     = permits initial.
Proof.
  refine (proj1 (icp_query_answers_with_first_success answering_html "a.com"
                   initial midnight 0 NotJson _ _ _ _ _)).
  - vm_compute. lia.
  - vm_compute. lia.
  - vm_compute. lia.
  - intros j Hj. lia.
  - reflexivity.
Defined.

Local Open Scope Q_scope.

Lemma budget_nonneg left : 0 <= budget left.
Proof.
  induction left as [|left IH]; cbn [budget]; [lra|].
  destruct (0 <? left)%nat; lra.
Qed.

Lemma clock_next_time net left ck :
  now (clock_next net left ck)
  = now ck + (net (sent ck)).1 + (if (0 <? left)%nat then 1 else 0)
  \/ ((0 <? left)%nat = false
      /\ now (clock_next net left ck) = now ck + (net (sent ck)).1).
Proof.
  unfold clock_next, sleep. destruct (0 <? left)%nat; [left|right]; auto.
Qed.

(** How long the retry loop takes: a second at least when more than one
    turn is left, since the first attempt is followed by the sleep whatever
    it comes to, and no more than its budget. *)
Lemma retry_loop_duration net domain :
  timely net ->
  forall left resp st ck tr lg,
    (current_endpoint_index st < N)%nat ->
    let e := retry_loop net domain left resp st ck tr lg in
    now ck + (if (1 <? left)%nat then 1 else 0) <= now (loop_clock e)
    /\ now (loop_clock e) <= now ck + budget left.
Proof.
  intros Hnet. induction left as [|left IH]; intros resp st ck tr lg Hc; cbv zeta.
  - cbn [retry_loop loop_clock budget Nat.ltb Nat.leb]. lra.
  - rewrite retry_loop_S by assumption.
    assert (Hc' : (current_endpoint_index (state_next st ck) < N)%nat)
      by (apply Nat.mod_upper_bound; pose proof N_pos; lia).
    destruct (Hnet (sent ck)) as [Hlo Hhi].
    pose proof (budget_nonneg left) as Hb.
    assert (Hnext : now ck + (if (1 <? S left)%nat then 1 else 0)
                    <= now (clock_next net left ck)
                    /\ now (clock_next net left ck) + budget left
                       <= now ck + budget (S left)).
    { cbn [budget]. change (1 <? S left)%nat with (0 <? left)%nat.
      unfold clock_next, sleep. destruct (0 <? left)%nat; cbn [now]; lra. }
    assert (Hrec : forall resp' lg',
               let e := retry_loop net domain left resp' (state_next st ck)
                          (clock_next net left ck)
                          (tr ++ events_next domain left st ck) lg' in
               now ck + (if (1 <? S left)%nat then 1 else 0) <= now (loop_clock e)
               /\ now (loop_clock e) <= now ck + budget (S left)).
    { intros resp' lg'.
      destruct (IH resp' (state_next st ck) (clock_next net left ck)
                  (tr ++ events_next domain left st ck) lg' Hc') as [H1 H2].
      cbv zeta. destruct (1 <? left)%nat; lra. }
    destruct ((net (sent ck)).2) as [status body|err]; [|apply Hrec].
    destruct (status =? 200)%Z; [|apply Hrec]. cbn [loop_clock]. lra.
Qed.

Lemma pace_duration st ck :
  last_request_time st <= now ck ->
  now ck <= now (pace st ck).1
  /\ now (pace st ck).1 <= now ck + 2 * REQUEST_INTERVAL.
Proof.
  intros Hlast. rewrite pace_run. pose proof REQUEST_INTERVAL_pos as Hpos.
  destruct (Qltb _ _) eqn:Hlt; cbn [fst sleep now]; [|split; lra].
  apply Qltb_lt in Hlt. split; lra.
Qed.

(** X16.  The time a call of [icp_query] takes, when no request outlasts its
    timeout of five seconds and the clock is not behind the last request:
    one second at least, since the first attempt is followed by the sleep
    whatever it comes to, and 17 seconds and twice the interval at most. *)
Theorem icp_query_duration
    (net : network) (domain : string) (st : state) (ck : clock) :
  timely net ->
  (0 < permits st)%nat -> (current_endpoint_index st < N)%nat ->
  last_request_time st <= now ck ->
  let c := icp_query net domain st ck in
  now ck + 1 <= now (clock_after c)
  /\ now (clock_after c) <= now ck + 2 * REQUEST_INTERVAL + 17.
Proof.
  intros Hnet Hp Hc Hlast.
  destruct (icp_query_loop net domain st ck Hp Hc) as (_ & _ & Hclock & _).
  cbv zeta. rewrite Hclock.
  destruct (retry_loop_duration net domain Hnet max_retries None (acquired st)
              (pace st ck).1 (pace st ck).2 [] Hc) as [Hlo Hhi].
  destruct (pace_duration st ck Hlast) as [Hp1 Hp2].
  change (1 <? max_retries)%nat with true in Hlo. cbv iota in Hlo.
  assert (Hb : budget max_retries == 17) by (vm_compute; reflexivity).
  rewrite Hb in Hhi. split; lra.
Qed.

(** X16 with every request timing out after five seconds. *)
Lemma icp_query_duration_witness :
  now midnight + 1 <= now (clock_after (icp_query timing_out "a.com" initial midnight)).
Proof.
  refine (proj1 (icp_query_duration timing_out "a.com" initial midnight _ _ _ _)).
  - intros k. cbn. lra.
  - vm_compute. lia.
  - vm_compute. lia.
  - cbn. lra.
Defined.

End IcpCallFacts.

(** ** The batch of queries and the selection *)

Module IcpRunFacts.
Import IcpQuery IcpExamples IcpTerms IcpFacts IcpCallTerms IcpCallFacts IcpRun
  IcpRunTerms.

Lemma query_domains_informed net : forall domains rs,
  (forall r, last_icp_info rs = Some r -> is_info r) ->
  let b := query_domains net domains rs in
  Forall informed (removelast (calls b))
  /\ (batch_end b = Done -> Forall informed (calls b))
  /\ (forall c, last (calls b) = Some c -> gave_up c ->
      batch_end b = Raised "KeyError: 'registration_type'")
  /\ (forall r, last_icp_info (batch_state b) = Some r -> is_info r)
  /\ Forall is_info (icp_info_list b).
Proof.
  induction domains as [|domain rest IH]; intros rs Hlast; cbv zeta.
  - cbn. repeat split; auto; try constructor. intros c Hc. discriminate.
  - cbn [query_domains]. destruct (String.eqb domain ""); [exact (IH rs Hlast)|].
    cbv zeta. set (c := icp_query net domain (query_state rs) (time rs)).
    destruct (ended c) as [info| | | |] eqn:Hend.
    2-5: cbn [last_call calls batch_end batch_state icp_info_list last_icp_info
              removelast last];
         repeat split; auto; try constructor; try discriminate;
         intros c' [= <-] (code & msg & Hg); congruence.
    assert (Hnext : forall kept l rs',
              (forall r, last_icp_info rs' = Some r -> is_info r) ->
              is_info info -> Forall is_info kept ->
              let b := with_call c kept l (query_domains net rest rs') in
              Forall informed (removelast (calls b))
              /\ (batch_end b = Done -> Forall informed (calls b))
              /\ (forall c, last (calls b) = Some c -> gave_up c ->
                  batch_end b = Raised "KeyError: 'registration_type'")
              /\ (forall r, last_icp_info (batch_state b) = Some r -> is_info r)
              /\ Forall is_info (icp_info_list b)).
    { intros kept l rs' Hrs' Hinfo Hkept.
      destruct (IH rs' Hrs') as (H1 & H2 & H3 & H4 & H5).
      assert (Hc : informed c) by (exists info; auto).
      cbv zeta. cbn [with_call calls batch_end batch_state icp_info_list].
      split; [|split; [|split; [|split]]].
      - revert H1. destruct (calls (query_domains net rest rs')) as [|c' cs];
          [constructor|]. cbn [removelast]. intros H1. constructor; assumption.
      - intros Hd. constructor; [exact Hc|exact (H2 Hd)].
      - intros c' Hl Hg. revert H3 Hl.
        destruct (calls (query_domains net rest rs')) as [|c'' cs]; intros H3 Hl.
        + injection Hl as <-. destruct Hc as (r & Hr & Hi). destruct Hg as (cd & m & Hg).
          rewrite Hg in Hr. injection Hr as <-. contradiction.
        + apply (H3 c'); [|exact Hg]. rewrite <- Hl. symmetry. apply last_cons_cons.
      - exact H4.
      - apply Forall_app. auto. }
    destruct (bool_decide (last_icp_info rs = Some info)) eqn:Hsame.
    + apply bool_decide_eq_true in Hsame.
      apply Hnext; [exact Hlast|exact (Hlast _ Hsame)|constructor].
    + destruct info as [cd m td ty icp unit dom tm|cd m].
      * apply Hnext; [|exact I|repeat constructor].
        cbn. now intros r [= <-].
      * cbn [last_call calls batch_end batch_state icp_info_list last_icp_info
               removelast last].
        repeat split; auto; try constructor; try discriminate.
Qed.

Lemma outcome_pace net st ck k : outcome net (pace st ck).1 k = outcome net ck k.
Proof. unfold outcome. now rewrite pace_sent. Qed.

(** A call whose three attempts all fail ends with the dictionary of the
    failure. *)
Lemma icp_query_gives_up net domain st ck :
  0 < permits st -> current_endpoint_index st < N ->
  (forall j, j < max_retries -> succeeded (outcome net ck j) = false) ->
  ended (icp_query net domain st ck) = Answered failure.
Proof.
  intros Hp Hc Hfail.
  destruct (icp_query_loop net domain st ck Hp Hc) as (_ & _ & _ & _ & Hno & _).
  apply Hno.
  pose proof (retry_loop_three net domain (acquired st) (pace st ck).1 (pace st ck).2 Hc)
    as Hthree.
  cbv zeta in Hthree. destruct Hthree as (t1 & t2 & Hthree).
  rewrite !outcome_pace in Hthree.
  rewrite (Hfail 0), (Hfail 1) in Hthree by (unfold max_retries; lia).
  destruct Hthree as (_ & _ & Hthree).
  apply Hthree. apply Hfail. unfold max_retries. lia.
Qed.

(** The calls of the batch are the first of the calls of the series
    [query_all], which goes on after a call that gave up or raised. *)
Lemma query_domains_prefix net : forall domains rs,
  calls (query_domains net domains rs)
  `prefix_of` query_all net domains (query_state rs) (time rs).
Proof.
  induction domains as [|domain rest IH]; intros rs; [reflexivity|].
  cbn [query_domains query_all]. destruct (String.eqb domain ""); [apply IH|].
  cbv zeta. set (c := icp_query net domain (query_state rs) (time rs)).
  destruct (ended c) as [info| | | |];
    try (cbn [last_call calls]; apply prefix_cons, prefix_nil).
  destruct (bool_decide (last_icp_info rs = Some info)).
  - cbn [with_call calls]. apply prefix_cons.
    exact (IH {| query_state := state_after c; time := clock_after c;
                 last_icp_info := last_icp_info rs |}).
  - destruct info as [cd m td ty icp unit dom tm|cd m].
    + cbn [with_call calls]. apply prefix_cons.
      exact (IH {| query_state := state_after c; time := clock_after c;
                   last_icp_info := Some (IcpInfo cd m td ty icp unit dom tm) |}).
    + cbn [last_call calls]. apply prefix_cons, prefix_nil.
Qed.

(** X17.  In the loop of [run] over the domains a call that gives up,
    returning the dictionary of the failure, is always the last one: logging
    its answer raises [KeyError], and the domains after it are not queried.
    The calls made are the first of those of [query_all], every call before
    the last one ended with an answer of eight fields, a batch that ends
    normally holds such calls only, and when the three attempts for the
    first domain fail the batch is that one call, with nothing listed. *)
Theorem failed_query_aborts_the_batch
    (net : network) (domains : list string) (rs : run_state) :
  (forall r, last_icp_info rs = Some r -> is_info r) ->
  let b := query_domains net domains rs in
  calls b `prefix_of` query_all net domains (query_state rs) (time rs)
  /\ Forall informed (removelast (calls b))
  /\ (batch_end b = Done -> Forall informed (calls b))
  /\ (forall c, last (calls b) = Some c -> gave_up c ->
      batch_end b = Raised "KeyError: 'registration_type'")
  /\ (forall domain rest,
      domains = domain :: rest -> domain <> ""%string ->
      0 < permits (query_state rs) ->
      current_endpoint_index (query_state rs) < N ->
      (forall j, j < max_retries -> succeeded (outcome net (time rs) j) = false) ->
      batch_end b = Raised "KeyError: 'registration_type'"
      /\ length (calls b) = 1 /\ icp_info_list b = []).
Proof.
  intros Hlast. destruct (query_domains_informed net domains rs Hlast)
    as (H1 & H2 & H3 & _).
  cbv zeta. split; [apply query_domains_prefix|].
  split; [exact H1|]. split; [exact H2|]. split; [exact H3|].
  intros domain rest -> Hne Hp Hc Hfail. cbn [query_domains].
  apply String.eqb_neq in Hne. rewrite Hne. cbv zeta.
  rewrite (icp_query_gives_up net domain _ _ Hp Hc Hfail).
  destruct (bool_decide (last_icp_info rs = Some failure)) eqn:Hsame.
  - apply bool_decide_eq_true in Hsame. destruct (Hlast _ Hsame).
  - unfold failure. cbn. auto.
Qed.

(** X17 on two domains, every request timing out: the second is not
    queried. *)
Lemma failed_query_aborts_the_batch_witness :
  batch_end (query_domains timing_out ["a.com"; "b.com"]%string fresh)
  = Raised "KeyError: 'registration_type'"
  /\ length (calls (query_domains timing_out ["a.com"; "b.com"]%string fresh)) = 1.
Proof.
  assert (Hlast : forall r, last_icp_info fresh = Some r -> is_info r)
    by (intros r H; discriminate H).
  destruct (proj2 (proj2 (proj2 (proj2
    (failed_query_aborts_the_batch timing_out ["a.com"; "b.com"]%string fresh Hlast))))
    "a.com"%string ["b.com"%string] eq_refl) as (H1 & H2 & _).
  - discriminate.
  - vm_compute. lia.
  - vm_compute. lia.
  - intros j Hj. reflexivity.
  - split; [exact H1|exact H2].
Defined.

Lemma query_domains_no_repeat net : forall domains rs,
  let b := query_domains net domains rs in
  no_repeat (icp_info_list b)
  /\ (forall info, head (icp_info_list b) = Some info -> last_icp_info rs <> Some info)
  /\ last_icp_info (batch_state b)
     = match last (icp_info_list b) with
       | Some info => Some info
       | None => last_icp_info rs
       end
  /\ (forall info, info ∈ icp_info_list b ->
      exists c, c ∈ calls b /\ ended c = Answered info).
Proof.
  induction domains as [|domain rest IH]; intros rs; cbv zeta.
  - cbn. repeat split; auto; try discriminate. intros info Hin.
    now apply elem_of_nil in Hin.
  - cbn [query_domains]. destruct (String.eqb domain ""); [exact (IH rs)|].
    cbv zeta. set (c := icp_query net domain (query_state rs) (time rs)).
    destruct (ended c) as [info| | | |] eqn:Hend.
    2-5: cbn; repeat split; auto; try discriminate; intros info Hin;
         now apply elem_of_nil in Hin.
    destruct (bool_decide (last_icp_info rs = Some info)) eqn:Hsame.
    + destruct (IH {| query_state := state_after c; time := clock_after c;
                     last_icp_info := last_icp_info rs |}) as (H1 & H2 & H3 & H4).
      cbn [with_call icp_info_list batch_state calls app].
      split; [exact H1|]. split; [exact H2|]. split; [exact H3|].
      intros i Hin. destruct (H4 i Hin) as (c' & Hc' & He).
      exists c'. split; [now apply list_elem_of_further|exact He].
    + apply bool_decide_eq_false in Hsame.
      destruct info as [cd m td ty icp unit dom tm|cd m].
      2:{ cbn. repeat split; auto; try discriminate. intros info Hin.
          now apply elem_of_nil in Hin. }
      set (info := IcpInfo cd m td ty icp unit dom tm) in *.
      destruct (IH {| query_state := state_after c; time := clock_after c;
                     last_icp_info := Some info |}) as (H1 & H2 & H3 & H4).
      cbn [with_call icp_info_list batch_state calls app last_icp_info] in *.
      split; [|split; [|split]].
      * destruct (icp_info_list (query_domains net rest _)) as [|i l] eqn:Hl;
          [exact I|]. split; [|exact H1]. intros Heq. apply (H2 i eq_refl).
        now rewrite Heq.
      * intros i [= <-]. exact Hsame.
      * rewrite H3.
        destruct (icp_info_list (query_domains net rest _)) as [|i l]; [reflexivity|].
        rewrite last_cons_cons. destruct (last (i :: l)) eqn:Hl; [reflexivity|].
        apply last_None in Hl. discriminate.
      * intros i [->|Hin]%elem_of_cons.
        -- exists c. split; [apply list_elem_of_here|exact Hend].
        -- destruct (H4 i Hin) as (c' & Hc' & He).
           exists c'. split; [now apply list_elem_of_further|exact He].
Qed.

(** X18.  The list [run] shows for the selection holds answers of eight
    fields only, each returned by one of the calls; no two neighbours are
    equal, and the first entry differs from the answer remembered from
    before; the attribute [last_icp_info] is left as the last entry listed. *)
Theorem listed_answers_differ_from_their_neighbours
    (net : network) (domains : list string) (rs : run_state) :
  (forall r, last_icp_info rs = Some r -> is_info r) ->
  let b := query_domains net domains rs in
  no_repeat (icp_info_list b)
  /\ (forall info, head (icp_info_list b) = Some info -> last_icp_info rs <> Some info)
  /\ Forall is_info (icp_info_list b)
  /\ (forall info, info ∈ icp_info_list b ->
      exists c, c ∈ calls b /\ ended c = Answered info)
  /\ last_icp_info (batch_state b)
     = match last (icp_info_list b) with
       | Some info => Some info
       | None => last_icp_info rs
       end.
Proof.
  intros Hlast. destruct (query_domains_no_repeat net domains rs) as (H1 & H2 & H3 & H4).
  destruct (query_domains_informed net domains rs Hlast) as (_ & _ & _ & _ & H5).
  cbv zeta. auto.
Qed.

(** X18 on the same domain asked twice: two calls, one entry. *)
Lemma listed_answers_differ_from_their_neighbours_witness :
  length (calls (query_domains (answering 200) ["a.com"; "a.com"]%string fresh)) = 2
  /\ icp_info_list (query_domains (answering 200) ["a.com"; "a.com"]%string fresh)
     = [extract no_data]
  /\ no_repeat
       (icp_info_list (query_domains (answering 200) ["a.com"; "a.com"]%string fresh)).
Proof.
  assert (Hlast : forall r, last_icp_info fresh = Some r -> is_info r)
    by (intros r H; discriminate H).
  split; [vm_compute; reflexivity|]. split; [vm_compute; reflexivity|].
  exact (proj1 (listed_answers_differ_from_their_neighbours (answering 200)
                  ["a.com"; "a.com"]%string fresh Hlast)).
Defined.

(** ** The selection *)

Lemma write_lines_listed infos : forall indices,
  Forall is_info infos ->
  forallb (in_range infos) indices = true ->
  exists lines,
    write_lines infos indices = (lines, None)
    /\ map Some lines = map (fun idx => infos !! Z.to_nat idx ≫= line_of) indices.
Proof.
  intros indices Hinfos. induction indices as [|idx rest IH]; intros Hall.
  - exists []. split; reflexivity.
  - cbn [forallb] in Hall. apply andb_prop in Hall as [Hidx Hrest].
    destruct (IH Hrest) as (lines & Hw & Hl).
    unfold in_range in Hidx. apply andb_prop in Hidx as [H0 Hlt].
    apply Z.ltb_lt in Hlt. pose proof H0 as H0'. apply Z.leb_le in H0'.
    assert (Hsome : is_Some (infos !! Z.to_nat idx))
      by (apply lookup_lt_is_Some; lia).
    destruct Hsome as [info Hinfo].
    assert (Hi : is_info info).
    { rewrite List.Forall_forall in Hinfos. apply Hinfos.
      apply list_elem_of_In. eapply list_elem_of_lookup_2. exact Hinfo. }
    destruct info as [cd m td ty icp unit dom tm|]; [|contradiction].
    exists ((unit, icp, dom, tm) :: lines).
    cbn [write_lines map]. unfold item. rewrite H0, Hinfo. cbn [line_of].
    rewrite Hw. split; [reflexivity|]. cbn. now f_equal.
Qed.

(** X19.  The selection loop saves only for a selection whose numbers are
    all within the list, and writes then, in the order selected, the lines
    of those entries. It ends normally, or by [EOFError] at the end of the
    input; the one record it logs is that of the save, or of the failure to
    open the results file. *)
Theorem select_saves_listed_entries
    (e : env) (infos : list icp_result) (stdin : list string) :
  Forall is_info infos ->
  let s := select e infos stdin in
  (select_end s = Done \/ (select_end s = Raised "EOFError" /\ unread s = []))
  /\ (forall r, r ∈ select_log s ->
      (r = Saved /\ append e = None) \/ (exists err, append e = Some err /\ r = SaveError err))
  /\ (written s = []
      \/ exists selection indices,
          selection ∈ stdin /\ indices_of e selection = Some indices
          /\ Forall (fun idx => (0 <= idx < Z.of_nat (length infos))%Z) indices
          /\ map Some (written s)
             = map (fun idx => infos !! Z.to_nat idx ≫= line_of) indices).
Proof.
  intros Hinfos. cbv zeta. induction stdin as [|selection rest IH].
  - cbn. split; [now right|]. split; [|now left].
    intros r Hr. now apply elem_of_nil in Hr.
  - cbn [select]. destruct (is_quit selection).
    { cbn. split; [now left|]. split; [|now left].
      intros r Hr. now apply elem_of_nil in Hr. }
    assert (Hlater :
      (select_end (select e infos rest) = Done
       \/ (select_end (select e infos rest) = Raised "EOFError"
           /\ unread (select e infos rest) = []))
      /\ (forall r, r ∈ select_log (select e infos rest) ->
          (r = Saved /\ append e = None)
          \/ (exists err, append e = Some err /\ r = SaveError err))
      /\ (written (select e infos rest) = []
          \/ exists selection0 indices,
              selection0 ∈ selection :: rest /\ indices_of e selection0 = Some indices
              /\ Forall (fun idx => (0 <= idx < Z.of_nat (length infos))%Z) indices
              /\ map Some (written (select e infos rest))
                 = map (fun idx => infos !! Z.to_nat idx ≫= line_of) indices)).
    { destruct IH as (H1 & H2 & H3). split; [exact H1|]. split; [exact H2|].
      destruct H3 as [H3|(sel & ind & Hin & H3)]; [now left|].
      right. exists sel, ind. split; [now apply list_elem_of_further|exact H3]. }
    destruct (indices_of e selection) as [indices|] eqn:Hind; [|exact Hlater].
    destruct (forallb (in_range infos) indices) eqn:Hall; [|exact Hlater].
    unfold save_icp_info. destruct (append e) as [err|] eqn:Happ.
    { cbn. split; [now left|]. split; [|now left].
      intros r ->%list_elem_of_singleton. right. eauto. }
    destruct (write_lines_listed infos indices Hinfos Hall) as (lines & Hw & Hl).
    rewrite Hw. cbn [select_end unread written select_log].
    split; [now left|]. split.
    + intros r ->%list_elem_of_singleton. now left.
    + right. exists selection, indices. split; [apply list_elem_of_here|].
      split; [exact Hind|]. split; [|exact Hl].
      apply List.Forall_forall. intros idx Hin.
      rewrite forallb_forall in Hall. specialize (Hall idx Hin).
      unfold in_range in Hall. apply andb_prop in Hall as [H0 Hlt].
      apply Z.leb_le in H0. apply Z.ltb_lt in Hlt. lia.
Qed.

(** X19 on a selection out of range followed by a good one. *)
Lemma select_saves_listed_entries_witness :
  Forall is_info [extract IcpExamples.no_data]
  /\ (written (select two_digits [extract IcpExamples.no_data] ["7"; "0"]%string) = []
      \/ exists selection indices,
          selection ∈ ["7"; "0"]%string
          /\ indices_of two_digits selection = Some indices
          /\ Forall (fun idx => (0 <= idx < 1)%Z) indices
          /\ map Some (written (select two_digits [extract IcpExamples.no_data]
                                  ["7"; "0"]%string))
             = map (fun idx => [extract IcpExamples.no_data] !! Z.to_nat idx ≫= line_of)
                   indices).
Proof.
  assert (Hinfos : Forall is_info [extract IcpExamples.no_data])
    by (repeat constructor).
  split; [exact Hinfos|].
  exact (proj2 (proj2 (select_saves_listed_entries two_digits
                         [extract IcpExamples.no_data] ["7"; "0"]%string Hinfos))).
Defined.

(** ** [run] as a whole *)

Lemma select_ends e infos stdin :
  select_end (select e infos stdin) = Done
  \/ select_end (select e infos stdin) = Raised "EOFError".
Proof.
  induction stdin as [|selection rest IH]; cbn [select]; [now right|].
  destruct (is_quit selection); [now left|].
  destruct (indices_of e selection) as [indices|]; [|exact IH].
  destruct (forallb (in_range infos) indices); [|exact IH].
  destruct (save_icp_info e infos indices). now left.
Qed.

(** X14.  The calls of the loop of [run] over the domains, from a state
    with a free permit and the cursor inside the list of endpoints: one at
    most for each domain that is not empty, and one for each when the loop
    ends normally.  No call waits for a permit and none raises
    [IndexError]; each leaves the cursor inside the list; each gives its
    permit back, except the one that is answered with the status 200 and a
    body that is no JSON: [response.json()] raises before the permit is
    released, and that call, the last of the loop, leaves one permit
    fewer. *)
Theorem batch_keeps_permits_and_cursor
    (net : network) (domains : list string) (rs : run_state) :
  0 < permits (query_state rs) -> current_endpoint_index (query_state rs) < N ->
  let b := query_domains net domains rs in
  length (calls b) <= length (queried_domains domains)
  /\ (batch_end b = Done -> length (calls b) = length (queried_domains domains))
  /\ Forall (fun c => ended c <> Blocked /\ ended c <> IndexError
                      /\ current_endpoint_index (state_after c) < N
                      /\ permits (state_after c)
                         = match ended c with
                           | JSONDecodeError => pred (permits (query_state rs))
                           | _ => permits (query_state rs)
                           end) (calls b)
  /\ (forall c, c ∈ calls b -> ended c = JSONDecodeError -> last (calls b) = Some c).
Proof.
  revert rs. induction domains as [|domain rest IH]; intros rs Hp Hc.
  - cbn. repeat split; try constructor. intros c Hin. now apply elem_of_nil in Hin.
  - cbv zeta. cbn [query_domains queried_domains List.filter].
    destruct (String.eqb domain ""); cbn [negb].
    { destruct (IH rs Hp Hc) as (H1 & H2 & H3 & H4).
      cbn [calls batch_end]. auto. }
    cbv zeta.
    destruct (icp_query_run net domain (query_state rs) (time rs) Hp Hc)
      as (Hend & _ & Hi & Hperm).
    set (c := icp_query net domain (query_state rs) (time rs)) in *.
    assert (Hc' : current_endpoint_index (state_after c) < N).
    { rewrite Hi. apply Nat.mod_upper_bound. pose proof N_pos. lia. }
    assert (Hone : ended c <> Blocked /\ ended c <> IndexError
                   /\ current_endpoint_index (state_after c) < N
                   /\ permits (state_after c)
                      = match ended c with
                        | JSONDecodeError => pred (permits (query_state rs))
                        | _ => permits (query_state rs)
                        end).
    { repeat split; try assumption;
        destruct Hend as [[r Hr]|[Hr|Hr]]; rewrite Hr; discriminate. }
    assert (Hlast : forall e l st',
      e <> Done ->
      let b := last_call e st' c l in
      length (calls b) <= length (domain :: queried_domains rest)
      /\ (batch_end b = Done ->
          length (calls b) = length (domain :: queried_domains rest))
      /\ Forall (fun c => ended c <> Blocked /\ ended c <> IndexError
                          /\ current_endpoint_index (state_after c) < N
                          /\ permits (state_after c)
                             = match ended c with
                               | JSONDecodeError => pred (permits (query_state rs))
                               | _ => permits (query_state rs)
                               end) (calls b)
      /\ (forall c', c' ∈ calls b -> ended c' = JSONDecodeError ->
          last (calls b) = Some c')).
    { intros e l st' He. cbv zeta. cbn [last_call calls batch_end length].
      split; [lia|]. split; [intros Hd; now destruct He|]. split.
      - constructor; [exact Hone|constructor].
      - intros c' Hin _. apply list_elem_of_singleton in Hin as ->. reflexivity. }
    assert (Hnext : forall kept l last',
      permits (state_after c) = permits (query_state rs) ->
      ended c <> JSONDecodeError ->
      let b := with_call c kept l
                 (query_domains net rest
                    {| query_state := state_after c; time := clock_after c;
                       last_icp_info := last' |}) in
      length (calls b) <= length (domain :: queried_domains rest)
      /\ (batch_end b = Done ->
          length (calls b) = length (domain :: queried_domains rest))
      /\ Forall (fun c => ended c <> Blocked /\ ended c <> IndexError
                          /\ current_endpoint_index (state_after c) < N
                          /\ permits (state_after c)
                             = match ended c with
                               | JSONDecodeError => pred (permits (query_state rs))
                               | _ => permits (query_state rs)
                               end) (calls b)
      /\ (forall c', c' ∈ calls b -> ended c' = JSONDecodeError ->
          last (calls b) = Some c')).
    { intros kept l last' Hsame Hnot.
      destruct (IH {| query_state := state_after c; time := clock_after c;
                     last_icp_info := last' |}) as (H1 & H2 & H3 & H4);
        [cbn [query_state]; lia|exact Hc'|].
      cbn [query_state] in H3.
      cbv zeta. cbn [with_call calls batch_end length]. split; [lia|].
      split; [intros Hd; f_equal; exact (H2 Hd)|]. split.
      - constructor; [exact Hone|].
        eapply List.Forall_impl; [|exact H3].
        intros c' (G1 & G2 & G3 & G4). rewrite Hsame in G4. auto.
      - intros c' Hin He. apply elem_of_cons in Hin as [->|Hin]; [contradiction|].
        specialize (H4 c' Hin He).
        destruct (calls (query_domains net rest _)) as [|c'' cs]; [discriminate|].
        now rewrite last_cons_cons. }
    destruct (ended c) as [info| | | |] eqn:E; cbv iota in Hperm.
    + destruct (bool_decide (last_icp_info rs = Some info)).
      * apply Hnext; [exact Hperm|discriminate].
      * destruct info as [cd m td ty icp unit dom tm|cd m].
        -- apply Hnext; [exact Hperm|discriminate].
        -- apply Hlast. discriminate.
    + apply Hlast. discriminate.
    + apply Hlast. discriminate.
    + apply Hlast. discriminate.
    + apply Hlast. discriminate.
Qed.

(** X14 on two domains and an empty line, every request answered at once. *)
Lemma batch_keeps_permits_and_cursor_witness :
  length (calls (query_domains (answering 200) ["a.com"; ""; "b.com"]%string fresh))
  = 2.
Proof.
  refine (proj1 (proj2 (batch_keeps_permits_and_cursor (answering 200)
                          ["a.com"; ""; "b.com"]%string fresh _ _)) _);
    vm_compute; first [lia|reflexivity].
Defined.

(** How the batch ends from a usable state, and what it leaves. *)
Lemma query_domains_usable net : forall domains rs,
  usable rs ->
  let b := query_domains net domains rs in
  (batch_end b = Done
   \/ (batch_end b = Raised "KeyError: 'registration_type'"
       /\ exists c, last (calls b) = Some c /\ gave_up c)
   \/ (batch_end b = Raised "AttributeError"
       /\ exists c, last (calls b) = Some c /\ ended c = AttributeError)
   \/ (batch_end b = Raised "JSONDecodeError"
       /\ S (permits (query_state (batch_state b))) = permits (query_state rs)
       /\ exists c, last (calls b) = Some c /\ ended c = JSONDecodeError))
  /\ (batch_end b <> Raised "JSONDecodeError" ->
      usable (batch_state b)
      /\ permits (query_state (batch_state b)) = permits (query_state rs)).
Proof.
  induction domains as [|domain rest IH]; intros rs Hrs; cbv zeta.
  - cbn. split; [now left|]. intros _. split; [exact Hrs|reflexivity].
  - cbn [query_domains]. destruct (String.eqb domain ""); [exact (IH rs Hrs)|].
    cbv zeta. destruct Hrs as (Hp & Hc & Hlast).
    destruct (icp_query_run net domain (query_state rs) (time rs) Hp Hc)
      as (Hend & _ & Hi & Hperm).
    set (c := icp_query net domain (query_state rs) (time rs)) in *.
    assert (Hc' : current_endpoint_index (state_after c) < N).
    { rewrite Hi. apply Nat.mod_upper_bound. pose proof N_pos. lia. }
    assert (Hnext : forall kept l last',
              permits (state_after c) = permits (query_state rs) ->
              (forall r, last' = Some r -> is_info r) ->
              let b := with_call c kept l
                         (query_domains net rest
                            {| query_state := state_after c; time := clock_after c;
                               last_icp_info := last' |}) in
              (batch_end b = Done
               \/ (batch_end b = Raised "KeyError: 'registration_type'"
                   /\ exists c, last (calls b) = Some c /\ gave_up c)
               \/ (batch_end b = Raised "AttributeError"
                   /\ exists c, last (calls b) = Some c /\ ended c = AttributeError)
               \/ (batch_end b = Raised "JSONDecodeError"
                   /\ S (permits (query_state (batch_state b)))
                      = permits (query_state rs)
                   /\ exists c, last (calls b) = Some c /\ ended c = JSONDecodeError))
              /\ (batch_end b <> Raised "JSONDecodeError" ->
                  usable (batch_state b)
                  /\ permits (query_state (batch_state b))
                     = permits (query_state rs))).
    { intros kept l last' Hsame Hlast'.
      destruct (IH {| query_state := state_after c; time := clock_after c;
                     last_icp_info := last' |}) as (H1 & H2).
      { unfold usable. cbn [query_state last_icp_info].
        split; [lia|]. split; [exact Hc'|exact Hlast']. }
      cbv zeta. cbn [with_call batch_state batch_end calls].
      cbn [query_state] in H1, H2.
      assert (Hl : forall c', last (calls (query_domains net rest
                      {| query_state := state_after c; time := clock_after c;
                         last_icp_info := last' |})) = Some c' ->
                   last (c :: calls (query_domains net rest
                      {| query_state := state_after c; time := clock_after c;
                         last_icp_info := last' |})) = Some c').
      { intros c' Hc''.
        destruct (calls (query_domains net rest _)) as [|c'' cs]; [discriminate|].
        now rewrite last_cons_cons. }
      split.
      - destruct H1 as [H1|[(H1 & c' & Hc'' & Hg)|[(H1 & c' & Hc'' & Hg)
                             |(H1 & Hs & c' & Hc'' & Hg)]]].
        + now left.
        + right. left. split; [exact H1|]. exists c'. auto.
        + right. right. left. split; [exact H1|]. exists c'. auto.
        + right. right. right. split; [exact H1|]. split; [lia|]. exists c'. auto.
      - intros Hno. destruct (H2 Hno) as [Hu Hpm]. split; [exact Hu|lia]. }
    destruct (ended c) as [info| | | |] eqn:E; cbv iota in Hperm.
    + destruct (bool_decide (last_icp_info rs = Some info)) eqn:Hsame.
      * apply Hnext; [exact Hperm|exact Hlast].
      * destruct info as [cd m td ty icp unit dom tm|cd m].
        -- apply Hnext; [exact Hperm|]. now intros r [= <-].
        -- unfold usable.
           cbn [last_call batch_state batch_end calls query_state last_icp_info].
           split.
           ++ right. left. split; [reflexivity|]. exists c.
              split; [reflexivity|]. exists cd, m. exact E.
           ++ intros _. split; [split; [lia|split; [exact Hc'|exact Hlast]]|].
              exact Hperm.
    + destruct Hend as [[r Hr]|[Hr|Hr]]; discriminate.
    + destruct Hend as [[r Hr]|[Hr|Hr]]; discriminate.
    + cbn [last_call batch_state batch_end calls query_state last_icp_info].
      split.
      * right. right. right. split; [reflexivity|]. split; [lia|].
        exists c. auto.
      * intros Hno. now destruct Hno.
    + unfold usable.
      cbn [last_call batch_state batch_end calls query_state last_icp_info].
      split.
      * right. right. left. split; [reflexivity|]. exists c. auto.
      * intros _. split; [split; [lia|split; [exact Hc'|exact Hlast]]|].
        exact Hperm.
Qed.

(** X20.  [run] ends normally, by [EOFError] at the end of the input, or by
    the exception of its last query: the [KeyError] of a query that gave
    up, the [AttributeError] of an answer that is no JSON object, or the
    [JSONDecodeError] of one that is no JSON.  Except in the last case it
    leaves the state usable for the next call: a permit free, as many
    permits as before, the cursor inside the list, and [last_icp_info] an
    answer of eight fields.  After a [JSONDecodeError] one permit is
    missing for good, since line 91 raises before line 92 releases it.
    Nothing is saved when a query raises. *)
Theorem run_loses_a_permit_only_on_undecodable_answer
    (net : network) (e : env) (rs : run_state) (stdin : list string) :
  usable rs ->
  let o := run net e rs stdin in
  expected_end (run_ended o)
  /\ (run_ended o <> Raised "JSONDecodeError" ->
      usable (state_left o)
      /\ permits (query_state (state_left o)) = permits (query_state rs))
  /\ (run_ended o = Raised "JSONDecodeError" ->
      S (permits (query_state (state_left o))) = permits (query_state rs)
      /\ saved o = []
      /\ exists c, last (queried o) = Some c /\ ended c = JSONDecodeError)
  /\ (run_ended o = Raised "AttributeError" ->
      saved o = [] /\ exists c, last (queried o) = Some c /\ ended c = AttributeError)
  /\ (run_ended o = Raised "KeyError: 'registration_type'" ->
      saved o = [] /\ exists c, last (queried o) = Some c /\ gave_up c)
  /\ Forall is_info (listed o).
Proof.
  intros Hrs. unfold run. destruct stdin as [|file_path rest].
  { cbn. split; [right; now left|]. split; [intros _; split; [exact Hrs|reflexivity]|].
    repeat split; try discriminate. constructor. }
  destruct (if Subdomain.endswith file_path ".txt"
            then read_domains_from_file e file_path else ([file_path], []))
    as [domains l0].
  destruct (query_domains_usable net domains rs Hrs) as (Hend & Hu).
  destruct (query_domains_informed net domains rs (proj2 (proj2 Hrs)))
    as (_ & _ & _ & _ & Hinfos).
  cbv zeta.
  destruct Hend as [Hend|[(Hend & c & Hl & Hg)|[(Hend & c & Hl & Hg)
                         |(Hend & Hs & c & Hl & Hg)]]];
    rewrite Hend in *.
  - destruct (Hu ltac:(discriminate)) as [Hus Hp].
    destruct (icp_info_list (query_domains net domains rs)) as [|i l] eqn:Hlist.
    + cbn. split; [now left|]. split; [auto|].
      repeat split; try discriminate. constructor.
    + cbn [state_left run_ended saved queried listed].
      pose proof (select_ends e (i :: l) rest) as Hsel.
      split; [destruct Hsel as [-> | ->]; [now left|right; now left]|].
      split; [auto|].
      repeat split; try exact Hinfos;
        destruct Hsel as [Hsel|Hsel]; rewrite Hsel in *; discriminate.
  - destruct (Hu ltac:(discriminate)) as [Hus Hp].
    cbn [state_left run_ended saved queried listed].
    split; [right; right; now left|]. split; [auto|].
    repeat split; try discriminate; try exact Hinfos. eauto.
  - destruct (Hu ltac:(discriminate)) as [Hus Hp].
    cbn [state_left run_ended saved queried listed].
    split; [do 3 right; now left|]. split; [auto|].
    repeat split; try discriminate; try exact Hinfos. eauto.
  - cbn [state_left run_ended saved queried listed].
    split; [do 4 right; reflexivity|]. split; [intros Hno; now destruct Hno|].
    repeat split; try discriminate; try exact Hinfos; try assumption. eauto.
Qed.

(** X20 on a domain whose query is answered with a page that is no JSON. *)
Lemma run_loses_a_permit_only_on_undecodable_answer_witness :
  usable fresh
  /\ run_ended (run answering_html two_digits fresh ["a.com"]%string)
     = Raised "JSONDecodeError"
  /\ S (permits (query_state
                   (state_left (run answering_html two_digits fresh ["a.com"]%string))))
     = permits (query_state fresh).
Proof.
  assert (Hfresh : usable fresh).
  { split; [vm_compute; lia|]. split; [vm_compute; lia|]. intros r H. discriminate H. }
  assert (Hend : run_ended (run answering_html two_digits fresh ["a.com"]%string)
                 = Raised "JSONDecodeError") by (vm_compute; reflexivity).
  split; [exact Hfresh|]. split; [exact Hend|].
  exact (proj1 (proj1 (proj2 (proj2
    (run_loses_a_permit_only_on_undecodable_answer answering_html two_digits fresh
       ["a.com"]%string Hfresh))) Hend)).
Defined.

End IcpRunFacts.

(** ** The DNS scan *)

Module DnsFacts.
Import Regex RegexFacts Subdomain SubdomainTerms ValidatorFacts CollectorFacts
  CollectorTerms CollectorDetails DnsEnum DnsTerms.

Lemma split_on_pieces sep l : Forall (free_of sep) (split_on sep l).
Proof.
  induction l as [|c l IH]; simpl; [repeat constructor|].
  destruct (Ascii.eqb c sep) eqn:Hc.
  - constructor; [constructor|exact IH].
  - apply Ascii.eqb_neq in Hc.
    destruct (split_on sep l) as [|p ps]; [repeat constructor; assumption|].
    inversion IH; subst. constructor; [|assumption]. now constructor.
Qed.

Lemma lstrip_chars_free space sep l :
  free_of sep l -> free_of sep (lstrip_chars space l).
Proof.
  intros Hl. destruct (lstrip_chars_split space _ l (le_n _)) as [[pre Hpre] _].
  unfold free_of in *. rewrite Hpre in Hl. now apply Forall_app in Hl as [_ Hl].
Qed.

Lemma strip_free sep s :
  free_of sep (list_ascii_of_string s) ->
  free_of sep (list_ascii_of_string (strip s)).
Proof.
  intros Hs. unfold strip. rewrite list_ascii_of_string_of_list_ascii.
  unfold free_of in *.
  apply Forall_rev, lstrip_chars_free, Forall_rev, lstrip_chars_free, Hs.
Qed.

Lemma elem_of_stripped parts t :
  t ∈ stripped parts <-> t <> ""%string /\ exists part, part ∈ parts /\ t = strip part.
Proof.
  unfold stripped. rewrite list_elem_of_In, filter_In, in_map_iff. unfold str_truthy.
  rewrite negb_true_iff, String.eqb_neq. split.
  - intros [(part & <- & Hin) Hne]. split; [exact Hne|]. exists part.
    split; [now apply list_elem_of_In|reflexivity].
  - intros (Hne & part & Hin & ->). split; [|exact Hne]. exists part.
    split; [reflexivity|now apply list_elem_of_In].
Qed.

(** X21.  The targets that [run] of the DNS module scans are not empty and
    have no white space around them; read from the line itself, they hold no
    comma and are the stripped parts of the line; and when no target is left
    nothing is queried: the run logs one error. *)
Theorem dns_targets_are_trimmed (w : dns) (line : string) (targets : list string) :
  read_targets w (strip line) = inl targets ->
  Forall trimmed targets
  /\ (endswith (strip line) ".txt" = false ->
      Forall (fun target =>
                free_of "," (list_ascii_of_string target)
                /\ exists part, part ∈ split "," (strip line) /\ target = strip part)
             targets)
  /\ (targets = [] -> run w [line] = (Returns, note [(ERROR, NoTargets)] nothing)).
Proof.
  intros Hread. split; [|split].
  - assert (Hall : forall parts, Forall trimmed (stripped parts)).
    { intros parts. apply List.Forall_forall. intros t Hin.
      apply list_elem_of_In, elem_of_stripped in Hin as (Hne & part & _ & ->).
      split; [exact Hne|apply strip_idempotent]. }
    unfold read_targets in Hread. destruct (endswith (strip line) ".txt").
    + destruct (open_utf8 w (strip line)); try discriminate.
      injection Hread as <-. apply Hall.
    + injection Hread as <-. apply Hall.
  - intros Hend. unfold read_targets in Hread. rewrite Hend in Hread.
    injection Hread as <-. apply List.Forall_forall. intros t Hin.
    apply list_elem_of_In, elem_of_stripped in Hin as (Hne & part & Hpart & ->).
    split; [|eauto]. apply strip_free.
    unfold split in Hpart. apply list_elem_of_fmap in Hpart as (piece & -> & Hpiece).
    rewrite list_ascii_of_string_of_list_ascii.
    pose proof (split_on_pieces "," (list_ascii_of_string (strip line))) as Hfree.
    rewrite List.Forall_forall in Hfree. apply Hfree. now apply list_elem_of_In.
  - intros ->. unfold run. now rewrite Hread.
Qed.

(** X21 on a line with blanks and an empty part. *)
Lemma dns_targets_are_trimmed_witness :
  Forall trimmed ["a.com"; "b.com"]%string.
Proof.
  refine (proj1 (dns_targets_are_trimmed open_zone " a.com, ,b.com " _ _)).
  vm_compute. reflexivity.
Defined.

(** *** The queries of a scan *)

Lemma query_dns_records_asked w domain rtype t :
  asked (query_dns_records w domain rtype t).2 = asked t ++ [(domain, rtype)]
  /\ tried (query_dns_records w domain rtype t).2 = tried t
  /\ printed (query_dns_records w domain rtype t).2 = printed t.
Proof.
  unfold query_dns_records. destruct (resolve w _ _ _); repeat split; reflexivity.
Qed.

Lemma check_axfr_asked w domain ns t :
  asked (check_axfr w domain ns t).2 = asked t
  /\ tried (check_axfr w domain ns t).2 = tried t ++ [(ns, domain)].
Proof.
  unfold check_axfr. destruct (from_xfr w _ _ _) as [[]|]; split; reflexivity.
Qed.

Lemma lookup_asked w target types : forall results t,
  asked (foldl (lookup w target) (results, t) types).2
  = asked t ++ map (pair target) types
  /\ tried (foldl (lookup w target) (results, t) types).2 = tried t
  /\ printed (foldl (lookup w target) (results, t) types).2 = printed t.
Proof.
  induction types as [|rtype types IH]; intros results t.
  - cbn. now rewrite app_nil_r.
  - cbn [foldl]. unfold lookup at 2 4 6.
    destruct (query_dns_records_asked w target rtype t) as (Ha & Ht & Hp).
    destruct (query_dns_records w target rtype t) as [records t'].
    cbn [snd] in Ha, Ht, Hp.
    destruct (IH (match records with
                  | [] => results
                  | _ :: _ => dict_set results rtype records
                  end) t') as (Ha' & Ht' & Hp').
    split; [|split].
    + rewrite Ha'. cbn [map]. now rewrite Ha, <- app_assoc.
    + now rewrite Ht'.
    + now rewrite Hp'.
Qed.

Lemma probe_asked w target warn nameservers : forall flag t,
  asked (foldl (probe w target warn) (flag, t) nameservers).2 = asked t
  /\ tried (foldl (probe w target warn) (flag, t) nameservers).2
     = tried t ++ map (fun ns => (ns, target)) nameservers
  /\ (forall x, x ∈ printed (foldl (probe w target warn) (flag, t) nameservers).2 ->
                x ∈ printed t \/ (x = target /\ warn = true)).
Proof.
  induction nameservers as [|ns nameservers IH]; intros flag t.
  - cbn. rewrite app_nil_r. auto.
  - cbn [foldl]. unfold probe at 2 4 6.
    destruct (check_axfr_asked w target ns t) as (Ha & Ht).
    assert (Hp : printed (check_axfr w target ns t).2 = printed t)
      by (unfold check_axfr; destruct (from_xfr w _ _ _) as [[]|]; reflexivity).
    destruct (check_axfr w target ns t) as [open t']. cbn [snd] in Ha, Ht, Hp.
    destruct open.
    + set (t'' := {| asked := asked t'; tried := tried t'; logged := logged t';
                     printed := printed t' ++ (if warn then [target] else []) |}).
      destruct (IH true t'') as (Ha' & Ht' & Hp').
      split; [rewrite Ha'; exact Ha|]. split.
      * rewrite Ht'. unfold t''. cbn [tried map]. now rewrite Ht, <- app_assoc.
      * intros x Hx. apply Hp' in Hx as [Hx|Hx]; [|now right].
        unfold t'' in Hx. cbn [printed] in Hx. rewrite Hp in Hx.
        apply elem_of_app in Hx as [Hx|Hx]; [now left|].
        destruct warn; [|now apply elem_of_nil in Hx].
        apply list_elem_of_singleton in Hx. now right.
    + destruct (IH flag t') as (Ha' & Ht' & Hp').
      split; [rewrite Ha'; exact Ha|]. split.
      * rewrite Ht'. cbn [map]. now rewrite Ht, <- app_assoc.
      * intros x Hx. apply Hp' in Hx. now rewrite Hp in Hx.
Qed.

Lemma scan_asked w target warn t :
  asked (scan w target warn t).2 = asked t ++ queries_of target
  /\ (forall x, x ∈ printed (scan w target warn t).2 ->
                x ∈ printed t \/ (x = target /\ warn = true)).
Proof.
  unfold scan, queries_of.
  remember (foldl (lookup w target) ([], t) record_types) as r1 eqn:Hr1.
  assert (H1 : asked r1.2 = asked t ++ map (pair target) record_types
               /\ printed r1.2 = printed t).
  { subst r1. destruct (lookup_asked w target record_types [] t) as (Ha & _ & Hp).
    split; assumption. }
  clear Hr1. destruct r1 as [results t1]. cbn [snd] in H1. destruct H1 as [Ha1 Hp1].
  destruct (query_dns_records_asked w target "NS" t1) as (Ha2 & _ & Hp2).
  destruct (query_dns_records w target "NS" t1) as [nameservers t2].
  cbn [snd] in Ha2, Hp2.
  destruct (probe_asked w target warn nameservers false t2) as (Ha3 & _ & Hp3).
  destruct (foldl (probe w target warn) (false, t2) nameservers) as [vulnerable t3].
  cbn [snd] in *. rewrite Ha3, Ha2, Ha1, map_app, <- app_assoc. split; [reflexivity|].
  intros x Hx. apply Hp3 in Hx. now rewrite Hp2, Hp1 in Hx.
Qed.

Lemma scan_target_asked w t target :
  asked (scan_target w t target) = asked t ++ queries_of target
  /\ (forall x, x ∈ printed (scan_target w t target) -> x ∈ printed t \/ x = target).
Proof.
  unfold scan_target. destruct (scan_asked w target true t) as [Ha Hp].
  destruct (scan w target true t) as [[results vulnerable] t']. cbn [snd] in Ha, Hp.
  cbn [note asked printed]. split; [exact Ha|].
  intros x Hx. apply Hp in Hx as [Hx|[Hx _]]; auto.
Qed.

Lemma scan_targets_asked w targets : forall t,
  asked (foldl (scan_target w) t targets)
  = asked t ++ concat (map queries_of targets)
  /\ (forall x, x ∈ printed (foldl (scan_target w) t targets) ->
                x ∈ printed t \/ x ∈ targets).
Proof.
  induction targets as [|target targets IH]; intros t.
  - cbn. rewrite app_nil_r. auto.
  - cbn [foldl map concat]. destruct (IH (scan_target w t target)) as [Ha Hp].
    destruct (scan_target_asked w t target) as [Ha1 Hp1].
    rewrite Ha, Ha1, <- app_assoc. split; [reflexivity|].
    intros x Hx. apply Hp in Hx as [Hx|Hx].
    + apply Hp1 in Hx as [Hx| ->]; [now left|]. right. apply list_elem_of_here.
    + right. now apply list_elem_of_further.
Qed.

(** X22.  [run] asks, for each target in turn, the five record types and the
    name servers once more, and then scans the last target a second time:
    six queries for each target, and six more. A warning is printed for a
    target only. *)
Theorem run_scans_the_last_target_twice
    (w : dns) (line : string) (rest targets : list string) (target : string) :
  read_targets w (strip line) = inl targets ->
  last targets = Some target ->
  asked (run w (line :: rest)).2 = concat (map queries_of targets) ++ queries_of target
  /\ length (asked (run w (line :: rest)).2) = 6 * (length targets + 1)
  /\ (forall x, x ∈ printed (run w (line :: rest)).2 -> x ∈ targets).
Proof.
  intros Hread Hlast. unfold run. rewrite Hread, Hlast. cbn [snd].
  unfold scan_again.
  set (t1 := foldl (scan_target w) (note [(INFO, Starting (length targets))] nothing)
               targets).
  destruct (scan_targets_asked w targets
              (note [(INFO, Starting (length targets))] nothing)) as [Ha Hp].
  fold t1 in Ha, Hp. cbn [note asked printed nothing app] in Ha, Hp.
  destruct (scan_asked w target false t1) as [Ha2 Hp2].
  destruct (scan w target false t1) as [[results vulnerable] t2].
  cbn [snd] in Ha2, Hp2. cbn [note asked printed].
  assert (Hasked : asked t2 = concat (map queries_of targets) ++ queries_of target)
    by now rewrite Ha2, Ha.
  split; [exact Hasked|]. split.
  - rewrite Hasked, length_app.
    assert (Hlen : forall ts, length (concat (map queries_of ts)) = 6 * length ts).
    { induction ts as [|a ts IHts]; [reflexivity|].
      cbn [map concat]. rewrite length_app, IHts. cbn. lia. }
    rewrite Hlen. cbn. lia.
  - intros x Hx. apply Hp2 in Hx as [Hx|[_ Hx]]; [|discriminate].
    apply Hp in Hx as [Hx|Hx]; [now apply elem_of_nil in Hx|exact Hx].
Qed.

(** X22 on two targets: eighteen queries. *)
Lemma run_scans_the_last_target_twice_witness :
  length (asked (run open_zone ["example.com, b.com"]%string).2) = 18.
Proof.
  refine (proj1 (proj2 (run_scans_the_last_target_twice open_zone
                          "example.com, b.com" [] ["example.com"; "b.com"]%string
                          "b.com" _ _))).
  - vm_compute. reflexivity.
  - reflexivity.
Defined.

(** A line whose second part is an ideographic space: one target, scanned
    twice, twelve queries.  A line that is an ideographic space: no target,
    one error. *)
Example run_drops_blank_target :
  read_targets open_zone (strip ("a.com," +:+ Examples.ideographic_space)) = inl ["a.com"%string]
  /\ length (asked (run open_zone ["a.com," +:+ Examples.ideographic_space]%string).2) = 12
  /\ run open_zone [Examples.ideographic_space] = (Returns, note [(ERROR, NoTargets)] nothing).
Proof. repeat split; vm_compute; reflexivity. Qed.

(** *** What a scan finds *)

Lemma query_dns_records_value w domain rtype t :
  (query_dns_records w domain rtype t).1
  = records_of (resolve w (length (asked t)) domain rtype).
Proof. unfold query_dns_records. now destruct (resolve w _ _ _). Qed.

Lemma check_axfr_open w domain ns t :
  (check_axfr w domain ns t).1 = true
  <-> from_xfr w (length (tried t)) ns domain = Zone true.
Proof.
  unfold check_axfr. destruct (from_xfr w _ _ _) as [[]|]; cbn; split; congruence.
Qed.

Lemma probe_flag w target warn nameservers : forall flag t,
  (foldl (probe w target warn) (flag, t) nameservers).1 = true
  <-> flag = true
      \/ exists i ns, nameservers !! i = Some ns
                      /\ from_xfr w (length (tried t) + i) ns target = Zone true.
Proof.
  induction nameservers as [|ns nameservers IH]; intros flag t.
  - cbn. split; [now left|]. intros [H|(i & n & H & _)]; [exact H|discriminate].
  - cbn [foldl]. unfold probe at 2.
    pose proof (check_axfr_open w target ns t) as Hopen.
    destruct (check_axfr_asked w target ns t) as (_ & Ht).
    destruct (check_axfr w target ns t) as [open t']. cbn [fst snd] in Hopen, Ht.
    assert (Hlen : length (tried t') = S (length (tried t)))
      by (rewrite Ht, length_app; cbn; lia).
    destruct open.
    + set (t'' := {| asked := asked t'; tried := tried t'; logged := logged t';
                     printed := printed t' ++ (if warn then [target] else []) |}).
      rewrite (IH true t''). split; [|intros _; now left].
      intros _. right. exists 0, ns. rewrite Nat.add_0_r. split; [reflexivity|].
      now apply Hopen.
    + rewrite (IH flag t'). rewrite Hlen. split.
      * intros [H|(i & n & Hi & Hx)]; [now left|].
        right. exists (S i), n. split; [exact Hi|].
        now replace (length (tried t) + S i) with (S (length (tried t)) + i) by lia.
      * intros [H|(i & n & Hi & Hx)]; [now left|].
        destruct i as [|i].
        -- cbn in Hi. injection Hi as <-. rewrite Nat.add_0_r in Hx.
           apply Hopen in Hx. discriminate.
        -- right. exists i, n. split; [exact Hi|].
           now replace (S (length (tried t)) + i) with (length (tried t) + S i) by lia.
Qed.

Lemma lookup_results w target types : forall results t rtype records,
  dict_get (foldl (lookup w target) (results, t) types).1 rtype = Some records ->
  dict_get results rtype = Some records
  \/ (records <> []
      /\ exists i, types !! i = Some rtype
                   /\ resolve w (length (asked t) + i) target rtype = Records records).
Proof.
  induction types as [|ty types IH]; intros results t rtype records; [now left|].
  cbn [foldl]. unfold lookup at 2.
  pose proof (query_dns_records_value w target ty t) as Hv.
  destruct (query_dns_records_asked w target ty t) as (Ha & _).
  destruct (query_dns_records w target ty t) as [found t']. cbn [fst snd] in Hv, Ha.
  assert (Hlen : length (asked t') = S (length (asked t)))
    by (rewrite Ha, length_app; cbn; lia).
  intros Hget. apply IH in Hget as [Hget|(Hne & i & Hi & Hr)].
  - destruct found as [|r found]; [now left|].
    destruct (String.eqb rtype ty) eqn:Heq.
    + apply String.eqb_eq in Heq. subst ty.
      rewrite OrchestratorFacts.dict_get_set_eq in Hget. injection Hget as <-.
      right. split; [discriminate|]. exists 0. rewrite Nat.add_0_r.
      split; [reflexivity|]. unfold records_of in Hv.
      destruct (resolve w (length (asked t)) target rtype); congruence.
    + apply String.eqb_neq in Heq.
      rewrite OrchestratorFacts.dict_get_set_ne in Hget by congruence. now left.
  - right. split; [exact Hne|]. exists (S i). split; [exact Hi|].
    rewrite Hlen in Hr.
    now replace (length (asked t) + S i) with (S (length (asked t)) + i) by lia.
Qed.

(** X24.  One scan: the transfers tried are those from the name servers of
    the sixth answer, the one to the second query for NS, in order; the
    target is reported open exactly when one of them gives a zone; and every
    entry of [results] holds the records, not empty, of the answer to the
    query for its type. *)
Theorem scan_tries_the_name_servers_answered
    (w : dns) (target : string) (warn : bool) (t : trail) :
  let nameservers := records_of (resolve w (length (asked t) + 5) target "NS") in
  let r := scan w target warn t in
  tried r.2 = tried t ++ map (fun ns => (ns, target)) nameservers
  /\ (r.1.2 = true
      <-> exists i ns,
            nameservers !! i = Some ns
            /\ from_xfr w (length (tried t) + i) ns target = Zone true)
  /\ (forall rtype records,
        dict_get r.1.1 rtype = Some records ->
        records <> []
        /\ exists i, record_types !! i = Some rtype
                     /\ resolve w (length (asked t) + i) target rtype
                        = Records records).
Proof.
  cbv zeta. unfold scan.
  remember (foldl (lookup w target) ([], t) record_types) as r1 eqn:Hr1.
  assert (H1 : asked r1.2 = asked t ++ map (pair target) record_types
               /\ tried r1.2 = tried t
               /\ forall rtype records,
                   dict_get r1.1 rtype = Some records ->
                   records <> []
                   /\ exists i, record_types !! i = Some rtype
                                /\ resolve w (length (asked t) + i) target rtype
                                   = Records records).
  { subst r1. destruct (lookup_asked w target record_types [] t) as (Ha & Ht & _).
    split; [exact Ha|]. split; [exact Ht|]. intros rtype records Hget.
    apply lookup_results in Hget as [Hget|Hget]; [discriminate|exact Hget]. }
  clear Hr1. destruct r1 as [results t1]. cbn [fst snd] in H1.
  destruct H1 as (Ha1 & Ht1 & Hres).
  pose proof (query_dns_records_value w target "NS" t1) as Hv.
  destruct (query_dns_records_asked w target "NS" t1) as (_ & Ht2 & _).
  destruct (query_dns_records w target "NS" t1) as [nameservers t2].
  cbn [fst snd] in Hv, Ht2.
  assert (Hlen : length (asked t1) = length (asked t) + 5)
    by (rewrite Ha1, length_app; reflexivity).
  rewrite Hlen in Hv. subst nameservers.
  pose proof (probe_flag w target warn
                (records_of (resolve w (length (asked t) + 5) target "NS")) false t2)
    as Hflag.
  destruct (probe_asked w target warn
              (records_of (resolve w (length (asked t) + 5) target "NS")) false t2)
    as (_ & Ht3 & _).
  destruct (foldl (probe w target warn) (false, t2) _) as [vulnerable t3].
  cbn [fst snd] in *. split; [now rewrite Ht3, Ht2, Ht1|]. split; [|exact Hres].
  rewrite Hflag, Ht2, Ht1. split; [|now right].
  intros [H|H]; [discriminate|exact H].
Qed.

End DnsFacts.

(** ** The main menu *)

Module MainFacts.
Import Subdomain Examples SubdomainMenu MenuTerms MenuFacts Main MainTerms.

Lemma run_module_unread p cfg choice stdin :
  reads_in_order p -> ran_unread (run_module p cfg choice stdin) `suffix_of` stdin.
Proof.
  intros Hp. unfold run_module. destruct (dict_get modules choice) as [[path name]|];
    [|reflexivity].
  destruct (import_module p path) as [e|m] eqn:Him.
  - destruct e; reflexivity.
  - specialize (Hp path m cfg stdin Him).
    destruct (raised (m cfg stdin)) as [e|]; [destruct e|]; exact Hp.
Qed.

Lemma run_module_interrupted p cfg choice stdin :
  interrupted (run_module p cfg choice stdin) = true ->
  exists path name,
    dict_get modules choice = Some (path, name)
    /\ (import_module p path = inl KeyboardInterrupt
        \/ exists m, import_module p path = inr m
                     /\ raised (m cfg stdin) = Some KeyboardInterrupt).
Proof.
  unfold run_module. destruct (dict_get modules choice) as [[path name]|];
    [|discriminate].
  intros Hi. exists path, name. split; [reflexivity|].
  destruct (import_module p path) as [e|m] eqn:Him.
  - destruct e; try discriminate. now left.
  - right. exists m. split; [reflexivity|].
    destruct (raised (m cfg stdin)) as [e|]; [|discriminate].
    destruct e; try discriminate. reflexivity.
Qed.

(** The loop ends only when the choice 0 is read or the user interrupts. *)
Lemma menu_ends p cfg : forall turns stdin l,
  reads_in_order p ->
  menu p cfg turns stdin = Some l ->
  ("0"%string ∈ stdin /\ last l = Some (INFO, Leaving))
  \/ last l = Some (INFO, UserInterrupt).
Proof.
  induction turns as [|turns IH]; intros stdin l Hp; cbn [menu]; [discriminate|].
  destruct stdin as [|choice rest].
  - destruct (menu p cfg turns []) as [l'|] eqn:Hm; [|discriminate].
    intros [= <-]. destruct (IH [] l' Hp Hm) as [[Hin _]|Hl].
    + now apply elem_of_nil in Hin.
    + right. destruct l'; [discriminate|]. now rewrite last_cons_cons.
  - destruct (String.eqb choice "0") eqn:H0.
    + apply String.eqb_eq in H0. subst choice. intros [= <-]. left.
      split; [apply list_elem_of_here|reflexivity].
    + destruct (interrupted (run_module p cfg choice rest)) eqn:Hi.
      * intros [= <-]. right.
        rewrite (app_comm_cons _ _ (INFO, Chose choice)). apply last_snoc.
      * destruct (menu p cfg turns (ran_unread (run_module p cfg choice rest)))
          as [l'|] eqn:Hm; [|discriminate].
        intros [= <-].
        assert (Hl' : forall x, last l' = Some x ->
                  last (((INFO, Chose choice) :: ran_log (run_module p cfg choice rest))
                          ++ l') = Some x).
        { intros x Hx. destruct l' as [|a l'] using rev_ind; [discriminate|].
          rewrite last_snoc in Hx. injection Hx as ->.
          rewrite app_assoc. apply last_snoc. }
        destruct (IH _ l' Hp Hm) as [[Hin Hl]|Hl].
        -- left. split; [|now apply Hl'].
           apply list_elem_of_further.
           destruct (run_module_unread p cfg choice rest Hp) as [pre Hpre].
           rewrite Hpre. apply elem_of_app. now right.
        -- right. now apply Hl'.
Qed.

Lemma menu_end_of_input p cfg turns : menu p cfg turns [] = None.
Proof. induction turns as [|turns IH]; cbn [menu]; [reflexivity|]. now rewrite IH. Qed.

Lemma last_app_some {A} (l1 l2 : list A) x :
  last l2 = Some x -> last (l1 ++ l2) = Some x.
Proof.
  intros Hx. destruct l2 as [|a l2] using rev_ind; [discriminate|].
  rewrite last_snoc in Hx. injection Hx as ->. rewrite app_assoc. apply last_snoc.
Qed.

(** X23.  [main] leaves its loop only when the choice 0 is read or the user
    interrupts; an exception of a module is logged and the menu comes back.
    At the end of the input it never returns: [input] raises [EOFError] at
    every turn, which the loop logs. *)
Theorem main_ends_only_on_request (p : program) (turns : nat) (stdin : list string) :
  reads_in_order p ->
  (forall l,
      main p turns stdin = Some l ->
      stops_early p
      \/ ("0"%string ∈ stdin /\ last l = Some (INFO, Leaving))
      \/ last l = Some (INFO, UserInterrupt))
  /\ (~ stops_early p -> main p turns [] = None).
Proof.
  intros Hp. unfold main, stops_early. split.
  - intros l. destruct (mkdir p); [intros _; left; left; discriminate|].
    destruct (config_file p) as [truthy cfg| | |]; try (intros _; left; now right).
    destruct truthy; [|intros _; left; now right].
    destruct (menu p cfg turns stdin) as [l'|] eqn:Hm; [|discriminate].
    intros [= <-]. right.
    destruct (menu_ends p cfg turns stdin l' Hp Hm) as [[Hin Hl]|Hl].
    + left. split; [exact Hin|].
      now apply (last_app_some [(INFO, DirectoriesReady); (INFO, ConfigLoaded)]).
    + right.
      now apply (last_app_some [(INFO, DirectoriesReady); (INFO, ConfigLoaded)]).
  - intros Hno. destruct (mkdir p); [exfalso; apply Hno; left; discriminate|].
    destruct (config_file p) as [truthy cfg| | |];
      try (exfalso; apply Hno; now right).
    destruct truthy; [|exfalso; apply Hno; now right].
    now rewrite menu_end_of_input.
Qed.

Lemma only_subdomain_reads_in_order w cfg : reads_in_order (only_subdomain w cfg).
Proof.
  intros path m cfg' stdin. unfold only_subdomain. cbn [import_module].
  destruct (String.eqb path "modules.subdomain"); [|discriminate].
  intros [= <-]. unfold subdomain_module. cbn [left_unread]. apply run_unread.
Qed.

(** X23 on an installation with the subdomain module and a configuration
    without [global] section: the [KeyError] of the choice 1 is logged and
    the menu comes back. *)
Lemma main_ends_only_on_request_witness :
  reads_in_order (only_subdomain offline no_global)
  /\ main (only_subdomain offline no_global) 2 ["1"; "1"; "example.com"; "0"]%string
     = Some [(INFO, DirectoriesReady); (INFO, ConfigLoaded); (INFO, Chose "1");
             (INFO, Loading "子域名收集");
             (ERROR, ModuleError "子域名收集" "KeyError: 'global'");
             (INFO, Chose "0"); (INFO, Leaving)]%string
  /\ main (only_subdomain offline no_global) 2 [] = None.
Proof.
  pose proof (only_subdomain_reads_in_order offline no_global) as Hp.
  split; [exact Hp|]. split; [vm_compute; reflexivity|].
  apply (proj2 (main_ends_only_on_request (only_subdomain offline no_global) 2 [] Hp)).
  intros [H|H]; [now apply H|discriminate H].
Defined.

End MainFacts.
